(** * JobSeeker: scrape, filter, ingest and score pipeline

    A shallow embedding of the scraper filters ([scrapers/filters.ts]), the
    JobStash adapter ([scrapers/jobstash.ts]), the scrape runner
    ([scrapers/runner.ts]), the persistence layer (module [db]: its queries
    and [db/schema.ts]) and the scorer ([scorer/scorer.ts]), followed by the
    properties established about them. *)

From Stdlib Require Import List NArith ZArith Bool String Ascii Lia QArith Qround Lqa.
From Stdlib Require Import DecimalString.
Import ListNotations.

Set Implicit Arguments.

(* ===================================================================== *)
(** * Part I: the program                                                 *)
(* ===================================================================== *)

(** ** JavaScript values used by the program *)

Module Js.

(** A JavaScript string is a sequence of UTF-16 code units. *)
Definition jsstring := list N.

(** Literals of the program that are plain ASCII are written as Rocq
    strings and converted code unit by code unit. *)
Definition str (s : string) : jsstring :=
  map N_of_ascii (list_ascii_of_string s).

Definition jsstring_eqb (a b : jsstring) : bool :=
  if list_eq_dec N.eq_dec a b then true else false.

(** A value that may be [undefined] or [null]. *)
Inductive nullable (A : Type) : Type :=
| Undefined
| Null
| Val (a : A).
Arguments Undefined {A}.
Arguments Null {A}.

(** [!s] for a possibly absent string: absent values and the empty
    string are falsy. *)
Definition falsy (v : nullable jsstring) : bool :=
  match v with
  | Val (_ :: _) => false
  | _ => true
  end.

(** [v === lit] for a possibly absent string. *)
Definition strict_eq (v : nullable jsstring) (lit : jsstring) : bool :=
  match v with
  | Val s => jsstring_eqb s lit
  | _ => false
  end.

Definition in_range (lo hi c : N) : bool := (lo <=? c)%N && (c <=? hi)%N.

(** LineTerminator code points: LF, CR, LS, PS. *)
Definition isLineTerminator (c : N) : bool :=
  (c =? 10)%N || (c =? 13)%N || (c =? 8232)%N || (c =? 8233)%N.

(** WhiteSpace and LineTerminator code points; this is the set stripped
    by [String.prototype.trim] and matched by the class escape [\s]. *)
Definition isWhiteSpace (c : N) : bool :=
  (c =? 9)%N || (c =? 11)%N || (c =? 12)%N || (c =? 32)%N || (c =? 160)%N
  || (c =? 5760)%N || in_range 8192 8202 c || (c =? 8239)%N
  || (c =? 8287)%N || (c =? 12288)%N || (c =? 65279)%N
  || isLineTerminator c.

(** The word characters of [\b] and [\w]: ASCII letters, digits and the
    underscore. *)
Definition isWordChar (c : N) : bool :=
  in_range 97 122 c || in_range 65 90 c || in_range 48 57 c || (c =? 95)%N.

(** Canonicalize of a case-insensitive, non-unicode regular expression.
    The ASCII letters fold to upper case.  The only other character that
    a pattern of the program contains is U+00E3, which folds to U+00C3;
    no code unit outside ASCII folds into ASCII, and no other code unit
    folds to U+00C3, so leaving the remaining code units fixed gives the
    same comparisons against every pattern character. *)
Definition canonicalize (c : N) : N :=
  if in_range 97 122 c then (c - 32)%N
  else if (c =? 227)%N then 195%N
  else c.

Fixpoint dropWhile (p : N -> bool) (s : jsstring) : jsstring :=
  match s with
  | [] => []
  | c :: s' => if p c then dropWhile p s' else s
  end.

Definition trimStart (s : jsstring) : jsstring := dropWhile isWhiteSpace s.
Definition trimEnd (s : jsstring) : jsstring :=
  rev (dropWhile isWhiteSpace (rev s)).

(** [String.prototype.trim]. *)
Definition trim (s : jsstring) : jsstring := trimEnd (trimStart s).

(** [String.prototype.toWellFormed]: a surrogate that is not part of a
    pair becomes U+FFFD.  This is also what a string becomes when it is
    written as UTF-8 and read back. *)
Definition isLeadSurrogate (c : N) : bool := in_range 55296 56319 c.
Definition isTrailSurrogate (c : N) : bool := in_range 56320 57343 c.

Fixpoint toWellFormed (s : jsstring) : jsstring :=
  match s with
  | [] => []
  | c :: s' =>
      if isLeadSurrogate c
      then match s' with
           | d :: s'' =>
               if isTrailSurrogate d then c :: d :: toWellFormed s''
               else 65533%N :: toWellFormed s'
           | [] => [65533%N]
           end
      else if isTrailSurrogate c then 65533%N :: toWellFormed s'
      else c :: toWellFormed s'
  end.

(** A JavaScript number.  The finite values are kept as the rational
    they denote (every finite double is one); the sign of zero is not
    tracked. *)
Inductive jsnum : Type :=
| Fin (q : Q)
| NaN
| PosInf
| NegInf.

(** Values produced by [JSON.parse], together with [undefined]. *)
#[local] Unset Elimination Schemes.
Inductive jsval : Type :=
| JUndefined
| JNull
| JBool (b : bool)
| JNum (x : jsnum)
| JStr (s : jsstring)
| JArr (l : list jsval)
| JObj (fields : list (jsstring * jsval)).
#[local] Set Elimination Schemes.

(** [v ?? null], as bound to a nullable column. *)
Definition nullish {A : Type} (v : nullable A) : option A :=
  match v with
  | Val a => Some a
  | _ => None
  end.

(** [v ?? d]. *)
Definition nullish_or {A : Type} (v : nullable A) (d : A) : A :=
  match v with
  | Val a => a
  | _ => d
  end.

(** Truthiness of a possibly absent number: zero and NaN are falsy. *)
Definition num_truthy (v : nullable jsnum) : bool :=
  match v with
  | Val (Fin q) => negb (Qeq_bool q 0)
  | Val NaN => false
  | Val _ => true
  | _ => false
  end.

(** [Math.round] on a number: the finite case is floor(x + 1/2). *)
Definition Math_round_num (x : jsnum) : jsnum :=
  match x with
  | Fin q => Fin (inject_Z (Qfloor (q + (1 # 2))))
  | _ => x
  end.

(** The number nearest to an integer, ties going to the even
    significand of 53 bits: the integer itself below 2^53 in magnitude,
    an infinity when the rounded magnitude reaches 2^1024. *)
Definition nearest_number (z : Z) : jsnum :=
  let a := Z.abs z in
  if (a <? 2 ^ 53)%Z then Fin (inject_Z z)
  else
    let e := (Z.log2 a - 52)%Z in
    let q := Z.shiftr a e in
    let r := (a - Z.shiftl q e)%Z in
    let half := Z.shiftl 1 (e - 1) in
    let q' :=
      if (half <? r)%Z || ((half =? r)%Z && Z.odd q) then (q + 1)%Z else q in
    let v := Z.shiftl q' e in
    if (2 ^ 1024 <=? v)%Z then (if (z <? 0)%Z then NegInf else PosInf)
    else Fin (inject_Z (Z.sgn z * v)).

(** Own-property lookup on a parsed object. *)
Fixpoint lookup_field (k : jsstring) (fields : list (jsstring * jsval))
  : jsval :=
  match fields with
  | [] => JUndefined
  | (k', v) :: rest => if jsstring_eqb k k' then v else lookup_field k rest
  end.

(** [typeof v === 'number']. *)
Definition is_number (v : jsval) : bool :=
  match v with
  | JNum _ => true
  | _ => false
  end.

(** Truthiness of a parsed value. *)
Definition truthy (v : jsval) : bool :=
  match v with
  | JUndefined | JNull => false
  | JBool b => b
  | JNum x => num_truthy (Val x)
  | JStr s => negb (falsy (Val s))
  | JArr _ | JObj _ => true
  end.

(** Whether a parsed object has the own property [k]. *)
Definition has_own (k : jsstring) (fields : list (jsstring * jsval)) : bool :=
  existsb (fun kv => jsstring_eqb k (fst kv)) fields.

End Js.
Import Js.

(** ** Regular expressions

    The fragment of the pattern language that the program's literals use,
    with the continuation-passing matcher of the language definition.  All
    the program's patterns carry the [i] flag and none carries [g], [u] or
    [s]; [test] is therefore stateless and literal characters are compared
    after [canonicalize]. *)

Module Regex.

(** A pattern character: a literal, the wildcard [.], or [\s]. *)
Inductive cls : Type :=
| CChar (c : N)
| CDot
| CSpace.

Definition cls_match (x : cls) (c : N) : bool :=
  match x with
  | CChar p => (canonicalize c =? canonicalize p)%N
  | CDot => negb (isLineTerminator c)
  | CSpace => isWhiteSpace c
  end.

Inductive regex : Type :=
| Eps
| Atom (x : cls)
| Bnd                       (* \b *)
| Seq (r1 r2 : regex)
| Alt (r1 r2 : regex)
| Opt (r : regex)           (* r? *)
| Star (x : cls).           (* x*, on a single pattern character *)

Infix "+++" := Seq (at level 61, right associativity).

Fixpoint lit_codes (l : jsstring) : regex :=
  match l with
  | [] => Eps
  | c :: l' => Atom (CChar c) +++ lit_codes l'
  end.

(** A run of literal characters. *)
Definition lit (s : string) : regex := lit_codes (str s).

(** [(r1|r2|...|rn)]. *)
Fixpoint alts (rs : list regex) : regex :=
  match rs with
  | [] => Eps
  | [r] => r
  | r :: rs' => Alt r (alts rs')
  end.

(** Whether the next character of the input is a word character. *)
Definition headWord (s : jsstring) : bool :=
  match s with
  | [] => false
  | c :: _ => isWordChar c
  end.

(** The matcher state is the rest of the input together with [pw],
    whether the character before it is a word character (all that [\b]
    looks at behind the current position). *)
Definition cont := bool -> jsstring -> bool.

Fixpoint star_m (x : cls) (s : jsstring) (pw : bool) (k : cont) : bool :=
  match s with
  | c :: s' => (cls_match x c && star_m x s' (isWordChar c) k) || k pw s
  | [] => k pw s
  end.

Fixpoint m (r : regex) (pw : bool) (s : jsstring) (k : cont) : bool :=
  match r with
  | Eps => k pw s
  | Atom x =>
      match s with
      | c :: s' => cls_match x c && k (isWordChar c) s'
      | [] => false
      end
  | Bnd => xorb pw (headWord s) && k pw s
  | Seq r1 r2 => m r1 pw s (fun pw' s' => m r2 pw' s' k)
  | Alt r1 r2 => m r1 pw s k || m r2 pw s k
  | Opt r' => m r' pw s k || k pw s
  | Star x => star_m x s pw k
  end.

Definition accept : cont := fun _ _ => true.

(** Try a match at the current position, then at each later one. *)
Fixpoint search (r : regex) (pw : bool) (s : jsstring) : bool :=
  m r pw s accept
  || match s with
     | [] => false
     | c :: s' => search r (isWordChar c) s'
     end.

(** [RegExp.prototype.test]. *)
Definition test (r : regex) (s : jsstring) : bool := search r false s.

End Regex.
Import Regex.

(** ** scrapers/filters.ts *)

Module Filters.

(* /\b(intern|internship|junior|jr\.?|entry.level|graduate|trainee)\b/i *)
Definition EXCLUDED_TITLE_PATTERNS : regex :=
  Bnd +++ alts [
    lit "intern"; lit "internship"; lit "junior"; lit "jr" +++ Opt (lit ".");
    lit "entry" +++ Atom CDot +++ lit "level"; lit "graduate"; lit "trainee"
  ] +++ Bnd.

(** The alternatives of [NON_US_PATTERNS]. *)
Definition NON_US_ALTERNATIVES : list regex :=
  [
    lit "europe"; lit "european"; lit "emea"; lit "eu" +++ Bnd;
    lit "uk" +++ Bnd; lit "united kingdom"; lit "london"; lit "berlin";
    lit "paris"; lit "amsterdam"; lit "lisbon"; lit "barcelona"; lit "spain";
    lit "germany"; lit "france"; lit "netherlands"; lit "portugal";
    lit "ireland"; lit "switzerland"; lit "poland"; lit "warsaw"; lit "czech";
    lit "austria"; lit "italy"; lit "sweden"; lit "denmark"; lit "norway";
    lit "finland"; lit "belgium"; lit "romania"; lit "hungary"; lit "croatia";
    lit "serbia"; lit "greece"; lit "ukraine"; lit "russia"; lit "turkey";
    lit "israel"; lit "tel aviv"; lit "dubai"; lit "uae"; lit "saudi";
    lit "qatar"; lit "middle east"; lit "africa"; lit "nigeria";
    lit "south africa"; lit "kenya"; lit "india"; lit "bangalore";
    lit "mumbai"; lit "hyderabad"; lit "delhi"; lit "pakistan";
    lit "bangladesh"; lit "china"; lit "beijing"; lit "shanghai";
    lit "shenzhen"; lit "hong kong"; lit "japan"; lit "tokyo"; lit "korea";
    lit "south korea"; lit "singapore"; lit "philippines"; lit "vietnam";
    lit "thailand"; lit "indonesia"; lit "malaysia"; lit "taiwan"; lit "apac";
    lit "asia"; lit "latin america"; lit "latam"; lit "brazil";
    lit "s" +++ Atom (CChar 227) +++ lit "o paulo"; lit "sao paulo";
    lit "mexico"; lit "argentina"; lit "colombia"; lit "chile"; lit "peru";
    lit "canada"; lit "vancouver"; lit "toronto"; lit "montreal";
    lit "ottawa"; lit "australia"; lit "sydney"; lit "melbourne";
    lit "new zealand"
  ].

Definition NON_US_PATTERNS : regex := Bnd +++ alts NON_US_ALTERNATIVES +++ Bnd.

(** The alternatives of [US_PATTERNS]. *)
Definition US_ALTERNATIVES : list regex :=
  [
    lit "united states"; lit "usa"; lit "us" +++ Bnd; lit "u.s.";
    lit "new york"; lit "nyc"; lit "san francisco"; lit "los angeles";
    lit "chicago"; lit "austin"; lit "miami"; lit "boston"; lit "seattle";
    lit "denver"; lit "portland"; lit "atlanta"; lit "dallas"; lit "houston";
    lit "philadelphia"; lit "phoenix"; lit "minneapolis"; lit "detroit";
    lit "nashville"; lit "raleigh"; lit "charlotte"; lit "pittsburgh";
    lit "salt lake"; lit "san diego"; lit "san jose";
    lit "washington" +++ Star CSpace +++ lit "d" +++ Opt (lit ".") +++ lit "c"
      +++ Opt (lit ".");
    lit "california"; lit "texas"; lit "florida"; lit "georgia";
    lit "colorado"; lit "virginia"; lit "washington"; lit "oregon";
    lit "north carolina"; lit "south carolina"; lit "illinois";
    lit "massachusetts"; lit "pennsylvania"; lit "ohio"; lit "michigan";
    lit "arizona"; lit "tennessee"; lit "maryland"; lit "minnesota";
    lit "wisconsin"; lit "indiana"; lit "missouri"; lit "connecticut";
    lit "iowa"; lit "utah"; lit "nevada"; lit "new jersey";
    lit "new hampshire"; lit "alabama"; lit "kentucky"; lit "louisiana";
    lit "oklahoma"; lit "arkansas"; lit "mississippi"; lit "hawaii";
    lit "idaho"; lit "montana"; lit "nebraska"; lit "new mexico";
    lit "rhode island"; lit "vermont"; lit "wyoming"; lit "maine";
    lit "delaware"; lit "west virginia"; lit "south dakota";
    lit "north dakota"; lit "alaska"; Bnd +++ lit "ca" +++ Bnd;
    Bnd +++ lit "ny" +++ Bnd; Bnd +++ lit "nc" +++ Bnd; Bnd +++ lit "fl" +++ Bnd;
    Bnd +++ lit "tx" +++ Bnd; Bnd +++ lit "wa" +++ Bnd; Bnd +++ lit "co" +++ Bnd;
    Bnd +++ lit "il" +++ Bnd; Bnd +++ lit "ma" +++ Bnd
  ].

Definition US_PATTERNS : regex := Bnd +++ alts US_ALTERNATIVES +++ Bnd.

(* the pattern: outside \s* (of \s* )? (the \s* )? us, flag i *)
Definition OUTSIDE_US : regex :=
  lit "outside" +++ Star CSpace +++ Opt (lit "of" +++ Star CSpace)
    +++ Opt (lit "the" +++ Star CSpace) +++ lit "us".

(* /\b(remote|global|worldwide|anywhere)\b/i *)
Definition REMOTE_GLOBAL : regex :=
  Bnd +++ alts [lit "remote"; lit "global"; lit "worldwide"; lit "anywhere"]
    +++ Bnd.

(* /\bnorth america\b/i *)
Definition NORTH_AMERICA : regex := Bnd +++ lit "north america" +++ Bnd.

(** The title test that every adapter applies:
    [EXCLUDED_TITLE_PATTERNS.test(title)]. *)
Definition isExcludedTitle (title : jsstring) : bool :=
  test EXCLUDED_TITLE_PATTERNS title.

Definition isLocationUSOrRemote
    (location : nullable jsstring) (locationType : nullable jsstring)
  : bool :=
  if strict_eq locationType (str "REMOTE") && falsy location then true
  else
    match location with
    | Undefined | Null | Val [] => true
    | Val location =>
        let loc := trim location in
        if falsy (Val loc) then true
        else if test OUTSIDE_US loc then false
        else if test NON_US_PATTERNS loc then
               if test US_PATTERNS loc then true else false
        else if test US_PATTERNS loc then true
        else if test REMOTE_GLOBAL loc then true
        else if test NORTH_AMERICA loc then true
        else true
    end.

End Filters.
Import Filters.

(** ** Records of the program *)

(** [scrapers/types.ts]: the adapter's normalized output for one listing.
    Optional fields may be absent or, coming from JSON, null. *)
Module RawJob.
Record t : Type := mk {
  sourceId : jsstring;
  url : nullable jsstring;
  title : jsstring;
  company : nullable jsstring;
  description : nullable jsstring;
  location : nullable jsstring;
  locationType : nullable jsstring;
  seniority : nullable jsstring;
  category : nullable jsstring;
  salaryMin : nullable jsnum;
  salaryMax : nullable jsnum;
  tags : nullable (list jsstring);
  chains : nullable (list jsstring);
  postedAt : nullable jsstring;
  rawData : nullable jsval
}.
End RawJob.

(** The argument of [upsertJob]: the object [{ source, ...raw }]. *)
Module JobInput.
Record t : Type := mk {
  source : jsstring;
  raw : RawJob.t
}.
End JobInput.

(** A row of table [jobs]; [None] is SQL NULL. *)
Module JobRow.
Record t : Type := mk {
  id : jsstring;
  source : jsstring;
  sourceId : jsstring;
  url : option jsstring;
  title : jsstring;
  company : option jsstring;
  description : option jsstring;
  location : option jsstring;
  locationType : option jsstring;
  seniority : option jsstring;
  category : option jsstring;
  salaryMin : option jsnum;
  salaryMax : option jsnum;
  tags : jsstring;
  chains : jsstring;
  postedAt : option jsstring;
  scrapedAt : jsstring;
  rawData : jsstring
}.
End JobRow.

(** A row of table [job_scores]. *)
Module ScoreRow.
Record t : Type := mk {
  job_id : jsstring;
  overall_score : jsnum;
  relevance_score : jsnum;
  experience_match : jsnum;
  domain_match : jsnum;
  seniority_fit : jsnum;
  reasoning : jsval;
  scored_at : jsstring;
  model_used : jsstring
}.
End ScoreRow.

(** A row of table [job_actions]. *)
Module ActionRow.
Record t : Type := mk {
  id : Z;
  job_id : jsstring;
  action : jsstring;
  notes : option jsstring;
  created_at : jsstring
}.
End ActionRow.

(** A row of table [scrape_runs]. *)
Module RunRow.
Record t : Type := mk {
  id : Z;
  source : jsstring;
  started_at : jsstring;
  completed_at : option jsstring;
  status : jsstring;
  jobs_found : Z;
  jobs_new : Z;
  error : option jsstring
}.
End RunRow.

(** The rows that [getUnscoredJobs] selects. *)
Module JobSummary.
Record t : Type := mk {
  id : jsstring;
  title : jsstring;
  company : option jsstring;
  description : option jsstring;
  seniority : option jsstring;
  category : option jsstring;
  tags : jsstring;
  chains : jsstring;
  rawData : jsstring
}.
End JobSummary.

(** The argument of [upsertScore]. *)
Module ScoreInput.
Record t : Type := mk {
  jobId : jsstring;
  overallScore : jsnum;
  relevanceScore : jsnum;
  experienceMatch : jsnum;
  domainMatch : jsnum;
  seniorityFit : jsnum;
  reasoning : jsval;
  modelUsed : jsstring
}.
End ScoreInput.

(** The result [{ jobsFound, jobsNew }] of a scrape. *)
Module Counts.
Record t : Type := mk {
  jobsFound : Z;
  jobsNew : Z
}.
End Counts.

(** [scrapers/jobstash.ts]: a listing as the JobStash API returns it.
    [json] is the object as received (kept verbatim as [rawData]). *)
Module JobStashJob.
Record t : Type := mk {
  shortUUID : nullable jsstring;
  id : nullable jsstring;
  title : jsstring;
  url : nullable jsstring;
  organization_name : nullable jsstring;
  summary : nullable jsstring;
  description : nullable jsstring;
  location : nullable jsstring;
  locationType : nullable jsstring;
  seniority : nullable jsstring;
  classification : nullable jsstring;
  minimumSalary : nullable jsnum;
  maximumSalary : nullable jsnum;
  tags : nullable (list jsstring);
  chains : nullable (list jsstring);
  timestamp : nullable jsnum;
  json : jsval
}.
End JobStashJob.

(** The database: the four tables of [db/schema.ts], rows in rowid
    order, and the AUTOINCREMENT sequences. *)
Module Db.
Record t : Type := mk {
  jobs : list JobRow.t;
  job_scores : list ScoreRow.t;
  job_actions : list ActionRow.t;
  job_actions_seq : Z;
  scrape_runs : list RunRow.t;
  scrape_runs_seq : Z
}.

(** The database right after [initializeDatabase] on a new file. *)
Definition empty : t := mk [] [] [] 0 [] 0.
End Db.

(** ** Effects

    The program reads a clock, a UUID generator, the network (adapters,
    JobStash pages, the judge) and writes a database.  A computation is a
    function from the world to an outcome and the world after it; a thrown
    exception keeps the writes made before it. *)

Module Effects.

(** A thrown value: an [Error] object with its message, or any other
    value with its [String(...)] rendering. *)
Inductive Exn : Type :=
| JsError (message : jsstring)
| JsThrown (text : jsstring).

(** [error instanceof Error ? error.message : String(error)]. *)
Definition error_message (e : Exn) : jsstring :=
  match e with
  | JsError message => message
  | JsThrown text => text
  end.

Inductive Outcome (A : Type) : Type :=
| Ok (a : A)
| Throw (e : Exn).
Arguments Throw {A} e.

(** The externally visible calls, in the order they happen. *)
Inductive Event : Type :=
| EvScrape (source : jsstring)
| EvJudge (jobId : jsstring)
| EvInsertJob (id : jsstring)
| EvUpdateJob (id : jsstring)
| EvUpsertScore (jobId : jsstring)
| EvStartRun (runId : Z) (source : jsstring)
| EvCompleteRun (runId : Z) (status : jsstring).

(** The response of one JobStash page request: [response.ok],
    [response.status], and the listing array read from
    [response.json()], which may reject. *)
Record Response : Type := mkResponse {
  ok : bool;
  status : Z;
  listings : Outcome (list JobStashJob.t)
}.

(** An array has fewer than 2^32 elements. *)
Definition is_array {A : Type} (o : Outcome (list A)) : bool :=
  match o with
  | Ok l => (Z.of_nat (List.length l) <? 2 ^ 32)%Z
  | Throw _ => true
  end.

(** What lies outside the program.  The [_at] fields are indexed by the
    number of external reads made so far ([tick] below), so that repeated
    calls may answer differently.  [uuidv4()] and
    [new Date().toISOString()] give text of one-byte characters, and
    what an adapter returns is an array. *)
Record Env : Type := mkEnv {
  uuidv4_text_at : nat -> string;
  now_text_at : nat -> string;
  scrape_at : jsstring -> nat -> Outcome (list RawJob.t);
  judge_at : JobSummary.t -> nat -> Outcome (nullable jsstring);
  fetch_at : Z -> nat -> Outcome Response;
  OPENAI_API_KEY : nullable jsstring;
  JSON_stringify : jsval -> jsstring;
  JSON_parse : jsstring -> Outcome jsval;
  StringToNumber : jsstring -> jsnum;
  ObjectToNumber : jsval -> jsnum;
  Date_toISOString : jsnum -> Outcome jsstring;
  scrape_is_array : forall source n, is_array (scrape_at source n) = true
}.

Arguments mkEnv : clear implicits.

(** [uuidv4()] and [new Date().toISOString()] as JavaScript strings. *)
Definition uuidv4_at (env : Env) (n : nat) : jsstring :=
  str (uuidv4_text_at env n).

Definition now_at (env : Env) (n : nat) : jsstring :=
  str (now_text_at env n).

Record World : Type := mkWorld {
  db : Db.t;
  tick : nat;
  trace : list Event
}.

Definition M (A : Type) : Type := World -> Outcome A * World.

Definition ret {A : Type} (a : A) : M A := fun w => (Ok a, w).

Definition throw {A : Type} (e : Exn) : M A := fun w => (Throw e, w).

Definition bind {A B : Type} (c : M A) (f : A -> M B) : M B :=
  fun w =>
    match c w with
    | (Ok a, w') => f a w'
    | (Throw e, w') => (Throw e, w')
    end.

(** [try { body } catch (e) { handler }]. *)
Definition try_catch {A : Type} (body : M A) (handler : Exn -> M A) : M A :=
  fun w =>
    match body w with
    | (Ok a, w') => (Ok a, w')
    | (Throw e, w') => handler e w'
    end.

(** Lift a pure outcome (a language primitive that may throw). *)
Definition lift {A : Type} (o : Outcome A) : M A := fun w => (o, w).

(** Sequencing of primitives that may throw. *)
Definition and_then {A B : Type} (o : Outcome A) (f : A -> Outcome B)
  : Outcome B :=
  match o with
  | Ok a => f a
  | Throw e => Throw e
  end.

(** One external read: the answer at the current [tick], which advances. *)
Definition ask {A : Type} (oracle : nat -> A) : M A :=
  fun w => (Ok (oracle (tick w)), mkWorld (db w) (S (tick w)) (trace w)).

Definition emit (e : Event) : M unit :=
  fun w => (Ok tt, mkWorld (db w) (tick w) (trace w ++ [e])).

Definition get_db : M Db.t := fun w => (Ok (db w), w).

Definition put_db (d : Db.t) : M unit :=
  fun w => (Ok tt, mkWorld d (tick w) (trace w)).

Declare Scope monad_scope.
Delimit Scope monad_scope with monad.
Bind Scope monad_scope with M.

Notation "x <- c1 ;; c2" := (bind c1 (fun x => c2))
  (at level 61, c1 at next level, right associativity) : monad_scope.
Notation "c1 ;; c2" := (bind c1 (fun _ => c2))
  (at level 61, right associativity) : monad_scope.

(** [for (const x of l) { acc = body(x, acc) }]. *)
Fixpoint for_of {A S : Type} (l : list A) (body : A -> S -> M S) (acc : S)
  : M S :=
  match l with
  | [] => ret acc
  | x :: l' => bind (body x acc) (fun acc' => for_of l' body acc')
  end.

End Effects.
Import Effects.
Local Open Scope monad_scope.

(** ** db: queries over the schema of db/schema.ts *)

Module Queries.

(** The result [{ id, isNew }] of [upsertJob]. *)
Record UpsertResult : Type := mkUpsertResult {
  id : jsstring;
  isNew : bool
}.

(** The text that the driver binds for a string parameter.  The store
    holds text as UTF-8, in which a surrogate without its pair is
    written as U+FFFD; a stored text is kept here as the string that is
    read back from it. *)
Definition text (s : jsstring) : jsstring := toWellFormed s.

(** A possibly absent string parameter; [null] binds as NULL. *)
Definition text_or_null (v : nullable jsstring) : option jsstring :=
  option_map text (nullish v).

(** The row has this (source, source_id) key. *)
Definition key_matches (source sourceId : jsstring) (r : JobRow.t) : bool :=
  jsstring_eqb (JobRow.source r) source
  && jsstring_eqb (JobRow.sourceId r) sourceId.

(** The row has this id. *)
Definition has_job_id (i : jsstring) (r : JobRow.t) : bool :=
  jsstring_eqb (JobRow.id r) i.

(** [SELECT id FROM jobs WHERE source = ? AND source_id = ?] with the
    parameters [source] and [sourceId], first row. *)
Definition select_job_id (source sourceId : jsstring) (d : Db.t)
  : option jsstring :=
  option_map JobRow.id
    (find (key_matches (text source) (text sourceId)) (Db.jobs d)).

Definition with_jobs (d : Db.t) (rows : list JobRow.t) : Db.t :=
  Db.mk rows (Db.job_scores d) (Db.job_actions d) (Db.job_actions_seq d)
    (Db.scrape_runs d) (Db.scrape_runs_seq d).

Definition with_scores (d : Db.t) (rows : list ScoreRow.t) : Db.t :=
  Db.mk (Db.jobs d) rows (Db.job_actions d) (Db.job_actions_seq d)
    (Db.scrape_runs d) (Db.scrape_runs_seq d).

Definition with_actions (d : Db.t) (rows : list ActionRow.t) (seq : Z) : Db.t :=
  Db.mk (Db.jobs d) (Db.job_scores d) rows seq
    (Db.scrape_runs d) (Db.scrape_runs_seq d).

Definition with_runs (d : Db.t) (rows : list RunRow.t) (seq : Z) : Db.t :=
  Db.mk (Db.jobs d) (Db.job_scores d) (Db.job_actions d)
    (Db.job_actions_seq d) rows seq.

(** The rowid an AUTOINCREMENT table gives its next row: one more than
    the largest rowid the table has ever held. *)
Definition next_rowid (seq : Z) (ids : list Z) : Z :=
  Z.max seq (fold_right Z.max 0%Z ids) + 1.

(** The integer that [LIMIT ?] takes from the number bound to it: the
    number must be an integer strictly between the least and the
    greatest 64-bit integer; NaN is bound as NULL.  For any other
    number the statement fails with a datatype mismatch. *)
Definition limit_integer (x : jsnum) : option Z :=
  match x with
  | Fin q =>
      if Qeq_bool q (inject_Z (Qfloor q))
         && (- 2 ^ 63 <? Qfloor q)%Z && (Qfloor q <? 2 ^ 63 - 1)%Z
      then Some (Qfloor q)
      else None
  | _ => None
  end.

Section WithEnv.
Variable env : Env.

(** The column values that both statements of [upsertJob] bind, apart
    from the key columns [i], [source], [sourceId] and the time [now],
    which are given as stored. *)
Definition job_columns (i source sourceId : jsstring) (job : JobInput.t)
    (now : jsstring) : JobRow.t :=
  let raw := JobInput.raw job in
  JobRow.mk i source sourceId
    (text_or_null (RawJob.url raw)) (text (RawJob.title raw))
    (text_or_null (RawJob.company raw))
    (text_or_null (RawJob.description raw))
    (text_or_null (RawJob.location raw))
    (text_or_null (RawJob.locationType raw))
    (text_or_null (RawJob.seniority raw))
    (text_or_null (RawJob.category raw))
    (nullish (RawJob.salaryMin raw)) (nullish (RawJob.salaryMax raw))
    (text (JSON_stringify env
             (JArr (map JStr (nullish_or (RawJob.tags raw) [])))))
    (text (JSON_stringify env
             (JArr (map JStr (nullish_or (RawJob.chains raw) [])))))
    (text_or_null (RawJob.postedAt raw)) now
    (text (JSON_stringify env (nullish_or (RawJob.rawData raw) (JObj [])))).

(** [UPDATE jobs SET url = ?, ..., raw_data = ? WHERE id = ?]: the key
    columns of the row are not in the SET list.  The id is the one that
    the SELECT has just read from the store. *)
Definition update_job (existing : jsstring) (job : JobInput.t)
    (now : jsstring) (d : Db.t) : Db.t :=
  with_jobs d
    (map (fun r =>
            if has_job_id existing r
            then job_columns (JobRow.id r) (JobRow.source r)
                   (JobRow.sourceId r) job now
            else r)
         (Db.jobs d)).

(** [INSERT INTO jobs (...) VALUES (...)], under PRIMARY KEY (id) and
    UNIQUE (source, source_id). *)
Definition insert_job (row : JobRow.t) (d : Db.t) : Outcome Db.t :=
  if existsb (has_job_id (JobRow.id row)) (Db.jobs d)
  then Throw (JsError (str "UNIQUE constraint failed: jobs.id"))
  else if existsb (key_matches (JobRow.source row) (JobRow.sourceId row))
            (Db.jobs d)
  then Throw (JsError
                (str "UNIQUE constraint failed: jobs.source, jobs.source_id"))
  else Ok (with_jobs d (Db.jobs d ++ [row])).

Definition upsertJob (job : JobInput.t) : M UpsertResult :=
  id <- ask (uuidv4_at env) ;;
  now <- ask (now_at env) ;;
  d <- get_db ;;
  match select_job_id (JobInput.source job)
          (RawJob.sourceId (JobInput.raw job)) d with
  | Some existing =>
      put_db (update_job existing job (text now) d) ;;
      emit (EvUpdateJob existing) ;;
      ret (mkUpsertResult existing false)
  | None =>
      d' <- lift (insert_job
                    (job_columns (text id) (text (JobInput.source job))
                       (text (RawJob.sourceId (JobInput.raw job))) job
                       (text now)) d) ;;
      put_db d' ;;
      emit (EvInsertJob id) ;;
      ret (mkUpsertResult id true)
  end.

Definition has_score (d : Db.t) (jobId : jsstring) : bool :=
  existsb (fun s => jsstring_eqb (ScoreRow.job_id s) jobId) (Db.job_scores d).

Definition summary (r : JobRow.t) : JobSummary.t :=
  JobSummary.mk (JobRow.id r) (JobRow.title r) (JobRow.company r)
    (JobRow.description r) (JobRow.seniority r) (JobRow.category r)
    (JobRow.tags r) (JobRow.chains r) (JobRow.rawData r).

(** [LIMIT n] for an integer: a negative limit means no limit. *)
Definition sql_limit {A : Type} (limit : Z) (rows : list A) : list A :=
  if (limit <? 0)%Z then rows else firstn (Z.to_nat limit) rows.

(** [SELECT ... FROM jobs j LEFT JOIN job_scores s ON j.id = s.job_id
     WHERE s.job_id IS NULL LIMIT ?]. *)
Definition getUnscoredJobs (limit : jsnum) : M (list JobSummary.t) :=
  d <- get_db ;;
  match limit_integer limit with
  | Some n =>
      ret (sql_limit n
             (map summary
                (filter (fun r => negb (has_score d (JobRow.id r)))
                   (Db.jobs d))))
  | None => throw (JsError (str "datatype mismatch"))
  end.

(** The values that the driver binds as one parameter, among the values
    a parsed reply can hold: a number, a string, null and undefined. *)
Definition bindable (v : jsval) : bool :=
  match v with
  | JUndefined | JNull | JNum _ | JStr _ => true
  | _ => false
  end.

(** The value bound for a [bindable] one. *)
Definition bound (v : jsval) : jsval :=
  match v with
  | JStr s => JStr (text s)
  | _ => v
  end.

Definition cannot_bind : Exn :=
  JsError (str "SQLite3 can only bind numbers, strings, bigints, buffers, and null").

(** The parameter that the statement of [upsertScore] receives for the
    argument [reasoning], the seventh of its nine.  The driver takes an
    array argument as a list of positional parameters, and a plain
    object as named parameters, of which the statement has none: an
    array of one element binds as that element, and any other array or
    an object leaves the statement with too few or too many
    parameters.  The elements are bound in order, so that one that
    cannot be bound is reported before a parameter beyond the ninth. *)
Definition bind_reasoning (v : jsval) : Outcome jsval :=
  match v with
  | JArr [] | JObj _ =>
      Throw (JsError (str "Too few parameter values were provided"))
  | JArr [x] => if bindable x then Ok (bound x) else Throw cannot_bind
  | JArr l =>
      if forallb bindable (firstn 4 l)
      then Throw (JsError (str "Too many parameter values were provided"))
      else Throw cannot_bind
  | _ => if bindable v then Ok (bound v) else Throw cannot_bind
  end.

(** A NaN parameter is stored as NULL. *)
Definition is_NaN (x : jsnum) : bool :=
  match x with
  | NaN => true
  | _ => false
  end.

(** The first NOT NULL score column of the row that holds NULL. *)
Definition null_score_column (row : ScoreRow.t) : option jsstring :=
  if is_NaN (ScoreRow.overall_score row) then Some (str "overall_score")
  else if is_NaN (ScoreRow.relevance_score row)
  then Some (str "relevance_score")
  else if is_NaN (ScoreRow.experience_match row)
  then Some (str "experience_match")
  else if is_NaN (ScoreRow.domain_match row) then Some (str "domain_match")
  else if is_NaN (ScoreRow.seniority_fit row) then Some (str "seniority_fit")
  else None.

(** [INSERT OR REPLACE INTO job_scores (...) VALUES (...)], under
    PRIMARY KEY (job_id), the NOT NULL score columns and the foreign key
    into [jobs]. *)
Definition replace_score (row : ScoreRow.t) (d : Db.t) : Outcome Db.t :=
  match null_score_column row with
  | Some column =>
      Throw (JsError (str "NOT NULL constraint failed: job_scores." ++ column))
  | None =>
      if negb (existsb (has_job_id (ScoreRow.job_id row)) (Db.jobs d))
      then Throw (JsError (str "FOREIGN KEY constraint failed"))
      else Ok (with_scores d
                 (filter (fun s => negb (jsstring_eqb (ScoreRow.job_id s)
                                           (ScoreRow.job_id row)))
                    (Db.job_scores d)
                  ++ [row]))
  end.

Definition upsertScore (score : ScoreInput.t) : M unit :=
  now <- ask (now_at env) ;;
  d <- get_db ;;
  reasoning <- lift (bind_reasoning (ScoreInput.reasoning score)) ;;
  d' <- lift (replace_score
                (ScoreRow.mk (text (ScoreInput.jobId score))
                   (ScoreInput.overallScore score)
                   (ScoreInput.relevanceScore score)
                   (ScoreInput.experienceMatch score)
                   (ScoreInput.domainMatch score)
                   (ScoreInput.seniorityFit score)
                   reasoning (text now)
                   (text (ScoreInput.modelUsed score))) d) ;;
  put_db d' ;;
  emit (EvUpsertScore (ScoreInput.jobId score)).

(** [INSERT OR REPLACE INTO job_actions (job_id, action, notes,
    created_at)], under UNIQUE (job_id, action) and the foreign key. *)
Definition addAction (jobId action : jsstring) (notes : nullable jsstring)
  : M unit :=
  now <- ask (now_at env) ;;
  d <- get_db ;;
  if negb (existsb (has_job_id (text jobId)) (Db.jobs d))
  then throw (JsError (str "FOREIGN KEY constraint failed"))
  else
    let rowid :=
      next_rowid (Db.job_actions_seq d) (map ActionRow.id (Db.job_actions d)) in
    put_db
      (with_actions d
         (filter (fun a => negb (jsstring_eqb (ActionRow.job_id a) (text jobId)
                                 && jsstring_eqb (ActionRow.action a)
                                      (text action)))
            (Db.job_actions d)
          ++ [ActionRow.mk rowid (text jobId) (text action)
                (text_or_null notes) (text now)])
         rowid).

(** [DELETE FROM job_actions WHERE job_id = ? (AND action = ?)]. *)
Definition removeAction (jobId : jsstring) (action : nullable jsstring)
  : M unit :=
  d <- get_db ;;
  if falsy action
  then put_db
         (with_actions d
            (filter (fun a => negb (jsstring_eqb (ActionRow.job_id a)
                                      (text jobId)))
               (Db.job_actions d))
            (Db.job_actions_seq d))
  else put_db
         (with_actions d
            (filter (fun a => negb (jsstring_eqb (ActionRow.job_id a)
                                      (text jobId)
                                    && jsstring_eqb (ActionRow.action a)
                                         (text (nullish_or action []))))
               (Db.job_actions d))
            (Db.job_actions_seq d)).

(** [INSERT INTO scrape_runs (source, started_at) VALUES (?, ?)]; the
    other columns take their defaults.  Returns [lastInsertRowid]. *)
Definition startScrapeRun (source : jsstring) : M Z :=
  now <- ask (now_at env) ;;
  d <- get_db ;;
  let rowid :=
    next_rowid (Db.scrape_runs_seq d) (map RunRow.id (Db.scrape_runs d)) in
  put_db
    (with_runs d
       (Db.scrape_runs d
        ++ [RunRow.mk rowid (text source) (text now) None (str "running") 0 0
              None])
       rowid) ;;
  emit (EvStartRun rowid source) ;;
  ret rowid.

(** [UPDATE scrape_runs SET completed_at = ?, status = ?, jobs_found = ?,
    jobs_new = ?, error = ? WHERE id = ?]. *)
Definition completeScrapeRun (id : Z) (status : jsstring)
    (jobsFound jobsNew : Z) (error : nullable jsstring) : M unit :=
  now <- ask (now_at env) ;;
  d <- get_db ;;
  put_db
    (with_runs d
       (map (fun r =>
               if (RunRow.id r =? id)%Z
               then RunRow.mk (RunRow.id r) (RunRow.source r)
                      (RunRow.started_at r) (Some (text now)) (text status)
                      jobsFound jobsNew (text_or_null error)
               else r)
          (Db.scrape_runs d))
       (Db.scrape_runs_seq d)) ;;
  emit (EvCompleteRun id status).

End WithEnv.
End Queries.
Import Queries.

(** ** scrapers/jobstash.ts *)

Module JobStash.

Definition PAGE_LIMIT : Z := 20.
Definition MAX_PAGES : nat := 100.

(** Seniority 1 = intern/junior. Exclude these. *)
Definition MIN_SENIORITY : Z := 2.

Definition digit_value (c : N) : option Z :=
  if in_range 48 57 c then Some (Z.of_N (c - 48)) else None.

(** The value of the longest decimal-digit prefix, [None] when empty. *)
Fixpoint parse_digits (s : jsstring) (acc : option Z) : option Z :=
  match s with
  | [] => acc
  | c :: s' =>
      match digit_value c with
      | Some d =>
          parse_digits s'
            (Some (10 * match acc with Some a => a | None => 0 end + d)%Z)
      | None => acc
      end
  end.

(** [parseInt(s, 10)]: leading white space, an optional sign, decimal
    digits; [None] stands for NaN. *)
Definition parseInt10 (s : jsstring) : option Z :=
  match trimStart s with
  | 45%N :: digits => option_map Z.opp (parse_digits digits None)
  | 43%N :: digits => parse_digits digits None
  | digits => parse_digits digits None
  end.

(** The accumulators of [scrape]. *)
Record Acc : Type := mkAcc {
  allJobs : list RawJob.t;
  skippedSeniority : Z;
  skippedTitle : Z;
  skippedLocation : Z
}.

Definition isLocationValid (job : JobStashJob.t) : bool :=
  isLocationUSOrRemote (JobStashJob.location job)
    (JobStashJob.locationType job).

(** [job.seniority ? parseInt(job.seniority, 10) : null]; the outer
    [None] is null. *)
Definition seniority_code (job : JobStashJob.t) : option (option Z) :=
  match JobStashJob.seniority job with
  | Val (c :: s) => Some (parseInt10 (c :: s))
  | _ => None
  end.

(** [seniority != null && seniority < MIN_SENIORITY]. *)
Definition below_min_seniority (job : JobStashJob.t) : bool :=
  match seniority_code job with
  | Some (Some n) => (n <? MIN_SENIORITY)%Z
  | _ => false
  end.

(** [a || b] on possibly absent strings. *)
Definition or_str (a b : nullable jsstring) : nullable jsstring :=
  if falsy a then b else a.

(** A possibly absent string inside a template literal. *)
Definition template (v : nullable jsstring) : jsstring :=
  match v with
  | Undefined => str "undefined"
  | Null => str "null"
  | Val s => s
  end.

Section WithEnv.
Variable env : Env.

Definition toRawJob (job : JobStashJob.t) : M RawJob.t :=
  let sourceId :=
    template
      (or_str (JobStashJob.shortUUID job)
         (or_str (JobStashJob.id job)
            (Val (JobStashJob.title job ++ str "-"
                  ++ template (JobStashJob.organization_name job))))) in
  postedAt <-
    (if num_truthy (JobStashJob.timestamp job)
     then match JobStashJob.timestamp job with
          | Val t => iso <- lift (Date_toISOString env t) ;; ret (Val iso)
          | _ => ret Undefined
          end
     else ret Undefined) ;;
  ret (RawJob.mk sourceId (JobStashJob.url job) (JobStashJob.title job)
         (JobStashJob.organization_name job)
         (or_str (JobStashJob.summary job) (JobStashJob.description job))
         (JobStashJob.location job) (JobStashJob.locationType job)
         (JobStashJob.seniority job) (JobStashJob.classification job)
         (JobStashJob.minimumSalary job) (JobStashJob.maximumSalary job)
         (Val (nullish_or (JobStashJob.tags job) []))
         (Val (nullish_or (JobStashJob.chains job) []))
         postedAt (Val (JobStashJob.json job))).

(** The body of [for (const job of jobs)]. *)
Definition processJob (job : JobStashJob.t) (acc : Acc) : M Acc :=
  if below_min_seniority job
  then ret (mkAcc (allJobs acc) (skippedSeniority acc + 1)
              (skippedTitle acc) (skippedLocation acc))
  else if test EXCLUDED_TITLE_PATTERNS (JobStashJob.title job)
  then ret (mkAcc (allJobs acc) (skippedSeniority acc)
              (skippedTitle acc + 1) (skippedLocation acc))
  else if negb (isLocationValid job)
  then ret (mkAcc (allJobs acc) (skippedSeniority acc)
              (skippedTitle acc) (skippedLocation acc + 1))
  else
    raw <- toRawJob job ;;
    ret (mkAcc (allJobs acc ++ [raw]) (skippedSeniority acc)
           (skippedTitle acc) (skippedLocation acc)).

(** [for (let page = 1; page <= MAX_PAGES; page++)], with [remaining]
    pages left to request. *)
Fixpoint pages (remaining : nat) (page : Z) (acc : Acc) : M Acc :=
  match remaining with
  | O => ret acc
  | S remaining' =>
      fetched <- ask (fetch_at env page) ;;
      response <- lift fetched ;;
      if negb (ok response) then ret acc
      else
        jobs <- lift (listings response) ;;
        match jobs with
        | [] => ret acc
        | _ =>
            acc' <- for_of jobs processJob acc ;;
            if (Z.of_nat (List.length jobs) <? PAGE_LIMIT)%Z then ret acc'
            else pages remaining' (page + 1)%Z acc'
        end
  end.

(** The whole loop, with the counters that [scrape] logs at its end. *)
Definition scrape_counted : M Acc := pages MAX_PAGES 1%Z (mkAcc [] 0 0 0).

Definition scrape : M (list RawJob.t) :=
  acc <- scrape_counted ;;
  ret (allJobs acc).

End WithEnv.
End JobStash.

(** ** scrapers/runner.ts *)

Module Runner.

(** The own keys of the adapter registry, in insertion order. *)
Definition adapters : list jsstring :=
  [str "jobstash"; str "safary"; str "web3career"; str "cryptojobslist"].

(** Whether [source] is an own key of the registry. *)
Definition is_adapter (source : jsstring) : bool :=
  existsb (jsstring_eqb source) adapters.

Fixpoint join (sep : jsstring) (l : list jsstring) : jsstring :=
  match l with
  | [] => []
  | [x] => x
  | x :: l' => x ++ sep ++ join sep l'
  end.

(** [results[source] = value] on an object with string keys. *)
Fixpoint assign {A : Type} (results : list (jsstring * A)) (source : jsstring)
    (value : A) : list (jsstring * A) :=
  match results with
  | [] => [(source, value)]
  | (k, v) :: rest =>
      if jsstring_eqb k source then (k, value) :: rest
      else (k, v) :: assign rest source value
  end.

(** The names that every object inherits from [Object.prototype]. *)
Definition Object_prototype : list jsstring :=
  [str "constructor"; str "__defineGetter__"; str "__defineSetter__";
   str "hasOwnProperty"; str "__lookupGetter__"; str "__lookupSetter__";
   str "isPrototypeOf"; str "propertyIsEnumerable"; str "toString";
   str "valueOf"; str "__proto__"; str "toLocaleString"].

(** What [adapters[source]] finds: the factory under an own key, or a
    property that the object literal inherits. *)
Inductive Property : Type :=
| Factory (source : jsstring)
| Inherited (name : jsstring).

Definition adapters_get (source : jsstring) : option Property :=
  if is_adapter source then Some (Factory source)
  else if existsb (jsstring_eqb source) Object_prototype
  then Some (Inherited source)
  else None.

(** What a call [factory()] gives: an adapter, or a value that has no
    method [scrape]. *)
Inductive Made : Type :=
| Adapter (source : jsstring)
| NoAdapter.

(** [factory()], a call without receiver and without arguments.  Of the
    inherited properties, [constructor] returns a new object, [toString]
    a string and [isPrototypeOf] false; [__proto__] is an object and no
    function; the others convert the missing receiver to an object and
    throw.  The messages are those of V8. *)
Definition call (factory : Property) : Outcome Made :=
  match factory with
  | Factory source => Ok (Adapter source)
  | Inherited name =>
      if existsb (jsstring_eqb name)
           [str "constructor"; str "toString"; str "isPrototypeOf"]
      then Ok NoAdapter
      else if jsstring_eqb name (str "__proto__")
      then Throw (JsError (str "factory is not a function"))
      else if jsstring_eqb name (str "toLocaleString")
      then Throw (JsError (str "Object.prototype.toLocaleString called on null or undefined"))
      else Throw (JsError (str "Cannot convert undefined or null to object"))
  end.

Section WithEnv.
Variable env : Env.

(** [await adapter.scrape()]. *)
Definition adapter_scrape (adapter : Made) : M (list RawJob.t) :=
  match adapter with
  | Adapter source =>
      emit (EvScrape source) ;;
      scraped <- ask (scrape_at env source) ;;
      lift scraped
  | NoAdapter => throw (JsError (str "adapter.scrape is not a function"))
  end.

Definition runScraper (source : jsstring) : M Counts.t :=
  match adapters_get source with
  | None =>
      throw (JsError (str "Unknown source: " ++ source
                      ++ str ". Available: " ++ join (str ", ") adapters))
  | Some factory =>
      adapter <- lift (call factory) ;;
      runId <- startScrapeRun env source ;;
      try_catch
        (rawJobs <- adapter_scrape adapter ;;
         jobsNew <- for_of rawJobs
                      (fun raw jobsNew =>
                         result <- upsertJob env (JobInput.mk source raw) ;;
                         ret (if isNew result then jobsNew + 1 else jobsNew)%Z)
                      0%Z ;;
         completeScrapeRun env runId (str "completed")
           (Z.of_nat (List.length rawJobs)) jobsNew Undefined ;;
         ret (Counts.mk (Z.of_nat (List.length rawJobs)) jobsNew))
        (fun error =>
           let message := error_message error in
           completeScrapeRun env runId (str "failed") 0 0 (Val message) ;;
           throw error)
  end.

Definition runAllScrapers : M (list (jsstring * Counts.t)) :=
  for_of adapters
    (fun source results =>
       try_catch
         (counts <- runScraper source ;;
          ret (assign results source counts))
         (fun _ => ret (assign results source (Counts.mk 0 0))))
    [].

End WithEnv.
End Runner.

(** ** scorer/scorer.ts *)

Module Scorer.

Definition MODEL : jsstring := str "gpt-4o-mini".

(** [v.k] on a parsed value: a TypeError on null, [undefined] on the
    other primitives. *)
Definition get_prop (v : jsval) (k : jsstring) : Outcome jsval :=
  match v with
  | JUndefined | JNull =>
      Throw (JsError (str "Cannot read properties of null"))
  | JObj fields => Ok (lookup_field k fields)
  | _ => Ok JUndefined
  end.

(** The loop of [withRetry], with [remaining] attempts left; the delay
    between attempts is not modelled. *)
Fixpoint withRetry_from {A : Type} (fn : M A) (remaining : nat)
    (lastError : Exn) : M A :=
  match remaining with
  | O => throw lastError
  | S remaining' =>
      try_catch fn (fun error => withRetry_from fn remaining' error)
  end.

Definition withRetry {A : Type} (fn : M A) (maxRetries : nat) : M A :=
  withRetry_from fn maxRetries (JsThrown (str "undefined")).

(** The line feed of the template literals. *)
Definition LF : jsstring := [10%N].

(** [l.join(sep)] on strings. *)
Fixpoint join (sep : jsstring) (l : list jsstring) : jsstring :=
  match l with
  | [] => []
  | [x] => x
  | x :: l' => x ++ sep ++ join sep l'
  end.

(** [l.filter(Boolean)] on entries that are a string or null; no entry
    of [scoreJob] is the empty string. *)
Fixpoint filter_Boolean (l : list (option jsstring)) : list jsstring :=
  match l with
  | [] => []
  | Some x :: l' => x :: filter_Boolean l'
  | None :: l' => filter_Boolean l'
  end.

(** [c ? `label${c}` : null] on a nullable column. *)
Definition labelled (label : jsstring) (c : option jsstring)
  : option jsstring :=
  match c with
  | Some (x :: c') => Some (label ++ x :: c')
  | _ => None
  end.

Section WithEnv.
Variable env : Env.

Definition ToNumber (v : jsval) : jsnum :=
  match v with
  | JUndefined => NaN
  | JNull => Fin 0
  | JBool b => Fin (if b then 1 else 0)
  | JNum x => x
  | JStr s => StringToNumber env s
  | _ => ObjectToNumber env v
  end.

Definition Math_round (v : jsval) : jsnum := Math_round_num (ToNumber v).

(** The text of a number; that of a finite number is also what
    [JSON.stringify] writes for it. *)
Definition NumberToString (x : jsnum) : jsstring :=
  match x with
  | Fin _ => JSON_stringify env (JNum x)
  | NaN => str "NaN"
  | PosInf => str "Infinity"
  | NegInf => str "-Infinity"
  end.

(** [`${v}`] for a parsed value.  An array is joined with commas, its
    null elements giving no text.  A parsed object has the text
    [[object Object]], unless it has an own property [toString]: that
    property is no function, the inherited [valueOf] returns the object
    itself, and the conversion throws a TypeError. *)
Fixpoint ToString (v : jsval) : Outcome jsstring :=
  match v with
  | JUndefined => Ok (str "undefined")
  | JNull => Ok (str "null")
  | JBool b => Ok (if b then str "true" else str "false")
  | JNum x => Ok (NumberToString x)
  | JStr s => Ok s
  | JArr l =>
      (fix elements (l : list jsval) : Outcome jsstring :=
         match l with
         | [] => Ok []
         | x :: l' =>
             and_then
               (match x with
                | JUndefined | JNull => Ok []
                | _ => ToString x
                end)
               (fun first =>
                  match l' with
                  | [] => Ok first
                  | _ =>
                      and_then (elements l')
                        (fun rest => Ok (first ++ str "," ++ rest))
                  end)
         end) l
  | JObj fields =>
      if has_own (str "toString") fields
      then Throw (JsError (str "Cannot convert object to primitive value"))
      else Ok (str "[object Object]")
  end.

(** [l.map(r => `- ${r}`)]. *)
Fixpoint bullets (l : list jsval) : Outcome (list jsstring) :=
  match l with
  | [] => Ok []
  | r :: l' =>
      and_then (ToString r)
        (fun t => and_then (bullets l') (fun rest => Ok ((str "- " ++ t) :: rest)))
  end.

(** What [scoreJob] takes from [job.rawData]: the arrays [requirements]
    and [responsibilities] and a truthy [description], each with its
    default.  Reading a property of the parsed value throws only when
    the value is null, at the first of the three reads; like a text
    that does not parse, this is ignored and leaves the defaults. *)
Definition read_rawData (rawData : jsstring)
  : list jsval * list jsval * jsval :=
  let defaults := ([], [], JStr []) in
  match rawData with
  | [] => defaults
  | _ =>
      match JSON_parse env rawData with
      | Throw _ => defaults
      | Ok raw =>
          match get_prop raw (str "requirements"),
                get_prop raw (str "responsibilities"),
                get_prop raw (str "description") with
          | Ok requirements, Ok responsibilities, Ok description =>
              (match requirements with
               | JArr l => l
               | _ => []
               end,
               match responsibilities with
               | JArr l => l
               | _ => []
               end,
               if truthy description then description else JStr [])
          | _, _, _ => defaults
          end
      end
  end.

(** A section of the listing: [l.length > 0 ? `title${...}` : null]. *)
Definition listed (title : jsstring) (l : list jsval)
  : Outcome (option jsstring) :=
  match l with
  | [] => Ok None
  | _ =>
      and_then (bullets l)
        (fun lines => Ok (Some (title ++ LF ++ join LF lines)))
  end.

(** The text [jobDescription] that [scoreJob] builds before its first
    request. *)
Definition jobDescription (job : JobSummary.t) : Outcome jsstring :=
  let '(requirements, responsibilities, fullDescription) :=
    read_rawData (JobSummary.rawData job) in
  and_then
    (if truthy fullDescription
     then and_then (ToString fullDescription)
            (fun t => Ok (Some (str "Full Description: " ++ t)))
     else Ok None)
    (fun full =>
       and_then (listed (str "Requirements:") requirements)
         (fun required =>
            and_then (listed (str "Responsibilities:") responsibilities)
              (fun responsible =>
                 Ok (join (LF ++ LF)
                       (filter_Boolean
                          [Some (str "Title: " ++ JobSummary.title job);
                           labelled (str "Company: ")
                             (JobSummary.company job);
                           labelled (str "Seniority: ")
                             (JobSummary.seniority job);
                           labelled (str "Category: ")
                             (JobSummary.category job);
                           labelled (str "Summary: ")
                             (JobSummary.description job);
                           full; required; responsible;
                           Some (str "Tags: " ++ JobSummary.tags job);
                           Some (str "Chains: " ++ JobSummary.chains job)]))))).

(** The function that [scoreJob] hands to [withRetry]: one request to
    the judge, whose user message carries the [jobDescription] of the
    job, and the checks on its reply. *)
Definition askJudge (job : JobSummary.t) : M jsval :=
  emit (EvJudge (JobSummary.id job)) ;;
  reply <- ask (judge_at env job) ;;
  message_content <- lift reply ;;
  match message_content with
  | Val raw_content =>
      let content := trim raw_content in
      if falsy (Val content)
      then throw (JsError (str "Empty response from LLM"))
      else
        parsed <- lift (JSON_parse env content) ;;
        overall_score <- lift (get_prop parsed (str "overall_score")) ;;
        if negb (is_number overall_score)
        then throw (JsError (str "Invalid score format"))
        else ret parsed
  | _ => throw (JsError (str "Empty response from LLM"))
  end.

Definition scoreJob (job : JobSummary.t) : M unit :=
  lift (jobDescription job) ;;
  result <- withRetry (askJudge job) 3 ;;
  overall_score <- lift (get_prop result (str "overall_score")) ;;
  relevance_score <- lift (get_prop result (str "relevance_score")) ;;
  experience_match <- lift (get_prop result (str "experience_match")) ;;
  domain_match <- lift (get_prop result (str "domain_match")) ;;
  seniority_fit <- lift (get_prop result (str "seniority_fit")) ;;
  reasoning <- lift (get_prop result (str "reasoning")) ;;
  upsertScore env
    (ScoreInput.mk (JobSummary.id job)
       (Math_round overall_score) (Math_round relevance_score)
       (Math_round experience_match) (Math_round domain_match)
       (Math_round seniority_fit) reasoning MODEL).

(** [limit: number = 50]: [None] is a call without the argument. *)
Definition scoreUnscored (limit : option jsnum) : M Z :=
  if falsy (OPENAI_API_KEY env)
  then throw (JsError (str "OPENAI_API_KEY not set"))
  else
    jobs <- getUnscoredJobs
              (match limit with Some n => n | None => Fin 50 end) ;;
    for_of jobs
      (fun job scored =>
         try_catch (scoreJob job ;; ret (scored + 1)%Z)
           (fun _ => ret scored))
      0%Z.

End WithEnv.
End Scorer.

(** ** db: reading one job back *)

(** An entry of the [actions] array that [getJobById] returns. *)
Module ActionEntry.
Record t : Type := mk {
  action : jsstring;
  notes : option jsstring;
  createdAt : jsstring
}.
End ActionEntry.

(** The object that [getJobById] returns: the columns of the job, the
    score columns of the LEFT JOIN (null when the job has no score row)
    and the job's actions. *)
Module JobDetail.
Record t : Type := mk {
  job : JobRow.t;
  overallScore : option jsnum;
  relevanceScore : option jsnum;
  experienceMatch : option jsnum;
  domainMatch : option jsnum;
  seniorityFit : option jsnum;
  reasoning : option jsstring;
  actions : list ActionEntry.t
}.
End JobDetail.

Module Lookup.

(** What a numeric column gives back for the value that was bound: a
    NaN parameter was stored as NULL. *)
Definition column_number (v : option jsnum) : option jsnum :=
  match v with
  | Some NaN => None
  | _ => v
  end.

(** The job columns as a SELECT returns them. *)
Definition job_as_read (r : JobRow.t) : JobRow.t :=
  JobRow.mk (JobRow.id r) (JobRow.source r) (JobRow.sourceId r)
    (JobRow.url r) (JobRow.title r) (JobRow.company r)
    (JobRow.description r) (JobRow.location r) (JobRow.locationType r)
    (JobRow.seniority r) (JobRow.category r)
    (column_number (JobRow.salaryMin r)) (column_number (JobRow.salaryMax r))
    (JobRow.tags r) (JobRow.chains r) (JobRow.postedAt r)
    (JobRow.scrapedAt r) (JobRow.rawData r).

(** [SELECT action, notes, created_at as createdAt]. *)
Definition action_entry (a : ActionRow.t) : ActionEntry.t :=
  ActionEntry.mk (ActionRow.action a) (ActionRow.notes a)
    (ActionRow.created_at a).

Section WithText.
(** The text form that SQLite gives a number stored in a TEXT column. *)
Variable number_text : jsnum -> jsstring.

(** What the TEXT column [reasoning] gives back for the value that was
    bound. *)
Definition column_text (v : jsval) : option jsstring :=
  match v with
  | JStr s => Some s
  | JNum NaN => None
  | JNum x => Some (number_text x)
  | _ => None
  end.

(** [SELECT j.*, s.* FROM jobs j LEFT JOIN job_scores s
     ON j.id = s.job_id WHERE j.id = ?], first row, then
    [SELECT ... FROM job_actions WHERE job_id = ?].  The second
    statement has no ORDER BY; its rows are listed in rowid order here,
    and the properties below do not depend on their order. *)
Definition getJobById (id : jsstring) : M (option JobDetail.t) :=
  d <- get_db ;;
  match find (has_job_id (text id)) (Db.jobs d) with
  | None => ret None
  | Some j =>
      let s :=
        find (fun s => jsstring_eqb (ScoreRow.job_id s) (JobRow.id j))
          (Db.job_scores d) in
      let actions :=
        map action_entry
          (filter (fun a => jsstring_eqb (ActionRow.job_id a) (text id))
             (Db.job_actions d)) in
      ret (Some
             (JobDetail.mk (job_as_read j)
                (option_map ScoreRow.overall_score s)
                (option_map ScoreRow.relevance_score s)
                (option_map ScoreRow.experience_match s)
                (option_map ScoreRow.domain_match s)
                (option_map ScoreRow.seniority_fit s)
                (match s with
                 | Some s => column_text (ScoreRow.reasoning s)
                 | None => None
                 end)
                actions))
  end.

End WithText.
End Lookup.

(** ** routes/jobs.ts *)

Module Routes.

(** The JSON bodies of the two handlers below. *)
Inductive Body : Type :=
| JobBody (job : JobDetail.t)
| ScrapeAndScoreBody (scrapeResults : list (jsstring * Counts.t)) (scored : Z)
| ErrorBody (error : jsstring).

(** A reply: the status set by [res.status] (200 when it is not called)
    and the body given to [res.json]. *)
Record Reply : Type := mkReply {
  statusCode : Z;
  body : Body
}.

Section WithEnv.
Variable env : Env.
Variable number_text : jsnum -> jsstring.

(** [router.get('/jobs/:id', ...)]. *)
Definition get_job (id : jsstring) : M Reply :=
  try_catch
    (job <- Lookup.getJobById number_text id ;;
     match job with
     | None => ret (mkReply 404 (ErrorBody (str "Job not found")))
     | Some job => ret (mkReply 200 (JobBody job))
     end)
    (fun _ => ret (mkReply 500 (ErrorBody (str "Failed to get job")))).

(** [Object.values(scrapeResults).reduce((sum, r) => sum + r.jobsNew, 0)]. *)
Definition totalNew (scrapeResults : list (jsstring * Counts.t)) : Z :=
  fold_left (fun sum r => (sum + Counts.jobsNew (snd r))%Z) scrapeResults 0%Z.

(** [router.post('/jobs/scrape-and-score', ...)]. *)
Definition post_scrape_and_score : M Reply :=
  try_catch
    (scrapeResults <- Runner.runAllScrapers env ;;
     scored <- (if (0 <? totalNew scrapeResults)%Z
                then Scorer.scoreUnscored env
                       (Some (Fin (inject_Z (totalNew scrapeResults))))
                else ret 0%Z) ;;
     ret (mkReply 200 (ScrapeAndScoreBody scrapeResults scored)))
    (fun error => ret (mkReply 500 (ErrorBody (error_message error)))).

End WithEnv.
End Routes.

(** ** Patterns of scrapers/web3career.ts

    The patterns of this adapter carry no [i] flag: characters are
    compared as they are.  Each has at most one capture group.  A match
    is found by backtracking, the first alternative in priority order
    winning: a greedy star tries the longest run first, a reluctant one
    the shortest. *)

Module Pattern.

(** A character set of a pattern. *)
Inductive cset : Type :=
| Only (c : N)
| Except (c : N)        (* [^c] *)
| OneOf (l : list N)    (* [...] *)
| Digit                 (* \d *)
| Any.                  (* . under the s flag *)

Definition cset_match (x : cset) (c : N) : bool :=
  match x with
  | Only p => (c =? p)%N
  | Except p => negb (c =? p)%N
  | OneOf l => existsb (N.eqb c) l
  | Digit => in_range 48 57 c
  | Any => true
  end.

Inductive rx : Type :=
| Empty
| Chr (x : cset)
| Cat (a b : rx)
| Or (a b : rx)
| Greedy (x : cset)       (* x* *)
| Reluctant (x : cset)    (* x*? *)
| Group (a : rx).         (* the capture group *)

(** A run of literal characters. *)
Fixpoint Lit (l : jsstring) : rx :=
  match l with
  | [] => Empty
  | c :: l' => Cat (Chr (Only c)) (Lit l')
  end.

Fixpoint cat (rs : list rx) : rx :=
  match rs with
  | [] => Empty
  | r :: rs' => Cat r (cat rs')
  end.

(** [x+]. *)
Definition Plus (x : cset) : rx := Cat (Chr x) (Greedy x).

(** The end of a match: what is left of the input, and the text of the
    capture group when it took part. *)
Definition ending : Type := jsstring * option jsstring.

Fixpoint greedy (x : cset) (s : jsstring) (k : jsstring -> option ending)
  : option ending :=
  match s with
  | c :: s' =>
      if cset_match x c
      then match greedy x s' k with
           | Some e => Some e
           | None => k s
           end
      else k s
  | [] => k s
  end.

Fixpoint reluctant (x : cset) (s : jsstring) (k : jsstring -> option ending)
  : option ending :=
  match k s with
  | Some e => Some e
  | None =>
      match s with
      | c :: s' => if cset_match x c then reluctant x s' k else None
      | [] => None
      end
  end.

Fixpoint run (r : rx) (s : jsstring) (cap : option jsstring)
    (k : jsstring -> option jsstring -> option ending) : option ending :=
  match r with
  | Empty => k s cap
  | Chr x =>
      match s with
      | c :: s' => if cset_match x c then k s' cap else None
      | [] => None
      end
  | Cat a b => run a s cap (fun s' cap' => run b s' cap' k)
  | Or a b =>
      match run a s cap k with
      | Some e => Some e
      | None => run b s cap k
      end
  | Greedy x => greedy x s (fun s' => k s' cap)
  | Reluctant x => reluctant x s (fun s' => k s' cap)
  | Group a =>
      run a s cap
        (fun s' _ => k s' (Some (firstn (List.length s - List.length s') s)))
  end.

(** A match that begins at the head of [s]. *)
Definition exec_at (r : rx) (s : jsstring) : option ending :=
  run r s None (fun s' cap => Some (s', cap)).

(** A match: the matched text and the text of the group. *)
Record Found : Type := mkFound {
  whole : jsstring;
  group : option jsstring
}.

Definition found (s : jsstring) (e : ending) : Found :=
  mkFound (firstn (List.length s - List.length (fst e)) s) (snd e).

(** [s.match(r)] for a pattern without the [g] flag: the leftmost
    match. *)
Fixpoint first_match (r : rx) (s : jsstring) : option Found :=
  match exec_at r s with
  | Some e => Some (found s e)
  | None =>
      match s with
      | [] => None
      | _ :: s' => first_match r s'
      end
  end.

(** The matches of a pattern with the [g] flag, left to right, as
    [s.match(r)], [s.matchAll(r)] and a loop on [r.exec(s)] find them;
    [skip] characters are still inside the last match.  After an empty
    match the search goes on one character further. *)
Fixpoint scan (r : rx) (skip : nat) (s : jsstring) : list Found :=
  match s with
  | [] =>
      match skip, exec_at r [] with
      | O, Some e => [found [] e]
      | _, _ => []
      end
  | c :: s' =>
      match skip with
      | S n => scan r n s'
      | O =>
          match exec_at r s with
          | Some e =>
              found s e
              :: scan r (List.length s - List.length (fst e) - 1) s'
          | None => scan r 0 s'
          end
      end
  end.

(** [s.replace(r, '')] for a pattern with the [g] flag. *)
Fixpoint delete_all (r : rx) (skip : nat) (s : jsstring) : jsstring :=
  match s with
  | [] => []
  | c :: s' =>
      match skip with
      | S n => delete_all r n s'
      | O =>
          match exec_at r s with
          | Some e =>
              match (List.length s - List.length (fst e))%nat with
              | O => c :: delete_all r 0 s'
              | S n => delete_all r n s'
              end
          | None => c :: delete_all r 0 s'
          end
      end
  end.

(** The text of the group of a match.  In every pattern below the group
    lies on each path through the pattern, so a match always has it. *)
Definition captured (f : Found) : jsstring :=
  match group f with
  | Some text => text
  | None => []
  end.

Fixpoint starts_with (needle s : jsstring) : bool :=
  match needle, s with
  | [], _ => true
  | _ :: _, [] => false
  | a :: needle', c :: s' => (a =? c)%N && starts_with needle' s'
  end.

(** [s.includes(needle)]. *)
Fixpoint includes (needle s : jsstring) : bool :=
  starts_with needle s
  || match s with
     | [] => false
     | _ :: s' => includes needle s'
     end.

(** The decimal text of an integer that is not negative, as a template
    literal prints it. *)
Definition decimal (n : Z) : jsstring :=
  str (NilZero.string_of_uint (N.to_uint (Z.to_N n))).

End Pattern.

(** ** scrapers/web3career.ts *)

Module Web3Career.
Import Pattern.

Definition BASE_URL : jsstring := str "https://web3.career".
Definition MAX_PAGES : nat := 10.

Definition CATEGORY_PAGES : list jsstring :=
  [str "business-development-jobs"; str "product-jobs"; str "growth-jobs";
   str "devrel-jobs"; str "management-jobs"].

(** The characters that the patterns name: the double quote, the
    apostrophe, and the angle brackets. *)
Definition quote : N := 34.
Definition apostrophe : N := 39.
Definition lt : N := 60.
Definition gt : N := 62.

(* /<[^>]+>/g *)
Definition TAG : rx := cat [Lit (str "<"); Plus (Except gt); Lit (str ">")].

(* /\$(\d+)k/g *)
Definition AMOUNT : rx := cat [Lit (str "$"); Group (Plus Digit); Lit (str "k")].

(* /\$|k/g *)
Definition DOLLAR_OR_K : rx := Or (Lit (str "$")) (Lit (str "k")).

(* /<tr[^>]*table_row[^>]*>(.*?)<\/tr>/gs *)
Definition TABLE_ROW : rx :=
  cat [Lit (str "<tr"); Greedy (Except gt); Lit (str "table_row");
       Greedy (Except gt); Lit (str ">"); Group (Reluctant Any);
       Lit (str "</tr>")].

(* /data-jobid=(\d+)/ *)
Definition JOB_ID : rx := cat [Lit (str "data-jobid="); Group (Plus Digit)].

(* /<h2[^>]*>(.*?)<\/h2>/s *)
Definition H2 : rx :=
  cat [Lit (str "<h2"); Greedy (Except gt); Lit (str ">");
       Group (Reluctant Any); Lit (str "</h2>")].

(* /<h3[^>]*>(.*?)<\/h3>/s *)
Definition H3 : rx :=
  cat [Lit (str "<h3"); Greedy (Except gt); Lit (str ">");
       Group (Reluctant Any); Lit (str "</h3>")].

(* href= quote ( \/ [^quote]+ \/ \d+ ) quote *)
Definition HREF : rx :=
  cat [Lit (str "href=" ++ [quote]);
       Group (cat [Lit (str "/"); Plus (Except quote); Lit (str "/");
                   Plus Digit]);
       Lit [quote]].

(* web3-jobs- [^quote]+ [quote or apostrophe] [^>]* > ( [^<]+ ), flag g *)
Definition LOCATION : rx :=
  cat [Lit (str "web3-jobs-"); Plus (Except quote);
       Chr (OneOf [quote; apostrophe]); Greedy (Except gt); Lit (str ">");
       Group (Plus (Except lt))].

(* /text-salary[^>]*>(.*?)<\/p>/s *)
Definition TEXT_SALARY : rx :=
  cat [Lit (str "text-salary"); Greedy (Except gt); Lit (str ">");
       Group (Reluctant Any); Lit (str "</p>")].

(* <time [^>]* datetime= quote ( [^quote]+ ) quote *)
Definition TIME : rx :=
  cat [Lit (str "<time"); Greedy (Except gt);
       Lit (str "datetime=" ++ [quote]); Group (Plus (Except quote));
       Lit [quote]].

(** The result [{ min?, max? }] of [parseSalary]. *)
Record Salary : Type := mkSalary {
  min : nullable jsnum;
  max : nullable jsnum
}.

(** [parseInt(text, 10) * 1000]: the integer written is taken as the
    number nearest to it, and so is its product with 1000. *)
Definition thousands (text : jsstring) : jsnum :=
  match JobStash.parseInt10 text with
  | Some n =>
      match nearest_number n with
      | Fin q => nearest_number (Qfloor q * 1000)
      | x => x
      end
  | None => NaN
  end.

Definition parseSalary (raw : jsstring) : Salary :=
  let cleaned := trim (delete_all TAG 0 raw) in
  match scan AMOUNT 0 cleaned with
  | [] => mkSalary Undefined Undefined
  | matches =>
      let values :=
        map (fun m => thousands (delete_all DOLLAR_OR_K 0 (whole m))) matches in
      mkSalary
        (match values with
         | v :: _ => Val v
         | [] => Undefined
         end)
        (match values with
         | _ :: v :: _ => Val v
         | _ => Undefined
         end)
  end.

(** An element of the array that [parseRows] returns. *)
Record Row : Type := mkRow {
  id : jsstring;
  title : jsstring;
  company : jsstring;
  url : jsstring;
  location : jsstring;
  salary : jsstring;
  postedAt : jsstring
}.

Fixpoint join (sep : jsstring) (l : list jsstring) : jsstring :=
  match l with
  | [] => []
  | [x] => x
  | x :: l' => x ++ sep ++ join sep l'
  end.

(** The body of the loop of [parseRows], on the text of one table row;
    [None] is [continue]. *)
Definition parseRow (row : jsstring) : option Row :=
  let idMatch := first_match JOB_ID row in
  let titleMatch := first_match H2 row in
  let companyMatch := first_match H3 row in
  let urlMatch := first_match HREF row in
  let locMatches := scan LOCATION 0 row in
  let salaryMatch := first_match TEXT_SALARY row in
  let dateMatch := first_match TIME row in
  match titleMatch, idMatch with
  | Some titleMatch, Some idMatch =>
      Some
        (mkRow (captured idMatch) (trim (captured titleMatch))
           (match companyMatch with
            | Some f => trim (captured f)
            | None => []
            end)
           (match urlMatch with
            | Some f => BASE_URL ++ captured f
            | None => []
            end)
           (join (str ", ") (map (fun f => trim (captured f)) locMatches))
           (match salaryMatch with
            | Some f => captured f
            | None => []
            end)
           (match dateMatch with
            | Some f => captured f
            | None => []
            end))
  | _, _ => None
  end.

Fixpoint keep_some {A : Type} (l : list (option A)) : list A :=
  match l with
  | [] => []
  | Some a :: l' => a :: keep_some l'
  | None :: l' => keep_some l'
  end.

Definition parseRows (html : jsstring) : list Row :=
  keep_some (map (fun f => parseRow (captured f)) (scan TABLE_ROW 0 html)).

(** The response to one page request: [response.ok], [response.status]
    and the text read from [response.text()], which may reject. *)
Record Page : Type := mkPage {
  page_ok : bool;
  page_status : Z;
  page_text : Outcome jsstring
}.

(** The accumulators of [scrape]. *)
Record Acc : Type := mkAcc {
  allJobs : list RawJob.t;
  seenIds : list jsstring;
  skippedTitle : Z;
  skippedLocation : Z
}.

(** [s || undefined]. *)
Definition or_undefined (s : jsstring) : nullable jsstring :=
  match s with
  | [] => Undefined
  | _ => Val s
  end.

(** The row object as [rawData]. *)
Definition row_object (row : Row) : jsval :=
  JObj [(str "id", JStr (id row)); (str "title", JStr (title row));
        (str "company", JStr (company row)); (str "url", JStr (url row));
        (str "location", JStr (location row));
        (str "salary", JStr (salary row));
        (str "postedAt", JStr (postedAt row))].

Section WithEnv.
(** The page of a category, by the number of external reads made so
    far, and [new Date(text).toISOString()]. *)
Variable fetch_page : jsstring -> Z -> nat -> Outcome Page.
Variable Date_text_toISOString : jsstring -> Outcome jsstring.

(** The body of [for (const row of rows)]. *)
Definition processRow (category : jsstring) (row : Row) (acc : Acc) : M Acc :=
  if existsb (jsstring_eqb (id row)) (seenIds acc) then ret acc
  else
    let seen := seenIds acc ++ [id row] in
    if test EXCLUDED_TITLE_PATTERNS (title row)
    then ret (mkAcc (allJobs acc) seen (skippedTitle acc + 1)
                (skippedLocation acc))
    else if negb (isLocationUSOrRemote (Val (location row)) Undefined)
    then ret (mkAcc (allJobs acc) seen (skippedTitle acc)
                (skippedLocation acc + 1))
    else
      let salary := parseSalary (salary row) in
      posted <-
        (match postedAt row with
         | [] => ret Undefined
         | text => iso <- lift (Date_text_toISOString text) ;; ret (Val iso)
         end) ;;
      ret (mkAcc
             (allJobs acc
              ++ [RawJob.mk (id row) (or_undefined (url row)) (title row)
                    (or_undefined (company row)) Undefined
                    (or_undefined (location row)) Undefined Undefined
                    (Val category) (min salary) (max salary) Undefined
                    Undefined posted (Val (row_object row))])
             seen (skippedTitle acc) (skippedLocation acc)).

(** [for (let page = 1; page <= MAX_PAGES; page++)] for one category,
    with [remaining] pages left to request. *)
Fixpoint pages (remaining : nat) (category : jsstring) (page : Z) (acc : Acc)
  : M Acc :=
  match remaining with
  | O => ret acc
  | S remaining' =>
      fetched <- ask (fetch_page category page) ;;
      response <- lift fetched ;;
      if negb (page_ok response) then ret acc
      else
        html <- lift (page_text response) ;;
        match parseRows html with
        | [] => ret acc
        | rows =>
            acc' <- for_of rows (processRow category) acc ;;
            if negb (includes (str "page=" ++ decimal (page + 1)) html)
            then ret acc'
            else pages remaining' category (page + 1)%Z acc'
        end
  end.

(** The two loops, with the counters that [scrape] logs at its end. *)
Definition scrape_counted : M Acc :=
  for_of CATEGORY_PAGES
    (fun category acc => pages MAX_PAGES category 1%Z acc)
    (mkAcc [] [] 0 0).

Definition scrape : M (list RawJob.t) :=
  acc <- scrape_counted ;;
  ret (allJobs acc).

End WithEnv.
End Web3Career.

(** ** Vocabulary of the properties *)

(** Whole-word occurrence of a vocabulary entry in a text, stated
    without the matcher: the entry stands somewhere in the text and is
    not adjacent to a word character on either side. *)
Module Vocabulary.

(** A vocabulary entry, one pattern character per position. *)
Definition word : Type := list cls.

Definition word_of (s : string) : word := map CChar (str s).

(** The entry read at the head of [s]: what is left of [s], and whether
    the last character read (or, for the empty entry, the one before) is
    a word character. *)
Fixpoint word_at (w : word) (pw : bool) (s : jsstring)
  : option (bool * jsstring) :=
  match w with
  | [] => Some (pw, s)
  | x :: w' =>
      match s with
      | c :: s' => if cls_match x c then word_at w' (isWordChar c) s' else None
      | [] => None
      end
  end.

Definition whole_word_at (pw : bool) (w : word) (s : jsstring) : bool :=
  match word_at w pw s with
  | Some (_, rest) => negb pw && negb (headWord rest)
  | None => false
  end.

Fixpoint whole_word_from (pw : bool) (w : word) (s : jsstring) : bool :=
  whole_word_at pw w s
  || match s with
     | [] => false
     | c :: s' => whole_word_from (isWordChar c) w s'
     end.

Definition contains_whole_word (w : word) (text : jsstring) : bool :=
  whole_word_from false w text.

(** The entry occurs somewhere in the text, whatever surrounds it. *)
Fixpoint contains_word (w : word) (text : jsstring) : bool :=
  match word_at w false text with Some _ => true | None => false end
  || match text with
     | [] => false
     | _ :: text' => contains_word w text'
     end.

(** The junior-signal words as the specification lists them. *)
Definition junior_signal_words : list word :=
  map word_of
    ["intern"; "internship"; "junior"; "jr"; "entry-level"; "graduate";
     "trainee"]%string.

(** The same list with the separator of entry-level left open, as the
    pattern has it. *)
Definition junior_signal_patterns : list word :=
  [word_of "intern"; word_of "internship"; word_of "junior"; word_of "jr";
   word_of "entry" ++ [CDot] ++ word_of "level"; word_of "graduate";
   word_of "trainee"].

(** Whether the entry begins, and ends, with a literal word character. *)
Definition literal_word_cls (x : cls) : bool :=
  match x with
  | CChar p => isWordChar p
  | _ => false
  end.

Definition starts_with_word (w : word) : bool :=
  match w with
  | x :: _ => literal_word_cls x
  | [] => false
  end.

Fixpoint ends_with_word (w : word) : bool :=
  match w with
  | [] => false
  | [x] => literal_word_cls x
  | _ :: w' => ends_with_word w'
  end.

(** The entry that an alternative made of pattern characters only
    spells, and the same for an alternative that carries a [\b] of its
    own at either end. *)
Fixpoint atoms (r : regex) : option word :=
  match r with
  | Eps => Some []
  | Atom x => Some [x]
  | Seq r1 r2 =>
      match atoms r1, atoms r2 with
      | Some w1, Some w2 => Some (w1 ++ w2)
      | _, _ => None
      end
  | _ => None
  end.

Definition strip_leading (r : regex) : regex :=
  match r with
  | Seq Bnd r' => r'
  | _ => r
  end.

Definition strip_trailing (r : regex) : regex :=
  match r with
  | Seq r' Bnd => r'
  | _ => r
  end.

Definition plain (r : regex) : option word :=
  atoms (strip_trailing (strip_leading r)).

(** The terms of a vocabulary: the words that its alternatives spell,
    as far as they begin and end with a letter. *)
Definition vocabulary (alternatives : list regex) : list word :=
  flat_map
    (fun r =>
       match plain r with
       | Some w => if starts_with_word w && ends_with_word w then [w] else []
       | None => []
       end)
    alternatives.

(** The pattern [r] reads exactly the entry [w]. *)
Definition reads (r : regex) (w : word) : Prop :=
  forall pw s k,
    m r pw s k =
      match word_at w pw s with
      | Some (pw', rest) => k pw' rest
      | None => false
      end.

(** Every character that [x] matches, [y] matches. *)
Definition cls_le (x y : cls) : Prop :=
  forall c, cls_match x c = true -> cls_match y c = true.

End Vocabulary.
Import Vocabulary.

(** Static summaries of a pattern, used to move a match between a text
    and the same text with white space around it. *)
Module Shape.

(** A pattern character that matches no white space. *)
Definition solid_cls (x : cls) : bool :=
  match x with
  | CChar c => negb (isWhiteSpace (canonicalize c))
  | _ => false
  end.

(** The pattern consumes no character. *)
Fixpoint transparent (r : regex) : bool :=
  match r with
  | Eps | Bnd => true
  | Seq r1 r2 | Alt r1 r2 => transparent r1 && transparent r2
  | _ => false
  end.

(** Every match of the pattern begins by consuming a character that is
    not white space. *)
Fixpoint starts_solid (r : regex) : bool :=
  match r with
  | Atom x => solid_cls x
  | Seq r1 r2 => starts_solid r1 || (transparent r1 && starts_solid r2)
  | Alt r1 r2 => starts_solid r1 && starts_solid r2
  | _ => false
  end.

(** What is known of a continuation when one non-word character is
    appended to the text: nothing; that it gives the same answer before
    the appended character; or, besides, that it rejects once the
    appended character is consumed. *)
Inductive level : Type :=
| Unrelated
| Loose
| Tight.

Definition level_min (a b : level) : level :=
  match a, b with
  | Unrelated, _ | _, Unrelated => Unrelated
  | Loose, _ | _, Loose => Loose
  | Tight, Tight => Tight
  end.

(** The level of [m r k] from the level of [k]. *)
Fixpoint ends (r : regex) (l : level) : level :=
  match r with
  | Eps => l
  | Atom x =>
      match l with
      | Tight => Tight
      | Loose => if solid_cls x then Tight else Unrelated
      | Unrelated => Unrelated
      end
  | Bnd =>
      match l with
      | Unrelated => Unrelated
      | _ => Tight
      end
  | Seq r1 r2 => ends r1 (ends r2 l)
  | Alt r1 r2 => level_min (ends r1 l) (ends r2 l)
  | Opt r' => level_min (ends r' l) l
  | Star _ =>
      match l with
      | Tight => Tight
      | _ => Unrelated
      end
  end.

(** The relation between a continuation [k'] run on a text followed by
    the character [w] and a continuation [k] run on the text alone. *)
Definition related (w : N) (l : level) (k' k : cont) : Prop :=
  match l with
  | Unrelated => True
  | Loose => forall pw t, k' pw (t ++ [w]) = k pw t
  | Tight => (forall pw t, k' pw (t ++ [w]) = k pw t) /\ k' false [] = false
  end.

(** A pattern whose matches neither begin nor end on white space. *)
Definition trim_stable (r : regex) : bool :=
  starts_solid r
  && match ends r Loose with
     | Tight => true
     | _ => false
     end.

End Shape.
Import Shape.

(** ** Store states *)

Module Reach.

(** The (source, sourceId) key of a row. *)
Definition job_key (r : JobRow.t) : jsstring * jsstring :=
  (JobRow.source r, JobRow.sourceId r).

(** The worlds that the exported writers of module [db] produce from a
    new database. *)
Inductive reachable (env : Env) : World -> Prop :=
| reach_new (tick : nat) (trace : list Event) :
    reachable env (mkWorld Db.empty tick trace)
| reach_upsertJob (w : World) (job : JobInput.t) :
    reachable env w -> reachable env (snd (upsertJob env job w))
| reach_upsertScore (w : World) (score : ScoreInput.t) :
    reachable env w -> reachable env (snd (upsertScore env score w))
| reach_addAction (w : World) (jobId action : jsstring)
    (notes : nullable jsstring) :
    reachable env w -> reachable env (snd (addAction env jobId action notes w))
| reach_removeAction (w : World) (jobId : jsstring)
    (action : nullable jsstring) :
    reachable env w -> reachable env (snd (removeAction jobId action w))
| reach_startScrapeRun (w : World) (source : jsstring) :
    reachable env w -> reachable env (snd (startScrapeRun env source w))
| reach_completeScrapeRun (w : World) (id : Z) (status : jsstring)
    (jobsFound jobsNew : Z) (error : nullable jsstring) :
    reachable env w ->
    reachable env
      (snd (completeScrapeRun env id status jobsFound jobsNew error w)).

End Reach.
Import Reach.

(** ** What the properties observe of a run *)

Module Observe.

(** Reading the trace. *)
Definition job_event (e : Event) : bool :=
  match e with
  | EvInsertJob _ | EvUpdateJob _ => true
  | _ => false
  end.

Definition insert_event (e : Event) : bool :=
  match e with
  | EvInsertJob _ => true
  | _ => false
  end.

(** How many times the run [runId] was completed. *)
Definition completions (runId : Z) (events : list Event) : nat :=
  List.length
    (filter (fun e =>
               match e with
               | EvCompleteRun r _ => (r =? runId)%Z
               | _ => false
               end)
       events).

(** The sources whose adapter was invoked, in order. *)
Definition scraped (events : list Event) : list jsstring :=
  flat_map (fun e =>
              match e with
              | EvScrape source => [source]
              | _ => []
              end)
    events.

(** The jobs sent to the judge, one entry per request, in order. *)
Definition judged (events : list Event) : list jsstring :=
  flat_map (fun e =>
              match e with
              | EvJudge jobId => [jobId]
              | _ => []
              end)
    events.

(** The jobs whose score was written, in order. *)
Definition scored (events : list Event) : list jsstring :=
  flat_map (fun e =>
              match e with
              | EvUpsertScore jobId => [jobId]
              | _ => []
              end)
    events.

(** The reply that the judge's answer at read [t] makes [askJudge]
    accept for [job], if it does: the content is not blank, parses, and
    carries a numeric [overall_score]. *)
Definition judge_accepts (env : Env) (job : JobSummary.t) (t : nat)
  : option jsval :=
  match judge_at env job t with
  | Ok (Val raw_content) =>
      if falsy (Val (trim raw_content)) then None
      else
        match JSON_parse env (trim raw_content) with
        | Ok parsed =>
            match Scorer.get_prop parsed (str "overall_score") with
            | Ok overall_score =>
                if is_number overall_score then Some parsed else None
            | Throw _ => None
            end
        | Throw _ => None
        end
  | _ => None
  end.

(** The listing of the job can be written: [scoreJob] reaches its first
    request. *)
Definition prompt_builds (env : Env) (job : JobSummary.t) : bool :=
  match Scorer.jobDescription env job with
  | Ok _ => true
  | Throw _ => false
  end.

(** The score row that [scoreJob] writes for a reply, at time [now],
    with the value [reasoning] that was bound for the reply's
    [reasoning]. *)
Definition score_row (env : Env) (job : JobSummary.t)
    (fields : list (jsstring * jsval)) (reasoning : jsval) (now : jsstring)
  : ScoreRow.t :=
  ScoreRow.mk (text (JobSummary.id job))
    (Scorer.Math_round env (lookup_field (str "overall_score") fields))
    (Scorer.Math_round env (lookup_field (str "relevance_score") fields))
    (Scorer.Math_round env (lookup_field (str "experience_match") fields))
    (Scorer.Math_round env (lookup_field (str "domain_match") fields))
    (Scorer.Math_round env (lookup_field (str "seniority_fit") fields))
    reasoning now Scorer.MODEL.

(** The statement of [upsertScore] for that reply on the store [d]: its
    parameters are bound, then the row is written. *)
Definition write_score (env : Env) (job : JobSummary.t)
    (fields : list (jsstring * jsval)) (now : jsstring) (d : Db.t)
  : Outcome Db.t :=
  and_then (bind_reasoning (lookup_field (str "reasoning") fields))
    (fun reasoning => replace_score (score_row env job fields reasoning now) d).

(** The ids of the stored jobs are texts as the store returns them. *)
Definition ids_as_stored (d : Db.t) : Prop :=
  Forall (fun r => text (JobRow.id r) = JobRow.id r) (Db.jobs d).

(** The score rows of the other jobs. *)
Definition other_scores (jobId : jsstring) (rows : list ScoreRow.t)
  : list ScoreRow.t :=
  filter (fun s => negb (jsstring_eqb (ScoreRow.job_id s) jobId)) rows.

(** The world in which a job of a scoring batch is reached: the one left
    by [scoreJob] on the jobs before it, thrown errors included.  The
    same for a source of [runAllScrapers]. *)
Definition after_scoring (env : Env) (earlier : list JobSummary.t) (w : World)
  : World :=
  fold_left (fun w0 job => snd (Scorer.scoreJob env job w0)) earlier w.

Definition after_scraping (env : Env) (earlier : list jsstring) (w : World)
  : World :=
  fold_left (fun w0 source => snd (Runner.runScraper env source w0)) earlier w.

(** The tier at which the JobStash loop drops a listing, if any. *)
Definition title_skipped (job : JobStashJob.t) : bool :=
  negb (JobStash.below_min_seniority job)
  && test EXCLUDED_TITLE_PATTERNS (JobStashJob.title job).

Definition location_skipped (job : JobStashJob.t) : bool :=
  negb (JobStash.below_min_seniority job)
  && negb (test EXCLUDED_TITLE_PATTERNS (JobStashJob.title job))
  && negb (JobStash.isLocationValid job).

Definition kept (job : JobStashJob.t) : bool :=
  negb (JobStash.below_min_seniority job)
  && negb (test EXCLUDED_TITLE_PATTERNS (JobStashJob.title job))
  && JobStash.isLocationValid job.

End Observe.
Import Observe.

(** ** Store consistency and text casing *)

Module Integrity.

(** The (job_id, action) key of an action row. *)
Definition action_key (a : ActionRow.t) : jsstring * jsstring :=
  (ActionRow.job_id a, ActionRow.action a).

(** What the schema promises of a store: the primary keys and unique
    keys hold no value twice, every score row and action row belongs to
    a job, the score columns are not null, and the AUTOINCREMENT
    sequences are not behind their tables. *)
Record consistent (d : Db.t) : Prop := mkConsistent {
  job_ids_distinct : NoDup (map JobRow.id (Db.jobs d));
  job_keys_distinct : NoDup (map job_key (Db.jobs d));
  one_score_per_job : NoDup (map ScoreRow.job_id (Db.job_scores d));
  scores_belong_to_jobs :
    forall s, In s (Db.job_scores d) ->
              In (ScoreRow.job_id s) (map JobRow.id (Db.jobs d));
  overall_scores_not_null :
    forall s, In s (Db.job_scores d) ->
              is_NaN (ScoreRow.overall_score s) = false;
  action_keys_distinct : NoDup (map action_key (Db.job_actions d));
  action_ids_distinct : NoDup (map ActionRow.id (Db.job_actions d));
  actions_belong_to_jobs :
    forall a, In a (Db.job_actions d) ->
              In (ActionRow.job_id a) (map JobRow.id (Db.jobs d));
  action_ids_issued :
    forall a, In a (Db.job_actions d) ->
              (ActionRow.id a <= Db.job_actions_seq d)%Z;
  run_ids_distinct : NoDup (map RunRow.id (Db.scrape_runs d));
  run_ids_issued :
    forall r, In r (Db.scrape_runs d) ->
              (RunRow.id r <= Db.scrape_runs_seq d)%Z
}.

(** The action rows of one (job, action) key, and the rows of the other
    keys. *)
Definition has_action_key (jobId action : jsstring) (a : ActionRow.t) : bool :=
  jsstring_eqb (ActionRow.job_id a) jobId
  && jsstring_eqb (ActionRow.action a) action.

Definition actions_of (jobId action : jsstring) (rows : list ActionRow.t)
  : list ActionRow.t :=
  filter (has_action_key jobId action) rows.

Definition other_actions (jobId action : jsstring) (rows : list ActionRow.t)
  : list ActionRow.t :=
  filter (fun a => negb (has_action_key jobId action a)) rows.

(** A computation that leaves the store with the property [P] whenever it
    finds it so, whether it returns or throws. *)
Definition keeps {A : Type} (P : Db.t -> Prop) (c : M A) : Prop :=
  forall w : World, P (db w) -> P (db (snd (c w))).

End Integrity.
Import Integrity.

Module Casing.

(** The same character, or the two cases of one of the letters whose
    case matters to the patterns of the filters: the Latin letters A to
    Z, and the letter a with tilde (U+00C3, U+00E3). *)
Definition same_letter (a b : N) : Prop :=
  a = b
  \/ (in_range 97 122 a = true /\ b = (a - 32)%N)
  \/ (in_range 97 122 b = true /\ a = (b - 32)%N)
  \/ (a = 227%N /\ b = 195%N)
  \/ (a = 195%N /\ b = 227%N).

(** Two texts that differ at most in the case of these letters. *)
Definition same_up_to_case (s t : jsstring) : Prop := Forall2 same_letter s t.

(** The small dotless i (U+0131) and the Kelvin sign (U+212A): letters
    outside ASCII whose other case is the ASCII letter I, or k. *)
Definition dotless_i : N := 305.
Definition kelvin_sign : N := 8490.

End Casing.
Import Casing.

Module Emitted.

(** What holds of a record that passed the three tiers of the JobStash
    loop: its title and location pass the shared filters, its seniority
    text does not parse to a number below the threshold, and it carries
    a source id that is not empty and arrays for tags and chains. *)
Definition accepted_listing (raw : RawJob.t) : Prop :=
  isExcludedTitle (RawJob.title raw) = false
  /\ isLocationUSOrRemote (RawJob.location raw) (RawJob.locationType raw) = true
  /\ (forall code n,
         RawJob.seniority raw = Val code -> code <> [] ->
         JobStash.parseInt10 code = Some n -> (JobStash.MIN_SENIORITY <= n)%Z)
  /\ RawJob.sourceId raw <> []
  /\ (exists tags, RawJob.tags raw = Val tags)
  /\ (exists chains, RawJob.chains raw = Val chains).

(** A text of decimal digits that is not empty. *)
Definition is_digit_text (a : jsstring) : Prop :=
  a <> [] /\ forallb (in_range 48 57) a = true.

(** What holds of a record that the web3.career loop keeps: its source
    id is a number as the page wrote it, its title and location pass the
    shared filters, and its category is one of the category pages. *)
Definition kept_listing (raw : RawJob.t) : Prop :=
  is_digit_text (RawJob.sourceId raw)
  /\ isExcludedTitle (RawJob.title raw) = false
  /\ isLocationUSOrRemote (RawJob.location raw) (RawJob.locationType raw) = true
  /\ exists category,
       RawJob.category raw = Val category
       /\ In category Web3Career.CATEGORY_PAGES.

(** The accumulators of the web3.career loop agree: the records kept
    have pairwise distinct source ids, each of them is among the ids
    seen, and each record is a [kept_listing]. *)
Definition kept_so_far (acc : Web3Career.Acc) : Prop :=
  NoDup (map RawJob.sourceId (Web3Career.allJobs acc))
  /\ (forall raw,
         In raw (Web3Career.allJobs acc) ->
         In (RawJob.sourceId raw) (Web3Career.seenIds acc))
  /\ Forall kept_listing (Web3Career.allJobs acc).

End Emitted.
Import Emitted.

(** ** Sample surroundings *)

Module Sample.

(** A listing with only its required fields. *)
Definition raw (sourceId title : string) : RawJob.t :=
  RawJob.mk (str sourceId) Undefined (str title) Undefined Undefined
    Undefined Undefined Undefined Undefined Undefined Undefined Undefined
    Undefined Undefined Undefined.

(** Surroundings in which the n-th external read of an identifier or of
    the clock gives the one-character string of code n, every adapter
    but safary returns one listing, the judge answers every job but the
    one titled Unanswered with a fixed reply, and JobStash serves one
    page of five listings. *)
Definition reply_fields : list (jsstring * jsval) :=
  [(str "overall_score", JNum (Fin (71 # 2)));
   (str "relevance_score", JNum (Fin 80));
   (str "experience_match", JNum (Fin (129 # 2)));
   (str "domain_match", JNum (Fin 90));
   (str "seniority_fit", JNum (Fin (-(5 # 2))));
   (str "reasoning", JStr (str "fits"))].

Definition reply : jsval := JObj reply_fields.

(** A JobStash listing with an id, a title, a seniority code and a
    location. *)
Definition listing (id title seniority location : string) : JobStashJob.t :=
  JobStashJob.mk (Val (str id)) Undefined (str title) Undefined Undefined
    Undefined Undefined (Val (str location)) Undefined (Val (str seniority))
    Undefined Undefined Undefined Undefined Undefined Undefined
    (JStr (str id)).

(** One page of five listings; the second has seniority code 1 (and a
    title and a location that the shared filters would reject too). *)
Definition five_listings : list JobStashJob.t :=
  [listing "j1" "Product Lead" "3" "Remote";
   listing "j2" "Junior Analyst" "1" "Berlin";
   listing "j3" "BD Manager" "2" "New York";
   listing "j4" "Growth Lead" "4" "Worldwide";
   listing "j5" "Head of Product" "5" ""].

Definition one_character (n : nat) : string :=
  String (ascii_of_nat n) EmptyString.

Definition scrape (source : jsstring) (n : nat) : Outcome (list RawJob.t) :=
  if jsstring_eqb source (str "safary")
  then Throw (JsError (str "navigation timeout"))
  else Ok [raw "a1" "Product Manager"].

Definition scrape_is_array (source : jsstring) (n : nat)
  : is_array (scrape source n) = true :=
  match jsstring_eqb source (str "safary") as b
    return is_array (if b
                     then Throw (JsError (str "navigation timeout"))
                     else Ok [raw "a1" "Product Manager"]) = true
  with
  | true => eq_refl
  | false => eq_refl
  end.

Definition env : Env :=
  mkEnv one_character one_character scrape
    (fun job _ =>
       if jsstring_eqb (JobSummary.title job) (str "Unanswered")
       then Throw (JsError (str "rate limit"))
       else Ok (Val (str "reply")))
    (fun _ _ => Ok (mkResponse true 200 (Ok five_listings)))
    (Val (str "sk-test"))
    (fun _ => str "json")
    (fun _ => Ok reply)
    (fun _ => NaN) (fun _ => NaN)
    (fun _ => Ok (str "2024-01-01T00:00:00.000Z"))
    scrape_is_array.

Definition new_world : World := mkWorld Db.empty 0 [].

End Sample.

(** A web3.career page of four table rows: a kept one, the same id
    again, a junior title, and a location outside the United States.
    Every category serves it as its first page; the page names no next
    page. *)
Module Web3Sample.

Definition table_row (id title place : string) : jsstring :=
  str "<tr class='table_row'><td data-jobid=" ++ str id
  ++ str "><h2 class='fs-6'> " ++ str title
  ++ str " </h2><h3>Acme</h3><a href=" ++ [Web3Career.quote]
  ++ str "/web3-jobs-place" ++ [Web3Career.quote] ++ str ">" ++ str place
  ++ str "</a><p class='text-salary'>$120k - $150k</p></td></tr>".

Definition html : jsstring :=
  str "<table>"
  ++ table_row "101" "Head of Product" "Remote"
  ++ table_row "101" "Head of Product" "Remote"
  ++ table_row "102" "Junior Analyst" "Remote"
  ++ table_row "103" "Growth Lead" "Berlin"
  ++ str "</table>".

Definition fetch_page (category : jsstring) (page : Z) (n : nat)
  : Outcome Web3Career.Page :=
  Ok (Web3Career.mkPage true 200 (Ok html)).

Definition Date_text_toISOString (text : jsstring) : Outcome jsstring :=
  Ok (str "2024-01-01T00:00:00.000Z").

End Web3Sample.

(* ===================================================================== *)
(** * Part II: properties                                                 *)
(* ===================================================================== *)

Unset Implicit Arguments.

Example location_remote_europe :
  isLocationUSOrRemote (Val (str "Remote - Europe")) Undefined = false.
Proof. vm_compute. reflexivity. Qed.

Example location_remote_new_york :
  isLocationUSOrRemote (Val (str "Remote - New York")) Undefined = true.
Proof. vm_compute. reflexivity. Qed.

Example location_worldwide :
  isLocationUSOrRemote (Val (str "Worldwide")) Undefined = true.
Proof. vm_compute. reflexivity. Qed.

Example location_outside_us :
  isLocationUSOrRemote (Val (str "London (outside the US)")) Undefined = false
  /\ test NON_US_PATTERNS (str "London (outside the US)") = true
  /\ test US_PATTERNS (str "London (outside the US)") = true.
Proof. vm_compute. auto. Qed.

Example title_samples :
  map (fun s => isExcludedTitle (str s))
    ["Junior Dev"; "Juniorita"; "Jr. PM"; "Entry Level Analyst";
     "Senior intern"; "International"; "entry-level"]%string
  = [true; false; true; true; true; false; true].
Proof. vm_compute. reflexivity. Qed.


(** ** Characters *)

Ltac decide_cmp :=
  repeat match goal with
    | |- context [(?a <=? ?b)%N] =>
        first [ replace (a <=? b)%N with true
                  by (symmetry; apply N.leb_le; lia)
              | replace (a <=? b)%N with false
                  by (symmetry; apply N.leb_gt; lia) ]
    | |- context [(?a =? ?b)%N] =>
        first [ replace (a =? b)%N with true
                  by (symmetry; apply N.eqb_eq; lia)
              | replace (a =? b)%N with false
                  by (symmetry; apply N.eqb_neq; lia) ]
    end.

Lemma in_range_spec (lo hi c : N) :
  in_range lo hi c = true <-> (lo <= c <= hi)%N.
Proof.
  unfold in_range. rewrite andb_true_iff, !N.leb_le. tauto.
Qed.

Lemma isWhiteSpace_cases (c : N) :
  isWhiteSpace c = true ->
  (8192 <= c <= 8202)%N
  \/ In c [9; 11; 12; 32; 160; 5760; 8239; 8287; 12288; 65279; 10; 13; 8232;
           8233]%N.
Proof.
  unfold isWhiteSpace, isLineTerminator.
  rewrite !orb_true_iff, !N.eqb_eq, in_range_spec. simpl. intuition.
Qed.

Lemma isWhiteSpace_not_word (c : N) :
  isWhiteSpace c = true -> isWordChar c = false.
Proof.
  intros H. apply isWhiteSpace_cases in H. destruct H as [H | H].
  - unfold isWordChar, in_range. decide_cmp. reflexivity.
  - simpl in H. repeat (destruct H as [<- | H]; [reflexivity |]). easy.
Qed.

Lemma isWhiteSpace_canonicalize (c : N) :
  isWhiteSpace c = true -> canonicalize c = c.
Proof.
  intros H. apply isWhiteSpace_cases in H. destruct H as [H | H].
  - unfold canonicalize, in_range. decide_cmp. reflexivity.
  - simpl in H. repeat (destruct H as [<- | H]; [reflexivity |]). easy.
Qed.

Lemma isWordChar_canonicalize (c : N) :
  isWordChar (canonicalize c) = isWordChar c.
Proof.
  unfold canonicalize.
  destruct (in_range 97 122 c) eqn:E.
  - apply in_range_spec in E. unfold isWordChar, in_range.
    decide_cmp. reflexivity.
  - destruct (N.eqb_spec c 227) as [-> | _]; reflexivity.
Qed.

Lemma cls_match_literal_word (p c : N) :
  cls_match (CChar p) c = true -> isWordChar c = isWordChar p.
Proof.
  simpl. intros H. apply N.eqb_eq in H.
  rewrite <- (isWordChar_canonicalize c), H. apply isWordChar_canonicalize.
Qed.

Lemma solid_cls_no_space (x : cls) (c : N) :
  solid_cls x = true -> isWhiteSpace c = true -> cls_match x c = false.
Proof.
  destruct x as [p | |]; simpl; try discriminate.
  intros Hp Hc. apply N.eqb_neq. intros E.
  rewrite (isWhiteSpace_canonicalize _ Hc) in E. subst c.
  rewrite Hc in Hp. discriminate.
Qed.

(** ** The matcher and white space around the text *)

Lemma transparent_m (r : regex) :
  transparent r = true ->
  forall pw s, exists b, forall k, m r pw s k = b && k pw s.
Proof.
  induction r as [| x | | r1 IH1 r2 IH2 | r1 IH1 r2 IH2 | r IH | x];
    simpl; try discriminate; intros H pw s.
  - exists true. reflexivity.
  - exists (xorb pw (headWord s)). reflexivity.
  - apply andb_true_iff in H as [H1 H2].
    destruct (IH1 H1 pw s) as [b1 E1], (IH2 H2 pw s) as [b2 E2].
    exists (b1 && b2). intros k. rewrite E1, E2. apply andb_assoc.
  - apply andb_true_iff in H as [H1 H2].
    destruct (IH1 H1 pw s) as [b1 E1], (IH2 H2 pw s) as [b2 E2].
    exists (b1 || b2). intros k. rewrite E1, E2.
    symmetry. apply andb_orb_distrib_l.
Qed.

Lemma starts_solid_m (r : regex) :
  starts_solid r = true ->
  forall w pw s k, isWhiteSpace w = true -> m r pw (w :: s) k = false.
Proof.
  induction r as [| x | | r1 IH1 r2 IH2 | r1 IH1 r2 IH2 | r IH | x];
    simpl; try discriminate; intros H w pw s k Hw.
  - rewrite (solid_cls_no_space _ _ H Hw). reflexivity.
  - apply orb_true_iff in H as [H | H].
    + apply IH1; assumption.
    + apply andb_true_iff in H as [Ht H2].
      destruct (transparent_m _ Ht pw (w :: s)) as [b E]. rewrite E.
      rewrite (IH2 H2 w pw s k Hw). apply andb_false_r.
  - apply andb_true_iff in H as [H1 H2].
    rewrite (IH1 H1), (IH2 H2) by assumption. reflexivity.
Qed.

Lemma related_weaken (w : N) (a b : level) (k' k : cont) :
  related w a k' k -> related w (level_min a b) k' k.
Proof.
  destruct a, b; simpl; tauto.
Qed.

Lemma related_weaken_r (w : N) (a b : level) (k' k : cont) :
  related w b k' k -> related w (level_min a b) k' k.
Proof.
  destruct a, b; simpl; tauto.
Qed.

Lemma related_orb (w : N) (l : level) (f' f g' g : cont) :
  related w l f' f -> related w l g' g ->
  related w l (fun pw s => f' pw s || g' pw s) (fun pw s => f pw s || g pw s).
Proof.
  destruct l; simpl; auto.
  - intros Hf Hg pw t. rewrite Hf, Hg. reflexivity.
  - intros [Hf Hf0] [Hg Hg0]. split.
    + intros pw t. rewrite Hf, Hg. reflexivity.
    + rewrite Hf0, Hg0. reflexivity.
Qed.

Lemma headWord_snoc (w : N) (t : jsstring) :
  isWordChar w = false -> headWord (t ++ [w]) = headWord t.
Proof.
  intros Hw. destruct t; simpl; auto.
Qed.

Lemma star_m_snoc (x : cls) (w : N) (k' k : cont) :
  isWordChar w = false ->
  related w Tight k' k ->
  forall t pw, star_m x (t ++ [w]) pw k' = star_m x t pw k.
Proof.
  intros Hw [H1 H0] t. induction t as [| c t IH]; intros pw.
  - pose proof (H1 pw []) as E. simpl in *.
    rewrite Hw, H0, andb_false_r, E. reflexivity.
  - pose proof (H1 pw (c :: t)) as E. simpl in *. rewrite IH, E. reflexivity.
Qed.

Lemma ends_related (w : N) :
  isWhiteSpace w = true ->
  forall r l k' k,
    related w l k' k ->
    related w (ends r l) (fun pw s => m r pw s k') (fun pw s => m r pw s k).
Proof.
  intros Hws.
  pose proof (isWhiteSpace_not_word _ Hws) as Hw.
  induction r as [| x | | r1 IH1 r2 IH2 | r1 IH1 r2 IH2 | r IH | x];
    intros l k' k H.
  - destruct l; simpl in *; auto.
  - destruct l; simpl in *; auto.
    + destruct (solid_cls x) eqn:Hx; simpl; auto. split; [| reflexivity].
      intros pw [| c t]; simpl.
      * rewrite (solid_cls_no_space _ _ Hx Hws). reflexivity.
      * rewrite H. reflexivity.
    + destruct H as [H1 H0]. split; [| reflexivity].
      intros pw [| c t]; simpl.
      * rewrite Hw, H0. apply andb_false_r.
      * rewrite H1. reflexivity.
  - destruct l; simpl in *; auto.
    + split; [| reflexivity]. intros pw t.
      rewrite (headWord_snoc _ _ Hw), H. reflexivity.
    + destruct H as [H1 H0]. split; [| reflexivity]. intros pw t.
      rewrite (headWord_snoc _ _ Hw), H1. reflexivity.
  - simpl. apply IH1. apply IH2. assumption.
  - simpl. apply related_orb.
    + apply related_weaken. apply IH1. assumption.
    + apply related_weaken_r. apply IH2. assumption.
  - simpl. apply related_orb.
    + apply related_weaken. apply IH. assumption.
    + apply related_weaken_r. assumption.
  - destruct l; simpl; auto. split.
    + intros pw t. apply star_m_snoc; assumption.
    + apply H.
Qed.

Lemma search_snoc (r : regex) (w : N) :
  isWhiteSpace w = true ->
  ends r Loose = Tight ->
  forall s pw, search r pw (s ++ [w]) = search r pw s.
Proof.
  intros Hws He.
  assert (R : related w Tight (fun pw s => m r pw s accept)
                (fun pw s => m r pw s accept)).
  { rewrite <- He. apply ends_related; [assumption |]. simpl. reflexivity. }
  destruct R as [R1 R0].
  induction s as [| c s IH]; intros pw.
  - pose proof (R1 pw []) as E. simpl in *.
    rewrite (isWhiteSpace_not_word _ Hws), E, R0. reflexivity.
  - pose proof (R1 pw (c :: s)) as E. simpl in *. rewrite IH, E. reflexivity.
Qed.

Lemma test_cons_space (r : regex) (w : N) (s : jsstring) :
  isWhiteSpace w = true -> starts_solid r = true ->
  test r (w :: s) = test r s.
Proof.
  intros Hws Hs. unfold test. simpl.
  rewrite (starts_solid_m _ Hs) by assumption. rewrite (isWhiteSpace_not_word _ Hws).
  reflexivity.
Qed.

Lemma test_trimStart (r : regex) (s : jsstring) :
  starts_solid r = true -> test r (trimStart s) = test r s.
Proof.
  intros Hs. unfold trimStart. induction s as [| c s IH]; simpl; auto.
  destruct (isWhiteSpace c) eqn:Hc; auto.
  rewrite IH. symmetry. apply test_cons_space; assumption.
Qed.

Lemma test_trimEnd (r : regex) (s : jsstring) :
  ends r Loose = Tight -> test r (trimEnd s) = test r s.
Proof.
  intros He. unfold trimEnd.
  rewrite <- (rev_involutive s) at 2.
  induction (rev s) as [| c l IH]; simpl; auto.
  destruct (isWhiteSpace c) eqn:Hc; auto.
  rewrite IH. unfold test. symmetry. apply search_snoc; assumption.
Qed.

Lemma test_trim (r : regex) (s : jsstring) :
  trim_stable r = true -> test r (trim s) = test r s.
Proof.
  unfold trim_stable. intros H. apply andb_true_iff in H as [Hs He].
  unfold trim. rewrite test_trimEnd.
  - apply test_trimStart. assumption.
  - destruct (ends r Loose); congruence.
Qed.

(** ** scrapers/filters.ts: the title test *)

Lemma m_alts (r : regex) (rs : list regex) (pw : bool) (s : jsstring)
    (k : cont) :
  m (alts (r :: rs)) pw s k = existsb (fun r' => m r' pw s k) (r :: rs).
Proof.
  revert r. induction rs as [| r2 rs IH]; intros r.
  - simpl. rewrite orb_false_r. reflexivity.
  - change (m (alts (r :: r2 :: rs)) pw s k)
      with (m r pw s k || m (alts (r2 :: rs)) pw s k).
    rewrite IH. reflexivity.
Qed.

Lemma word_at_app (w1 w2 : word) (pw : bool) (s : jsstring) :
  word_at (w1 ++ w2) pw s =
    match word_at w1 pw s with
    | Some (pw', rest) => word_at w2 pw' rest
    | None => None
    end.
Proof.
  revert pw s. induction w1 as [| x w1 IH]; intros pw s; simpl; auto.
  destruct s as [| c s]; auto. destruct (cls_match x c); auto.
Qed.

Lemma reads_lit_codes (l : jsstring) : reads (lit_codes l) (map CChar l).
Proof.
  induction l as [| p l IH]; intros pw s k; simpl; auto.
  destruct s as [| c s]; auto.
  destruct (canonicalize c =? canonicalize p)%N; simpl; auto.
Qed.

Lemma reads_lit (t : string) : reads (lit t) (word_of t).
Proof. apply reads_lit_codes. Qed.

Lemma reads_Atom (x : cls) : reads (Atom x) [x].
Proof.
  intros pw s k. simpl. destruct s as [| c s]; auto.
  destruct (cls_match x c); auto.
Qed.

Lemma reads_Seq (r1 r2 : regex) (w1 w2 : word) :
  reads r1 w1 -> reads r2 w2 -> reads (r1 +++ r2) (w1 ++ w2).
Proof.
  intros H1 H2 pw s k. simpl. rewrite H1, word_at_app.
  destruct (word_at w1 pw s) as [[pw' rest] |]; auto.
Qed.

Lemma word_at_head (w : word) (pw : bool) (s : jsstring)
    (x : bool * jsstring) :
  starts_with_word w = true -> word_at w pw s = Some x -> headWord s = true.
Proof.
  destruct w as [| [p | |] w]; simpl; try discriminate.
  intros Hp. destruct s as [| c s]; try discriminate.
  destruct (canonicalize c =? canonicalize p)%N eqn:E; try discriminate.
  intros _. simpl. rewrite (cls_match_literal_word p c E). assumption.
Qed.

Lemma word_at_last (w : word) :
  ends_with_word w = true ->
  forall pw s pw' rest, word_at w pw s = Some (pw', rest) -> pw' = true.
Proof.
  induction w as [| x w IH]; [discriminate |].
  intros H pw s pw' rest. simpl.
  destruct s as [| c s]; try discriminate.
  destruct (cls_match x c) eqn:E; try discriminate.
  destruct w as [| y w].
  - simpl. intros [= <- _]. destruct x as [p | |]; try discriminate.
    rewrite (cls_match_literal_word p c E). assumption.
  - apply IH. assumption.
Qed.

(** One alternative between the two [\b] of a vocabulary pattern. *)
Lemma whole_word_alternative (r : regex) (w : word) (pw : bool)
    (s : jsstring) :
  reads r w -> starts_with_word w = true -> ends_with_word w = true ->
  xorb pw (headWord s) && m r pw s (fun pw' s' => m Bnd pw' s' accept)
  = whole_word_at pw w s.
Proof.
  intros Hr Hs He. rewrite Hr. unfold whole_word_at.
  destruct (word_at w pw s) as [[pw' rest] |] eqn:E.
  - rewrite (word_at_head _ _ _ _ Hs E), (word_at_last _ He _ _ _ _ E).
    simpl. unfold accept. rewrite andb_true_r, xorb_true_r. reflexivity.
  - apply andb_false_r.
Qed.

(** The optional dot after jr changes nothing between two [\b]. *)
Lemma whole_word_jr (pw : bool) (s : jsstring) :
  xorb pw (headWord s)
  && m (lit "jr" +++ Opt (lit ".")) pw s (fun pw' s' => m Bnd pw' s' accept)
  = whole_word_at pw (word_of "jr") s.
Proof.
  change (m (lit "jr" +++ Opt (lit ".")) pw s
            (fun pw' s' => m Bnd pw' s' accept))
    with (m (lit "jr") pw s
            (fun pw1 s1 =>
               m (Opt (lit ".")) pw1 s1 (fun pw' s' => m Bnd pw' s' accept))).
  rewrite (reads_lit "jr"). unfold whole_word_at.
  destruct (word_at (word_of "jr") pw s) as [[pw' rest] |] eqn:E;
    [| apply andb_false_r].
  rewrite (word_at_head (word_of "jr") _ _ _ eq_refl E).
  rewrite (word_at_last (word_of "jr") eq_refl _ _ _ _ E).
  rewrite xorb_true_r. f_equal.
  destruct rest as [| c rest]; [reflexivity |].
  change (m (Opt (lit ".")) true (c :: rest)
            (fun pw'0 s' => m Bnd pw'0 s' accept))
    with ((cls_match (CChar 46) c
           && (xorb (isWordChar c) (headWord rest) && true))
          || (xorb true (isWordChar c) && true)).
  change (headWord (c :: rest)) with (isWordChar c).
  destruct (cls_match (CChar 46) c) eqn:Ec.
  - rewrite (cls_match_literal_word 46 c Ec). simpl. apply orb_true_r.
  - simpl. rewrite andb_true_r. reflexivity.
Qed.

Lemma existsb_orb {A : Type} (f g : A -> bool) (l : list A) :
  existsb (fun a => f a || g a) l = existsb f l || existsb g l.
Proof.
  induction l as [| a l IH]; simpl; auto.
  rewrite IH. destruct (f a), (g a), (existsb f l); reflexivity.
Qed.

Lemma m_EXCLUDED_TITLE_PATTERNS (pw : bool) (s : jsstring) :
  m EXCLUDED_TITLE_PATTERNS pw s accept
  = existsb (fun p => whole_word_at pw p s) junior_signal_patterns.
Proof.
  unfold EXCLUDED_TITLE_PATTERNS.
  change (m (Bnd +++ ?a +++ Bnd) pw s accept)
    with (xorb pw (headWord s)
          && m a pw s (fun pw' s' => m Bnd pw' s' accept)).
  rewrite m_alts. unfold junior_signal_patterns, existsb.
  rewrite !andb_orb_distrib_r, andb_false_r.
  rewrite whole_word_jr.
  rewrite (whole_word_alternative _ _ pw s (reads_lit "intern") eq_refl eq_refl),
    (whole_word_alternative _ _ pw s (reads_lit "internship") eq_refl eq_refl),
    (whole_word_alternative _ _ pw s (reads_lit "junior") eq_refl eq_refl),
    (whole_word_alternative _ _ pw s (reads_lit "graduate") eq_refl eq_refl),
    (whole_word_alternative _ _ pw s (reads_lit "trainee") eq_refl eq_refl).
  rewrite (whole_word_alternative
             (lit "entry" +++ Atom CDot +++ lit "level")
             (word_of "entry" ++ [CDot] ++ word_of "level") pw s).
  - reflexivity.
  - apply reads_Seq; [apply reads_lit |].
    apply reads_Seq; [apply reads_Atom | apply reads_lit].
  - reflexivity.
  - reflexivity.
Qed.

Lemma existsb_pointwise {A : Type} (f g : A -> bool) (l : list A) :
  (forall a, f a = g a) -> existsb f l = existsb g l.
Proof.
  intros H. induction l as [| a l IH]; simpl; auto. rewrite H, IH. reflexivity.
Qed.

Lemma search_nil (r : regex) (pw : bool) :
  search r pw [] = m r pw [] accept.
Proof. simpl. apply orb_false_r. Qed.

Lemma search_cons (r : regex) (pw : bool) (c : N) (s : jsstring) :
  search r pw (c :: s) = m r pw (c :: s) accept || search r (isWordChar c) s.
Proof. reflexivity. Qed.

Lemma search_EXCLUDED_TITLE_PATTERNS (s : jsstring) (pw : bool) :
  search EXCLUDED_TITLE_PATTERNS pw s
  = existsb (fun p => whole_word_from pw p s) junior_signal_patterns.
Proof.
  revert pw. induction s as [| c s IH]; intros pw.
  - rewrite search_nil, m_EXCLUDED_TITLE_PATTERNS.
    apply existsb_pointwise. intros p. simpl. rewrite orb_false_r. reflexivity.
  - rewrite search_cons, m_EXCLUDED_TITLE_PATTERNS, IH.
    rewrite <- existsb_orb. apply existsb_pointwise. intros p. reflexivity.
Qed.

Lemma canonicalize_hyphen (c : N) :
  canonicalize c = 45%N -> c = 45%N.
Proof.
  unfold canonicalize. destruct (in_range 97 122 c) eqn:E.
  - apply in_range_spec in E. lia.
  - destruct (N.eqb_spec c 227); [discriminate | auto].
Qed.

Lemma cls_le_refl (x : cls) : cls_le x x.
Proof. intros c H. exact H. Qed.

Lemma cls_le_hyphen_dot : cls_le (CChar 45) CDot.
Proof.
  intros c H. simpl in H. apply N.eqb_eq in H.
  change (canonicalize 45) with 45%N in H.
  apply canonicalize_hyphen in H. subst c. reflexivity.
Qed.

Lemma word_at_refine (w p : word) :
  Forall2 cls_le w p ->
  forall pw s x, word_at w pw s = Some x -> word_at p pw s = Some x.
Proof.
  induction 1 as [| x y w p Hxy _ IH]; intros pw s r; simpl; auto.
  destruct s as [| c s]; try discriminate.
  destruct (cls_match x c) eqn:E; try discriminate.
  rewrite (Hxy c E). apply IH.
Qed.

Lemma whole_word_from_refine (w p : word) :
  Forall2 cls_le w p ->
  forall s pw, whole_word_from pw w s = true -> whole_word_from pw p s = true.
Proof.
  intros Hwp. induction s as [| c s IH]; intros pw; simpl;
    rewrite !orb_true_iff; intros [H | H]; auto; left;
    unfold whole_word_at in *;
    destruct (word_at w pw _) as [[pw' rest] |] eqn:E; try discriminate;
    rewrite (word_at_refine _ _ Hwp _ _ _ E); assumption.
Qed.

(** The claim of C3 fails on the second half: this title holds junior
    only inside a longer word and none of the seven words as a whole
    word, and is excluded all the same, through the open separator of
    the entry-level alternative. *)
Lemma isExcludedTitle_substring_counterexample :
  contains_word (word_of "junior") (str "EntryXLevel Juniorita") = true
  /\ existsb (fun w => contains_whole_word w (str "EntryXLevel Juniorita"))
       junior_signal_words = false
  /\ isExcludedTitle (str "EntryXLevel Juniorita") = true.
Proof. vm_compute. auto. Qed.

(** C3 (amended): a title that contains one of the seven junior-signal
    words as a whole word is excluded, and a title is excluded only if
    it contains, as a whole word, one of those words with the separator
    of entry-level read as any single character that is not a line
    terminator; a word that only occurs inside a longer word, as junior
    in Juniorita, does not count.  Word characters are the ASCII
    letters, digits and the underscore. *)
Theorem isExcludedTitle_whole_words :
  forall title : jsstring,
    (forall w, In w junior_signal_words ->
               contains_whole_word w title = true ->
               isExcludedTitle title = true)
    /\ isExcludedTitle title
       = existsb (fun p => contains_whole_word p title) junior_signal_patterns
    /\ isExcludedTitle (str "Juniorita") = false.
Proof.
  intros title.
  assert (E : isExcludedTitle title
              = existsb (fun p => contains_whole_word p title)
                  junior_signal_patterns)
    by apply search_EXCLUDED_TITLE_PATTERNS.
  split; [| split; [exact E | vm_compute; reflexivity]].
  intros w Hw Hc. rewrite E. apply existsb_exists.
  assert (R : exists p, In p junior_signal_patterns /\ Forall2 cls_le w p).
  { assert (Same : forall v : word, Forall2 cls_le v v).
    { induction v; constructor; auto using cls_le_refl. }
    simpl in Hw.
    destruct Hw as [<- | [<- | [<- | [<- | [<- | [<- | [<- | []]]]]]]].
    - eexists; split; [| apply Same]; simpl; tauto.
    - eexists; split; [| apply Same]; simpl; tauto.
    - eexists; split; [| apply Same]; simpl; tauto.
    - eexists; split; [| apply Same]; simpl; tauto.
    - exists (word_of "entry" ++ [CDot] ++ word_of "level").
      split; [simpl; tauto |].
      repeat first [ apply Forall2_nil
                   | apply Forall2_cons;
                     [first [apply cls_le_refl | apply cls_le_hyphen_dot] |] ].
    - eexists; split; [| apply Same]; simpl; tauto.
    - eexists; split; [| apply Same]; simpl; tauto. }
  destruct R as [p [Hp Hwp]]. exists p. split; [exact Hp |].
  apply (whole_word_from_refine w p Hwp). exact Hc.
Qed.

Lemma isExcludedTitle_whole_words_witness :
  In (word_of "jr") junior_signal_words
  /\ contains_whole_word (word_of "jr") (str "Jr. Product Manager") = true
  /\ isExcludedTitle (str "Jr. Product Manager") = true.
Proof.
  split; [| split].
  - simpl. auto.
  - reflexivity.
  - apply (proj1 (isExcludedTitle_whole_words (str "Jr. Product Manager"))
             (word_of "jr")).
    + simpl. auto.
    + reflexivity.
Defined.

(** ** Vocabulary terms as whole words *)







(** All the alternatives of the two location vocabularies spell a term
    that begins and ends with a letter, except two of the US one: u.s.
    with its final dot, and Washington D.C. with its optional white space
    and dots. *)
Example vocabulary_sizes :
  List.length NON_US_ALTERNATIVES = 92%nat
  /\ List.length (vocabulary NON_US_ALTERNATIVES) = 92%nat
  /\ List.length US_ALTERNATIVES = 87%nat
  /\ List.length (vocabulary US_ALTERNATIVES) = 85%nat.
Proof. vm_compute. auto. Qed.

(** ** scrapers/filters.ts: the location test *)

Lemma trim_nil : trim [] = [].
Proof. reflexivity. Qed.

Lemma trim_white_space_only (s : jsstring) :
  forallb isWhiteSpace s = true -> trim s = [].
Proof.
  intros H. unfold trim, trimStart.
  assert (E : dropWhile isWhiteSpace s = []).
  { induction s as [| c s IH]; simpl in *; auto.
    apply andb_true_iff in H as [Hc Hs]. rewrite Hc. auto. }
  rewrite E. reflexivity.
Qed.

Lemma stable_OUTSIDE_US : trim_stable OUTSIDE_US = true.
Proof. vm_compute. reflexivity. Qed.

Lemma stable_NON_US_PATTERNS : trim_stable NON_US_PATTERNS = true.
Proof. vm_compute. reflexivity. Qed.

Lemma stable_US_PATTERNS : trim_stable US_PATTERNS = true.
Proof. vm_compute. reflexivity. Qed.

(** On a text that is not blank the decision only depends on the three
    vocabulary tests, which may be read on the text as given. *)
Lemma isLocationUSOrRemote_text (location locationType : nullable jsstring)
    (text : jsstring) :
  location = Val text ->
  trim text <> [] ->
  isLocationUSOrRemote location locationType =
    if test OUTSIDE_US text then false
    else if test NON_US_PATTERNS text then test US_PATTERNS text
    else true.
Proof.
  intros -> Hne. unfold isLocationUSOrRemote.
  destruct text as [| c l]; [contradiction Hne; reflexivity |].
  replace (falsy (Val (c :: l))) with false by reflexivity.
  rewrite andb_false_r.
  rewrite (test_trim _ _ stable_OUTSIDE_US),
    (test_trim _ _ stable_NON_US_PATTERNS),
    (test_trim _ _ stable_US_PATTERNS).
  destruct (trim (c :: l)) as [| c' l'] eqn:Et; [contradiction Hne; reflexivity |].
  replace (falsy (Val (c' :: l'))) with false by reflexivity.
  destruct (test OUTSIDE_US (c :: l)); auto.
  destruct (test NON_US_PATTERNS (c :: l)), (test US_PATTERNS (c :: l)); auto.
  destruct (test REMOTE_GLOBAL (c' :: l')); auto.
  destruct (test NORTH_AMERICA (c' :: l')); auto.
Qed.


(** C4: an absent, empty or blank location is accepted, whatever the
    location type. *)
Theorem isLocationUSOrRemote_fails_open_on_missing :
  forall locationType : nullable jsstring,
    isLocationUSOrRemote Undefined locationType = true
    /\ isLocationUSOrRemote Null locationType = true
    /\ isLocationUSOrRemote (Val []) locationType = true
    /\ (forall location : jsstring,
           forallb isWhiteSpace location = true ->
           isLocationUSOrRemote (Val location) locationType = true).
Proof.
  intros locationType.
  assert (A : forall location, falsy location = true ->
                isLocationUSOrRemote location locationType = true).
  { intros location H. unfold isLocationUSOrRemote.
    destruct location as [| | [| c l]]; try discriminate;
      destruct (strict_eq locationType (str "REMOTE") && _); reflexivity. }
  repeat split; try (apply A; reflexivity).
  intros location H. unfold isLocationUSOrRemote.
  destruct location as [| c l]; [apply A; reflexivity |].
  rewrite (trim_white_space_only _ H).
  destruct (strict_eq locationType (str "REMOTE") && _); reflexivity.
Qed.

Lemma isLocationUSOrRemote_fails_open_on_missing_witness :
  forallb isWhiteSpace (str "   ") = true
  /\ isLocationUSOrRemote (Val (str "   ")) (Val (str "ONSITE")) = true.
Proof.
  split.
  - reflexivity.
  - apply (isLocationUSOrRemote_fails_open_on_missing (Val (str "ONSITE"))).
    reflexivity.
Defined.




(** ** db: upsertJob *)

Lemma jsstring_eqb_eq (a b : jsstring) : jsstring_eqb a b = true <-> a = b.
Proof.
  unfold jsstring_eqb. destruct (list_eq_dec N.eq_dec a b); split;
    congruence.
Qed.

Lemma jsstring_eqb_refl (a : jsstring) : jsstring_eqb a a = true.
Proof. apply jsstring_eqb_eq. reflexivity. Qed.

Lemma jsstring_eqb_neq (a b : jsstring) : jsstring_eqb a b = false <-> a <> b.
Proof.
  unfold jsstring_eqb. destruct (list_eq_dec N.eq_dec a b); split;
    congruence.
Qed.

(** *** Text as the store holds it *)

Lemma toWellFormed_plain (s : jsstring) :
  forallb (fun c => negb (in_range 55296 57343 c)) s = true ->
  toWellFormed s = s.
Proof.
  induction s as [| c s IH]; [reflexivity |].
  cbn [forallb]. intros H. apply andb_true_iff in H as [Hc Hs].
  apply negb_true_iff in Hc.
  assert (L : isLeadSurrogate c = false).
  { apply not_true_is_false. intros X. apply in_range_spec in X.
    apply not_true_iff_false in Hc. apply Hc. apply in_range_spec. lia. }
  assert (T : isTrailSurrogate c = false).
  { apply not_true_is_false. intros X. apply in_range_spec in X.
    apply not_true_iff_false in Hc. apply Hc. apply in_range_spec. lia. }
  cbn [toWellFormed]. rewrite L, T, (IH Hs). reflexivity.
Qed.

(** Text of one-byte characters is stored as it is. *)
Lemma text_str (s : string) : text (str s) = str s.
Proof.
  apply toWellFormed_plain. unfold str.
  induction (list_ascii_of_string s) as [| a l IH]; [reflexivity |].
  cbn [map forallb]. rewrite IH, andb_true_r.
  apply negb_true_iff. apply not_true_is_false. intros X.
  apply in_range_spec in X. pose proof (N_ascii_bounded a). lia.
Qed.

Lemma text_uuidv4_at (env : Env) (n : nat) :
  text (uuidv4_at env n) = uuidv4_at env n.
Proof. apply text_str. Qed.

Lemma text_now_at (env : Env) (n : nat) : text (now_at env n) = now_at env n.
Proof. apply text_str. Qed.

(** A text read from the store is stored as it is. *)
Lemma text_text (s : jsstring) : text (text s) = text s.
Proof.
  unfold text.
  assert (G : forall n s, (List.length s <= n)%nat ->
                          toWellFormed (toWellFormed s) = toWellFormed s).
  { clear s. induction n as [| n IH]; intros s Hn.
    - destruct s; [reflexivity | cbn in Hn; lia].
    - destruct s as [| c s]; [reflexivity |]. cbn [List.length] in Hn.
      cbn [toWellFormed].
      destruct (isLeadSurrogate c) eqn:L.
      + destruct s as [| d s]; [reflexivity |]. cbn [List.length] in Hn.
        destruct (isTrailSurrogate d) eqn:T.
        * cbn [toWellFormed]. rewrite L, T. rewrite IH by lia. reflexivity.
        * change (toWellFormed (65533%N :: toWellFormed (d :: s)))
            with (65533%N :: toWellFormed (toWellFormed (d :: s))).
          rewrite IH by (cbn [List.length]; lia). reflexivity.
      + destruct (isTrailSurrogate c) eqn:T.
        * change (toWellFormed (65533%N :: toWellFormed s))
            with (65533%N :: toWellFormed (toWellFormed s)).
          rewrite IH by lia. reflexivity.
        * cbn [toWellFormed]. rewrite L, T. rewrite IH by lia. reflexivity. }
  exact (G (List.length s) s (le_n _)).
Qed.

Lemma key_matches_spec (source sourceId : jsstring) (r : JobRow.t) :
  key_matches source sourceId r = true <-> job_key r = (source, sourceId).
Proof.
  unfold key_matches, job_key.
  rewrite andb_true_iff, !jsstring_eqb_eq. split.
  - intros [-> ->]. reflexivity.
  - intros [= -> ->]. auto.
Qed.

(** What one call of [upsertJob] does, in one equation. *)
Lemma upsertJob_run (env : Env) (job : JobInput.t) (w : World) :
  upsertJob env job w =
    let source := JobInput.source job in
    let sourceId := RawJob.sourceId (JobInput.raw job) in
    let id := uuidv4_at env (tick w) in
    let now := now_at env (S (tick w)) in
    match select_job_id source sourceId (db w) with
    | Some existing =>
        (Ok (mkUpsertResult existing false),
         mkWorld (update_job env existing job now (db w)) (S (S (tick w)))
           (trace w ++ [EvUpdateJob existing]))
    | None =>
        match insert_job
                (job_columns env id (text source) (text sourceId) job now)
                (db w)
        with
        | Ok d' =>
            (Ok (mkUpsertResult id true),
             mkWorld d' (S (S (tick w))) (trace w ++ [EvInsertJob id]))
        | Throw e => (Throw e, mkWorld (db w) (S (S (tick w))) (trace w))
        end
    end.
Proof.
  unfold upsertJob, bind, ask, get_db, put_db, emit, lift, ret.
  cbn [tick db trace]. rewrite text_uuidv4_at, text_now_at. cbv zeta.
  destruct (select_job_id _ _ (db w)); [reflexivity |].
  destruct (insert_job _ (db w)); reflexivity.
Qed.

Lemma select_job_id_None (source sourceId : jsstring) (d : Db.t) :
  select_job_id source sourceId d = None <->
  existsb (key_matches (text source) (text sourceId)) (Db.jobs d) = false.
Proof.
  unfold select_job_id.
  induction (Db.jobs d) as [| r l IH]; simpl; [tauto |].
  destruct (key_matches (text source) (text sourceId) r); simpl;
    [split; discriminate | exact IH].
Qed.

Lemma filter_none {A : Type} (f : A -> bool) (l : list A) :
  existsb f l = false -> filter f l = [].
Proof.
  induction l as [| a l IH]; simpl; auto.
  destruct (f a); simpl; [discriminate | exact IH].
Qed.

Lemma find_app_none {A : Type} (f : A -> bool) (l l' : list A) :
  existsb f l = false -> find f (l ++ l') = find f l'.
Proof.
  induction l as [| a l IH]; simpl; auto.
  destruct (f a); simpl; [discriminate | exact IH].
Qed.

Lemma map_untouched {A : Type} (p : A -> bool) (g : A -> A) (l : list A) :
  existsb p l = false -> map (fun a => if p a then g a else a) l = l.
Proof.
  induction l as [| a l IH]; simpl; auto.
  destruct (p a); simpl; [discriminate |]. intros H. rewrite IH; auto.
Qed.

(** The update keeps whatever depends on the key columns only. *)
Lemma update_job_keys {B : Type} (f : JobRow.t -> B) (env : Env)
    (existing : jsstring) (job : JobInput.t) (now : jsstring) (d : Db.t) :
  (forall r,
      f (job_columns env (JobRow.id r) (JobRow.source r) (JobRow.sourceId r)
           job now) = f r) ->
  map f (Db.jobs (update_job env existing job now d)) = map f (Db.jobs d).
Proof.
  intros Hf. unfold update_job. simpl. rewrite map_map. apply map_ext.
  intros r. destruct (has_job_id existing r); auto.
Qed.

Lemma NoDup_key_filter (l : list JobRow.t) (source sourceId : jsstring) :
  NoDup (map job_key l) ->
  (List.length (filter (key_matches source sourceId) l) <= 1)%nat.
Proof.
  induction l as [| r l IH]; simpl; [lia |].
  intros H. inversion H as [| k ks Hnot Hl]; subst.
  destruct (key_matches source sourceId r) eqn:E; [| auto].
  apply key_matches_spec in E. simpl.
  rewrite filter_none; [simpl; lia |].
  apply not_true_is_false. intros Hex. apply existsb_exists in Hex.
  destruct Hex as [r' [Hin Hr']]. apply key_matches_spec in Hr'.
  apply Hnot. rewrite E, <- Hr'. apply in_map. exact Hin.
Qed.

Lemma NoDup_snoc {A : Type} (l : list A) (a : A) :
  NoDup l -> ~ In a l -> NoDup (l ++ [a]).
Proof.
  induction 1 as [| b l Hb Hl IH]; simpl; intros Ha.
  - constructor; [tauto | constructor].
  - constructor.
    + rewrite in_app_iff. simpl. intros [H | [H | []]]; [tauto |].
      apply Ha. auto.
    + apply IH. tauto.
Qed.

Lemma insert_job_keys (row : JobRow.t) (d d' : Db.t) :
  insert_job row d = Ok d' ->
  NoDup (map job_key (Db.jobs d)) ->
  NoDup (map job_key (Db.jobs d')).
Proof.
  unfold insert_job.
  destruct (existsb (has_job_id (JobRow.id row)) (Db.jobs d)); [discriminate |].
  destruct (existsb (key_matches (JobRow.source row) (JobRow.sourceId row))
              (Db.jobs d)) eqn:E; [discriminate |].
  intros [= <-] H. simpl. rewrite map_app. simpl.
  apply NoDup_snoc; [exact H |].
  intros Hin. apply in_map_iff in Hin. destruct Hin as [r [Hr Hin]].
  assert (X : existsb (key_matches (JobRow.source row) (JobRow.sourceId row))
                (Db.jobs d) = true).
  { apply existsb_exists. exists r. split; [exact Hin |].
    apply key_matches_spec. exact Hr. }
  congruence.
Qed.

Lemma replace_score_ok (row : ScoreRow.t) (d d' : Db.t) :
  replace_score row d = Ok d' ->
  Db.job_scores d' = other_scores (ScoreRow.job_id row) (Db.job_scores d) ++ [row]
  /\ Db.jobs d' = Db.jobs d.
Proof.
  unfold replace_score.
  destruct (null_score_column row); [discriminate |].
  destruct (negb (existsb _ _)); [discriminate |].
  intros [= <-]. split; reflexivity.
Qed.

Lemma upsertJob_keys (env : Env) (job : JobInput.t) (w : World) :
  NoDup (map job_key (Db.jobs (db w))) ->
  NoDup (map job_key (Db.jobs (db (snd (upsertJob env job w))))).
Proof.
  intros H. rewrite upsertJob_run. cbv zeta.
  destruct (select_job_id _ _ (db w)) as [existing |].
  - cbn [snd db]. rewrite update_job_keys; [exact H | reflexivity].
  - destruct (insert_job _ (db w)) as [d' |] eqn:E; cbn [snd db];
      [| exact H].
    apply (insert_job_keys _ _ _ E H).
Qed.

Lemma insert_job_ids (row : JobRow.t) (d d' : Db.t) :
  insert_job row d = Ok d' ->
  NoDup (map JobRow.id (Db.jobs d)) ->
  NoDup (map JobRow.id (Db.jobs d')).
Proof.
  unfold insert_job.
  destruct (existsb (has_job_id (JobRow.id row)) (Db.jobs d)) eqn:E;
    [discriminate |].
  destruct (existsb (key_matches _ _) (Db.jobs d)); [discriminate |].
  intros [= <-] H. simpl. rewrite map_app. simpl.
  apply NoDup_snoc; [exact H |].
  intros Hin. apply in_map_iff in Hin. destruct Hin as [r [Hr Hin]].
  assert (X : existsb (has_job_id (JobRow.id row)) (Db.jobs d) = true).
  { apply existsb_exists. exists r. split; [exact Hin |].
    apply jsstring_eqb_eq. exact Hr. }
  congruence.
Qed.

Lemma upsertJob_ids (env : Env) (job : JobInput.t) (w : World) :
  NoDup (map JobRow.id (Db.jobs (db w))) ->
  NoDup (map JobRow.id (Db.jobs (db (snd (upsertJob env job w))))).
Proof.
  intros H. rewrite upsertJob_run. cbv zeta.
  destruct (select_job_id _ _ (db w)) as [existing |].
  - cbn [snd db]. rewrite update_job_keys; [exact H | reflexivity].
  - destruct (insert_job _ (db w)) as [d' |] eqn:E; cbn [snd db];
      [| exact H].
    apply (insert_job_ids _ _ _ E H).
Qed.

(** The other writers leave the jobs table as it is. *)
Lemma other_writers_jobs (env : Env) :
  (forall score w,
      Db.jobs (db (snd (upsertScore env score w))) = Db.jobs (db w))
  /\ (forall jobId action notes w,
         Db.jobs (db (snd (addAction env jobId action notes w)))
         = Db.jobs (db w))
  /\ (forall jobId action w,
         Db.jobs (db (snd (removeAction jobId action w))) = Db.jobs (db w))
  /\ (forall source w,
         Db.jobs (db (snd (startScrapeRun env source w))) = Db.jobs (db w))
  /\ (forall id status jobsFound jobsNew error w,
         Db.jobs (db (snd (completeScrapeRun env id status jobsFound jobsNew
                             error w)))
         = Db.jobs (db w)).
Proof.
  split; [| split; [| split; [| split]]]; intros.
  - unfold upsertScore, bind, ask, get_db, put_db, emit, lift. simpl.
    destruct (bind_reasoning _) as [reasoning |]; [| reflexivity].
    match goal with |- context [replace_score ?r ?d] =>
      destruct (replace_score r d) as [d' |] eqn:E; [| reflexivity];
      apply replace_score_ok in E; destruct E as [_ E]; exact E end.
  - unfold addAction, bind, ask, get_db, put_db, throw. simpl.
    destruct (negb (existsb _ _)); reflexivity.
  - unfold removeAction, bind, get_db, put_db. simpl.
    destruct (falsy action); reflexivity.
  - reflexivity.
  - reflexivity.
Qed.

Lemma reachable_keys (env : Env) (w : World) :
  reachable env w ->
  NoDup (map job_key (Db.jobs (db w)))
  /\ NoDup (map JobRow.id (Db.jobs (db w))).
Proof.
  destruct (other_writers_jobs env) as [W1 [W2 [W3 [W4 W5]]]].
  induction 1 as [t tr | w job _ IH | w score _ IH | w jobId action notes _ IH
                 | w jobId action _ IH | w source _ IH
                 | w id status jobsFound jobsNew error _ IH].
  - simpl. split; constructor.
  - destruct IH. split; [apply upsertJob_keys | apply upsertJob_ids];
      assumption.
  - rewrite W1. exact IH.
  - rewrite W2. exact IH.
  - rewrite W3. exact IH.
  - rewrite W4. exact IH.
  - rewrite W5. exact IH.
Qed.

(** C1: on a store that holds no row for the key, and with a generated
    identifier that is not yet a primary key, two calls of upsertJob
    with the same (source, sourceId) answer isNew = true and then
    isNew = false with the same id; afterwards the store holds exactly
    one row for the key, and each of its columns holds the value of the
    second call, as text is stored; the second call did not change the
    number of rows.  The key is compared as stored: two calls whose
    sources and source ids are the same text once stored are calls with
    the same key.  In every store that the writers of the persistence
    layer can reach, each (source, sourceId) has at most one row. *)
Theorem upsertJob_idempotent :
  forall (env : Env) (w : World) (job1 job2 : JobInput.t),
    let source := JobInput.source job1 in
    let sourceId := RawJob.sourceId (JobInput.raw job1) in
    let raw := JobInput.raw job2 in
    let id1 := uuidv4_at env (tick w) in
    let first := upsertJob env job1 w in
    let second := upsertJob env job2 (snd first) in
    (text (JobInput.source job2) = text source ->
     text (RawJob.sourceId raw) = text sourceId ->
     select_job_id source sourceId (db w) = None ->
     existsb (has_job_id id1) (Db.jobs (db w)) = false ->
     fst first = Ok (mkUpsertResult id1 true)
     /\ fst second = Ok (mkUpsertResult id1 false)
     /\ filter (key_matches (text source) (text sourceId))
          (Db.jobs (db (snd second)))
        = [JobRow.mk id1 (text source) (text sourceId)
             (text_or_null (RawJob.url raw)) (text (RawJob.title raw))
             (text_or_null (RawJob.company raw))
             (text_or_null (RawJob.description raw))
             (text_or_null (RawJob.location raw))
             (text_or_null (RawJob.locationType raw))
             (text_or_null (RawJob.seniority raw))
             (text_or_null (RawJob.category raw))
             (nullish (RawJob.salaryMin raw)) (nullish (RawJob.salaryMax raw))
             (text (JSON_stringify env
                      (JArr (map JStr (nullish_or (RawJob.tags raw) [])))))
             (text (JSON_stringify env
                      (JArr (map JStr (nullish_or (RawJob.chains raw) [])))))
             (text_or_null (RawJob.postedAt raw))
             (now_at env (3 + tick w))
             (text (JSON_stringify env
                      (nullish_or (RawJob.rawData raw) (JObj []))))]
     /\ List.length (Db.jobs (db (snd second)))
        = List.length (Db.jobs (db (snd first))))
    /\ (reachable env w ->
        forall s i : jsstring,
          (List.length (filter (key_matches s i) (Db.jobs (db w))) <= 1)%nat).
Proof.
  intros env w job1 job2 source sourceId raw id1 first second. split.
  - intros Hs Hi Hsel Hfresh.
    pose proof (proj1 (select_job_id_None _ _ _) Hsel) as Hkey.
    assert (E1 : first =
                 (Ok (mkUpsertResult id1 true),
                  mkWorld
                    (with_jobs (db w)
                       (Db.jobs (db w)
                        ++ [job_columns env id1 (text source) (text sourceId)
                              job1 (now_at env (S (tick w)))]))
                    (S (S (tick w))) (trace w ++ [EvInsertJob id1]))).
    { unfold first. rewrite upsertJob_run. fold source sourceId id1. simpl.
      rewrite Hsel. unfold insert_job. simpl. fold id1.
      rewrite Hfresh, Hkey. reflexivity. }
    assert (E2 : second =
                 (Ok (mkUpsertResult id1 false),
                  mkWorld
                    (with_jobs (db w)
                       (Db.jobs (db w)
                        ++ [job_columns env id1 (text source) (text sourceId)
                              job2 (now_at env (3 + tick w))]))
                    (4 + tick w)
                    ((trace w ++ [EvInsertJob id1]) ++ [EvUpdateJob id1]))).
    { unfold second. rewrite E1, upsertJob_run. simpl.
      unfold select_job_id. simpl. fold raw. rewrite Hs, Hi.
      rewrite (find_app_none _ _ _ Hkey). simpl.
      unfold key_matches at 1. simpl. rewrite !jsstring_eqb_refl. simpl.
      unfold update_job. simpl. rewrite map_app. simpl.
      unfold has_job_id at 2. simpl. rewrite jsstring_eqb_refl.
      rewrite (map_untouched (has_job_id id1)); [reflexivity | exact Hfresh]. }
    rewrite E2, E1. simpl. repeat split.
    + rewrite filter_app, (filter_none _ _ Hkey). simpl.
      unfold key_matches. simpl. rewrite !jsstring_eqb_refl. reflexivity.
    + rewrite !length_app. reflexivity.
  - intros Hr s i. apply NoDup_key_filter. apply (reachable_keys env w Hr).
Qed.

Lemma upsertJob_idempotent_witness :
  let job1 := JobInput.mk (str "jobstash") (Sample.raw "a1" "Product Manager") in
  let job2 := JobInput.mk (str "jobstash") (Sample.raw "a1" "Senior PM") in
  let first := upsertJob Sample.env job1 Sample.new_world in
  let second := upsertJob Sample.env job2 (snd first) in
  (fst first = Ok (mkUpsertResult [0%N] true)
   /\ fst second = Ok (mkUpsertResult [0%N] false)
   /\ map (fun r => (JobRow.id r, JobRow.title r, JobRow.scrapedAt r))
        (filter (key_matches (str "jobstash") (str "a1"))
           (Db.jobs (db (snd second))))
      = [([0%N], str "Senior PM", [3%N])]
   /\ List.length (Db.jobs (db (snd second)))
      = List.length (Db.jobs (db (snd first))))
  /\ (List.length (filter (key_matches (str "jobstash") (str "a1"))
                     (Db.jobs (db (snd second)))) <= 1)%nat.
Proof.
  intros job1 job2 first second. split.
  - destruct (proj1 (upsertJob_idempotent Sample.env Sample.new_world
                       job1 job2) eq_refl eq_refl eq_refl eq_refl)
      as [H1 [H2 [H3 H4]]].
    split; [exact H1 |]. split; [exact H2 |]. split; [| exact H4].
    change (text (JobInput.source job1)) with (str "jobstash") in H3.
    change (text (RawJob.sourceId (JobInput.raw job1))) with (str "a1") in H3.
    fold first second in H3. rewrite H3. reflexivity.
  - apply (proj2 (upsertJob_idempotent Sample.env (snd second) job1 job2)).
    unfold second, first.
    apply reach_upsertJob, reach_upsertJob, reach_new.
Defined.

(** C10: when a row for (source, sourceId) exists, upsertJob answers
    with that row's id and isNew = false; every row keeps its id, source
    and sourceId; the rows with that id take the new mutable fields and
    scrapedAt, the other rows stay as they are, and the score, action
    and run tables are left untouched. *)
Theorem upsertJob_update_frame :
  forall (env : Env) (w : World) (job : JobInput.t) (existing : jsstring),
    select_job_id (JobInput.source job) (RawJob.sourceId (JobInput.raw job))
      (db w) = Some existing ->
    let result := upsertJob env job w in
    let rows := Db.jobs (db w) in
    let rows' := Db.jobs (db (snd result)) in
    fst result = Ok (mkUpsertResult existing false)
    /\ In existing (map JobRow.id rows)
    /\ map JobRow.id rows' = map JobRow.id rows
    /\ map JobRow.source rows' = map JobRow.source rows
    /\ map JobRow.sourceId rows' = map JobRow.sourceId rows
    /\ rows' =
       map (fun r =>
              if jsstring_eqb (JobRow.id r) existing
              then job_columns env (JobRow.id r) (JobRow.source r)
                     (JobRow.sourceId r) job (now_at env (1 + tick w))
              else r)
         rows
    /\ Db.job_scores (db (snd result)) = Db.job_scores (db w)
    /\ Db.job_actions (db (snd result)) = Db.job_actions (db w)
    /\ Db.scrape_runs (db (snd result)) = Db.scrape_runs (db w).
Proof.
  intros env w job existing Hsel result rows rows'.
  unfold rows', result. rewrite upsertJob_run. simpl. rewrite Hsel. simpl.
  fold rows.
  assert (P : forall (B : Type) (f : JobRow.t -> B),
             (forall r, f (job_columns env (JobRow.id r) (JobRow.source r)
                             (JobRow.sourceId r) job
                             (now_at env (S (tick w)))) = f r) ->
             map f (map (fun r =>
                           if has_job_id existing r
                           then job_columns env (JobRow.id r) (JobRow.source r)
                                  (JobRow.sourceId r) job
                                  (now_at env (S (tick w)))
                           else r) rows)
             = map f rows).
  { intros B f Hf. rewrite map_map. apply map_ext. intros r.
    destruct (has_job_id existing r); auto. }
  split; [reflexivity |].
  split.
  { unfold select_job_id in Hsel. fold rows in Hsel.
    destruct (find _ rows) as [r |] eqn:F; [| discriminate].
    injection Hsel as <-. apply in_map. apply (find_some _ _ F). }
  split; [apply P; reflexivity |].
  split; [apply P; reflexivity |].
  split; [apply P; reflexivity |].
  repeat split.
Qed.

Lemma upsertJob_update_frame_witness :
  let job1 := JobInput.mk (str "jobstash") (Sample.raw "a1" "Product Manager") in
  let job2 := JobInput.mk (str "jobstash") (Sample.raw "a1" "Senior PM") in
  let w := snd (upsertJob Sample.env job1 Sample.new_world) in
  select_job_id (str "jobstash") (str "a1") (db w) = Some [0%N]
  /\ fst (upsertJob Sample.env job2 w) = Ok (mkUpsertResult [0%N] false).
Proof.
  intros job1 job2 w. split.
  - reflexivity.
  - apply (upsertJob_update_frame Sample.env w job2 [0%N]). reflexivity.
Defined.

(** ** scrapers/runner.ts *)

Import Runner.

Lemma fold_max_ge (ids : list Z) (x : Z) :
  In x ids -> (x <= fold_right Z.max 0 ids)%Z.
Proof.
  induction ids as [| y ids IH]; simpl; [tauto |].
  intros [-> | H]; [lia |]. specialize (IH H). lia.
Qed.

Lemma next_rowid_fresh (seq : Z) (ids : list Z) :
  ~ In (next_rowid seq ids) ids.
Proof.
  intros H. apply fold_max_ge in H. unfold next_rowid in H. lia.
Qed.

Lemma startScrapeRun_run (env : Env) (source : jsstring) (w : World) :
  startScrapeRun env source w =
    let runId :=
      next_rowid (Db.scrape_runs_seq (db w))
        (map RunRow.id (Db.scrape_runs (db w))) in
    (Ok runId,
     mkWorld
       (with_runs (db w)
          (Db.scrape_runs (db w)
           ++ [RunRow.mk runId (text source) (now_at env (tick w)) None
                 (str "running") 0 0 None])
          runId)
       (S (tick w)) (trace w ++ [EvStartRun runId source])).
Proof.
  unfold startScrapeRun, bind, ask, get_db, put_db, emit, ret.
  cbn [tick db trace]. rewrite text_now_at. reflexivity.
Qed.

(** The registered names are stored as they are. *)
Lemma text_adapter (source : jsstring) :
  is_adapter source = true -> text source = source.
Proof.
  unfold is_adapter, adapters. cbn [existsb]. intros H.
  repeat (apply orb_true_iff in H; destruct H as [H | H];
          [apply jsstring_eqb_eq in H; subst source; apply text_str |]).
  discriminate H.
Qed.

Lemma completeScrapeRun_run (env : Env) (id : Z) (status : jsstring)
    (jobsFound jobsNew : Z) (error : nullable jsstring) (w : World) :
  completeScrapeRun env id status jobsFound jobsNew error w =
    (Ok tt,
     mkWorld
       (with_runs (db w)
          (map (fun r =>
                  if (RunRow.id r =? id)%Z
                  then RunRow.mk (RunRow.id r) (RunRow.source r)
                         (RunRow.started_at r) (Some (now_at env (tick w)))
                         (text status) jobsFound jobsNew (text_or_null error)
                  else r)
             (Db.scrape_runs (db w)))
          (Db.scrape_runs_seq (db w)))
       (S (tick w)) (trace w ++ [EvCompleteRun id status])).
Proof.
  unfold completeScrapeRun, bind, ask, get_db, put_db, emit, ret.
  cbn [tick db trace]. rewrite text_now_at. reflexivity.
Qed.

Lemma adapter_scrape_run (env : Env) (source : jsstring) (w : World) :
  adapter_scrape env (Adapter source) w =
    (scrape_at env source (tick w),
     mkWorld (db w) (S (tick w)) (trace w ++ [EvScrape source])).
Proof.
  unfold adapter_scrape, bind, emit, ask, lift. simpl.
  destruct (scrape_at env source (tick w)); reflexivity.
Qed.

(** For an own key of the registry, the factory found is the one
    registered and its call returns the adapter. *)
Lemma runScraper_registered (env : Env) (source : jsstring) :
  is_adapter source = true ->
  runScraper env source =
    (runId <- startScrapeRun env source ;;
     try_catch
       (rawJobs <- adapter_scrape env (Adapter source) ;;
        jobsNew <- for_of rawJobs
                     (fun raw jobsNew =>
                        result <- upsertJob env (JobInput.mk source raw) ;;
                        ret (if isNew result then jobsNew + 1 else jobsNew)%Z)
                     0%Z ;;
        completeScrapeRun env runId (str "completed")
          (Z.of_nat (List.length rawJobs)) jobsNew Undefined ;;
        ret (Counts.mk (Z.of_nat (List.length rawJobs)) jobsNew))
       (fun error =>
          let message := error_message error in
          completeScrapeRun env runId (str "failed") 0 0 (Val message) ;;
          throw error)).
Proof.
  intros H. unfold runScraper, adapters_get. rewrite H. reflexivity.
Qed.

(** The upsert loop of [runScraper] leaves the run table alone, only
    adds job events to the trace, and counts the inserts. *)
Lemma upsert_loop_frame (env : Env) (source : jsstring)
    (rawJobs : list RawJob.t) :
  forall (n : Z) (w : World) (r : Outcome Z) (w' : World),
    for_of rawJobs
      (fun raw jobsNew =>
         result <- upsertJob env (JobInput.mk source raw) ;;
         ret (if isNew result then jobsNew + 1 else jobsNew)%Z)
      n w = (r, w') ->
    exists events,
      Db.scrape_runs (db w') = Db.scrape_runs (db w)
      /\ Db.scrape_runs_seq (db w') = Db.scrape_runs_seq (db w)
      /\ trace w' = trace w ++ events
      /\ forallb job_event events = true
      /\ forall n', r = Ok n' ->
           n' = (n + Z.of_nat (List.length (filter insert_event events)))%Z.
Proof.
  induction rawJobs as [| raw rawJobs IH]; intros n w r w'; simpl.
  - intros [= <- <-]. exists []. rewrite app_nil_r. repeat split; auto.
    intros n' [= <-]. simpl. lia.
  - unfold bind at 1. unfold bind at 1. rewrite upsertJob_run. simpl.
    destruct (select_job_id source (RawJob.sourceId raw) (db w)) as [existing |].
    + simpl. intros E. apply IH in E.
      destruct E as [events [H1 [H2 [H3 [H4 H5]]]]].
      exists (EvUpdateJob existing :: events). simpl in *.
      rewrite H1, H2, H3, <- app_assoc. repeat split; auto.
    + destruct (insert_job _ (db w)) as [d' |] eqn:E; simpl.
      * intros E'. apply IH in E'.
        destruct E' as [events [H1 [H2 [H3 [H4 H5]]]]].
        exists (EvInsertJob (uuidv4_at env (tick w)) :: events). simpl in *.
        rewrite H1, H2, H3, <- app_assoc.
        unfold insert_job in E.
        destruct (existsb _ _) in E; [discriminate |].
        destruct (existsb _ _) in E; [discriminate |].
        injection E as <-. simpl. repeat split; auto.
        intros n' Hn'. rewrite (H5 n' Hn'). lia.
      * intros [= <- <-]. exists []. rewrite app_nil_r. repeat split; auto.
        discriminate.
Qed.

Lemma complete_new_run (runs : list RunRow.t) (runId : Z) (row : RunRow.t)
    (f : RunRow.t -> RunRow.t) :
  ~ In runId (map RunRow.id runs) -> RunRow.id row = runId ->
  map (fun r => if (RunRow.id r =? runId)%Z then f r else r) (runs ++ [row])
  = runs ++ [f row].
Proof.
  intros Hfresh Hid. rewrite map_app. simpl.
  rewrite Hid, Z.eqb_refl. f_equal.
  apply (map_untouched (fun r => (RunRow.id r =? runId)%Z)).
  apply not_true_is_false. intros H. apply existsb_exists in H.
  destruct H as [r [Hin Hr]]. apply Z.eqb_eq in Hr.
  apply Hfresh. rewrite <- Hr. apply in_map. exact Hin.
Qed.

Lemma completions_job_events (runId : Z) (events : list Event) :
  forallb job_event events = true -> completions runId events = 0%nat.
Proof.
  unfold completions. induction events as [| e events IH]; simpl; auto.
  intros H. apply andb_true_iff in H as [He Hs].
  destruct e; try discriminate; auto.
Qed.

Lemma completions_app (runId : Z) (a b : list Event) :
  completions runId (a ++ b)
  = (completions runId a + completions runId b)%nat.
Proof.
  unfold completions. rewrite filter_app, length_app. reflexivity.
Qed.

Lemma scraped_app (a b : list Event) : scraped (a ++ b) = scraped a ++ scraped b.
Proof. unfold scraped. apply flat_map_app. Qed.

Lemma scraped_job_events (events : list Event) :
  forallb job_event events = true -> scraped events = [].
Proof.
  induction events as [| e events IH]; simpl; auto.
  intros H. apply andb_true_iff in H as [He Hs].
  destruct e; try discriminate; auto.
Qed.

(** One run of [runScraper] on a registered source, start to end. *)
Lemma runScraper_outcome (env : Env) (source : jsstring) (w : World) :
  is_adapter source = true ->
  let result := runScraper env source w in
  let runId :=
    next_rowid (Db.scrape_runs_seq (db w))
      (map RunRow.id (Db.scrape_runs (db w))) in
  exists (row : RunRow.t) (events : list Event),
    Db.scrape_runs (db (snd result)) = Db.scrape_runs (db w) ++ [row]
    /\ RunRow.id row = runId
    /\ RunRow.source row = source
    /\ RunRow.completed_at row <> None
    /\ trace (snd result)
       = trace w
         ++ [EvStartRun runId source; EvScrape source]
         ++ events ++ [EvCompleteRun runId (RunRow.status row)]
    /\ forallb job_event events = true
    /\ match fst result with
       | Ok counts =>
           RunRow.status row = str "completed"
           /\ RunRow.jobs_found row = Counts.jobsFound counts
           /\ RunRow.jobs_new row = Counts.jobsNew counts
           /\ RunRow.error row = None
           /\ (exists rawJobs,
                  scrape_at env source (S (tick w)) = Ok rawJobs
                  /\ Counts.jobsFound counts = Z.of_nat (List.length rawJobs))
           /\ Counts.jobsNew counts
              = Z.of_nat (List.length (filter insert_event events))
       | Throw e =>
           RunRow.status row = str "failed"
           /\ RunRow.jobs_found row = 0%Z
           /\ RunRow.jobs_new row = 0%Z
           /\ RunRow.error row = Some (text (error_message e))
       end
    /\ (forall e, scrape_at env source (S (tick w)) = Throw e ->
                  fst result = Throw e).
Proof.
  intros Hknown result runId.
  pose proof (next_rowid_fresh (Db.scrape_runs_seq (db w))
                (map RunRow.id (Db.scrape_runs (db w)))) as Hfresh.
  fold runId in Hfresh.
  unfold result. clear result.
  destruct (runScraper env source w) as [o W] eqn:E.
  rewrite (runScraper_registered env source Hknown) in E.
  unfold bind at 1 in E. rewrite startScrapeRun_run in E. cbv zeta in E.
  rewrite (text_adapter source Hknown) in E.
  fold runId in E. cbv beta iota in E.
  unfold try_catch in E. unfold bind at 1 in E.
  rewrite adapter_scrape_run in E. cbn [tick db trace] in E.
  destruct (scrape_at env source (S (tick w))) as [rawJobs | e] eqn:Es.
  - unfold bind at 1 in E.
    match type of E with context [for_of rawJobs ?b ?n0 ?w0] =>
      destruct (for_of rawJobs b n0 w0) as [[n | e] w2] eqn:El end;
      apply upsert_loop_frame in El;
      destruct El as [events [H1 [H2 [H3 [H4 H5]]]]];
      cbn [tick db trace Db.scrape_runs Db.scrape_runs_seq with_runs] in H1, H2, H3.
    + unfold bind at 1 in E. rewrite completeScrapeRun_run in E.
      rewrite text_str in E.
      unfold ret in E. rewrite H1, H3 in E.
      rewrite (complete_new_run (Db.scrape_runs (db w)) runId) in E;
      [| exact Hfresh | reflexivity].
      injection E as <- <-.
      eexists. exists events.
      cbn [fst snd db trace Db.scrape_runs with_runs RunRow.id RunRow.source
        RunRow.status RunRow.completed_at RunRow.jobs_found RunRow.jobs_new
        RunRow.error Counts.jobsFound Counts.jobsNew nullish text_or_null
        option_map].
      split; [reflexivity |]. split; [reflexivity |]. split; [reflexivity |].
      split; [discriminate |].
      split; [rewrite <- !app_assoc; reflexivity |].
      split; [exact H4 |].
      split; [| discriminate].
      repeat split; auto; try (exists rawJobs; auto);
        try (rewrite (H5 n eq_refl); lia).
    + unfold bind at 1 in E. rewrite completeScrapeRun_run in E.
      rewrite text_str in E.
      unfold throw in E. rewrite H1, H3 in E.
      rewrite (complete_new_run (Db.scrape_runs (db w)) runId) in E;
      [| exact Hfresh | reflexivity].
      injection E as <- <-.
      eexists. exists events.
      cbn [fst snd db trace Db.scrape_runs with_runs RunRow.id RunRow.source
        RunRow.status RunRow.completed_at RunRow.jobs_found RunRow.jobs_new
        RunRow.error nullish text_or_null option_map].
      split; [reflexivity |]. split; [reflexivity |]. split; [reflexivity |].
      split; [discriminate |].
      split; [rewrite <- !app_assoc; reflexivity |].
      split; [exact H4 |].
      split; [| discriminate].
      repeat split; auto.
  - unfold bind at 1 in E. rewrite completeScrapeRun_run in E.
    rewrite text_str in E.
    unfold throw in E. cbn [db trace Db.scrape_runs with_runs] in E.
    rewrite (complete_new_run (Db.scrape_runs (db w)) runId) in E;
      [| exact Hfresh | reflexivity].
    injection E as <- <-.
    eexists. exists [].
    cbn [fst snd db trace Db.scrape_runs with_runs RunRow.id RunRow.source
      RunRow.status RunRow.completed_at RunRow.jobs_found RunRow.jobs_new
      RunRow.error nullish text_or_null option_map].
    split; [reflexivity |]. split; [reflexivity |]. split; [reflexivity |].
    split; [discriminate |].
    split; [rewrite <- !app_assoc; reflexivity |].
    split; [reflexivity |].
    split; [repeat split; auto |].
    intros e' [= <-]. reflexivity.
Qed.

(** C6: for a registered source, runScraper opens a new run and
    completes that run exactly once.  When it returns, the run is
    completed with the found and new counts that it returns; when
    anything in the scrape throws, the run is failed with the error
    message and zero counts and the error is thrown on to the caller, in
    particular when the adapter call throws.  The run is never left
    running. *)
Theorem runScraper_completes_run_once :
  forall (env : Env) (source : jsstring) (w : World),
    is_adapter source = true ->
    let result := runScraper env source w in
    let runId :=
      next_rowid (Db.scrape_runs_seq (db w))
        (map RunRow.id (Db.scrape_runs (db w))) in
    exists (row : RunRow.t) (later : list Event),
      ~ In runId (map RunRow.id (Db.scrape_runs (db w)))
      /\ trace (snd result) = trace w ++ EvStartRun runId source :: later
      /\ completions runId later = 1%nat
      /\ Db.scrape_runs (db (snd result)) = Db.scrape_runs (db w) ++ [row]
      /\ RunRow.id row = runId
      /\ RunRow.source row = source
      /\ RunRow.status row <> str "running"
      /\ RunRow.completed_at row <> None
      /\ match fst result with
         | Ok counts =>
             RunRow.status row = str "completed"
             /\ RunRow.jobs_found row = Counts.jobsFound counts
             /\ RunRow.jobs_new row = Counts.jobsNew counts
             /\ RunRow.error row = None
             /\ (exists rawJobs,
                    scrape_at env source (S (tick w)) = Ok rawJobs
                    /\ Counts.jobsFound counts
                       = Z.of_nat (List.length rawJobs))
             /\ Counts.jobsNew counts
                = Z.of_nat (List.length (filter insert_event later))
         | Throw e =>
             RunRow.status row = str "failed"
             /\ RunRow.jobs_found row = 0%Z
             /\ RunRow.jobs_new row = 0%Z
             /\ RunRow.error row = Some (text (error_message e))
         end
      /\ (forall e, scrape_at env source (S (tick w)) = Throw e ->
                    fst result = Throw e).
Proof.
  intros env source w Hknown result runId.
  destruct (runScraper_outcome env source w Hknown)
    as [row [events [Hruns [Hid [Hsrc [Hdone [Htrace [Hev [Hres Hthrow]]]]]]]]].
  fold result runId in Hruns, Hid, Htrace, Hres, Hthrow.
  exists row, (EvScrape source :: events ++ [EvCompleteRun runId (RunRow.status row)]).
  split; [apply next_rowid_fresh |].
  split; [exact Htrace |].
  split.
  { change (EvScrape source :: events ++ [EvCompleteRun runId (RunRow.status row)])
      with ([EvScrape source] ++ events ++ [EvCompleteRun runId (RunRow.status row)]).
    rewrite !completions_app, (completions_job_events _ _ Hev).
    unfold completions. simpl. rewrite Z.eqb_refl. reflexivity. }
  split; [exact Hruns |]. split; [exact Hid |]. split; [exact Hsrc |].
  split.
  { destruct (fst result); destruct Hres as [-> _]; discriminate. }
  split; [exact Hdone |].
  split; [| exact Hthrow].
  destruct (fst result) as [counts | e]; [| exact Hres].
  destruct Hres as [H1 [H2 [H3 [H4 [H5 H6]]]]].
  repeat (split; [assumption |]).
  rewrite H6. simpl. rewrite filter_app. simpl. rewrite app_nil_r. reflexivity.
Qed.

Lemma runScraper_completes_run_once_witness :
  is_adapter (str "safary") = true
  /\ exists row,
       Db.scrape_runs
         (db (snd (runScraper Sample.env (str "safary") Sample.new_world)))
       = [row]
       /\ RunRow.status row = str "failed"
       /\ RunRow.error row = Some (str "navigation timeout").
Proof.
  split; [reflexivity |].
  destruct (runScraper_completes_run_once Sample.env (str "safary")
              Sample.new_world eq_refl)
    as [row [later [_ [_ [_ [Hruns [_ [_ [_ [_ [Hres Hthrow]]]]]]]]]]].
  exists row. split; [exact Hruns |].
  rewrite (Hthrow (JsError (str "navigation timeout")) eq_refl) in Hres.
  destruct Hres as [Hs [_ [_ He]]]. split; [exact Hs | exact He].
Defined.

(** ** runAllScrapers *)

Lemma assign_fresh {A : Type} (results : list (jsstring * A))
    (source : jsstring) (value : A) :
  ~ In source (map fst results) ->
  assign results source value = results ++ [(source, value)].
Proof.
  induction results as [| [k v] results IH]; simpl; auto.
  intros H. destruct (jsstring_eqb k source) eqn:E.
  - apply jsstring_eqb_eq in E. tauto.
  - rewrite IH; tauto.
Qed.

(** One round of the loop of [runAllScrapers]. *)
Lemma runAll_step (env : Env) (source : jsstring)
    (results : list (jsstring * Counts.t)) (w : World) :
  is_adapter source = true ->
  ~ In source (map fst results) ->
  exists (counts : Counts.t) (events : list Event),
    try_catch
      (counts <- runScraper env source ;;
       ret (assign results source counts))
      (fun _ => ret (assign results source (Counts.mk 0 0))) w
    = (Ok (results ++ [(source, counts)]), snd (runScraper env source w))
    /\ trace (snd (runScraper env source w)) = trace w ++ events
    /\ scraped events = [source]
    /\ ((exists e, scrape_at env source (S (tick w)) = Throw e) ->
        counts = Counts.mk 0 0).
Proof.
  intros Hknown Hfresh.
  destruct (runScraper_outcome env source w Hknown)
    as [row [events [_ [_ [_ [_ [Htrace [Hev [_ Hthrow]]]]]]]]].
  unfold try_catch, bind, ret.
  destruct (runScraper env source w) as [[counts | e] w'] eqn:E;
    simpl in Htrace, Hthrow; rewrite assign_fresh by assumption.
  - exists counts. eexists.
    split; [reflexivity |]. split; [exact Htrace |].
    split.
    { match goal with
      | |- scraped (?a :: ?b :: ?c ++ [?d]) = _ =>
          change (scraped ([a; b] ++ c ++ [d]) = [source])
      end.
      rewrite !scraped_app, (scraped_job_events _ Hev). reflexivity. }
    intros [e He]. specialize (Hthrow e He). discriminate.
  - exists (Counts.mk 0 0). eexists.
    split; [reflexivity |]. split; [exact Htrace |].
    split.
    { match goal with
      | |- scraped (?a :: ?b :: ?c ++ [?d]) = _ =>
          change (scraped ([a; b] ++ c ++ [d]) = [source])
      end.
      rewrite !scraped_app, (scraped_job_events _ Hev). reflexivity. }
    auto.
Qed.

Lemma runAll_loop (env : Env) (sources : list jsstring) :
  forall (results : list (jsstring * Counts.t)) (w : World),
    (forall s, In s sources -> is_adapter s = true) ->
    NoDup sources ->
    (forall s, In s sources -> ~ In s (map fst results)) ->
    exists (entries : list (jsstring * Counts.t)) (events : list Event),
      for_of sources
        (fun source results =>
           try_catch
             (counts <- runScraper env source ;;
              ret (assign results source counts))
             (fun _ => ret (assign results source (Counts.mk 0 0))))
        results w
      = (Ok (results ++ entries), after_scraping env sources w)
      /\ map fst entries = sources
      /\ trace (after_scraping env sources w) = trace w ++ events
      /\ scraped events = sources
      /\ forall earlier s later,
           sources = earlier ++ s :: later ->
           (exists e,
               scrape_at env s (S (tick (after_scraping env earlier w)))
               = Throw e) ->
           In (s, Counts.mk 0 0) entries.
Proof.
  induction sources as [| s rest IH]; intros results w Hknown Hnodup Hfresh.
  - exists [], []. simpl. rewrite !app_nil_r. repeat split; auto.
    intros [| x earlier] s later E; discriminate E.
  - inversion Hnodup as [| s' rest' Hs Hrest]; subst.
    destruct (runAll_step env s results w) as [counts [ev1 [E1 [T1 [S1 Z1]]]]].
    { apply Hknown. left. reflexivity. }
    { apply Hfresh. left. reflexivity. }
    change (after_scraping env (s :: rest) w)
      with (after_scraping env rest (snd (runScraper env s w))).
    destruct (IH (results ++ [(s, counts)]) (snd (runScraper env s w)))
      as [entries [ev2 [E2 [K2 [T2 [S2 Z2]]]]]].
    { intros x Hx. apply Hknown. right. exact Hx. }
    { exact Hrest. }
    { intros x Hx. rewrite map_app, in_app_iff. simpl.
      intros [H | [H | []]].
      - apply (Hfresh x); [right; exact Hx | exact H].
      - subst x. contradiction. }
    exists ((s, counts) :: entries), (ev1 ++ ev2).
    split.
    { simpl for_of. unfold bind at 1. rewrite E1, E2, <- app_assoc. reflexivity. }
    split; [simpl; rewrite K2; reflexivity |].
    split; [rewrite T2, T1, app_assoc; reflexivity |].
    split; [rewrite scraped_app, S1, S2; reflexivity |].
    intros [| x earlier] s0 later E Hthrows.
    + injection E as <- _. left. rewrite Z1; [reflexivity | exact Hthrows].
    + injection E as <- E. right.
      apply (Z2 earlier s0 later E). exact Hthrows.
Qed.



(** ** scorer/scorer.ts *)

Import Scorer.

Lemma judge_accepts_object (env : Env) (job : JobSummary.t) (t : nat)
    (parsed : jsval) :
  judge_accepts env job t = Some parsed ->
  exists fields,
    parsed = JObj fields
    /\ is_number (lookup_field (str "overall_score") fields) = true.
Proof.
  unfold judge_accepts.
  destruct (judge_at env job t) as [[| | raw] | e]; try discriminate.
  destruct (falsy (Val (trim raw))); try discriminate.
  destruct (JSON_parse env (trim raw)) as [p | e]; try discriminate.
  destruct p as [| | b | x | s | l | fields]; simpl; try discriminate.
  destruct (is_number (lookup_field (str "overall_score") fields)) eqn:E;
    try discriminate.
  intros [= <-]. exists fields. auto.
Qed.

Lemma askJudge_run (env : Env) (job : JobSummary.t) (w : World) :
  exists o,
    askJudge env job w
    = (o, mkWorld (db w) (S (tick w))
            (trace w ++ [EvJudge (JobSummary.id job)]))
    /\ match judge_accepts env job (tick w) with
       | Some parsed => o = Ok parsed
       | None => exists e, o = Throw e
       end.
Proof.
  unfold askJudge, judge_accepts, bind, emit, ask, lift, throw, ret. simpl.
  destruct (judge_at env job (tick w)) as [[| | raw] | e];
    try (eexists; split; [reflexivity | eexists; reflexivity]).
  destruct (trim raw) as [| c content] eqn:Et; simpl;
    try (eexists; split; [reflexivity | eexists; reflexivity]).
  destruct (JSON_parse env (c :: content)) as [p | e];
    try (eexists; split; [reflexivity | eexists; reflexivity]).
  destruct (get_prop p (str "overall_score")) as [v | e];
    try (eexists; split; [reflexivity | eexists; reflexivity]).
  destruct (is_number v); simpl;
    eexists; (split; [reflexivity |]); try reflexivity.
  eexists; reflexivity.
Qed.

(** The retry loop: [k] requests were made; it returns the first
    accepted reply, or throws after the last allowed attempt. *)
Lemma withRetry_from_run (env : Env) (job : JobSummary.t) (n : nat) :
  forall (last : Exn) (w : World),
    exists (k : nat) (o : Outcome jsval),
      withRetry_from (askJudge env job) n last w
      = (o, mkWorld (db w) (k + tick w)
              (trace w ++ repeat (EvJudge (JobSummary.id job)) k))
      /\ (k <= n)%nat
      /\ match o with
         | Ok parsed =>
             exists a, k = S a
                       /\ judge_accepts env job (a + tick w) = Some parsed
         | Throw _ => k = n
         end
      /\ ((forall t, judge_accepts env job t = None) ->
          exists e, o = Throw e).
Proof.
  induction n as [| n IH]; intros last w.
  - exists 0%nat, (Throw last). simpl. rewrite app_nil_r.
    destruct w. repeat split; auto. eauto.
  - simpl withRetry_from. unfold try_catch.
    destruct (askJudge_run env job w) as [o [E Ho]]. rewrite E.
    destruct (judge_accepts env job (tick w)) as [parsed |] eqn:Ea.
    + subst o. exists 1%nat, (Ok parsed). simpl.
      repeat split; auto; try lia.
      * exists 0%nat. auto.
      * intros H. rewrite H in Ea. discriminate.
    + destruct Ho as [e ->].
      destruct (IH e (mkWorld (db w) (S (tick w))
                        (trace w ++ [EvJudge (JobSummary.id job)])))
        as [k [o [E2 [Hk [Ho Hrej]]]]].
      exists (S k), o. rewrite E2. simpl.
      rewrite <- app_assoc, Nat.add_succ_r. simpl.
      repeat split; auto; try lia.
      destruct o as [parsed | e']; [| lia].
      destruct Ho as [a [-> Ha]]. exists (S a). split; [reflexivity |].
      simpl in Ha. rewrite Nat.add_succ_r in Ha. exact Ha.
Qed.

Lemma upsertScore_run (env : Env) (score : ScoreInput.t) (w : World) :
  upsertScore env score w =
    match
      and_then (bind_reasoning (ScoreInput.reasoning score))
        (fun reasoning =>
           replace_score
             (ScoreRow.mk (text (ScoreInput.jobId score))
                (ScoreInput.overallScore score)
                (ScoreInput.relevanceScore score)
                (ScoreInput.experienceMatch score)
                (ScoreInput.domainMatch score)
                (ScoreInput.seniorityFit score)
                reasoning (now_at env (tick w))
                (text (ScoreInput.modelUsed score))) (db w))
    with
    | Ok d' =>
        (Ok tt,
         mkWorld d' (S (tick w))
           (trace w ++ [EvUpsertScore (ScoreInput.jobId score)]))
    | Throw e => (Throw e, mkWorld (db w) (S (tick w)) (trace w))
    end.
Proof.
  unfold upsertScore, bind, ask, get_db, put_db, emit, lift. simpl.
  rewrite text_now_at.
  destruct (bind_reasoning _); simpl; [| reflexivity].
  destruct (replace_score _ (db w)); reflexivity.
Qed.

Lemma text_MODEL : text MODEL = MODEL.
Proof. apply text_str. Qed.

Lemma write_score_ok (env : Env) (job : JobSummary.t)
    (fields : list (jsstring * jsval)) (now : jsstring) (d d' : Db.t) :
  write_score env job fields now d = Ok d' ->
  exists reasoning,
    bind_reasoning (lookup_field (str "reasoning") fields) = Ok reasoning
    /\ replace_score (score_row env job fields reasoning now) d = Ok d'.
Proof.
  unfold write_score.
  destruct (bind_reasoning _) as [reasoning | e]; simpl; [| discriminate].
  intros H. exists reasoning. auto.
Qed.

(** A listing that cannot be written: [scoreJob] throws before its first
    request. *)
Lemma scoreJob_unbuilt (env : Env) (job : JobSummary.t) (w : World) :
  prompt_builds env job = false ->
  exists e, scoreJob env job w = (Throw e, w).
Proof.
  unfold prompt_builds, scoreJob. unfold bind at 1. unfold lift.
  destruct (jobDescription env job) as [prompt | e]; [discriminate |].
  intros _. exists e. reflexivity.
Qed.

(** One call of [scoreJob] on a job whose listing can be written: [k]
    requests to the judge, then either the write of the row computed
    from the accepted reply, or the error of the last attempt. *)
Lemma scoreJob_run (env : Env) (job : JobSummary.t) (w : World) :
  prompt_builds env job = true ->
  exists k : nat,
    let w1 :=
      mkWorld (db w) (k + tick w)
        (trace w ++ repeat (EvJudge (JobSummary.id job)) k) in
    ((exists a fields,
         k = S a /\ (k <= 3)%nat
         /\ judge_accepts env job (a + tick w) = Some (JObj fields)
         /\ scoreJob env job w =
            match write_score env job fields (now_at env (k + tick w)) (db w)
            with
            | Ok d' =>
                (Ok tt,
                 mkWorld d' (S (k + tick w))
                   (trace w1 ++ [EvUpsertScore (JobSummary.id job)]))
            | Throw e => (Throw e, mkWorld (db w) (S (k + tick w)) (trace w1))
            end)
     \/ (k = 3%nat /\ exists e, scoreJob env job w = (Throw e, w1)))
    /\ ((forall t, judge_accepts env job t = None) ->
        exists e, scoreJob env job w = (Throw e, w1)).
Proof.
  intros Hp. unfold prompt_builds in Hp.
  destruct (withRetry_from_run env job 3 (JsThrown (str "undefined")) w)
    as [k [o [E [Hk [Ho Hrej]]]]].
  exists k. intros w1.
  destruct o as [parsed | e].
  - destruct Ho as [a [-> Ha]].
    destruct (judge_accepts_object _ _ _ _ Ha) as [fields [-> Hnum]].
    split.
    + left. exists a, fields. repeat split; auto.
      unfold scoreJob. unfold bind at 1. unfold lift at 1.
      destruct (jobDescription env job); [| discriminate].
      unfold withRetry. unfold bind at 1. rewrite E.
      unfold bind, lift. simpl get_prop. cbv iota beta.
      rewrite upsertScore_run.
      cbn [ScoreInput.reasoning ScoreInput.overallScore
           ScoreInput.relevanceScore ScoreInput.experienceMatch
           ScoreInput.domainMatch ScoreInput.seniorityFit ScoreInput.jobId
           ScoreInput.modelUsed db tick trace].
      rewrite text_MODEL. reflexivity.
    + intros H. destruct (Hrej H) as [e He]. discriminate.
  - subst k.
    assert (Es : scoreJob env job w = (Throw e, w1)).
    { unfold scoreJob. unfold bind at 1. unfold lift at 1.
      destruct (jobDescription env job); [| discriminate].
      unfold withRetry. unfold bind at 1. rewrite E. reflexivity. }
    split.
    + right. split; [reflexivity |]. exists e. exact Es.
    + intros _. exists e. exact Es.
Qed.


Lemma Math_round_finite (env : Env) (q : Q) :
  let z := Qfloor (q + (1 # 2)) in
  Math_round env (JNum (Fin q)) = Fin (inject_Z z)
  /\ (q - (1 # 2) < inject_Z z)%Q
  /\ (inject_Z z <= q + (1 # 2))%Q.
Proof.
  intros z. split; [reflexivity |]. split.
  - pose proof (Qlt_floor (q + (1 # 2))) as H. fold z in H.
    rewrite inject_Z_plus in H. change (inject_Z 1) with 1%Q in H. lra.
  - apply Qfloor_le.
Qed.

(** C8: a score row is written only from a reply that askJudge
    accepted, that is, a parsed object with a numeric overall_score, and
    each of its five score columns is Math.round of the reply's field of
    that name; in particular the stored overall score is the rounded
    overall_score of the judge, whatever the four sub-scores are.  The
    row is keyed by the job id as the store holds it, and its reasoning
    is the value that the driver bound for the reply's reasoning.  On a
    finite number Math.round gives the integer within one half of it
    (ties upwards).  For a job that is in the store and whose listing
    can be written, a reply accepted at the first attempt whose five
    scores are finite numbers and whose reasoning can be bound is
    written. *)
Theorem scoreJob_stores_rounded_judge_scores :
  forall (env : Env) (job : JobSummary.t) (w : World),
    (forall w',
        scoreJob env job w = (Ok tt, w') ->
        exists attempt fields reasoning,
          (attempt < 3)%nat
          /\ prompt_builds env job = true
          /\ judge_accepts env job (attempt + tick w) = Some (JObj fields)
          /\ bind_reasoning (lookup_field (str "reasoning") fields)
             = Ok reasoning
          /\ Db.job_scores (db w')
             = other_scores (text (JobSummary.id job)) (Db.job_scores (db w))
               ++ [ScoreRow.mk (text (JobSummary.id job))
                     (Math_round env (lookup_field (str "overall_score") fields))
                     (Math_round env (lookup_field (str "relevance_score") fields))
                     (Math_round env (lookup_field (str "experience_match") fields))
                     (Math_round env (lookup_field (str "domain_match") fields))
                     (Math_round env (lookup_field (str "seniority_fit") fields))
                     reasoning
                     (now_at env (S attempt + tick w)) MODEL])
    /\ (forall fields q0 q1 q2 q3 q4 reasoning,
           prompt_builds env job = true ->
           judge_accepts env job (tick w) = Some (JObj fields) ->
           lookup_field (str "overall_score") fields = JNum (Fin q0) ->
           lookup_field (str "relevance_score") fields = JNum (Fin q1) ->
           lookup_field (str "experience_match") fields = JNum (Fin q2) ->
           lookup_field (str "domain_match") fields = JNum (Fin q3) ->
           lookup_field (str "seniority_fit") fields = JNum (Fin q4) ->
           bind_reasoning (lookup_field (str "reasoning") fields)
           = Ok reasoning ->
           existsb (has_job_id (text (JobSummary.id job))) (Db.jobs (db w))
           = true ->
           fst (scoreJob env job w) = Ok tt)
    /\ (forall q : Q,
           Math_round env (JNum (Fin q)) = Fin (inject_Z (Qfloor (q + (1 # 2))))
           /\ (q - (1 # 2) < inject_Z (Qfloor (q + (1 # 2))))%Q
           /\ (inject_Z (Qfloor (q + (1 # 2))) <= q + (1 # 2))%Q).
Proof.
  intros env job w. split; [| split].
  - intros w' Hrun.
    destruct (prompt_builds env job) eqn:Hp.
    2: { destruct (scoreJob_unbuilt env job w Hp) as [e E].
         rewrite Hrun in E. discriminate. }
    destruct (scoreJob_run env job w Hp) as [k [[H | H] _]].
    + destruct H as [a [fields [-> [Hk [Ha E]]]]].
      rewrite Hrun in E.
      destruct (write_score _ _ _ _ (db w)) as [d' |] eqn:Er; [| discriminate].
      injection E as ->. cbn [db].
      apply write_score_ok in Er. destruct Er as [reasoning [Hb Er]].
      exists a, fields, reasoning. split; [lia |]. split; [reflexivity |].
      split; [exact Ha |]. split; [exact Hb |].
      apply replace_score_ok in Er. destruct Er as [Er _]. exact Er.
    + destruct H as [_ [e E]]. rewrite Hrun in E. discriminate.
  - intros fields q0 q1 q2 q3 q4 reasoning Hp Ha H0 H1 H2 H3 H4 Hb Hj.
    unfold prompt_builds in Hp. unfold scoreJob.
    unfold bind at 1. unfold lift at 1.
    destruct (jobDescription env job); [| discriminate].
    unfold withRetry. simpl withRetry_from.
    unfold bind at 1. unfold try_catch.
    destruct (askJudge_run env job w) as [o [E Ho]]. rewrite E, Ha in *.
    subst o. unfold bind, lift. simpl get_prop. cbv iota beta.
    rewrite upsertScore_run. unfold replace_score, null_score_column.
    cbn [ScoreRow.reasoning ScoreRow.overall_score ScoreRow.relevance_score
         ScoreRow.experience_match ScoreRow.domain_match ScoreRow.seniority_fit
         ScoreRow.job_id ScoreInput.reasoning ScoreInput.overallScore
         ScoreInput.relevanceScore ScoreInput.experienceMatch
         ScoreInput.domainMatch ScoreInput.seniorityFit ScoreInput.jobId
         db tick trace].
    rewrite Hb, H0, H1, H2, H3, H4. cbn [and_then].
    cbn [ScoreRow.reasoning ScoreRow.overall_score ScoreRow.relevance_score
         ScoreRow.experience_match ScoreRow.domain_match ScoreRow.seniority_fit
         ScoreRow.job_id].
    unfold Math_round. cbn [ToNumber Math_round_num is_NaN].
    rewrite Hj. reflexivity.
  - intros q. apply (Math_round_finite env q).
Qed.

Lemma scoreJob_stores_rounded_judge_scores_witness :
  let job :=
    JobSummary.mk [0%N] (str "Product Manager") None None None None
      (str "json") (str "json") (str "json") in
  let w :=
    snd (upsertJob Sample.env
           (JobInput.mk (str "jobstash") (Sample.raw "a1" "Product Manager"))
           Sample.new_world) in
  fst (scoreJob Sample.env job w) = Ok tt
  /\ map (fun s =>
            (ScoreRow.job_id s, ScoreRow.overall_score s,
             ScoreRow.relevance_score s,
             ScoreRow.experience_match s, ScoreRow.domain_match s,
             ScoreRow.seniority_fit s, ScoreRow.reasoning s))
       (Db.job_scores (db (snd (scoreJob Sample.env job w))))
     = [([0%N], Fin (inject_Z 36), Fin (inject_Z 80), Fin (inject_Z 65),
         Fin (inject_Z 90), Fin (inject_Z (-2)), JStr (str "fits"))].
Proof.
  intros job w.
  assert (A : fst (scoreJob Sample.env job w) = Ok tt).
  { apply (proj1 (proj2 (scoreJob_stores_rounded_judge_scores
                           Sample.env job w))
             Sample.reply_fields (71 # 2) 80 (129 # 2) 90 (-(5 # 2))
             (JStr (str "fits")))%Q;
      vm_compute; reflexivity. }
  split; [exact A |].
  destruct (scoreJob Sample.env job w) as [o w'] eqn:E.
  simpl in A. subst o.
  destruct (proj1 (scoreJob_stores_rounded_judge_scores Sample.env job w) w' E)
    as [attempt [fields [reasoning [Hlt [_ [Ha [Hb Hrows]]]]]]].
  cbn [snd]. rewrite Hrows.
  vm_compute in Ha. injection Ha as <-.
  vm_compute in Hb. injection Hb as <-. vm_compute. reflexivity.
Defined.

(** ** scoreUnscored *)

Lemma existsb_filter {A : Type} (p q : A -> bool) (l : list A) :
  existsb p (filter q l) = existsb (fun a => q a && p a) l.
Proof.
  induction l as [| a l IH]; simpl; auto.
  destruct (q a); simpl; rewrite IH; reflexivity.
Qed.

Lemma has_score_replace (row : ScoreRow.t) (d d' : Db.t) (i : jsstring) :
  replace_score row d = Ok d' ->
  has_score d' i = has_score d i || jsstring_eqb i (ScoreRow.job_id row).
Proof.
  intros H. apply replace_score_ok in H. destruct H as [H _].
  unfold has_score. rewrite H. unfold other_scores.
  rewrite existsb_app, existsb_filter. simpl. rewrite orb_false_r.
  destruct (jsstring_eqb i (ScoreRow.job_id row)) eqn:E.
  - apply jsstring_eqb_eq in E. subst i.
    rewrite jsstring_eqb_refl, !orb_true_r. reflexivity.
  - assert (E' : jsstring_eqb (ScoreRow.job_id row) i = false).
    { apply jsstring_eqb_neq. apply jsstring_eqb_neq in E. congruence. }
    rewrite E', !orb_false_r.
    apply existsb_pointwise. intros s.
    destruct (jsstring_eqb (ScoreRow.job_id s) i) eqn:Es;
      [| apply andb_false_r].
    apply jsstring_eqb_eq in Es. rewrite Es, E. reflexivity.
Qed.

Lemma judged_app (a b : list Event) : judged (a ++ b) = judged a ++ judged b.
Proof. unfold judged. apply flat_map_app. Qed.

Lemma scored_app (a b : list Event) : scored (a ++ b) = scored a ++ scored b.
Proof. unfold scored. apply flat_map_app. Qed.

Lemma judged_repeat (i : jsstring) (k : nat) :
  judged (repeat (EvJudge i) k) = repeat i k.
Proof. induction k; simpl; congruence. Qed.

Lemma scored_repeat (i : jsstring) (k : nat) :
  scored (repeat (EvJudge i) k) = [].
Proof. induction k; simpl; congruence. Qed.

(** What one call of [scoreJob] leaves behind. *)
Lemma scoreJob_effect (env : Env) (job : JobSummary.t) (w : World) :
  exists events,
    trace (snd (scoreJob env job w)) = trace w ++ events
    /\ (prompt_builds env job = true -> In (JobSummary.id job) (judged events))
    /\ match fst (scoreJob env job w) with
       | Ok _ =>
           scored events = [JobSummary.id job]
           /\ prompt_builds env job = true
           /\ (exists a, (a < 3)%nat
                         /\ judge_accepts env job (a + tick w) <> None)
           /\ forall i,
                has_score (db (snd (scoreJob env job w))) i
                = has_score (db w) i
                  || jsstring_eqb i (text (JobSummary.id job))
       | Throw _ =>
           scored events = []
           /\ Db.job_scores (db (snd (scoreJob env job w)))
              = Db.job_scores (db w)
       end.
Proof.
  destruct (prompt_builds env job) eqn:Hp.
  2: { destruct (scoreJob_unbuilt env job w Hp) as [e E]. rewrite E.
       exists []. cbn [fst snd]. rewrite app_nil_r.
       split; [reflexivity |]. split; [discriminate |].
       split; reflexivity. }
  destruct (scoreJob_run env job w Hp) as [k [[H | H] _]].
  - destruct H as [a [fields [-> [Hk [Ha E]]]]]. rewrite E.
    destruct (write_score _ _ _ _ (db w)) as [d' |] eqn:Er;
      cbn [fst snd db trace].
    + apply write_score_ok in Er. destruct Er as [reasoning [Hb Er]].
      exists (repeat (EvJudge (JobSummary.id job)) (S a)
              ++ [EvUpsertScore (JobSummary.id job)]).
      split; [rewrite app_assoc; reflexivity |].
      split; [intros _; rewrite judged_app, judged_repeat; simpl; auto |].
      split; [rewrite scored_app, scored_repeat; reflexivity |].
      split; [reflexivity |].
      split; [exists a; split; [lia | congruence] |].
      intros i. apply (has_score_replace _ _ _ i Er).
    + exists (repeat (EvJudge (JobSummary.id job)) (S a)).
      split; [reflexivity |].
      split; [intros _; rewrite judged_repeat; simpl; auto |].
      split; [apply scored_repeat | reflexivity].
  - destruct H as [-> [e E]]. rewrite E. cbn [fst snd db trace].
    exists (repeat (EvJudge (JobSummary.id job)) 3).
    split; [reflexivity |].
    split; [intros _; rewrite judged_repeat; simpl; auto |].
    split; [apply scored_repeat | reflexivity].
Qed.

Lemma existsb_eqb_In (i : jsstring) (l : list jsstring) :
  existsb (jsstring_eqb i) l = true <-> In i l.
Proof.
  rewrite existsb_exists. split.
  - intros [x [Hx E]]. apply jsstring_eqb_eq in E. subst x. exact Hx.
  - intros H. exists i. split; [exact H | apply jsstring_eqb_refl].
Qed.

(** The loop of [scoreUnscored]. *)
Lemma score_loop (env : Env) (jobs : list JobSummary.t) :
  forall (n : Z) (w : World),
    exists (events : list Event),
      for_of jobs
        (fun job scored =>
           try_catch (scoreJob env job ;; ret (scored + 1)%Z)
             (fun _ => ret scored))
        n w
      = (Ok (n + Z.of_nat (List.length (scored events)))%Z,
         after_scoring env jobs w)
      /\ trace (after_scoring env jobs w) = trace w ++ events
      /\ (List.length (scored events) <= List.length jobs)%nat
      /\ (forall job, In job jobs -> prompt_builds env job = true ->
                      In (JobSummary.id job) (judged events))
      /\ (forall i, In i (scored events) ->
            exists earlier job later a,
              jobs = earlier ++ job :: later
              /\ JobSummary.id job = i
              /\ prompt_builds env job = true
              /\ (a < 3)%nat
              /\ judge_accepts env job
                   (a + tick (after_scoring env earlier w)) <> None)
      /\ (forall i,
            has_score (db (after_scoring env jobs w)) i
            = has_score (db w) i
              || existsb (jsstring_eqb i) (map text (scored events))).
Proof.
  induction jobs as [| job jobs IH]; intros n w.
  - exists []. simpl. rewrite app_nil_r, Z.add_0_r.
    repeat split; auto; try tauto.
    intros i. rewrite orb_false_r. reflexivity.
  - destruct (scoreJob_effect env job w) as [ev1 [T1 [J1 R1]]].
    match goal with |- context [for_of (job :: jobs) ?body n w] =>
      assert (Estep : for_of (job :: jobs) body n w =
                      match fst (scoreJob env job w) with
                      | Ok _ =>
                          for_of jobs body (n + 1)%Z (snd (scoreJob env job w))
                      | Throw _ =>
                          for_of jobs body n (snd (scoreJob env job w))
                      end)
        by (simpl for_of; unfold bind, try_catch, ret;
            destruct (scoreJob env job w) as [[[] | e] w1]; reflexivity)
    end.
    change (after_scoring env (job :: jobs) w)
      with (after_scoring env jobs (snd (scoreJob env job w))).
    set (w1 := snd (scoreJob env job w)) in *.
    assert (Tail : forall i ev2,
               (forall i', In i' (scored ev2) ->
                  exists earlier j later a,
                    jobs = earlier ++ j :: later
                    /\ JobSummary.id j = i'
                    /\ prompt_builds env j = true
                    /\ (a < 3)%nat
                    /\ judge_accepts env j
                         (a + tick (after_scoring env earlier w1)) <> None) ->
               In i (scored ev2) ->
               exists earlier j later a,
                 job :: jobs = earlier ++ j :: later
                 /\ JobSummary.id j = i
                 /\ prompt_builds env j = true
                 /\ (a < 3)%nat
                 /\ judge_accepts env j
                      (a + tick (after_scoring env earlier w)) <> None).
    { intros i ev2 S2 Hi.
      destruct (S2 i Hi) as [earlier [j [later [a [Ej [Eid [Hp [Ha Hacc]]]]]]]].
      exists (job :: earlier), j, later, a. rewrite Ej.
      repeat split; auto. }
    rewrite Estep. clear Estep.
    destruct (fst (scoreJob env job w)) as [[] | e].
    + destruct R1 as [S1 [P1 [A1 H1]]].
      destruct (IH (n + 1)%Z w1) as [ev2 [E2 [T2 [L2 [J2 [S2 H2]]]]]].
      exists (ev1 ++ ev2). rewrite E2, scored_app, S1.
      split; [f_equal; f_equal; simpl; lia |].
      split; [rewrite T2, T1, app_assoc; reflexivity |].
      split; [simpl; lia |].
      split.
      { intros j [<- | Hj] Hp; rewrite judged_app, in_app_iff; auto. }
      split.
      { intros i [<- | Hi].
        - destruct A1 as [a [Ha Hacc]].
          exists [], job, jobs, a. repeat split; auto.
        - apply (Tail i ev2 S2 Hi). }
      intros i. rewrite H2, H1. simpl. rewrite orb_assoc. reflexivity.
    + destruct R1 as [S1 H1].
      destruct (IH n w1) as [ev2 [E2 [T2 [L2 [J2 [S2 H2]]]]]].
      exists (ev1 ++ ev2). rewrite E2, scored_app, S1.
      split; [reflexivity |].
      split; [rewrite T2, T1, app_assoc; reflexivity |].
      split; [simpl; lia |].
      split.
      { intros j [<- | Hj] Hp; rewrite judged_app, in_app_iff; auto. }
      split.
      { intros i Hi. simpl in Hi. apply (Tail i ev2 S2 Hi). }
      intros i. rewrite H2. unfold has_score. rewrite H1. reflexivity.
Qed.

Lemma sql_limit_length {A : Type} (limit : Z) (rows : list A) :
  (0 <= limit)%Z ->
  (Z.of_nat (List.length (sql_limit limit rows)) <= limit)%Z.
Proof.
  intros H. unfold sql_limit.
  destruct (Z.ltb_spec limit 0); [lia |].
  rewrite length_firstn. lia.
Qed.

Lemma sql_limit_incl {A : Type} (limit : Z) (rows : list A) (a : A) :
  In a (sql_limit limit rows) -> In a rows.
Proof.
  unfold sql_limit. destruct (limit <? 0)%Z; auto.
  intros H. rewrite <- (firstn_skipn (Z.to_nat limit) rows).
  apply in_or_app. left. exact H.
Qed.

Lemma sql_limit_NoDup {A B : Type} (f : A -> B) (limit : Z) (rows : list A) :
  NoDup (map f rows) -> NoDup (map f (sql_limit limit rows)).
Proof.
  unfold sql_limit. destruct (limit <? 0)%Z; auto.
  intros H. rewrite <- (firstn_skipn (Z.to_nat limit) rows), map_app in H.
  apply NoDup_app_remove_r in H. exact H.
Qed.

Lemma filter_keeps_distinct_ids (keep : JobRow.t -> bool)
    (rows : list JobRow.t) :
  NoDup (map JobRow.id rows) -> NoDup (map JobRow.id (filter keep rows)).
Proof.
  induction rows as [| r rows IH]; simpl; auto.
  intros H. inversion H as [| x xs Hx Hl]; subst.
  destruct (keep r); simpl; auto.
  constructor; auto.
  intros Hin. apply Hx. apply in_map_iff in Hin.
  destruct Hin as [b [Eb Hb]]. apply filter_In in Hb.
  rewrite <- Eb. apply in_map. tauto.
Qed.

Lemma NoDup_map_injective {A B : Type} (f : A -> B) (l : list A) (a b : A) :
  NoDup (map f l) -> In a l -> In b l -> f a = f b -> a = b.
Proof.
  induction l as [| x l IH]; simpl; [tauto |].
  intros H Ha Hb E. inversion H as [| y ys Hx Hl]; subst.
  destruct Ha as [-> | Ha], Hb as [-> | Hb]; auto.
  - exfalso. apply Hx. rewrite E. apply in_map. exact Hb.
  - exfalso. apply Hx. rewrite <- E. apply in_map. exact Ha.
Qed.

Lemma NoDup_split_unique {A B : Type} (f : A -> B) (p : list A) :
  forall (l p' s s' : list A) (a a' : A),
    NoDup (map f l) ->
    l = p ++ a :: s -> l = p' ++ a' :: s' -> f a = f a' ->
    p = p' /\ a = a'.
Proof.
  induction p as [| x p IH]; intros l p' s s' a a' Hl E E' Hf; subst l;
    destruct p' as [| x' p']; simpl in *.
  - injection E' as -> _. auto.
  - exfalso. injection E' as -> ->.
    inversion Hl as [| y ys Hnot _]; subst.
    apply Hnot. rewrite Hf, map_app. apply in_or_app. right. left.
    reflexivity.
  - exfalso. injection E' as -> <-.
    inversion Hl as [| y ys Hnot _]; subst.
    apply Hnot. rewrite <- Hf, map_app. apply in_or_app. right. left.
    reflexivity.
  - injection E' as -> E'.
    inversion Hl as [| y ys _ Hl']; subst.
    destruct (IH (p ++ a :: s) p' s s' a a' Hl' eq_refl E' Hf) as [-> ->].
    auto.
Qed.

Lemma getUnscoredJobs_run (limit : jsnum) (w : World) :
  getUnscoredJobs limit w =
    match limit_integer limit with
    | Some n =>
        (Ok (sql_limit n
               (map summary
                  (filter (fun r => negb (has_score (db w) (JobRow.id r)))
                     (Db.jobs (db w))))), w)
    | None => (Throw (JsError (str "datatype mismatch")), w)
    end.
Proof.
  unfold getUnscoredJobs, bind, get_db.
  destruct (limit_integer limit); reflexivity.
Qed.

Lemma batch_ids_as_stored (d : Db.t) (n : Z) (keep : JobRow.t -> bool)
    (job : JobSummary.t) :
  ids_as_stored d ->
  In job (sql_limit n (map summary (filter keep (Db.jobs d)))) ->
  text (JobSummary.id job) = JobSummary.id job.
Proof.
  intros Hd Hjob. apply sql_limit_incl in Hjob. apply in_map_iff in Hjob.
  destruct Hjob as [r [<- Hr]]. apply filter_In in Hr. destruct Hr as [Hr _].
  unfold ids_as_stored in Hd. rewrite Forall_forall in Hd.
  apply (Hd r Hr).
Qed.

(** C7: with a credential configured, scoreUnscored reads its batch with
    the limit bound to LIMIT.  A limit that the statement does not take
    as an integer (NaN, a fraction, a number beyond the 64-bit range)
    makes the read fail with a datatype mismatch, and nothing is scored.
    For any other limit the call returns: every job of the batch is
    passed to scoreJob in turn, whatever happened to the jobs before it;
    the count returned is the number of score rows written, which is at
    most the limit when the limit is not negative; the judge is asked
    about every job of the batch whose listing can be written; and a job
    of the batch whose three attempts are all rejected, or whose listing
    cannot be written, is not counted and has no score row afterwards.
    The job ids of the store are taken distinct and held as stored
    text, as they are in every store that the writers reach. *)
Theorem scoreUnscored_bounded_and_resilient :
  forall (env : Env) (limit : jsnum) (w : World),
    falsy (OPENAI_API_KEY env) = false ->
    NoDup (map JobRow.id (Db.jobs (db w))) ->
    ids_as_stored (db w) ->
    let result := scoreUnscored env (Some limit) w in
    (limit_integer limit = None ->
     result = (Throw (JsError (str "datatype mismatch")), w))
    /\ (forall n : Z,
          limit_integer limit = Some n ->
          let batch :=
            sql_limit n
              (map summary
                 (filter (fun r => negb (has_score (db w) (JobRow.id r)))
                    (Db.jobs (db w)))) in
          exists (count : Z) (events : list Event),
            result = (Ok count, after_scoring env batch w)
            /\ trace (snd result) = trace w ++ events
            /\ count = Z.of_nat (List.length (scored events))
            /\ (0 <= count)%Z
            /\ ((0 <= n)%Z -> (count <= n)%Z)
            /\ (forall job,
                   In job batch -> prompt_builds env job = true ->
                   In (JobSummary.id job) (judged events))
            /\ (forall i,
                   In i (scored events) -> In i (map JobSummary.id batch))
            /\ (forall earlier job later,
                   batch = earlier ++ job :: later ->
                   (prompt_builds env job = false
                    \/ forall attempt,
                         (attempt < 3)%nat ->
                         judge_accepts env job
                           (attempt + tick (after_scoring env earlier w))
                         = None) ->
                   ~ In (JobSummary.id job) (scored events)
                   /\ has_score (db (snd result)) (JobSummary.id job)
                      = false)).
Proof.
  intros env limit w Hkey Hids Htext result.
  assert (Hread : result
                  = (jobs <- getUnscoredJobs limit ;;
                     for_of jobs
                       (fun job scored =>
                          try_catch (scoreJob env job ;; ret (scored + 1)%Z)
                            (fun _ => ret scored))
                       0%Z) w).
  { unfold result, scoreUnscored. rewrite Hkey. reflexivity. }
  split.
  { intros Hnone. rewrite Hread. unfold bind at 1.
    rewrite getUnscoredJobs_run, Hnone. reflexivity. }
  intros n Hsome batch.
  destruct (score_loop env batch 0 w) as [events [E [T [L [J [S H]]]]]].
  assert (Hrun : result
                 = (Ok (Z.of_nat (List.length (scored events))),
                    after_scoring env batch w)).
  { rewrite Hread. unfold bind at 1.
    rewrite getUnscoredJobs_run, Hsome. fold batch. exact E. }
  assert (Hbatch : NoDup (map JobSummary.id batch)).
  { unfold batch. apply sql_limit_NoDup. rewrite map_map.
    apply filter_keeps_distinct_ids. exact Hids. }
  assert (Hnot : forall earlier job later,
             batch = earlier ++ job :: later ->
             (prompt_builds env job = false
              \/ forall attempt,
                   (attempt < 3)%nat ->
                   judge_accepts env job
                     (attempt + tick (after_scoring env earlier w)) = None) ->
             ~ In (JobSummary.id job) (scored events)).
  { intros earlier job later Eb Hrej Hin.
    destruct (S _ Hin)
      as [earlier' [job' [later' [a [Eb' [Eid [Hp [Ha Hacc]]]]]]]].
    destruct (NoDup_split_unique JobSummary.id earlier' batch earlier
                later' later job' job Hbatch Eb' Eb Eid) as [-> ->].
    destruct Hrej as [Hrej | Hrej]; [congruence |].
    apply Hacc. apply Hrej. exact Ha. }
  assert (Hin : forall i, In i (scored events) ->
                          In i (map JobSummary.id batch)).
  { intros i Hi.
    destruct (S i Hi) as [earlier [job [later [a [Eb [<- _]]]]]].
    rewrite Eb, map_app. apply in_or_app. right. left. reflexivity. }
  assert (Hsame : map text (scored events) = scored events).
  { rewrite <- (map_id (scored events)) at 2. apply map_ext_in.
    intros i Hi. apply Hin in Hi. apply in_map_iff in Hi.
    destruct Hi as [job [<- Hjob]].
    apply (batch_ids_as_stored _ _ _ _ Htext Hjob). }
  exists (Z.of_nat (List.length (scored events))), events.
  rewrite Hrun. cbn [fst snd].
  split; [reflexivity |]. split; [exact T |]. split; [reflexivity |].
  split; [lia |].
  split.
  { intros Hn.
    pose proof (sql_limit_length n
                  (map summary
                     (filter (fun r => negb (has_score (db w) (JobRow.id r)))
                        (Db.jobs (db w)))) Hn) as B.
    fold batch in B. lia. }
  split; [exact J |].
  split; [exact Hin |].
  intros earlier job later Eb Hrej.
  split; [apply (Hnot earlier job later); assumption |].
  rewrite H, Hsame.
  replace (existsb (jsstring_eqb (JobSummary.id job)) (scored events))
    with false.
  - rewrite orb_false_r.
    assert (Hjob : In job batch)
      by (rewrite Eb; apply in_or_app; right; left; reflexivity).
    unfold batch in Hjob.
    apply sql_limit_incl in Hjob. apply in_map_iff in Hjob.
    destruct Hjob as [r [<- Hr]]. apply filter_In in Hr.
    destruct Hr as [_ Hr]. simpl. apply negb_true_iff in Hr. exact Hr.
  - symmetry. apply not_true_is_false. intros X.
    apply existsb_eqb_In in X. apply (Hnot earlier job later); assumption.
Qed.

Lemma scoreUnscored_bounded_and_resilient_witness :
  let unanswered :=
    JobSummary.mk [0%N] (str "Unanswered") None None None None
      (str "json") (str "json") (str "json") in
  let answered :=
    JobSummary.mk [2%N] (str "Product Manager") None None None None
      (str "json") (str "json") (str "json") in
  let w :=
    snd (upsertJob Sample.env
           (JobInput.mk (str "jobstash") (Sample.raw "a2" "Product Manager"))
           (snd (upsertJob Sample.env
                   (JobInput.mk (str "jobstash") (Sample.raw "a1" "Unanswered"))
                   Sample.new_world))) in
  falsy (OPENAI_API_KEY Sample.env) = false
  /\ NoDup (map JobRow.id (Db.jobs (db w)))
  /\ ids_as_stored (db w)
  /\ limit_integer NaN = None
  /\ limit_integer (Fin 5) = Some 5%Z
  /\ (forall attempt,
         (attempt < 3)%nat ->
         judge_accepts Sample.env unanswered
           (attempt + tick (after_scoring Sample.env [] w)) = None)
  /\ scoreUnscored Sample.env (Some NaN) w
     = (Throw (JsError (str "datatype mismatch")), w)
  /\ exists events,
       fst (scoreUnscored Sample.env (Some (Fin 5)) w) = Ok 1%Z
       /\ trace (snd (scoreUnscored Sample.env (Some (Fin 5)) w))
          = trace w ++ events
       /\ In (JobSummary.id answered) (judged events)
       /\ ~ In (JobSummary.id unanswered) (scored events)
       /\ has_score (db (snd (scoreUnscored Sample.env (Some (Fin 5)) w)))
            (JobSummary.id unanswered)
          = false.
Proof.
  intros unanswered answered w.
  assert (A : falsy (OPENAI_API_KEY Sample.env) = false) by reflexivity.
  assert (C : NoDup (map JobRow.id (Db.jobs (db w)))).
  { change (NoDup [[0%N]; [2%N]]).
    constructor; [simpl; intros [H | []]; discriminate H |].
    constructor; [simpl; tauto | constructor]. }
  assert (I : ids_as_stored (db w)).
  { unfold ids_as_stored. repeat constructor. }
  assert (D : forall attempt,
             (attempt < 3)%nat ->
             judge_accepts Sample.env unanswered
               (attempt + tick (after_scoring Sample.env [] w)) = None).
  { intros attempt _. reflexivity. }
  split; [exact A |]. split; [exact C |]. split; [exact I |].
  split; [reflexivity |]. split; [reflexivity |].
  split; [exact D |].
  split.
  { apply (proj1 (scoreUnscored_bounded_and_resilient Sample.env NaN w A C I)).
    reflexivity. }
  destruct (proj2 (scoreUnscored_bounded_and_resilient Sample.env (Fin 5) w
                     A C I) 5%Z eq_refl)
    as [n [events [E [T [_ [_ [Hn [J [_ R]]]]]]]]].
  exists events.
  assert (E1 : n = 1%Z).
  { assert (X := f_equal fst E). vm_compute in X. congruence. }
  split; [rewrite E; cbn [fst]; f_equal; exact E1 |]. split; [exact T |].
  split.
  - apply (J answered); vm_compute; auto.
  - apply (R [] unanswered [answered]); [reflexivity | right; exact D].
Defined.

(** ** scrapers/jobstash.ts *)

Import JobStash.

Lemma processJob_below_min (env : Env) (job : JobStashJob.t) (acc : Acc)
    (w : World) :
  below_min_seniority job = true ->
  processJob env job acc w
  = (Ok (mkAcc (allJobs acc) (skippedSeniority acc + 1) (skippedTitle acc)
           (skippedLocation acc)), w).
Proof.
  intros H. unfold processJob. rewrite H. reflexivity.
Qed.

Lemma toRawJob_rawData (env : Env) (job : JobStashJob.t) (w w' : World)
    (raw : RawJob.t) :
  toRawJob env job w = (Ok raw, w') ->
  RawJob.rawData raw = Val (JobStashJob.json job).
Proof.
  unfold toRawJob, bind, lift, ret.
  destruct (num_truthy (JobStashJob.timestamp job)).
  - destruct (JobStashJob.timestamp job) as [| | t].
    + intros [= <- _]. reflexivity.
    + intros [= <- _]. reflexivity.
    + destruct (Date_toISOString env t); [| discriminate].
      intros [= <- _]. reflexivity.
  - intros [= <- _]. reflexivity.
Qed.

(** The listing loop of one page, tier by tier. *)
Lemma processJob_loop (env : Env) (jobs : list JobStashJob.t) :
  forall (acc acc' : Acc) (w w' : World),
    for_of jobs (processJob env) acc w = (Ok acc', w') ->
    skippedSeniority acc'
    = (skippedSeniority acc
       + Z.of_nat (List.length (filter below_min_seniority jobs)))%Z
    /\ skippedTitle acc'
       = (skippedTitle acc
          + Z.of_nat (List.length (filter title_skipped jobs)))%Z
    /\ skippedLocation acc'
       = (skippedLocation acc
          + Z.of_nat (List.length (filter location_skipped jobs)))%Z
    /\ map RawJob.rawData (allJobs acc')
       = map RawJob.rawData (allJobs acc)
         ++ map (fun job => Val (JobStashJob.json job)) (filter kept jobs).
Proof.
  induction jobs as [| job jobs IH]; intros acc acc' w w'.
  - simpl. intros [= <- <-]. rewrite !Z.add_0_r, app_nil_r. auto.
  - simpl for_of. unfold bind at 1. cbn [filter].
    unfold title_skipped at 1, location_skipped at 1, kept at 1.
    unfold processJob at 1.
    destruct (below_min_seniority job) eqn:Eb; cbn [negb andb].
    + unfold ret at 1. intros H. apply IH in H.
      cbn [skippedSeniority skippedTitle skippedLocation allJobs] in H.
      destruct H as [H1 [H2 [H3 H4]]].
      rewrite H1, H2, H3, H4. cbn [List.length].
      repeat split; try lia; try reflexivity.
    + destruct (test EXCLUDED_TITLE_PATTERNS (JobStashJob.title job)) eqn:Et;
        cbn [negb andb].
      * unfold ret at 1. intros H. apply IH in H.
        cbn [skippedSeniority skippedTitle skippedLocation allJobs] in H.
        destruct H as [H1 [H2 [H3 H4]]].
        rewrite H1, H2, H3, H4. cbn [List.length].
        repeat split; try lia; try reflexivity.
      * destruct (isLocationValid job) eqn:El; cbn [negb].
        -- unfold bind at 1.
           destruct (toRawJob env job w) as [[raw | e] w1] eqn:Er;
             [| discriminate].
           unfold ret at 1. intros H. apply IH in H.
           cbn [skippedSeniority skippedTitle skippedLocation allJobs] in H.
           destruct H as [H1 [H2 [H3 H4]]].
           rewrite H1, H2, H3, H4, map_app. cbn [map].
           rewrite (toRawJob_rawData _ _ _ _ _ Er), <- app_assoc.
           repeat split; try lia; try reflexivity.
        -- unfold ret at 1. intros H. apply IH in H.
           cbn [skippedSeniority skippedTitle skippedLocation allJobs] in H.
           destruct H as [H1 [H2 [H3 H4]]].
           rewrite H1, H2, H3, H4. cbn [List.length].
           repeat split; try lia; try reflexivity.
Qed.

(** C9: in the JobStash adapter a listing whose seniority text parses,
    by parseInt(_, 10), to a number below the threshold 2 is dropped at
    the seniority tier: only the seniority counter moves, by one, and
    no record is emitted, whatever the listing's title and location are.
    Over the listings of a page the seniority counter grows by the
    number of such listings, the title and location counters only count
    listings that passed the tier before them, and the emitted records
    are those of the listings that passed all three. *)
Theorem jobstash_seniority_tier_first :
  forall env : Env,
    (forall (job : JobStashJob.t) (code : jsstring) (n : Z) (acc : Acc)
            (w : World),
        JobStashJob.seniority job = Val code ->
        code <> [] ->
        parseInt10 code = Some n ->
        (n < MIN_SENIORITY)%Z ->
        processJob env job acc w
        = (Ok (mkAcc (allJobs acc) (skippedSeniority acc + 1)
                 (skippedTitle acc) (skippedLocation acc)), w))
    /\ (forall (jobs : list JobStashJob.t) (acc acc' : Acc) (w w' : World),
           for_of jobs (processJob env) acc w = (Ok acc', w') ->
           skippedSeniority acc'
           = (skippedSeniority acc
              + Z.of_nat (List.length (filter below_min_seniority jobs)))%Z
           /\ skippedTitle acc'
              = (skippedTitle acc
                 + Z.of_nat (List.length (filter title_skipped jobs)))%Z
           /\ skippedLocation acc'
              = (skippedLocation acc
                 + Z.of_nat (List.length (filter location_skipped jobs)))%Z
           /\ map RawJob.rawData (allJobs acc')
              = map RawJob.rawData (allJobs acc)
                ++ map (fun job => Val (JobStashJob.json job))
                     (filter kept jobs)).
Proof.
  intros env. split.
  - intros job code n acc w Hs Hne Hp Hn.
    apply processJob_below_min.
    unfold below_min_seniority, seniority_code. rewrite Hs.
    destruct code as [| c code]; [contradiction Hne; reflexivity |].
    rewrite Hp. apply Z.ltb_lt. exact Hn.
  - apply processJob_loop.
Qed.

Lemma jobstash_seniority_tier_first_witness :
  let junior := Sample.listing "j2" "Junior Analyst" "1" "Berlin" in
  let start := mkAcc [] 0 0 0 in
  (JobStashJob.seniority junior = Val (str "1")
   /\ str "1" <> []
   /\ parseInt10 (str "1") = Some 1%Z
   /\ (1 < MIN_SENIORITY)%Z
   /\ processJob Sample.env junior start Sample.new_world
      = (Ok (mkAcc [] 1 0 0), Sample.new_world))
  /\ exists acc' w',
       for_of Sample.five_listings (processJob Sample.env) start
         Sample.new_world = (Ok acc', w')
       /\ skippedSeniority acc' = 1%Z
       /\ skippedTitle acc' = 0%Z
       /\ skippedLocation acc' = 0%Z
       /\ map RawJob.rawData (allJobs acc')
          = [Val (JStr (str "j1")); Val (JStr (str "j3"));
             Val (JStr (str "j4")); Val (JStr (str "j5"))].
Proof.
  intros junior start.
  assert (A : JobStashJob.seniority junior = Val (str "1")) by reflexivity.
  assert (B : str "1" <> []) by discriminate.
  assert (C : parseInt10 (str "1") = Some 1%Z) by reflexivity.
  assert (D : (1 < MIN_SENIORITY)%Z) by reflexivity.
  split.
  - repeat (split; [assumption |]).
    apply (proj1 (jobstash_seniority_tier_first Sample.env) junior (str "1")
             1%Z start Sample.new_world A B C D).
  - destruct (for_of Sample.five_listings (processJob Sample.env) start
                Sample.new_world) as [o w'] eqn:E.
    assert (Eo : o = fst (for_of Sample.five_listings (processJob Sample.env)
                            start Sample.new_world)) by (rewrite E; reflexivity).
    vm_compute in Eo.
    match type of Eo with
    | o = Ok ?a => exists a, w'; subst o; split; [reflexivity |]
    end.
    destruct (proj2 (jobstash_seniority_tier_first Sample.env)
                Sample.five_listings start _ Sample.new_world w' E)
      as [H1 [H2 [H3 H4]]].
    split; [exact H1 |]. split; [exact H2 |]. split; [exact H3 |]. exact H4.
Defined.

(** The whole of [scrape] on the sample page: one request, five
    listings, the second dropped at the seniority tier, four kept. *)
Example jobstash_scrape_sample_page :
  exists acc w',
    scrape_counted Sample.env Sample.new_world = (Ok acc, w')
    /\ skippedSeniority acc = 1%Z
    /\ skippedTitle acc = 0%Z
    /\ skippedLocation acc = 0%Z
    /\ map RawJob.sourceId (allJobs acc)
       = [str "j1"; str "j3"; str "j4"; str "j5"]
    /\ tick w' = 1%nat.
Proof.
  destruct (scrape_counted Sample.env Sample.new_world) as [o w'] eqn:E.
  vm_compute in E. injection E as <- <-.
  eexists. eexists. split; [reflexivity |]. repeat split.
Qed.

(* ===================================================================== *)
(** * Part III: further properties of the code                            *)
(* ===================================================================== *)

(** ** scrapers/filters.ts: what decides the location test *)

Lemma isLocationUSOrRemote_blank (text : jsstring)
    (locationType : nullable jsstring) :
  trim text = [] -> isLocationUSOrRemote (Val text) locationType = true.
Proof.
  intros E. unfold isLocationUSOrRemote.
  destruct text as [| c l].
  - destruct (strict_eq locationType (str "REMOTE") && _); reflexivity.
  - rewrite E. destruct (strict_eq locationType (str "REMOTE") && _);
      reflexivity.
Qed.

Lemma isLocationUSOrRemote_absent (location locationType : nullable jsstring) :
  (forall text, location <> Val text) ->
  isLocationUSOrRemote location locationType = true.
Proof.
  intros H. unfold isLocationUSOrRemote.
  destruct location as [| | text]; [| | contradiction (H text eq_refl)];
    destruct (strict_eq locationType (str "REMOTE") && _); reflexivity.
Qed.

(** X1: the location test answers false in exactly two cases, both on a
    location string that is not blank: the string matches the
    outside-US pattern, or it matches the non-US vocabulary and not the
    US vocabulary.  The location type, and the patterns for remote,
    global and North America, never change the answer. *)
Theorem isLocationUSOrRemote_rejects_exactly :
  forall location locationType : nullable jsstring,
    (isLocationUSOrRemote location locationType = false <->
     exists text,
       location = Val text
       /\ trim text <> []
       /\ (test OUTSIDE_US text = true
           \/ (test NON_US_PATTERNS text = true
               /\ test US_PATTERNS text = false)))
    /\ isLocationUSOrRemote location locationType
       = isLocationUSOrRemote location Undefined.
Proof.
  intros location locationType.
  destruct location as [| | text].
  - rewrite !isLocationUSOrRemote_absent by discriminate.
    split; [| reflexivity].
    split; [discriminate | intros [text [E _]]; discriminate E].
  - rewrite !isLocationUSOrRemote_absent by discriminate.
    split; [| reflexivity].
    split; [discriminate | intros [text [E _]]; discriminate E].
  - destruct (list_eq_dec N.eq_dec (trim text) []) as [E | E].
    + rewrite !(isLocationUSOrRemote_blank text _ E).
      split; [| reflexivity].
      split; [discriminate |].
      intros [text' [[= <-] [H _]]]. contradiction.
    + rewrite !(isLocationUSOrRemote_text (Val text) _ text eq_refl E).
      split; [| reflexivity].
      split.
      * intros H. exists text. split; [reflexivity |]. split; [exact E |].
        destruct (test OUTSIDE_US text); [left; reflexivity |].
        destruct (test NON_US_PATTERNS text); [| discriminate].
        right. split; [reflexivity | exact H].
      * intros [text' [[= <-] [_ [H | [H1 H2]]]]].
        -- rewrite H. reflexivity.
        -- rewrite H1, H2. destruct (test OUTSIDE_US text); reflexivity.
Qed.

(** ** scrapers/filters.ts: white space around the text *)

Lemma dropWhile_app (p : N -> bool) (s t : jsstring) :
  dropWhile p (s ++ t)
  = if forallb p s then dropWhile p t else dropWhile p s ++ t.
Proof.
  induction s as [| c s IH]; simpl; auto.
  destruct (p c); simpl; auto.
Qed.

Lemma dropWhile_all (p : N -> bool) (s : jsstring) :
  forallb p s = true -> dropWhile p s = [].
Proof.
  induction s as [| c s IH]; simpl; auto.
  destruct (p c); simpl; [exact IH | discriminate].
Qed.

Lemma forallb_rev_true (p : N -> bool) (s : jsstring) :
  forallb p s = true -> forallb p (rev s) = true.
Proof.
  rewrite !forallb_forall. intros H x Hx. apply H. apply in_rev. exact Hx.
Qed.

Lemma trimEnd_padding (s after : jsstring) :
  forallb isWhiteSpace after = true -> trimEnd (s ++ after) = trimEnd s.
Proof.
  intros H. unfold trimEnd. rewrite rev_app_distr, dropWhile_app.
  rewrite (forallb_rev_true _ _ H). reflexivity.
Qed.

Lemma trim_padding (before text after : jsstring) :
  forallb isWhiteSpace before = true ->
  forallb isWhiteSpace after = true ->
  trim (before ++ text ++ after) = trim text.
Proof.
  intros Hb Ha. unfold trim, trimStart.
  rewrite dropWhile_app, Hb, dropWhile_app.
  destruct (forallb isWhiteSpace text) eqn:Et.
  - rewrite (dropWhile_all _ _ Ha), (dropWhile_all _ _ Et). reflexivity.
  - apply trimEnd_padding. exact Ha.
Qed.

Lemma stable_EXCLUDED_TITLE_PATTERNS :
  trim_stable EXCLUDED_TITLE_PATTERNS = true.
Proof. vm_compute. reflexivity. Qed.

Lemma isLocationUSOrRemote_same_trim (s t : jsstring)
    (locationType : nullable jsstring) :
  trim s = trim t ->
  isLocationUSOrRemote (Val s) locationType
  = isLocationUSOrRemote (Val t) locationType.
Proof.
  intros E.
  destruct (list_eq_dec N.eq_dec (trim s) []) as [Es | Es].
  - rewrite (isLocationUSOrRemote_blank s _ Es).
    rewrite E in Es. rewrite (isLocationUSOrRemote_blank t _ Es). reflexivity.
  - rewrite (isLocationUSOrRemote_text (Val s) _ s eq_refl Es).
    rewrite E in Es.
    rewrite (isLocationUSOrRemote_text (Val t) _ t eq_refl Es).
    rewrite <- (test_trim _ s stable_OUTSIDE_US),
      <- (test_trim _ s stable_NON_US_PATTERNS),
      <- (test_trim _ s stable_US_PATTERNS), E.
    rewrite (test_trim _ t stable_OUTSIDE_US),
      (test_trim _ t stable_NON_US_PATTERNS),
      (test_trim _ t stable_US_PATTERNS).
    reflexivity.
Qed.

(** X2: white space before and after a title or a location never
    changes the answer of the title test or of the location test. *)
Theorem filters_ignore_surrounding_white_space :
  forall (before text after : jsstring) (locationType : nullable jsstring),
    forallb isWhiteSpace before = true ->
    forallb isWhiteSpace after = true ->
    isExcludedTitle (before ++ text ++ after) = isExcludedTitle text
    /\ isLocationUSOrRemote (Val (before ++ text ++ after)) locationType
       = isLocationUSOrRemote (Val text) locationType.
Proof.
  intros before text after locationType Hb Ha.
  pose proof (trim_padding before text after Hb Ha) as E.
  split.
  - unfold isExcludedTitle.
    rewrite <- (test_trim _ (before ++ text ++ after)
                  stable_EXCLUDED_TITLE_PATTERNS), E.
    apply test_trim. exact stable_EXCLUDED_TITLE_PATTERNS.
  - apply isLocationUSOrRemote_same_trim. exact E.
Qed.

Lemma filters_ignore_surrounding_white_space_witness :
  isExcludedTitle (str "  " ++ str "Junior Analyst" ++ str " ") = true
  /\ isLocationUSOrRemote (Val (str "  " ++ str "Porto, Portugal" ++ str " "))
       (Val (str "REMOTE"))
     = isLocationUSOrRemote (Val (str "Porto, Portugal")) (Val (str "REMOTE")).
Proof.
  destruct (filters_ignore_surrounding_white_space (str "  ")
              (str "Junior Analyst") (str " ") Undefined eq_refl eq_refl)
    as [T _].
  destruct (filters_ignore_surrounding_white_space (str "  ")
              (str "Porto, Portugal") (str " ") (Val (str "REMOTE"))
              eq_refl eq_refl)
    as [_ L].
  split; [rewrite T; reflexivity | exact L].
Defined.

(** ** scrapers/filters.ts: letter case *)

Lemma canonicalize_idempotent (c : N) :
  canonicalize (canonicalize c) = canonicalize c.
Proof.
  unfold canonicalize at 2.
  destruct (in_range 97 122 c) eqn:E.
  - apply in_range_spec in E. unfold canonicalize, in_range.
    decide_cmp. reflexivity.
  - destruct (N.eqb_spec c 227) as [-> | H]; [reflexivity |].
    unfold canonicalize. rewrite E.
    destruct (N.eqb_spec c 227); [contradiction | reflexivity].
Qed.

Lemma isLineTerminator_canonicalize (c : N) :
  isLineTerminator (canonicalize c) = isLineTerminator c.
Proof.
  unfold canonicalize.
  destruct (in_range 97 122 c) eqn:E.
  - apply in_range_spec in E. unfold isLineTerminator.
    decide_cmp. reflexivity.
  - destruct (N.eqb_spec c 227) as [-> | _]; reflexivity.
Qed.

Lemma isWhiteSpace_fold (c : N) :
  isWhiteSpace (canonicalize c) = isWhiteSpace c.
Proof.
  destruct (isWhiteSpace c) eqn:Hc.
  - rewrite (isWhiteSpace_canonicalize _ Hc). exact Hc.
  - unfold canonicalize.
    destruct (in_range 97 122 c) eqn:E.
    + apply in_range_spec in E. unfold isWhiteSpace, isLineTerminator, in_range.
      decide_cmp. reflexivity.
    + destruct (N.eqb_spec c 227) as [-> | _]; [reflexivity | exact Hc].
Qed.

Lemma cls_match_fold (x : cls) (c : N) :
  cls_match x (canonicalize c) = cls_match x c.
Proof.
  destruct x as [p | |]; simpl.
  - rewrite canonicalize_idempotent. reflexivity.
  - rewrite isLineTerminator_canonicalize. reflexivity.
  - apply isWhiteSpace_fold.
Qed.

Lemma headWord_fold (s : jsstring) :
  headWord (map canonicalize s) = headWord s.
Proof.
  destruct s as [| c s]; simpl; [reflexivity | apply isWordChar_canonicalize].
Qed.

Lemma star_m_fold (x : cls) (k' k : cont) :
  (forall pw t, k' pw (map canonicalize t) = k pw t) ->
  forall s pw, star_m x (map canonicalize s) pw k' = star_m x s pw k.
Proof.
  intros Hk. induction s as [| c s IH]; intros pw.
  - apply (Hk pw []).
  - pose proof (Hk pw (c :: s)) as E. simpl in *.
    rewrite cls_match_fold, isWordChar_canonicalize, IH, E. reflexivity.
Qed.

Lemma m_fold (r : regex) :
  forall (k' k : cont),
    (forall pw t, k' pw (map canonicalize t) = k pw t) ->
    forall pw s, m r pw (map canonicalize s) k' = m r pw s k.
Proof.
  induction r as [| x | | r1 IH1 r2 IH2 | r1 IH1 r2 IH2 | r IH | x];
    intros k' k Hk pw s; simpl.
  - apply Hk.
  - destruct s as [| c s]; simpl; [reflexivity |].
    rewrite cls_match_fold, isWordChar_canonicalize, Hk. reflexivity.
  - rewrite headWord_fold, Hk. reflexivity.
  - apply IH1. intros pw' t. apply IH2. exact Hk.
  - rewrite (IH1 k' k Hk), (IH2 k' k Hk). reflexivity.
  - rewrite (IH k' k Hk), Hk. reflexivity.
  - apply star_m_fold. exact Hk.
Qed.

Lemma test_fold (r : regex) (s : jsstring) :
  test r (map canonicalize s) = test r s.
Proof.
  unfold test. generalize false.
  induction s as [| c s IH]; intros pw.
  - reflexivity.
  - pose proof (m_fold r accept accept (fun _ _ => eq_refl) pw (c :: s)) as E.
    simpl in *. rewrite E, isWordChar_canonicalize, IH. reflexivity.
Qed.

Lemma dropWhile_fold (s : jsstring) :
  dropWhile isWhiteSpace (map canonicalize s)
  = map canonicalize (dropWhile isWhiteSpace s).
Proof.
  induction s as [| c s IH]; simpl; auto.
  rewrite isWhiteSpace_fold. destruct (isWhiteSpace c); auto.
Qed.

Lemma trim_fold (s : jsstring) :
  trim (map canonicalize s) = map canonicalize (trim s).
Proof.
  unfold trim, trimEnd, trimStart.
  rewrite dropWhile_fold, <- map_rev, dropWhile_fold, map_rev. reflexivity.
Qed.

Lemma isLocationUSOrRemote_fold (s : jsstring)
    (locationType : nullable jsstring) :
  isLocationUSOrRemote (Val (map canonicalize s)) locationType
  = isLocationUSOrRemote (Val s) locationType.
Proof.
  destruct (list_eq_dec N.eq_dec (trim s) []) as [E | E].
  - rewrite (isLocationUSOrRemote_blank s _ E).
    apply isLocationUSOrRemote_blank. rewrite trim_fold, E. reflexivity.
  - rewrite (isLocationUSOrRemote_text (Val s) _ s eq_refl E).
    rewrite (isLocationUSOrRemote_text (Val (map canonicalize s)) _
               (map canonicalize s) eq_refl).
    + rewrite !test_fold. reflexivity.
    + rewrite trim_fold. intros H. apply map_eq_nil in H. contradiction.
Qed.

Lemma same_letter_fold (a b : N) :
  same_letter a b -> canonicalize a = canonicalize b.
Proof.
  assert (Up : forall c, in_range 97 122 c = true ->
                         canonicalize c = canonicalize (c - 32)%N).
  { intros c Hc. unfold canonicalize. rewrite Hc.
    apply in_range_spec in Hc.
    replace (in_range 97 122 (c - 32)) with false.
    - replace (c - 32 =? 227)%N with false; [reflexivity |].
      symmetry. apply N.eqb_neq. lia.
    - symmetry. apply not_true_is_false. intros X.
      apply in_range_spec in X. lia. }
  intros [-> | [[Ha ->] | [[Hb ->] | [[-> ->] | [-> ->]]]]];
    [reflexivity | apply Up; exact Ha | symmetry; apply Up; exact Hb
    | reflexivity | reflexivity].
Qed.

Lemma same_up_to_case_fold (s t : jsstring) :
  same_up_to_case s t -> map canonicalize s = map canonicalize t.
Proof.
  induction 1 as [| a b s t Hab _ IH]; [reflexivity |].
  cbn [map]. rewrite (same_letter_fold a b Hab), IH. reflexivity.
Qed.

(** X3: two titles, or two locations, that differ only in the case of
    the Latin letters A to Z, or of the letter a with tilde, get the
    same answer from the title test and from the location test.  This
    does not extend to every letter with two cases: INTERN is an
    excluded title and its spelling with the small dotless i is not, UK
    is a rejected location and its spelling with the Kelvin sign is
    not. *)
Theorem filters_ignore_letter_case :
  (forall (s t : jsstring) (locationType : nullable jsstring),
      same_up_to_case s t ->
      isExcludedTitle s = isExcludedTitle t
      /\ isLocationUSOrRemote (Val s) locationType
         = isLocationUSOrRemote (Val t) locationType)
  /\ isExcludedTitle (str "INTERN") = true
  /\ isExcludedTitle (dotless_i :: str "ntern") = false
  /\ isLocationUSOrRemote (Val (str "UK")) Undefined = false
  /\ isLocationUSOrRemote (Val (str "U" ++ [kelvin_sign])) Undefined = true.
Proof.
  split; [| split; [| split; [| split]]; vm_compute; reflexivity].
  intros s t locationType H. apply same_up_to_case_fold in H. split.
  - unfold isExcludedTitle.
    rewrite <- (test_fold _ s), <- (test_fold _ t), H. reflexivity.
  - rewrite <- (isLocationUSOrRemote_fold s), <- (isLocationUSOrRemote_fold t), H.
    reflexivity.
Qed.

Lemma filters_ignore_letter_case_witness :
  same_up_to_case (str "JUNIOR analyst") (str "Junior Analyst")
  /\ isExcludedTitle (str "JUNIOR analyst") = true
  /\ isLocationUSOrRemote (Val (str "REMOTE - europe")) Undefined = false.
Proof.
  assert (L : forall a b, (if N.eq_dec a b then true
                           else if in_range 97 122 a && (b =? a - 32)%N then true
                           else in_range 97 122 b && (a =? b - 32)%N) = true ->
                          same_letter a b).
  { intros a b. destruct (N.eq_dec a b) as [E | _]; [left; exact E |].
    destruct (in_range 97 122 a && (b =? a - 32)%N) eqn:X.
    - apply andb_true_iff in X as [X1 X2]. apply N.eqb_eq in X2.
      right. left. auto.
    - intros Y. apply andb_true_iff in Y as [Y1 Y2]. apply N.eqb_eq in Y2.
      right. right. left. auto. }
  assert (A : same_up_to_case (str "JUNIOR analyst") (str "Junior Analyst"))
    by (repeat (apply Forall2_cons; [apply L; reflexivity |]);
        apply Forall2_nil).
  assert (B : same_up_to_case (str "REMOTE - europe") (str "Remote - Europe"))
    by (repeat (apply Forall2_cons; [apply L; reflexivity |]);
        apply Forall2_nil).
  split; [exact A |]. split.
  - rewrite (proj1 (proj1 filters_ignore_letter_case _ _ Undefined A)).
    reflexivity.
  - rewrite (proj2 (proj1 filters_ignore_letter_case _ _ Undefined B)).
    reflexivity.
Defined.

(** ** scrapers/jobstash.ts: what the adapter emits *)

Lemma toRawJob_fields (env : Env) (job : JobStashJob.t) (w w' : World)
    (raw : RawJob.t) :
  toRawJob env job w = (Ok raw, w') ->
  RawJob.title raw = JobStashJob.title job
  /\ RawJob.location raw = JobStashJob.location job
  /\ RawJob.locationType raw = JobStashJob.locationType job
  /\ RawJob.seniority raw = JobStashJob.seniority job
  /\ RawJob.sourceId raw <> []
  /\ (exists tags, RawJob.tags raw = Val tags)
  /\ (exists chains, RawJob.chains raw = Val chains).
Proof.
  intros H.
  assert (S : template
                (or_str (JobStashJob.shortUUID job)
                   (or_str (JobStashJob.id job)
                      (Val (JobStashJob.title job ++ str "-"
                            ++ template (JobStashJob.organization_name job)))))
              <> []).
  { unfold or_str.
    destruct (JobStashJob.shortUUID job) as [| | [| c s]]; simpl;
      try discriminate;
      destruct (JobStashJob.id job) as [| | [| c' s']]; simpl;
      try discriminate;
      intros E; apply app_eq_nil in E; destruct E as [_ E]; discriminate E. }
  revert H. unfold toRawJob, bind, lift, ret.
  destruct (num_truthy (JobStashJob.timestamp job)).
  - destruct (JobStashJob.timestamp job) as [| | t].
    + intros [= <- _]. simpl. repeat split; eauto.
    + intros [= <- _]. simpl. repeat split; eauto.
    + destruct (Date_toISOString env t); [| discriminate].
      intros [= <- _]. simpl. repeat split; eauto.
  - intros [= <- _]. simpl. repeat split; eauto.
Qed.

Lemma toRawJob_world (env : Env) (job : JobStashJob.t) (w : World) :
  snd (toRawJob env job w) = w.
Proof.
  unfold toRawJob, bind, lift, ret.
  destruct (num_truthy (JobStashJob.timestamp job)); [| reflexivity].
  destruct (JobStashJob.timestamp job) as [| | t]; try reflexivity.
  destruct (Date_toISOString env t); reflexivity.
Qed.

Lemma processJob_world (env : Env) (job : JobStashJob.t) (acc : Acc)
    (w : World) :
  snd (processJob env job acc w) = w.
Proof.
  unfold processJob.
  destruct (below_min_seniority job); [reflexivity |].
  destruct (test EXCLUDED_TITLE_PATTERNS (JobStashJob.title job));
    [reflexivity |].
  destruct (negb (isLocationValid job)); [reflexivity |].
  unfold bind, ret. pose proof (toRawJob_world env job w) as E.
  destruct (toRawJob env job w) as [[raw | e] w1]; exact E.
Qed.

Lemma listing_loop_world (env : Env) (jobs : list JobStashJob.t) :
  forall (acc : Acc) (w : World),
    snd (for_of jobs (processJob env) acc w) = w.
Proof.
  induction jobs as [| job jobs IH]; intros acc w; simpl; [reflexivity |].
  unfold bind. pose proof (processJob_world env job acc w) as E.
  destruct (processJob env job acc w) as [[acc1 | e] w1]; simpl in E; subst w1.
  - apply IH.
  - reflexivity.
Qed.

Lemma processJob_accepted (env : Env) (job : JobStashJob.t) (acc acc' : Acc)
    (w w' : World) :
  processJob env job acc w = (Ok acc', w') ->
  Forall accepted_listing (allJobs acc) ->
  Forall accepted_listing (allJobs acc').
Proof.
  unfold processJob.
  destruct (below_min_seniority job) eqn:Es; [intros [= <- _]; auto |].
  destruct (test EXCLUDED_TITLE_PATTERNS (JobStashJob.title job)) eqn:Et;
    [intros [= <- _]; auto |].
  destruct (isLocationValid job) eqn:El; [| intros [= <- _]; auto].
  unfold bind, ret. cbn [negb].
  destruct (toRawJob env job w) as [[raw | e] w1] eqn:Er; [| discriminate].
  intros [= <- _] H. cbn [allJobs].
  apply Forall_app. split; [exact H |]. constructor; [| constructor].
  destruct (toRawJob_fields _ _ _ _ _ Er) as [T [L [LT [S [I [TG CH]]]]]].
  unfold accepted_listing. rewrite T, L, LT, S.
  split; [exact Et |]. split; [exact El |].
  split; [| split; [exact I | split; [exact TG | exact CH]]].
  intros code n Hc Hne Hp.
  unfold below_min_seniority, seniority_code in Es. rewrite Hc in Es.
  destruct code as [| c code]; [contradiction Hne; reflexivity |].
  rewrite Hp in Es. apply Z.ltb_ge in Es. exact Es.
Qed.

Lemma listing_loop_accepted (env : Env) (jobs : list JobStashJob.t) :
  forall (acc acc' : Acc) (w w' : World),
    for_of jobs (processJob env) acc w = (Ok acc', w') ->
    Forall accepted_listing (allJobs acc) ->
    Forall accepted_listing (allJobs acc').
Proof.
  induction jobs as [| job jobs IH]; intros acc acc' w w'; simpl.
  - intros [= <- _]. auto.
  - unfold bind at 1.
    destruct (processJob env job acc w) as [[acc1 | e] w1] eqn:E;
      [| discriminate].
    intros H Hacc. apply (IH _ _ _ _ H).
    apply (processJob_accepted _ _ _ _ _ _ E Hacc).
Qed.

(** One round of the page loop, as one equation. *)
Lemma pages_step (env : Env) (remaining : nat) (page : Z) (acc : Acc)
    (w : World) :
  pages env (S remaining) page acc w =
    let w1 := mkWorld (db w) (S (tick w)) (trace w) in
    match fetch_at env page (tick w) with
    | Throw e => (Throw e, w1)
    | Ok response =>
        if negb (ok response) then (Ok acc, w1)
        else
          match listings response with
          | Throw e => (Throw e, w1)
          | Ok [] => (Ok acc, w1)
          | Ok jobs =>
              match fst (for_of jobs (processJob env) acc w1) with
              | Throw e => (Throw e, w1)
              | Ok acc' =>
                  if (Z.of_nat (List.length jobs) <? PAGE_LIMIT)%Z
                  then (Ok acc', w1)
                  else pages env remaining (page + 1)%Z acc' w1
              end
          end
    end.
Proof.
  cbn [pages]. unfold bind at 1. unfold ask. cbn [lift].
  unfold bind at 1. unfold lift at 1. cbv zeta.
  destruct (fetch_at env page (tick w)) as [response | e]; [| reflexivity].
  destruct (negb (ok response)); [reflexivity |].
  unfold bind at 1. unfold lift at 1.
  destruct (listings response) as [[| job jobs] | e]; try reflexivity.
  unfold bind at 1.
  pose proof (listing_loop_world env (job :: jobs) acc
                (mkWorld (db w) (S (tick w)) (trace w))) as E.
  destruct (for_of (job :: jobs) (processJob env) acc
              (mkWorld (db w) (S (tick w)) (trace w))) as [[acc' | e] w2];
    cbn [fst snd] in *; subst w2; [| reflexivity].
  destruct (Z.of_nat (List.length (job :: jobs)) <? PAGE_LIMIT)%Z; reflexivity.
Qed.

Lemma pages_accepted (env : Env) (remaining : nat) :
  forall (page : Z) (acc acc' : Acc) (w w' : World),
    pages env remaining page acc w = (Ok acc', w') ->
    Forall accepted_listing (allJobs acc) ->
    Forall accepted_listing (allJobs acc').
Proof.
  induction remaining as [| remaining IH]; intros page acc acc' w w'.
  - simpl. intros [= <- _]. auto.
  - rewrite pages_step. cbv zeta.
    destruct (fetch_at env page (tick w)) as [response | e]; [| discriminate].
    destruct (negb (ok response)); [intros [= <- _]; auto |].
    destruct (listings response) as [[| job jobs] | e];
      [intros [= <- _]; auto | | discriminate].
    destruct (for_of (job :: jobs) (processJob env) acc _)
      as [[acc1 | e] w1] eqn:El; cbn [fst]; [| discriminate].
    intros H Hacc.
    pose proof (listing_loop_accepted _ _ _ _ _ _ El Hacc) as H1.
    destruct (Z.of_nat (List.length (job :: jobs)) <? PAGE_LIMIT)%Z.
    + injection H as <- _. exact H1.
    + apply (IH _ _ _ _ _ H H1).
Qed.

(** X4: every record that the JobStash adapter returns passed its three
    tiers: the title is not excluded, the location is acceptable, the
    seniority text does not parse below the threshold; and the record
    has a source id that is not empty, and arrays for tags and chains. *)
Theorem jobstash_scrape_emits_accepted_listings :
  forall (env : Env) (w w' : World) (jobs : list RawJob.t),
    scrape env w = (Ok jobs, w') ->
    forall raw, In raw jobs -> accepted_listing raw.
Proof.
  intros env w w' jobs H.
  unfold scrape, scrape_counted, bind, ret in H.
  destruct (pages env MAX_PAGES 1 (mkAcc [] 0 0 0) w) as [[acc | e] w1] eqn:E;
    [| discriminate].
  injection H as <- _.
  apply Forall_forall.
  apply (pages_accepted _ _ _ _ _ _ _ E). constructor.
Qed.

Lemma jobstash_scrape_emits_accepted_listings_witness :
  exists jobs w',
    scrape Sample.env Sample.new_world = (Ok jobs, w')
    /\ map RawJob.sourceId jobs = [str "j1"; str "j3"; str "j4"; str "j5"]
    /\ Forall accepted_listing jobs.
Proof.
  destruct (scrape Sample.env Sample.new_world) as [o w'] eqn:E.
  assert (Eo : o = fst (scrape Sample.env Sample.new_world))
    by (rewrite E; reflexivity).
  vm_compute in Eo.
  match type of Eo with
  | o = Ok ?a => exists a, w'; subst o
  end.
  split; [reflexivity |]. split; [reflexivity |].
  apply Forall_forall.
  exact (jobstash_scrape_emits_accepted_listings Sample.env Sample.new_world
           w' _ E).
Defined.

(** ** scrapers/jobstash.ts: the page requests *)

Lemma pages_requests (env : Env) (remaining : nat) :
  forall (page : Z) (acc : Acc) (w : World),
    exists k : nat,
      (k <= remaining)%nat
      /\ (remaining <> 0%nat -> k <> 0%nat)
      /\ snd (pages env remaining page acc w)
         = mkWorld (db w) (k + tick w) (trace w)
      /\ forall i : nat,
           (S i < k)%nat ->
           exists response jobs,
             fetch_at env (page + Z.of_nat i)%Z (i + tick w) = Ok response
             /\ ok response = true
             /\ listings response = Ok jobs
             /\ (PAGE_LIMIT <= Z.of_nat (List.length jobs))%Z.
Proof.
  induction remaining as [| remaining IH]; intros page acc w.
  - exists 0%nat. simpl. destruct w.
    repeat split; auto; try lia; intros i Hi; lia.
  - assert (One : forall o : Outcome Acc,
               exists k : nat,
                 (k <= S remaining)%nat
                 /\ (S remaining <> 0%nat -> k <> 0%nat)
                 /\ snd (o, mkWorld (db w) (S (tick w)) (trace w))
                    = mkWorld (db w) (k + tick w) (trace w)
                 /\ forall i : nat,
                      (S i < k)%nat ->
                      exists response jobs,
                        fetch_at env (page + Z.of_nat i)%Z (i + tick w)
                        = Ok response
                        /\ ok response = true
                        /\ listings response = Ok jobs
                        /\ (PAGE_LIMIT <= Z.of_nat (List.length jobs))%Z).
    { intros o. exists 1%nat. simpl.
      repeat split; auto; try lia; intros i Hi; lia. }
    rewrite pages_step. cbv zeta.
    destruct (fetch_at env page (tick w)) as [response | e] eqn:Ef;
      [| apply (One (Throw e))].
    destruct (ok response) eqn:Eok; cbn [negb];
      [| apply (One (Ok acc))].
    destruct (listings response) as [[| job jobs] | e] eqn:El;
      [apply (One (Ok acc)) | | apply (One (Throw e))].
    destruct (fst (for_of (job :: jobs) (processJob env) acc _))
      as [acc1 | e]; [| apply (One (Throw e))].
    destruct (Z.ltb_spec (Z.of_nat (List.length (job :: jobs))) PAGE_LIMIT)
      as [Hshort | Hfull]; [apply (One (Ok acc1)) |].
    destruct (IH (page + 1)%Z acc1 (mkWorld (db w) (S (tick w)) (trace w)))
      as [k [Hk [_ [Hw Hfull']]]].
    exists (S k). rewrite Hw. cbn [db tick trace].
    split; [lia |]. split; [lia |].
    split; [rewrite Nat.add_succ_r; reflexivity |].
    intros [| i] Hi.
    + exists response, (job :: jobs). rewrite Z.add_0_r. auto.
    + destruct (Hfull' i) as [response' [jobs' [F [O [L N]]]]]; [lia |].
      exists response', jobs'.
      replace (page + Z.of_nat (S i))%Z with (page + 1 + Z.of_nat i)%Z by lia.
      replace (S i + tick w)%nat with (i + S (tick w))%nat by lia.
      auto.
Qed.

(** X5: one run of the JobStash adapter makes between 1 and 100 page
    requests, for the pages 1, 2, 3, ... in order, and nothing else: it
    neither reads nor writes the store.  A further page is requested
    only after a page that answered OK with at least PAGE_LIMIT (20)
    listings. *)
Theorem jobstash_scrape_page_requests :
  forall (env : Env) (w : World),
    exists requests : nat,
      (1 <= requests <= MAX_PAGES)%nat
      /\ snd (scrape env w) = mkWorld (db w) (requests + tick w) (trace w)
      /\ forall i : nat,
           (S i < requests)%nat ->
           exists response jobs,
             fetch_at env (1 + Z.of_nat i)%Z (i + tick w) = Ok response
             /\ ok response = true
             /\ listings response = Ok jobs
             /\ (PAGE_LIMIT <= Z.of_nat (List.length jobs))%Z.
Proof.
  intros env w.
  destruct (pages_requests env MAX_PAGES 1%Z (mkAcc [] 0 0 0) w)
    as [k [Hk [Hpos [Hw Hfull]]]].
  exists k.
  split; [split; [| exact Hk] |].
  { assert (k <> 0%nat) by (apply Hpos; discriminate). lia. }
  split; [| exact Hfull].
  unfold scrape, scrape_counted, bind, ret.
  destruct (pages env MAX_PAGES 1 (mkAcc [] 0 0 0) w) as [[acc | e] w1];
    exact Hw.
Qed.

Lemma listing_loop_returns (env : Env) (jobs : list JobStashJob.t) :
  (forall t, exists iso, Date_toISOString env t = Ok iso) ->
  forall (acc : Acc) (w : World),
    exists acc', fst (for_of jobs (processJob env) acc w) = Ok acc'.
Proof.
  intros Hdate.
  induction jobs as [| job jobs IH]; intros acc w; simpl.
  - exists acc. reflexivity.
  - unfold bind at 1.
    assert (P : exists acc1 w1, processJob env job acc w = (Ok acc1, w1)).
    { unfold processJob.
      destruct (below_min_seniority job); [eexists; eexists; reflexivity |].
      destruct (test EXCLUDED_TITLE_PATTERNS (JobStashJob.title job));
        [eexists; eexists; reflexivity |].
      destruct (negb (isLocationValid job));
        [eexists; eexists; reflexivity |].
      unfold bind, ret, toRawJob, lift.
      destruct (num_truthy (JobStashJob.timestamp job));
        [| eexists; eexists; reflexivity].
      destruct (JobStashJob.timestamp job) as [| | t];
        try (eexists; eexists; reflexivity).
      destruct (Hdate t) as [iso ->]. eexists; eexists; reflexivity. }
    destruct P as [acc1 [w1 ->]]. apply IH.
Qed.

Lemma pages_returns (env : Env) (remaining : nat) :
  (forall page t,
      exists response,
        fetch_at env page t = Ok response
        /\ (ok response = true -> exists jobs, listings response = Ok jobs)) ->
  (forall t, exists iso, Date_toISOString env t = Ok iso) ->
  forall (page : Z) (acc : Acc) (w : World),
    exists acc', fst (pages env remaining page acc w) = Ok acc'.
Proof.
  intros Hfetch Hdate.
  induction remaining as [| remaining IH]; intros page acc w.
  - exists acc. reflexivity.
  - rewrite pages_step. cbv zeta.
    destruct (Hfetch page (tick w)) as [response [-> Hbody]].
    destruct (ok response); cbn [negb]; [| exists acc; reflexivity].
    destruct (Hbody eq_refl) as [jobs ->].
    destruct jobs as [| job jobs]; [exists acc; reflexivity |].
    destruct (listing_loop_returns env (job :: jobs) Hdate acc
                (mkWorld (db w) (S (tick w)) (trace w))) as [acc1 ->].
    destruct (Z.of_nat (List.length (job :: jobs)) <? PAGE_LIMIT)%Z;
      [exists acc1; reflexivity | apply IH].
Qed.

(** X6: the JobStash adapter returns normally whenever every page
    request resolves, every OK response has a JSON body that can be
    read, and every timestamp converts to a date; a response whose
    status is not OK is no error, and when it is the first response the
    adapter returns the empty list. *)
Theorem jobstash_scrape_returns :
  forall (env : Env) (w : World),
    ((forall page t,
         exists response,
           fetch_at env page t = Ok response
           /\ (ok response = true -> exists jobs, listings response = Ok jobs)) ->
     (forall t, exists iso, Date_toISOString env t = Ok iso) ->
     exists jobs, fst (scrape env w) = Ok jobs)
    /\ (forall response,
           fetch_at env 1%Z (tick w) = Ok response ->
           ok response = false ->
           scrape env w = (Ok [], mkWorld (db w) (S (tick w)) (trace w))).
Proof.
  intros env w. split.
  - intros Hfetch Hdate.
    destruct (pages_returns env MAX_PAGES Hfetch Hdate 1%Z (mkAcc [] 0 0 0) w)
      as [acc E].
    unfold scrape, scrape_counted, bind, ret.
    destruct (pages env MAX_PAGES 1 (mkAcc [] 0 0 0) w) as [[acc1 | e] w1];
      [eexists; reflexivity | discriminate E].
  - intros response Hf Hok.
    unfold scrape, scrape_counted, bind, ret, MAX_PAGES.
    rewrite pages_step. cbv zeta. rewrite Hf, Hok. reflexivity.
Qed.

Lemma jobstash_scrape_returns_witness :
  let down :=
    mkEnv (uuidv4_text_at Sample.env) (now_text_at Sample.env)
      (scrape_at Sample.env) (judge_at Sample.env)
      (fun _ _ => Ok (mkResponse false 503 (Throw (JsError (str "no body")))))
      (OPENAI_API_KEY Sample.env) (JSON_stringify Sample.env)
      (JSON_parse Sample.env) (StringToNumber Sample.env)
      (ObjectToNumber Sample.env) (Date_toISOString Sample.env)
      (scrape_is_array Sample.env) in
  (exists jobs, fst (scrape Sample.env Sample.new_world) = Ok jobs)
  /\ scrape down Sample.new_world = (Ok [], mkWorld Db.empty 1 []).
Proof.
  intros down. split.
  - apply (proj1 (jobstash_scrape_returns Sample.env Sample.new_world)).
    + intros page t. eexists. split; [reflexivity |].
      intros _. eexists. reflexivity.
    + intros t. eexists. reflexivity.
  - apply (proj2 (jobstash_scrape_returns down Sample.new_world)
             (mkResponse false 503 (Throw (JsError (str "no body")))));
      reflexivity.
Defined.

(** ** db: the writers keep the store consistent *)

Section Keeps.
Variable P : Db.t -> Prop.

Lemma keeps_ret {A : Type} (a : A) : keeps P (ret a).
Proof. intros w H. exact H. Qed.

Lemma keeps_throw {A : Type} (e : Exn) : keeps P (throw e : M A).
Proof. intros w H. exact H. Qed.

Lemma keeps_lift {A : Type} (o : Outcome A) : keeps P (lift o).
Proof. intros w H. exact H. Qed.

Lemma keeps_ask {A : Type} (oracle : nat -> A) : keeps P (ask oracle).
Proof. intros w H. exact H. Qed.

Lemma keeps_emit (e : Event) : keeps P (emit e).
Proof. intros w H. exact H. Qed.

Lemma keeps_get_db : keeps P get_db.
Proof. intros w H. exact H. Qed.

Lemma keeps_bind {A B : Type} (c : M A) (f : A -> M B) :
  keeps P c -> (forall a, keeps P (f a)) -> keeps P (bind c f).
Proof.
  intros Hc Hf w H. unfold bind. specialize (Hc w H).
  destruct (c w) as [[a | e] w1]; [apply Hf |]; exact Hc.
Qed.

Lemma keeps_try_catch {A : Type} (body : M A) (handler : Exn -> M A) :
  keeps P body -> (forall e, keeps P (handler e)) ->
  keeps P (try_catch body handler).
Proof.
  intros Hb Hh w H. unfold try_catch. specialize (Hb w H).
  destruct (body w) as [[a | e] w1]; [| apply Hh]; exact Hb.
Qed.

Lemma keeps_for_of {A S : Type} (l : list A) (body : A -> S -> M S) :
  (forall x acc, keeps P (body x acc)) ->
  forall acc, keeps P (for_of l body acc).
Proof.
  intros Hb. induction l as [| x l IH]; intros acc; simpl.
  - apply keeps_ret.
  - apply keeps_bind; [apply Hb | exact IH].
Qed.

End Keeps.

Lemma distinct_after_filter {Row Key : Type} (key : Row -> Key)
    (rows : list Row) :
  NoDup (map key rows) ->
  forall keep : Row -> bool, NoDup (map key (filter keep rows)).
Proof.
  intros H p. induction rows as [| a l IH]; [exact H |].
  cbn [map] in H. apply NoDup_cons_iff in H. destruct H as [Ha Hl].
  cbn [filter]. destruct (p a); [| exact (IH Hl)].
  cbn [map]. apply NoDup_cons_iff. split; [| exact (IH Hl)].
  intros X. apply Ha. rewrite in_map_iff in *.
  destruct X as [b [E Hb]]. exists b. split; [exact E |].
  apply filter_In in Hb. apply Hb.
Qed.

Lemma upsertJob_other_tables (env : Env) (job : JobInput.t) (w : World) :
  let d' := db (snd (upsertJob env job w)) in
  Db.job_scores d' = Db.job_scores (db w)
  /\ Db.job_actions d' = Db.job_actions (db w)
  /\ Db.job_actions_seq d' = Db.job_actions_seq (db w)
  /\ Db.scrape_runs d' = Db.scrape_runs (db w)
  /\ Db.scrape_runs_seq d' = Db.scrape_runs_seq (db w)
  /\ forall i, In i (map JobRow.id (Db.jobs (db w))) ->
               In i (map JobRow.id (Db.jobs d')).
Proof.
  rewrite upsertJob_run. cbv zeta.
  destruct (select_job_id _ _ (db w)) as [existing |].
  - cbn [snd db]. repeat split; try reflexivity.
    intros i Hi. rewrite update_job_keys; [exact Hi | reflexivity].
  - destruct (insert_job _ (db w)) as [d' |] eqn:E; cbn [snd db].
    + unfold insert_job in E.
      destruct (existsb _ _) in E; [discriminate |].
      destruct (existsb _ _) in E; [discriminate |].
      injection E as <-. repeat split; try reflexivity.
      intros i Hi. cbn [with_jobs Db.jobs]. rewrite map_app.
      apply in_or_app. left. exact Hi.
    + repeat split; auto.
Qed.

Lemma keeps_upsertJob (env : Env) (job : JobInput.t) :
  keeps consistent (upsertJob env job).
Proof.
  intros w H.
  destruct (upsertJob_other_tables env job w) as [S [A [AS [R [RS J]]]]].
  destruct H. constructor.
  - apply upsertJob_ids. assumption.
  - apply upsertJob_keys. assumption.
  - rewrite S. assumption.
  - rewrite S. intros s Hs. apply J. auto.
  - rewrite S. assumption.
  - rewrite A. assumption.
  - rewrite A. assumption.
  - rewrite A. intros a Ha. apply J. auto.
  - rewrite A, AS. assumption.
  - rewrite R. assumption.
  - rewrite R, RS. assumption.
Qed.

Lemma replace_score_checks (row : ScoreRow.t) (d d' : Db.t) :
  replace_score row d = Ok d' ->
  d' = with_scores d (other_scores (ScoreRow.job_id row) (Db.job_scores d)
                      ++ [row])
  /\ is_NaN (ScoreRow.overall_score row) = false
  /\ In (ScoreRow.job_id row) (map JobRow.id (Db.jobs d)).
Proof.
  unfold replace_score, null_score_column.
  destruct (is_NaN (ScoreRow.overall_score row)); [discriminate |].
  repeat (destruct (is_NaN _); [discriminate |]).
  destruct (existsb (has_job_id (ScoreRow.job_id row)) (Db.jobs d)) eqn:E;
    [| discriminate].
  intros [= <-]. split; [reflexivity |]. split; [reflexivity |].
  apply existsb_exists in E. destruct E as [r [Hr E]].
  apply jsstring_eqb_eq in E. rewrite <- E. apply in_map. exact Hr.
Qed.

Lemma other_scores_without (jobId : jsstring) (rows : list ScoreRow.t) :
  ~ In jobId (map ScoreRow.job_id (other_scores jobId rows)).
Proof.
  intros H. apply in_map_iff in H. destruct H as [s [E Hs]].
  apply filter_In in Hs. destruct Hs as [_ Hs].
  rewrite E, jsstring_eqb_refl in Hs. discriminate.
Qed.

Lemma keeps_upsertScore (env : Env) (score : ScoreInput.t) :
  keeps consistent (upsertScore env score).
Proof.
  intros w H. rewrite upsertScore_run.
  destruct (bind_reasoning _) as [reasoning | e]; cbn [and_then];
    [| exact H].
  match goal with |- context [replace_score ?r ?d] =>
    destruct (replace_score r d) as [d' |] eqn:E; [| exact H];
    apply replace_score_checks in E; destruct E as [-> [Hnan Hjob]] end.
  cbn [snd db ScoreRow.job_id ScoreRow.overall_score] in *.
  destruct H. constructor; cbn [with_scores Db.jobs Db.job_scores
    Db.job_actions Db.job_actions_seq Db.scrape_runs Db.scrape_runs_seq];
    try assumption.
  - rewrite map_app. apply NoDup_snoc.
    + apply distinct_after_filter. assumption.
    + apply other_scores_without.
  - intros s Hs. apply in_app_or in Hs. destruct Hs as [Hs | [<- | []]].
    + apply filter_In in Hs. apply scores_belong_to_jobs0. apply Hs.
    + exact Hjob.
  - intros s Hs. apply in_app_or in Hs. destruct Hs as [Hs | [<- | []]].
    + apply filter_In in Hs. apply overall_scores_not_null0. apply Hs.
    + exact Hnan.
Qed.

Lemma fold_max_bounded (ids : list Z) (bound : Z) :
  (0 <= bound)%Z -> (forall x, In x ids -> (x <= bound)%Z) ->
  (fold_right Z.max 0 ids <= bound)%Z.
Proof.
  intros Hb. induction ids as [| y ids IH]; simpl; intros H; [exact Hb |].
  apply Z.max_lub; [apply H; left; reflexivity |].
  apply IH. intros x Hx. apply H. right. exact Hx.
Qed.

Lemma next_rowid_above (seq : Z) (ids : list Z) (x : Z) :
  In x ids -> (x < next_rowid seq ids)%Z.
Proof.
  intros H. apply fold_max_ge in H. unfold next_rowid. lia.
Qed.

Lemma addAction_run (env : Env) (jobId action : jsstring)
    (notes : nullable jsstring) (w : World) :
  addAction env jobId action notes w =
    if existsb (has_job_id (text jobId)) (Db.jobs (db w))
    then
      let rowid :=
        next_rowid (Db.job_actions_seq (db w))
          (map ActionRow.id (Db.job_actions (db w))) in
      (Ok tt,
       mkWorld
         (with_actions (db w)
            (filter (fun a => negb (jsstring_eqb (ActionRow.job_id a)
                                      (text jobId)
                                    && jsstring_eqb (ActionRow.action a)
                                         (text action)))
               (Db.job_actions (db w))
             ++ [ActionRow.mk rowid (text jobId) (text action)
                   (text_or_null notes) (now_at env (tick w))])
            rowid)
         (S (tick w)) (trace w))
    else (Throw (JsError (str "FOREIGN KEY constraint failed")),
          mkWorld (db w) (S (tick w)) (trace w)).
Proof.
  unfold addAction, bind, ask, get_db, put_db, throw. cbn [db tick trace].
  rewrite text_now_at.
  destruct (existsb (has_job_id (text jobId)) (Db.jobs (db w))); reflexivity.
Qed.

Lemma keeps_addAction (env : Env) (jobId action : jsstring)
    (notes : nullable jsstring) :
  keeps consistent (addAction env jobId action notes).
Proof.
  intros w H. rewrite addAction_run.
  destruct (existsb (has_job_id (text jobId)) (Db.jobs (db w))) eqn:E;
    [| exact H].
  cbv zeta. cbn [snd db].
  set (rowid := next_rowid (Db.job_actions_seq (db w))
                  (map ActionRow.id (Db.job_actions (db w)))).
  destruct H. constructor; cbn [with_actions Db.jobs Db.job_scores
    Db.job_actions Db.job_actions_seq Db.scrape_runs Db.scrape_runs_seq];
    try assumption.
  - rewrite map_app. apply NoDup_snoc.
    + apply distinct_after_filter. assumption.
    + intros X. apply in_map_iff in X. destruct X as [a [Ea Ha]].
      apply filter_In in Ha. destruct Ha as [_ Ha].
      unfold action_key in Ea. cbn in Ea. injection Ea as E1 E2.
      rewrite E1, E2, !jsstring_eqb_refl in Ha. discriminate.
  - rewrite map_app. apply NoDup_snoc.
    + apply distinct_after_filter. assumption.
    + intros X. apply in_map_iff in X. destruct X as [a [Ea Ha]].
      apply filter_In in Ha. destruct Ha as [Ha _].
      apply (in_map ActionRow.id) in Ha. rewrite Ea in Ha.
      apply (next_rowid_fresh _ _ Ha).
  - intros a Ha. apply in_app_or in Ha. destruct Ha as [Ha | [<- | []]].
    + apply filter_In in Ha. apply actions_belong_to_jobs0. apply Ha.
    + cbn. apply existsb_exists in E. destruct E as [r [Hr E]].
      apply jsstring_eqb_eq in E. rewrite <- E. apply in_map. exact Hr.
  - intros a Ha. apply in_app_or in Ha. destruct Ha as [Ha | [<- | []]].
    + apply filter_In in Ha. destruct Ha as [Ha _].
      apply (in_map ActionRow.id) in Ha.
      apply (next_rowid_above (Db.job_actions_seq (db w))) in Ha.
      fold rowid in Ha. lia.
    + cbn. lia.
Qed.

Lemma keeps_removeAction (jobId : jsstring) (action : nullable jsstring) :
  keeps consistent (removeAction jobId action).
Proof.
  intros w H. unfold removeAction, bind, get_db, put_db. cbn [snd].
  destruct H.
  destruct (falsy action); cbn [snd db]; constructor;
    cbn [with_actions Db.jobs Db.job_scores Db.job_actions
         Db.job_actions_seq Db.scrape_runs Db.scrape_runs_seq];
    try assumption;
    try (apply distinct_after_filter; assumption);
    intros a Ha; apply filter_In in Ha; destruct Ha as [Ha _]; auto.
Qed.

Lemma keeps_startScrapeRun (env : Env) (source : jsstring) :
  keeps consistent (startScrapeRun env source).
Proof.
  intros w H. rewrite startScrapeRun_run. cbv zeta. cbn [snd db].
  set (runId := next_rowid (Db.scrape_runs_seq (db w))
                  (map RunRow.id (Db.scrape_runs (db w)))).
  destruct H. constructor; cbn [with_runs Db.jobs Db.job_scores
    Db.job_actions Db.job_actions_seq Db.scrape_runs Db.scrape_runs_seq];
    try assumption.
  - rewrite map_app. apply NoDup_snoc; [assumption |].
    apply next_rowid_fresh.
  - intros r Hr. apply in_app_or in Hr. destruct Hr as [Hr | [<- | []]].
    + apply (in_map RunRow.id) in Hr.
      apply (next_rowid_above (Db.scrape_runs_seq (db w))) in Hr.
      fold runId in Hr. lia.
    + cbn. lia.
Qed.

Lemma completeScrapeRun_ids (id : Z) (f : RunRow.t -> RunRow.t)
    (runs : list RunRow.t) :
  (forall r, RunRow.id (f r) = RunRow.id r) ->
  map RunRow.id (map (fun r => if (RunRow.id r =? id)%Z then f r else r) runs)
  = map RunRow.id runs.
Proof.
  intros Hf. rewrite map_map. apply map_ext. intros r.
  destruct (RunRow.id r =? id)%Z; auto.
Qed.

Lemma keeps_completeScrapeRun (env : Env) (id : Z) (status : jsstring)
    (jobsFound jobsNew : Z) (error : nullable jsstring) :
  keeps consistent (completeScrapeRun env id status jobsFound jobsNew error).
Proof.
  intros w H. rewrite completeScrapeRun_run. cbn [snd db].
  destruct H. constructor; cbn [with_runs Db.jobs Db.job_scores
    Db.job_actions Db.job_actions_seq Db.scrape_runs Db.scrape_runs_seq];
    try assumption.
  - rewrite completeScrapeRun_ids; [assumption | reflexivity].
  - intros r Hr. apply in_map_iff in Hr. destruct Hr as [r0 [E Hr0]].
    specialize (run_ids_issued0 r0 Hr0).
    destruct (RunRow.id r0 =? id)%Z; subst r; exact run_ids_issued0.
Qed.

Lemma keeps_runScraper (env : Env) (source : jsstring) :
  keeps consistent (runScraper env source).
Proof.
  unfold runScraper. destruct (adapters_get source) as [factory |].
  2: apply keeps_throw.
  apply keeps_bind; [apply keeps_lift |]. intros adapter.
  - apply keeps_bind; [apply keeps_startScrapeRun |]. intros runId.
    apply keeps_try_catch.
    + apply keeps_bind.
      { destruct adapter as [registered |]; [| apply keeps_throw].
        unfold adapter_scrape.
        apply keeps_bind; [apply keeps_emit |]. intros _.
        apply keeps_bind; [apply keeps_ask |]. intros scraped.
        apply keeps_lift. }
      intros rawJobs.
      apply keeps_bind.
      { apply keeps_for_of. intros raw jobsNew.
        apply keeps_bind; [apply keeps_upsertJob |]. intros result.
        apply keeps_ret. }
      intros jobsNew.
      apply keeps_bind; [apply keeps_completeScrapeRun |]. intros _.
      apply keeps_ret.
    + intros error.
      apply keeps_bind; [apply keeps_completeScrapeRun |]. intros _.
      apply keeps_throw.
Qed.

Lemma keeps_runAllScrapers (env : Env) :
  keeps consistent (runAllScrapers env).
Proof.
  unfold runAllScrapers. apply keeps_for_of. intros source results.
  apply keeps_try_catch.
  - apply keeps_bind; [apply keeps_runScraper |]. intros counts.
    apply keeps_ret.
  - intros _. apply keeps_ret.
Qed.

Lemma keeps_askJudge (env : Env) (job : JobSummary.t) :
  keeps consistent (askJudge env job).
Proof.
  unfold askJudge.
  apply keeps_bind; [apply keeps_emit |]. intros _.
  apply keeps_bind; [apply keeps_ask |]. intros reply.
  apply keeps_bind; [apply keeps_lift |]. intros [| | raw_content];
    try apply keeps_throw.
  destruct (falsy (Val (trim raw_content))); [apply keeps_throw |].
  apply keeps_bind; [apply keeps_lift |]. intros parsed.
  apply keeps_bind; [apply keeps_lift |]. intros overall_score.
  destruct (negb (is_number overall_score));
    [apply keeps_throw | apply keeps_ret].
Qed.

Lemma keeps_withRetry_from {A : Type} (fn : M A) (n : nat) :
  keeps consistent fn ->
  forall last, keeps consistent (withRetry_from fn n last).
Proof.
  intros Hfn. induction n as [| n IH]; intros last; simpl.
  - apply keeps_throw.
  - apply keeps_try_catch; [exact Hfn | exact IH].
Qed.

Lemma keeps_scoreJob (env : Env) (job : JobSummary.t) :
  keeps consistent (scoreJob env job).
Proof.
  unfold scoreJob.
  apply keeps_bind; [apply keeps_lift |]. intros _.
  apply keeps_bind.
  { apply keeps_withRetry_from. apply keeps_askJudge. }
  intros result.
  repeat (apply keeps_bind; [apply keeps_lift |]; intros ?).
  apply keeps_upsertScore.
Qed.

Lemma keeps_scoreUnscored (env : Env) (limit : option jsnum) :
  keeps consistent (scoreUnscored env limit).
Proof.
  unfold scoreUnscored.
  destruct (falsy (OPENAI_API_KEY env)); [apply keeps_throw |].
  apply keeps_bind.
  { unfold getUnscoredJobs.
    apply keeps_bind; [apply keeps_get_db |]. intros d.
    destruct (limit_integer _); [apply keeps_ret | apply keeps_throw]. }
  intros jobs. apply keeps_for_of. intros job scored.
  apply keeps_try_catch.
  - apply keeps_bind; [apply keeps_scoreJob |]. intros _. apply keeps_ret.
  - intros _. apply keeps_ret.
Qed.

Lemma consistent_empty : consistent Db.empty.
Proof.
  constructor; simpl; try constructor; intros x [].
Qed.

(** X7: the writers of the persistence layer, and the scrape and scoring
    runs built from them, keep the store consistent with its schema,
    whether they return or throw: ids and (source, sourceId) keys of
    jobs stay distinct, a job has at most one score row and one row per
    action name, every score and action row belongs to a stored job, and
    row ids of actions and runs are not reused.  The store that the
    writers reach from a new database is therefore consistent. *)
Theorem writers_keep_store_consistent :
  forall env : Env,
    consistent Db.empty
    /\ (forall job, keeps consistent (upsertJob env job))
    /\ (forall score, keeps consistent (upsertScore env score))
    /\ (forall jobId action notes,
           keeps consistent (addAction env jobId action notes))
    /\ (forall jobId action, keeps consistent (removeAction jobId action))
    /\ (forall source, keeps consistent (startScrapeRun env source))
    /\ (forall id status jobsFound jobsNew error,
           keeps consistent
             (completeScrapeRun env id status jobsFound jobsNew error))
    /\ (forall source, keeps consistent (runScraper env source))
    /\ keeps consistent (runAllScrapers env)
    /\ (forall limit, keeps consistent (scoreUnscored env limit))
    /\ (forall w, reachable env w -> consistent (db w)).
Proof.
  intros env.
  split; [exact consistent_empty |].
  split; [exact (keeps_upsertJob env) |].
  split; [exact (keeps_upsertScore env) |].
  split; [exact (keeps_addAction env) |].
  split; [exact keeps_removeAction |].
  split; [exact (keeps_startScrapeRun env) |].
  split; [exact (keeps_completeScrapeRun env) |].
  split; [exact (keeps_runScraper env) |].
  split; [exact (keeps_runAllScrapers env) |].
  split; [exact (keeps_scoreUnscored env) |].
  induction 1 as [t tr | w job _ IH | w score _ IH | w jobId action notes _ IH
                 | w jobId action _ IH | w source _ IH
                 | w id status jobsFound jobsNew error _ IH].
  - exact consistent_empty.
  - apply keeps_upsertJob. exact IH.
  - apply keeps_upsertScore. exact IH.
  - apply keeps_addAction. exact IH.
  - apply keeps_removeAction. exact IH.
  - apply keeps_startScrapeRun. exact IH.
  - apply keeps_completeScrapeRun. exact IH.
Qed.

Lemma writers_keep_store_consistent_witness :
  consistent (db Sample.new_world)
  /\ consistent
       (db (snd (scoreUnscored Sample.env None
                   (snd (runAllScrapers Sample.env Sample.new_world)))))
  /\ List.length
       (Db.jobs
          (db (snd (scoreUnscored Sample.env None
                      (snd (runAllScrapers Sample.env Sample.new_world))))))
     = 3%nat.
Proof.
  destruct (writers_keep_store_consistent Sample.env)
    as [H0 [_ [_ [_ [_ [_ [_ [_ [Hall [Hscore _]]]]]]]]]].
  split; [exact H0 |]. split; [| reflexivity].
  apply Hscore. apply Hall. exact H0.
Defined.

(** ** db: upsertScore *)

Lemma other_scores_idempotent (jobId : jsstring) (rows : list ScoreRow.t)
    (row : ScoreRow.t) :
  ScoreRow.job_id row = jobId ->
  other_scores jobId (other_scores jobId rows ++ [row])
  = other_scores jobId rows.
Proof.
  intros E. unfold other_scores. rewrite filter_app. cbn [filter].
  rewrite E, jsstring_eqb_refl. cbn [negb]. rewrite app_nil_r.
  induction rows as [| s rows IH]; cbn [filter]; [reflexivity |].
  destruct (negb (jsstring_eqb (ScoreRow.job_id s) jobId)) eqn:Es;
    cbn [filter]; [rewrite Es, IH; reflexivity | exact IH].
Qed.

Lemma scores_of_after_replace (jobId : jsstring) (rows : list ScoreRow.t)
    (row : ScoreRow.t) :
  ScoreRow.job_id row = jobId ->
  filter (fun s => jsstring_eqb (ScoreRow.job_id s) jobId)
    (other_scores jobId rows ++ [row])
  = [row].
Proof.
  intros E. rewrite filter_app. cbn [filter].
  rewrite E, jsstring_eqb_refl.
  replace (filter _ (other_scores jobId rows)) with (@nil ScoreRow.t);
    [reflexivity |].
  symmetry. apply filter_none. apply not_true_is_false. intros X.
  apply existsb_exists in X. destruct X as [s [Hs Es]].
  apply filter_In in Hs. destruct Hs as [_ Hs].
  rewrite Es in Hs. discriminate.
Qed.

(** X8: upsertScore keeps one score row per job, the last one written.
    When it returns, the job has exactly one score row, carrying the
    values of this call as the driver bound them, whatever was stored
    for the job before; the rows of the other jobs and the other tables
    are as before.  When it throws, nothing was written; it throws for a
    job id that is not in the store. *)
Theorem upsertScore_last_write_wins :
  forall (env : Env) (score : ScoreInput.t) (w : World),
    let jobId := text (ScoreInput.jobId score) in
    let result := upsertScore env score w in
    (fst result = Ok tt ->
     exists reasoning,
       bind_reasoning (ScoreInput.reasoning score) = Ok reasoning
       /\ filter (fun s => jsstring_eqb (ScoreRow.job_id s) jobId)
            (Db.job_scores (db (snd result)))
          = [ScoreRow.mk jobId (ScoreInput.overallScore score)
               (ScoreInput.relevanceScore score)
               (ScoreInput.experienceMatch score)
               (ScoreInput.domainMatch score) (ScoreInput.seniorityFit score)
               reasoning (now_at env (tick w))
               (text (ScoreInput.modelUsed score))]
       /\ other_scores jobId (Db.job_scores (db (snd result)))
          = other_scores jobId (Db.job_scores (db w))
       /\ Db.jobs (db (snd result)) = Db.jobs (db w)
       /\ Db.job_actions (db (snd result)) = Db.job_actions (db w)
       /\ Db.scrape_runs (db (snd result)) = Db.scrape_runs (db w))
    /\ ((forall e, fst result = Throw e -> db (snd result) = db w))
    /\ (existsb (has_job_id jobId) (Db.jobs (db w)) = false ->
        exists e, fst result = Throw e).
Proof.
  intros env score w jobId result.
  unfold result. rewrite upsertScore_run. fold jobId.
  destruct (bind_reasoning (ScoreInput.reasoning score)) as [reasoning | e];
    cbn [and_then].
  2: { cbn [fst snd db]. split; [discriminate |]. split; [reflexivity |].
       intros _. exists e. reflexivity. }
  match goal with |- context [replace_score ?r ?d] =>
    set (row := r); destruct (replace_score row d) as [d' |] eqn:E
  end; cbn [fst snd db].
  - apply replace_score_checks in E. destruct E as [-> [_ Hjob]].
    cbn [with_scores Db.jobs Db.job_scores Db.job_actions Db.scrape_runs].
    split; [| split; [discriminate |]].
    + intros _. exists reasoning. split; [reflexivity |].
      split; [apply scores_of_after_replace; reflexivity |].
      split; [apply other_scores_idempotent; reflexivity |].
      repeat split.
    + intros Hno. exfalso.
      apply in_map_iff in Hjob. destruct Hjob as [r [Er Hr]].
      assert (X : existsb (has_job_id jobId) (Db.jobs (db w)) = true).
      { apply existsb_exists. exists r. split; [exact Hr |].
        apply jsstring_eqb_eq. exact Er. }
      congruence.
  - split; [discriminate |]. split; [reflexivity |].
    intros _. exists e. reflexivity.
Qed.

Lemma upsertScore_last_write_wins_witness :
  let w :=
    snd (upsertJob Sample.env
           (JobInput.mk (str "jobstash") (Sample.raw "a1" "Product Manager"))
           Sample.new_world) in
  let first :=
    ScoreInput.mk [0%N] (Fin 40) (Fin 41) (Fin 42) (Fin 43) (Fin 44)
      (JStr (str "weak")) (str "m") in
  let second :=
    ScoreInput.mk [0%N] (Fin 70) (Fin 71) (Fin 72) (Fin 73) (Fin 74)
      (JStr (str "fits")) (str "m") in
  let stray :=
    ScoreInput.mk (str "no-such-job") (Fin 70) (Fin 71) (Fin 72) (Fin 73)
      (Fin 74) (JStr (str "fits")) (str "m") in
  let w1 := snd (upsertScore Sample.env first w) in
  (fst (upsertScore Sample.env second w1) = Ok tt
   /\ map ScoreRow.overall_score
        (filter (fun s => jsstring_eqb (ScoreRow.job_id s) [0%N])
           (Db.job_scores (db (snd (upsertScore Sample.env second w1)))))
      = [Fin 70])
  /\ exists e, fst (upsertScore Sample.env stray w1) = Throw e.
Proof.
  intros w first second stray w1. split.
  - split; [reflexivity |].
    destruct (proj1 (upsertScore_last_write_wins Sample.env second w1) eq_refl)
      as [reasoning [_ [H _]]].
    exact (f_equal (map ScoreRow.overall_score) H).
  - apply (upsertScore_last_write_wins Sample.env stray w1). reflexivity.
Defined.

(** ** db: getUnscoredJobs *)

Lemma limit_integer_of_Z (n : Z) :
  (- 2 ^ 63 < n < 2 ^ 63 - 1)%Z -> limit_integer (Fin (inject_Z n)) = Some n.
Proof.
  intros [Hl Hu]. unfold limit_integer. rewrite Qfloor_Z.
  replace (Qeq_bool (inject_Z n) (inject_Z n)) with true
    by (symmetry; apply Qeq_bool_iff; reflexivity).
  apply Z.ltb_lt in Hl, Hu. rewrite Hl, Hu. reflexivity.
Qed.

Lemma sql_limit_all {A : Type} (limit : Z) (rows : list A) :
  (limit < 0 \/ Z.of_nat (List.length rows) <= limit)%Z ->
  sql_limit limit rows = rows.
Proof.
  intros H. unfold sql_limit.
  destruct (Z.ltb_spec limit 0) as [Hn | Hn]; [reflexivity |].
  apply firstn_all2. lia.
Qed.

(** X9: getUnscoredJobs only reads.  It returns exactly when the
    statement takes the limit as an integer, and throws a datatype
    mismatch for any other number: NaN, an infinity, a fraction, a
    number beyond the 64-bit range.  Every entry it returns is a stored
    job without a score row; with a limit that is not negative it
    returns at most that many entries; with a negative limit, or one
    that is at least the number of stored jobs, it returns every job
    without a score row; and when the job ids are distinct no job is
    returned twice. *)
Theorem getUnscoredJobs_lists_unscored_jobs :
  forall (limit : jsnum) (w : World),
    (limit_integer limit = None ->
     getUnscoredJobs limit w
     = (Throw (JsError (str "datatype mismatch")), w))
    /\ (forall n : Z,
          limit_integer limit = Some n ->
          exists batch : list JobSummary.t,
            getUnscoredJobs limit w = (Ok batch, w)
            /\ (forall s,
                   In s batch ->
                   exists r, In r (Db.jobs (db w))
                             /\ s = summary r
                             /\ has_score (db w) (JobRow.id r) = false)
            /\ ((0 <= n)%Z -> (Z.of_nat (List.length batch) <= n)%Z)
            /\ ((n < 0 \/ Z.of_nat (List.length (Db.jobs (db w))) <= n)%Z ->
                forall r, In r (Db.jobs (db w)) ->
                          has_score (db w) (JobRow.id r) = false ->
                          In (summary r) batch)
            /\ (NoDup (map JobRow.id (Db.jobs (db w))) ->
                NoDup (map JobSummary.id batch)))
    /\ limit_integer NaN = None
    /\ limit_integer PosInf = None
    /\ limit_integer (Fin (1 # 2)) = None
    /\ limit_integer (Fin (inject_Z (2 ^ 63))) = None
    /\ (forall n : Z,
          (- 2 ^ 63 < n < 2 ^ 63 - 1)%Z ->
          limit_integer (Fin (inject_Z n)) = Some n).
Proof.
  intros limit w.
  split.
  { intros Hnone. rewrite getUnscoredJobs_run, Hnone. reflexivity. }
  split.
  { intros n Hsome. eexists.
    split; [rewrite getUnscoredJobs_run, Hsome; reflexivity |].
    set (unscored := filter (fun r => negb (has_score (db w) (JobRow.id r)))
                       (Db.jobs (db w))).
    split.
    { intros s Hs. apply sql_limit_incl in Hs. apply in_map_iff in Hs.
      destruct Hs as [r [<- Hr]]. apply filter_In in Hr.
      destruct Hr as [Hr Hn].
      exists r. split; [exact Hr |]. split; [reflexivity |].
      apply negb_true_iff. exact Hn. }
    split; [apply sql_limit_length |].
    split.
    { intros Hl r Hr Hn. rewrite sql_limit_all.
      - apply in_map. apply filter_In. split; [exact Hr |].
        apply negb_true_iff. exact Hn.
      - destruct Hl as [Hl | Hl]; [left; exact Hl | right].
        rewrite length_map. pose proof (filter_length_le
          (fun r => negb (has_score (db w) (JobRow.id r))) (Db.jobs (db w))).
        fold unscored in H. lia. }
    intros Hids. apply sql_limit_NoDup. rewrite map_map.
    apply (distinct_after_filter JobRow.id (Db.jobs (db w)) Hids). }
  split; [reflexivity |]. split; [reflexivity |].
  split; [reflexivity |]. split; [vm_compute; reflexivity |].
  intros n Hn. apply limit_integer_of_Z. exact Hn.
Qed.

Lemma getUnscoredJobs_lists_unscored_jobs_witness :
  let w :=
    snd (upsertJob Sample.env
           (JobInput.mk (str "jobstash") (Sample.raw "a2" "Growth Lead"))
           (snd (upsertJob Sample.env
                   (JobInput.mk (str "jobstash")
                      (Sample.raw "a1" "Product Manager"))
                   Sample.new_world))) in
  fst (getUnscoredJobs NaN w) = Throw (JsError (str "datatype mismatch"))
  /\ exists batch,
       fst (getUnscoredJobs (Fin 1) w) = Ok batch
       /\ (Z.of_nat (List.length batch) <= 1)%Z
       /\ NoDup (map JobSummary.id batch).
Proof.
  intros w.
  split.
  { rewrite (proj1 (getUnscoredJobs_lists_unscored_jobs NaN w) eq_refl).
    reflexivity. }
  destruct (proj1 (proj2 (getUnscoredJobs_lists_unscored_jobs (Fin 1) w))
              1%Z eq_refl)
    as [batch [E [_ [Hlen [_ Hids]]]]].
  exists batch. rewrite E. split; [reflexivity |].
  split; [apply Hlen; lia |].
  apply Hids. change (NoDup [[0%N]; [2%N]]).
  constructor; [simpl; intros [H | []]; discriminate H |].
  constructor; [simpl; tauto | constructor].
Defined.

(** ** db: a job is unscored from its insertion until its first score *)

Lemma has_score_spec (d : Db.t) (jobId : jsstring) :
  has_score d jobId = true <-> In jobId (map ScoreRow.job_id (Db.job_scores d)).
Proof.
  unfold has_score. rewrite existsb_exists, in_map_iff. split.
  - intros [s [Hs E]]. apply jsstring_eqb_eq in E. exists s. auto.
  - intros [s [E Hs]]. exists s. split; [exact Hs |].
    apply jsstring_eqb_eq. exact E.
Qed.

Lemma upsertJob_new_row (env : Env) (job : JobInput.t) (w w' : World)
    (result : UpsertResult) :
  upsertJob env job w = (Ok result, w') ->
  isNew result = true ->
  ~ In (id result) (map JobRow.id (Db.jobs (db w)))
  /\ Db.jobs (db w')
     = Db.jobs (db w)
       ++ [job_columns env (id result) (text (JobInput.source job))
             (text (RawJob.sourceId (JobInput.raw job))) job
             (now_at env (S (tick w)))]
  /\ Db.job_scores (db w') = Db.job_scores (db w)
  /\ Db.job_actions (db w') = Db.job_actions (db w).
Proof.
  rewrite upsertJob_run. cbv zeta.
  destruct (select_job_id _ _ (db w)) as [existing |].
  - intros [= <- _]. discriminate.
  - destruct (insert_job _ (db w)) as [d' |] eqn:E; [| discriminate].
    intros [= <- <-] _. cbn [id db].
    unfold insert_job in E. cbn [JobRow.id job_columns] in E.
    destruct (existsb (has_job_id _) (Db.jobs (db w))) eqn:Ei; [discriminate |].
    destruct (existsb (key_matches _ _) (Db.jobs (db w))); [discriminate |].
    injection E as <-. split; [| repeat split].
    intros Hin. apply in_map_iff in Hin. destruct Hin as [r [Er Hr]].
    assert (X : existsb (has_job_id (uuidv4_at env (tick w)))
                  (Db.jobs (db w)) = true).
    { apply existsb_exists. exists r. split; [exact Hr |].
      apply jsstring_eqb_eq. exact Er. }
    congruence.
Qed.

(** X10: in a consistent store, a job that upsertJob has just inserted
    is returned by getUnscoredJobs (with the limit -1, that is without
    a limit), under its id and with its title as the store holds it;
    and once upsertScore has returned for a job, getUnscoredJobs does
    not return the job of that id, whatever the limit. *)
Theorem job_unscored_until_scored :
  forall (env : Env) (w : World),
    (consistent (db w) ->
     forall job result w1,
       upsertJob env job w = (Ok result, w1) ->
       isNew result = true ->
       exists batch s,
         getUnscoredJobs (Fin (-1)) w1 = (Ok batch, w1)
         /\ In s batch
         /\ JobSummary.id s = id result
         /\ JobSummary.title s = text (RawJob.title (JobInput.raw job)))
    /\ (forall score w1,
           upsertScore env score w = (Ok tt, w1) ->
           forall limit batch,
             fst (getUnscoredJobs limit w1) = Ok batch ->
             ~ In (text (ScoreInput.jobId score)) (map JobSummary.id batch)).
Proof.
  intros env w. split.
  - intros Hc job result w1 Hrun Hnew.
    destruct (upsertJob_new_row _ _ _ _ _ Hrun Hnew) as [Hfresh [Hjobs [Hs _]]].
    eexists. eexists.
    split; [rewrite getUnscoredJobs_run;
            change (limit_integer (Fin (-1))) with (Some (-1)%Z);
            reflexivity |].
    rewrite sql_limit_all by (left; lia).
    split; [| split].
    + apply in_map. apply filter_In. split.
      * rewrite Hjobs. apply in_or_app. right. left. reflexivity.
      * apply negb_true_iff. apply not_true_is_false. intros X.
        apply has_score_spec in X. rewrite Hs in X.
        apply in_map_iff in X. destruct X as [s [Es Hin]].
        cbn [JobRow.id job_columns] in Es.
        apply Hfresh. rewrite <- Es.
        apply (scores_belong_to_jobs Hc). exact Hin.
    + reflexivity.
    + reflexivity.
  - intros score w1 Hrun limit batch Hb Hin.
    rewrite getUnscoredJobs_run in Hb.
    destruct (limit_integer limit) as [n |]; [| discriminate].
    cbn [fst] in Hb. injection Hb as <-.
    apply in_map_iff in Hin. destruct Hin as [s [Es Hs]].
    apply sql_limit_incl in Hs. apply in_map_iff in Hs.
    destruct Hs as [r [<- Hr]]. apply filter_In in Hr. destruct Hr as [_ Hr].
    cbn [summary JobSummary.id] in Es. rewrite Es in Hr.
    apply negb_true_iff in Hr.
    rewrite upsertScore_run in Hrun.
    destruct (bind_reasoning _) as [reasoning | e]; cbn [and_then] in Hrun;
      [| discriminate].
    match type of Hrun with context [replace_score ?row ?d] =>
      destruct (replace_score row d) as [d' |] eqn:E; [| discriminate];
      pose proof (has_score_replace _ _ _ (text (ScoreInput.jobId score)) E)
        as X
    end.
    injection Hrun as <-. cbn [db ScoreRow.job_id] in Hr.
    cbn [ScoreRow.job_id] in X.
    rewrite X, jsstring_eqb_refl, orb_true_r in Hr. discriminate.
Qed.

Lemma job_unscored_until_scored_witness :
  let job := JobInput.mk (str "jobstash") (Sample.raw "a1" "Product Manager") in
  let w1 := snd (upsertJob Sample.env job Sample.new_world) in
  let score :=
    ScoreInput.mk [0%N] (Fin 70) (Fin 71) (Fin 72) (Fin 73) (Fin 74)
      (JStr (str "fits")) (str "m") in
  let w2 := snd (upsertScore Sample.env score w1) in
  (exists batch s,
      getUnscoredJobs (Fin (-1)) w1 = (Ok batch, w1)
      /\ In s batch
      /\ JobSummary.id s = [0%N]
      /\ JobSummary.title s = str "Product Manager")
  /\ ~ In [0%N] (map JobSummary.id [])
  /\ fst (getUnscoredJobs (Fin (-1)) w2) = Ok [].
Proof.
  intros job w1 score w2.
  split; [| split].
  - apply (proj1 (job_unscored_until_scored Sample.env Sample.new_world)
             consistent_empty job (mkUpsertResult [0%N] true) w1);
      reflexivity.
  - apply (proj2 (job_unscored_until_scored Sample.env w1) score w2 eq_refl
             (Fin (-1)) []).
    reflexivity.
  - reflexivity.
Defined.

(** ** db: addAction and removeAction *)

Lemma other_actions_twice (jobId action : jsstring) (rows : list ActionRow.t) :
  other_actions jobId action (other_actions jobId action rows)
  = other_actions jobId action rows.
Proof.
  unfold other_actions.
  induction rows as [| a rows IH]; cbn [filter]; [reflexivity |].
  destruct (negb (has_action_key jobId action a)) eqn:E; cbn [filter];
    [rewrite E, IH; reflexivity | exact IH].
Qed.

Lemma actions_of_others (jobId action : jsstring) (rows : list ActionRow.t) :
  actions_of jobId action (other_actions jobId action rows) = [].
Proof.
  unfold actions_of, other_actions.
  induction rows as [| a rows IH]; cbn [filter]; [reflexivity |].
  destruct (has_action_key jobId action a) eqn:E; cbn [negb filter];
    [exact IH | rewrite E; exact IH].
Qed.

Lemma other_actions_after_add (jobId action : jsstring)
    (rows : list ActionRow.t) (rowid : Z) (notes : option jsstring)
    (now : jsstring) :
  other_actions jobId action
    (other_actions jobId action rows
     ++ [ActionRow.mk rowid jobId action notes now])
  = other_actions jobId action rows.
Proof.
  unfold other_actions at 1. rewrite filter_app.
  fold (other_actions jobId action (other_actions jobId action rows)).
  rewrite other_actions_twice. cbn [filter].
  unfold has_action_key at 1. cbn [ActionRow.job_id ActionRow.action].
  rewrite !jsstring_eqb_refl. cbn [andb negb]. apply app_nil_r.
Qed.

Lemma addAction_rows (env : Env) (jobId action : jsstring)
    (notes : nullable jsstring) (w : World) :
  existsb (has_job_id (text jobId)) (Db.jobs (db w)) = true ->
  exists rowid : Z,
    Db.job_actions (db (snd (addAction env jobId action notes w)))
    = other_actions (text jobId) (text action) (Db.job_actions (db w))
      ++ [ActionRow.mk rowid (text jobId) (text action) (text_or_null notes)
            (now_at env (tick w))].
Proof.
  intros H. rewrite addAction_run, H. eexists. reflexivity.
Qed.

(** X11: addAction keeps one row per job and action name, the last one
    written.  For a job in the store it returns, and afterwards the job
    has exactly one row for that action, with the notes and time of
    this call and a row id above every row id in the table; the rows of
    other jobs and of other actions are kept.  For a job that is not in
    the store it throws and writes nothing.  The job id, the name and
    the notes are compared and kept as the store holds them. *)
Theorem addAction_last_write_wins :
  forall (env : Env) (jobId action : jsstring) (notes : nullable jsstring)
         (w : World),
    let result := addAction env jobId action notes w in
    let rows := Db.job_actions (db w) in
    let rows' := Db.job_actions (db (snd result)) in
    (existsb (has_job_id (text jobId)) (Db.jobs (db w)) = true ->
     exists rowid : Z,
       let row :=
         ActionRow.mk rowid (text jobId) (text action) (text_or_null notes)
           (now_at env (tick w))
       in
       fst result = Ok tt
       /\ rows' = other_actions (text jobId) (text action) rows ++ [row]
       /\ actions_of (text jobId) (text action) rows' = [row]
       /\ other_actions (text jobId) (text action) rows'
          = other_actions (text jobId) (text action) rows
       /\ (forall a, In a rows -> (ActionRow.id a < rowid)%Z)
       /\ (Db.job_actions_seq (db w) < rowid)%Z
       /\ Db.jobs (db (snd result)) = Db.jobs (db w)
       /\ Db.job_scores (db (snd result)) = Db.job_scores (db w))
    /\ (existsb (has_job_id (text jobId)) (Db.jobs (db w)) = false ->
        fst result = Throw (JsError (str "FOREIGN KEY constraint failed"))
        /\ db (snd result) = db w).
Proof.
  intros env jobId action notes w result rows rows'.
  unfold rows', result. rewrite addAction_run.
  destruct (existsb (has_job_id (text jobId)) (Db.jobs (db w)));
    (split; [| intros X; try discriminate X; split; reflexivity]);
    intros X; try discriminate X.
  cbv zeta. cbn [fst snd db with_actions Db.job_actions Db.jobs Db.job_scores].
  fold rows.
  exists (next_rowid (Db.job_actions_seq (db w)) (map ActionRow.id rows)).
  split; [reflexivity |].
  split; [reflexivity |].
  change (filter _ rows) with (other_actions (text jobId) (text action) rows).
  split.
  { unfold actions_of at 1. rewrite filter_app.
    fold (actions_of (text jobId) (text action)
            (other_actions (text jobId) (text action) rows)).
    rewrite actions_of_others. cbn [filter app].
    unfold has_action_key. cbn [ActionRow.job_id ActionRow.action].
    rewrite !jsstring_eqb_refl. reflexivity. }
  split; [apply other_actions_after_add |].
  split.
  { intros a Ha. apply next_rowid_above. apply in_map. exact Ha. }
  split; [unfold next_rowid; lia |].
  split; reflexivity.
Qed.

Lemma addAction_last_write_wins_witness :
  let w :=
    snd (upsertJob Sample.env
           (JobInput.mk (str "jobstash") (Sample.raw "a1" "Product Manager"))
           Sample.new_world) in
  let w1 := snd (addAction Sample.env [0%N] (str "applied") Undefined w) in
  let again := addAction Sample.env [0%N] (str "applied") (Val (str "sent")) w1 in
  (existsb (has_job_id [0%N]) (Db.jobs (db w1)) = true
   /\ map (fun a => (ActionRow.action a, ActionRow.notes a))
        (Db.job_actions (db (snd again)))
      = [(str "applied", Some (str "sent"))])
  /\ fst (addAction Sample.env (str "no-such-job") (str "applied") Undefined w1)
     = Throw (JsError (str "FOREIGN KEY constraint failed")).
Proof.
  intros w w1 again. split.
  - split; [reflexivity |].
    destruct (proj1 (addAction_last_write_wins Sample.env [0%N] (str "applied")
                       (Val (str "sent")) w1) eq_refl)
      as [rowid [_ [H _]]].
    cbv zeta in H. unfold again. rewrite H. reflexivity.
  - apply (proj2 (addAction_last_write_wins Sample.env (str "no-such-job")
                    (str "applied") Undefined w1)).
    reflexivity.
Defined.

Lemma removeAction_run (jobId : jsstring) (action : nullable jsstring)
    (w : World) :
  removeAction jobId action w =
    (Ok tt,
     mkWorld
       (with_actions (db w)
          (filter
             (fun a =>
                if falsy action
                then negb (jsstring_eqb (ActionRow.job_id a) (text jobId))
                else negb (jsstring_eqb (ActionRow.job_id a) (text jobId)
                           && jsstring_eqb (ActionRow.action a)
                                (text (nullish_or action []))))
             (Db.job_actions (db w)))
          (Db.job_actions_seq (db w)))
       (tick w) (trace w)).
Proof.
  unfold removeAction, bind, get_db, put_db.
  destruct (falsy action); reflexivity.
Qed.

(** X12: removeAction never throws, also for a job that is not in the
    store, and only deletes action rows.  With an action name that is
    not empty it deletes the job's rows of that name and keeps every
    other row; with no name, or with the empty string, it deletes all
    rows of the job.  After addAction for a job and a name, removeAction
    for the same job and name leaves the table as it was before,
    without the job's rows of that name.  The job id and the name are
    compared as the store holds them. *)
Theorem removeAction_deletes_what_it_names :
  forall (jobId : jsstring) (action : nullable jsstring) (w : World),
    let result := removeAction jobId action w in
    let rows := Db.job_actions (db w) in
    let rows' := Db.job_actions (db (snd result)) in
    fst result = Ok tt
    /\ Db.jobs (db (snd result)) = Db.jobs (db w)
    /\ Db.job_scores (db (snd result)) = Db.job_scores (db w)
    /\ Db.scrape_runs (db (snd result)) = Db.scrape_runs (db w)
    /\ (forall name,
           action = Val name -> name <> [] ->
           rows' = other_actions (text jobId) (text name) rows)
    /\ (falsy action = true ->
        rows' = filter (fun a => negb (jsstring_eqb (ActionRow.job_id a)
                                         (text jobId)))
                  rows)
    /\ (forall env name notes,
           action = Val name -> name <> [] ->
           existsb (has_job_id (text jobId)) (Db.jobs (db w)) = true ->
           Db.job_actions
             (db (snd (removeAction jobId action
                         (snd (addAction env jobId name notes w)))))
           = other_actions (text jobId) (text name) rows).
Proof.
  intros jobId action w result rows rows'.
  assert (Named : forall name w0,
             name <> [] ->
             Db.job_actions (db (snd (removeAction jobId (Val name) w0)))
             = other_actions (text jobId) (text name)
                 (Db.job_actions (db w0))).
  { intros name w0 Hne. rewrite removeAction_run.
    cbn [snd db with_actions Db.job_actions].
    destruct name as [| c name]; [contradiction Hne; reflexivity |].
    reflexivity. }
  subst rows' result rows. rewrite removeAction_run.
  cbn [fst snd db with_actions Db.jobs Db.job_scores Db.scrape_runs
       Db.job_actions].
  split; [reflexivity |]. split; [reflexivity |]. split; [reflexivity |].
  split; [reflexivity |].
  split.
  { intros name -> Hne. rewrite <- (Named name w Hne).
    rewrite removeAction_run. reflexivity. }
  split.
  { intros ->. reflexivity. }
  intros env name notes -> Hne Hjob. rewrite (Named name _ Hne).
  destruct (addAction_rows env jobId name notes w Hjob) as [rowid ->].
  apply other_actions_after_add.
Qed.

Lemma removeAction_deletes_what_it_names_witness :
  let w :=
    snd (upsertJob Sample.env
           (JobInput.mk (str "jobstash") (Sample.raw "a1" "Product Manager"))
           Sample.new_world) in
  let w1 := snd (addAction Sample.env [0%N] (str "saved") Undefined w) in
  let w2 := snd (addAction Sample.env [0%N] (str "applied") Undefined w1) in
  (map ActionRow.action
     (Db.job_actions (db (snd (removeAction [0%N] (Val (str "applied")) w2))))
   = [str "saved"]
   /\ Db.job_actions (db (snd (removeAction [0%N] (Val []) w2))) = [])
  /\ Db.job_actions
       (db (snd (removeAction [0%N] (Val (str "applied"))
                   (snd (addAction Sample.env [0%N] (str "applied")
                           (Val (str "again")) w1)))))
     = Db.job_actions (db w1).
Proof.
  intros w w1 w2.
  assert (Hne : str "applied" <> []) by discriminate.
  split; [split |].
  - destruct (removeAction_deletes_what_it_names [0%N] (Val (str "applied")) w2)
      as [_ [_ [_ [_ [H _]]]]].
    cbv zeta in H. rewrite (H (str "applied") eq_refl Hne). reflexivity.
  - destruct (removeAction_deletes_what_it_names [0%N] (Val []) w2)
      as [_ [_ [_ [_ [_ [H _]]]]]].
    cbv zeta in H. rewrite (H eq_refl). reflexivity.
  - destruct (removeAction_deletes_what_it_names [0%N] (Val (str "applied")) w1)
      as [_ [_ [_ [_ [_ [_ H]]]]]].
    cbv zeta in H.
    rewrite (H Sample.env (str "applied") (Val (str "again")) eq_refl Hne
               eq_refl).
    reflexivity.
Defined.

(** ** scrapers/runner.ts: sources, counts and repeated scrapes *)

(** One call of [runScraper] on a registered source, as one equation. *)
Lemma runScraper_run (env : Env) (source : jsstring) (w : World) :
  is_adapter source = true ->
  runScraper env source w =
    let runId :=
      next_rowid (Db.scrape_runs_seq (db w))
        (map RunRow.id (Db.scrape_runs (db w))) in
    let w1 :=
      mkWorld
        (with_runs (db w)
           (Db.scrape_runs (db w)
            ++ [RunRow.mk runId source (now_at env (tick w)) None
                  (str "running") 0 0 None])
           runId)
        (S (S (tick w))) (trace w ++ [EvStartRun runId source; EvScrape source])
    in
    let failed e w2 :=
      (Throw e : Outcome Counts.t,
       snd (completeScrapeRun env runId (str "failed") 0 0
              (Val (error_message e)) w2)) in
    match scrape_at env source (S (tick w)) with
    | Throw e => failed e w1
    | Ok rawJobs =>
        match
          for_of rawJobs
            (fun raw jobsNew =>
               result <- upsertJob env (JobInput.mk source raw) ;;
               ret (if isNew result then jobsNew + 1 else jobsNew)%Z)
            0%Z w1
        with
        | (Ok jobsNew, w2) =>
            (Ok (Counts.mk (Z.of_nat (List.length rawJobs)) jobsNew),
             snd (completeScrapeRun env runId (str "completed")
                    (Z.of_nat (List.length rawJobs)) jobsNew Undefined w2))
        | (Throw e, w2) => failed e w2
        end
    end.
Proof.
  intros Hknown. rewrite (runScraper_registered env source Hknown).
  unfold bind at 1. rewrite startScrapeRun_run.
  rewrite (text_adapter source Hknown). cbv zeta. cbv beta iota.
  unfold try_catch. unfold bind at 1.
  rewrite adapter_scrape_run. cbn [tick db trace].
  rewrite <- app_assoc. cbn [app].
  destruct (scrape_at env source (S (tick w))) as [rawJobs | e].
  - unfold bind at 1.
    match goal with |- context [for_of rawJobs ?b ?n0 ?w0] =>
      destruct (for_of rawJobs b n0 w0) as [[n | e] w2] end.
    + unfold bind at 1. rewrite completeScrapeRun_run. reflexivity.
    + unfold bind at 1. rewrite completeScrapeRun_run. reflexivity.
  - unfold bind at 1. rewrite completeScrapeRun_run. reflexivity.
Qed.

Lemma adapters_get_inherited (source : jsstring) :
  In source Object_prototype ->
  is_adapter source = false /\ adapters_get source = Some (Inherited source).
Proof.
  intros H. unfold Object_prototype in H. cbn [In] in H.
  decompose [or] H; try contradiction; subst source; split; reflexivity.
Qed.

Lemma adapters_get_none (source : jsstring) :
  adapters_get source = None
  <-> is_adapter source = false /\ ~ In source Object_prototype.
Proof.
  unfold adapters_get. destruct (is_adapter source).
  - split; [discriminate | intros [X _]; discriminate X].
  - destruct (existsb (jsstring_eqb source) Object_prototype) eqn:E.
    + apply existsb_eqb_In in E. split; [discriminate | tauto].
    + split; [| reflexivity]. intros _. split; [reflexivity |].
      intros X. apply existsb_eqb_In in X. congruence.
Qed.

Lemma text_inherited (source : jsstring) :
  In source Object_prototype -> text source = source.
Proof.
  intros H. unfold Object_prototype in H. cbn [In] in H.
  decompose [or] H; try contradiction; subst source; apply text_str.
Qed.

(** One call of [runScraper] on a name that the registry inherits, as
    one equation. *)
Lemma runScraper_inherited (env : Env) (source : jsstring) (w : World) :
  In source Object_prototype ->
  runScraper env source w =
    match call (Inherited source) with
    | Throw e => (Throw e, w)
    | Ok _ =>
        let runId :=
          next_rowid (Db.scrape_runs_seq (db w))
            (map RunRow.id (Db.scrape_runs (db w))) in
        let message := str "adapter.scrape is not a function" in
        (Throw (JsError message),
         mkWorld
           (with_runs (db w)
              (Db.scrape_runs (db w)
               ++ [RunRow.mk runId source (now_at env (tick w))
                     (Some (now_at env (S (tick w)))) (str "failed") 0 0
                     (Some message)])
              runId)
           (S (S (tick w)))
           (trace w ++ [EvStartRun runId source;
                        EvCompleteRun runId (str "failed")]))
    end.
Proof.
  intros H. destruct (adapters_get_inherited source H) as [_ G].
  unfold runScraper. rewrite G. unfold bind at 1. unfold lift at 1.
  unfold call.
  destruct (existsb (jsstring_eqb source) _).
  2:{ destruct (jsstring_eqb source (str "__proto__")); [reflexivity |].
      destruct (jsstring_eqb source (str "toLocaleString")); reflexivity. }
  unfold bind at 1. rewrite startScrapeRun_run.
  rewrite (text_inherited source H). cbv zeta. cbv beta iota.
  unfold try_catch. unfold bind at 1. cbn [adapter_scrape throw].
  unfold bind at 1. rewrite completeScrapeRun_run.
  cbn [db tick trace with_runs Db.scrape_runs Db.scrape_runs_seq Db.jobs
       Db.job_scores Db.job_actions Db.job_actions_seq error_message nullish
       text_or_null option_map throw].
  rewrite !text_str.
  rewrite (complete_new_run (Db.scrape_runs (db w)));
    [| apply next_rowid_fresh | reflexivity].
  cbn [RunRow.id RunRow.source RunRow.started_at].
  rewrite <- app_assoc. reflexivity.
Qed.

(** X13: runScraper reports an unknown source only for a name that the
    registry neither holds nor inherits.  For such a name it throws an
    error whose message names the source and lists the four registered
    sources; it opens no run, calls no adapter and leaves the store as
    it is.  The registered sources are jobstash, safary, web3career and
    cryptojobslist, under exactly these names.  For a name that every
    object inherits (constructor, toString, __proto__, ...) the lookup
    finds a value: runScraper then throws another error, calls no
    adapter and adds no job; for constructor, toString and
    isPrototypeOf it opens a run and completes it as failed, for the
    other names it leaves the store as it is. *)
Theorem runScraper_unknown_source :
  forall (env : Env) (source : jsstring) (w : World),
    (is_adapter source = false ->
     ~ In source Object_prototype ->
     runScraper env source w =
       (Throw (JsError
                 (str "Unknown source: " ++ source
                  ++ str ". Available: jobstash, safary, web3career, cryptojobslist")),
        w))
    /\ (is_adapter source = true <->
        In source [str "jobstash"; str "safary"; str "web3career";
                   str "cryptojobslist"])
    /\ (is_adapter source = true ->
        exists runId later,
          trace (snd (runScraper env source w))
          = trace w ++ EvStartRun runId source :: EvScrape source :: later)
    /\ (In source Object_prototype ->
        let result := runScraper env source w in
        exists message events,
          fst result = Throw (JsError message)
          /\ message
             <> str "Unknown source: " ++ source
                ++ str ". Available: jobstash, safary, web3career, cryptojobslist"
          /\ trace (snd result) = trace w ++ events
          /\ scraped events = []
          /\ Db.jobs (db (snd result)) = Db.jobs (db w)
          /\ (In source [str "constructor"; str "toString";
                         str "isPrototypeOf"] ->
              message = str "adapter.scrape is not a function"
              /\ exists row,
                   Db.scrape_runs (db (snd result))
                   = Db.scrape_runs (db w) ++ [row]
                   /\ RunRow.source row = source
                   /\ RunRow.status row = str "failed"
                   /\ RunRow.error row = Some message)
          /\ (~ In source [str "constructor"; str "toString";
                           str "isPrototypeOf"] ->
              snd result = w)).
Proof.
  intros env source w. split; [| split; [| split]].
  - intros H Hn. unfold runScraper.
    rewrite (proj2 (adapters_get_none source) (conj H Hn)). reflexivity.
  - unfold is_adapter. apply existsb_eqb_In.
  - intros H. rewrite (runScraper_run env source w H). cbv zeta.
    eexists.
    destruct (scrape_at env source (S (tick w))) as [rawJobs | e].
    + match goal with |- context [for_of rawJobs ?b ?n0 ?w0] =>
        destruct (upsert_loop_frame env source rawJobs 0%Z w0
                    (fst (for_of rawJobs b n0 w0)) (snd (for_of rawJobs b n0 w0)))
          as [events [_ [_ [T _]]]];
          [destruct (for_of rawJobs b n0 w0); reflexivity |];
          destruct (for_of rawJobs b n0 w0) as [[n | e] w2]
      end; cbn [fst snd trace] in *;
        rewrite completeScrapeRun_run; cbn [snd trace]; rewrite T;
        rewrite <- !app_assoc; cbn [app]; eexists; reflexivity.
    + rewrite completeScrapeRun_run. cbn [snd trace].
      rewrite <- !app_assoc. cbn [app]. eexists. reflexivity.
  - intros H result. unfold result. clear result.
    rewrite (runScraper_inherited env source w H).
    unfold Object_prototype in H. cbn [In] in H.
    decompose [or] H; try contradiction; subst source; cbn [call existsb];
      match goal with
      | |- context [if ?b then _ else _] =>
          let v := eval vm_compute in b in change b with v; cbv iota
      end;
      repeat match goal with
      | |- context [if ?b then _ else _] =>
          let v := eval vm_compute in b in change b with v; cbv iota
      end;
      cbv zeta; cbn [fst snd db trace with_runs Db.jobs Db.scrape_runs].
    all: eexists; eexists.
    all: split; [reflexivity |].
    all: split; [discriminate |].
    all: split;
      [first [reflexivity | symmetry; apply app_nil_r] |].
    all: split; [reflexivity |].
    all: split; [reflexivity |].
    all: split.
    all: try (intros _; split; [reflexivity |]; eexists;
              split; [reflexivity |]; repeat split; reflexivity).
    all: try (intros X; cbn [In] in X; decompose [or] X;
              try contradiction; discriminate).
    all: try (intros _; destruct w; reflexivity).
    all: try (intros X; exfalso; apply X; cbn [In]; auto).
Qed.

Lemma runScraper_unknown_source_witness :
  fst (runScraper Sample.env (str "linkedin") Sample.new_world)
  = Throw (JsError
             (str "Unknown source: linkedin. Available: jobstash, safary, web3career, cryptojobslist"))
  /\ snd (runScraper Sample.env (str "linkedin") Sample.new_world)
     = Sample.new_world
  /\ is_adapter (str "JobStash") = false
  /\ fst (runScraper Sample.env (str "constructor") Sample.new_world)
     = Throw (JsError (str "adapter.scrape is not a function"))
  /\ map RunRow.status
       (Db.scrape_runs
          (db (snd (runScraper Sample.env (str "constructor")
                      Sample.new_world))))
     = [str "failed"].
Proof.
  assert (N : ~ In (str "linkedin") Object_prototype).
  { unfold Object_prototype. cbn [In]. intros X.
    decompose [or] X; try contradiction; discriminate. }
  pose proof (proj1 (runScraper_unknown_source Sample.env (str "linkedin")
                       Sample.new_world) eq_refl N) as H.
  split; [rewrite H; reflexivity |]. split; [rewrite H; reflexivity |].
  split; [reflexivity |]. split; reflexivity.
Defined.

(** The upsert loop of [runScraper] never removes a job, and counts the
    jobs it adds. *)
Lemma upsert_loop_growth (env : Env) (source : jsstring)
    (rawJobs : list RawJob.t) :
  forall (n : Z) (w : World) (r : Outcome Z) (w' : World),
    for_of rawJobs
      (fun raw jobsNew =>
         result <- upsertJob env (JobInput.mk source raw) ;;
         ret (if isNew result then jobsNew + 1 else jobsNew)%Z)
      n w = (r, w') ->
    (List.length (Db.jobs (db w)) <= List.length (Db.jobs (db w')))%nat
    /\ forall n',
         r = Ok n' ->
         (Z.of_nat (List.length (Db.jobs (db w')))
          = Z.of_nat (List.length (Db.jobs (db w))) + (n' - n)
          /\ n <= n' <= n + Z.of_nat (List.length rawJobs))%Z.
Proof.
  induction rawJobs as [| raw rawJobs IH]; intros n w r w'; simpl.
  - intros [= <- <-]. split; [lia |]. intros n' [= <-]. lia.
  - unfold bind at 1. unfold bind at 1. rewrite upsertJob_run. simpl.
    destruct (select_job_id source (RawJob.sourceId raw) (db w)) as [existing |].
    + simpl. intros E. apply IH in E. cbn [db] in E.
      unfold update_job in E. cbn [with_jobs Db.jobs] in E.
      rewrite length_map in E. destruct E as [E1 E2].
      split; [exact E1 |]. intros n' Hn'. specialize (E2 n' Hn'). lia.
    + destruct (insert_job _ (db w)) as [d' |] eqn:Ei; simpl.
      * intros E. apply IH in E. cbn [db] in E.
        unfold insert_job in Ei.
        destruct (existsb _ _) in Ei; [discriminate |].
        destruct (existsb _ _) in Ei; [discriminate |].
        injection Ei as <-. cbn [with_jobs Db.jobs] in E.
        rewrite length_app in E. cbn [List.length] in E.
        destruct E as [E1 E2].
        split; [lia |]. intros n' Hn'. specialize (E2 n' Hn'). lia.
      * intros [= <- <-]. cbn [db]. split; [lia |]. discriminate.
Qed.

(** X14: runScraper never removes a job from the store.  When it
    returns, jobsNew is the number of jobs that the run added to the
    store, and it lies between 0 and jobsFound, the number of listings
    that the adapter returned. *)
Theorem runScraper_counts_added_jobs :
  forall (env : Env) (source : jsstring) (w : World),
    let result := runScraper env source w in
    (List.length (Db.jobs (db w))
     <= List.length (Db.jobs (db (snd result))))%nat
    /\ forall counts,
         fst result = Ok counts ->
         (Z.of_nat (List.length (Db.jobs (db (snd result))))
          = Z.of_nat (List.length (Db.jobs (db w))) + Counts.jobsNew counts
          /\ 0 <= Counts.jobsNew counts <= Counts.jobsFound counts)%Z
         /\ exists rawJobs,
              scrape_at env source (S (tick w)) = Ok rawJobs
              /\ Counts.jobsFound counts = Z.of_nat (List.length rawJobs).
Proof.
  intros env source w result. unfold result.
  destruct (is_adapter source) eqn:Hknown.
  - rewrite (runScraper_run env source w Hknown). cbv zeta.
    destruct (scrape_at env source (S (tick w))) as [rawJobs | e].
    + match goal with |- context [for_of rawJobs ?b ?n0 ?w0] =>
        destruct (for_of rawJobs b n0 w0) as [[n | e] w2] eqn:El
      end;
        apply upsert_loop_growth in El; destruct El as [G1 G2];
        cbn [db with_runs Db.jobs] in G1, G2;
        rewrite completeScrapeRun_run;
        cbn [fst snd db with_runs Db.jobs].
      * split; [exact G1 |]. intros counts [= <-].
        cbn [Counts.jobsNew Counts.jobsFound].
        specialize (G2 n eq_refl).
        split; [lia |]. exists rawJobs. auto.
      * split; [exact G1 | discriminate].
    + rewrite completeScrapeRun_run. cbn [fst snd db with_runs Db.jobs].
      split; [lia | discriminate].
  - destruct (existsb (jsstring_eqb source) Object_prototype) eqn:Hi.
    + apply existsb_eqb_In in Hi.
      rewrite (runScraper_inherited env source w Hi).
      destruct (call (Inherited source)) as [made | e]; cbv zeta;
        cbn [fst snd db with_runs Db.jobs]; split; (lia || discriminate).
    + unfold runScraper, adapters_get. rewrite Hknown, Hi.
      cbn [throw fst snd]. split; [lia | discriminate].
Qed.

Lemma runScraper_counts_added_jobs_witness :
  fst (runScraper Sample.env (str "jobstash") Sample.new_world)
  = Ok (Counts.mk 1 1)
  /\ List.length
       (Db.jobs (db (snd (runScraper Sample.env (str "jobstash")
                            Sample.new_world))))
     = 1%nat.
Proof.
  assert (E : fst (runScraper Sample.env (str "jobstash") Sample.new_world)
              = Ok (Counts.mk 1 1)) by reflexivity.
  split; [exact E |].
  destruct (proj2 (runScraper_counts_added_jobs Sample.env (str "jobstash")
                     Sample.new_world) _ E) as [[H _] _].
  cbn [Counts.jobsNew] in H. change (List.length (Db.jobs (db Sample.new_world)))
    with 0%nat in H. lia.
Defined.

Lemma select_job_id_update (env : Env) (source sourceId existing : jsstring)
    (job : JobInput.t) (now : jsstring) (d : Db.t) :
  select_job_id source sourceId (update_job env existing job now d)
  = select_job_id source sourceId d.
Proof.
  unfold select_job_id, update_job. cbn [with_jobs Db.jobs].
  set (g := fun r : JobRow.t =>
              if has_job_id existing r
              then job_columns env (JobRow.id r) (JobRow.source r)
                     (JobRow.sourceId r) job now
              else r).
  assert (Hk : forall s i r, key_matches s i (g r) = key_matches s i r)
    by (intros s i r; unfold g; destruct (has_job_id existing r); reflexivity).
  assert (Hi : forall r, JobRow.id (g r) = JobRow.id r)
    by (intros r; unfold g; destruct (has_job_id existing r); reflexivity).
  induction (Db.jobs d) as [| r rows IH]; [reflexivity |].
  cbn [map find]. rewrite Hk.
  destruct (key_matches (text source) (text sourceId) r); [| exact IH].
  cbn [option_map]. rewrite Hi. reflexivity.
Qed.

Lemma select_job_id_insert (source sourceId : jsstring) (row : JobRow.t)
    (d d' : Db.t) :
  insert_job row d = Ok d' ->
  select_job_id source sourceId d <> None ->
  select_job_id source sourceId d' <> None.
Proof.
  unfold insert_job.
  destruct (existsb _ _); [discriminate |].
  destruct (existsb _ _); [discriminate |].
  intros [= <-]. unfold select_job_id. cbn [with_jobs Db.jobs].
  destruct (find (key_matches (text source) (text sourceId)) (Db.jobs d))
    as [r |] eqn:F;
    [| intros X; contradiction X; reflexivity].
  intros _.
  assert (X : find (key_matches (text source) (text sourceId))
                (Db.jobs d ++ [row]) = Some r).
  { clear - F. induction (Db.jobs d) as [| r0 rows IH]; [discriminate |].
    cbn [app find] in *.
    destruct (key_matches (text source) (text sourceId) r0); auto. }
  rewrite X. discriminate.
Qed.

Lemma upsertJob_keeps_stored (env : Env) (job : JobInput.t) (w : World)
    (source sourceId : jsstring) :
  select_job_id source sourceId (db w) <> None ->
  select_job_id source sourceId (db (snd (upsertJob env job w))) <> None.
Proof.
  intros H. rewrite upsertJob_run. cbv zeta.
  destruct (select_job_id _ _ (db w)) as [existing |] eqn:Es in |- *.
  - cbn [snd db]. rewrite select_job_id_update. exact H.
  - destruct (insert_job _ (db w)) as [d' |] eqn:Ei; cbn [snd db];
      [| exact H].
    apply (select_job_id_insert _ _ _ _ _ Ei H).
Qed.

Lemma upsertJob_stores_key (env : Env) (job : JobInput.t) (w w' : World)
    (result : UpsertResult) :
  upsertJob env job w = (Ok result, w') ->
  select_job_id (JobInput.source job) (RawJob.sourceId (JobInput.raw job))
    (db w') <> None.
Proof.
  rewrite upsertJob_run. cbv zeta.
  destruct (select_job_id _ _ (db w)) as [existing |] eqn:Es.
  - intros [= _ <-]. cbn [db]. rewrite select_job_id_update, Es. discriminate.
  - destruct (insert_job _ (db w)) as [d' |] eqn:Ei; [| discriminate].
    intros [= _ <-]. cbn [db].
    unfold insert_job in Ei.
    destruct (existsb _ _) in Ei; [discriminate |].
    destruct (existsb (key_matches _ _) (Db.jobs (db w))) eqn:Ek in Ei;
      [discriminate |].
    injection Ei as <-. unfold select_job_id. cbn [with_jobs Db.jobs].
    cbn [job_columns JobRow.source JobRow.sourceId] in Ek.
    rewrite (find_app_none _ _ _ Ek). cbn [find].
    unfold key_matches at 1. cbn [job_columns JobRow.source JobRow.sourceId].
    rewrite !jsstring_eqb_refl. discriminate.
Qed.

(** When every listing is stored already, the upsert loop only updates. *)
Lemma upsert_loop_known (env : Env) (source : jsstring)
    (rawJobs : list RawJob.t) :
  forall (n : Z) (w : World),
    (forall raw, In raw rawJobs ->
                 select_job_id source (RawJob.sourceId raw) (db w) <> None) ->
    exists w',
      for_of rawJobs
        (fun raw jobsNew =>
           result <- upsertJob env (JobInput.mk source raw) ;;
           ret (if isNew result then jobsNew + 1 else jobsNew)%Z)
        n w = (Ok n, w')
      /\ map JobRow.id (Db.jobs (db w')) = map JobRow.id (Db.jobs (db w))
      /\ map job_key (Db.jobs (db w')) = map job_key (Db.jobs (db w)).
Proof.
  induction rawJobs as [| raw rawJobs IH]; intros n w Hknown.
  - exists w. repeat split.
  - simpl for_of. unfold bind at 1. unfold bind at 1.
    pose proof (upsertJob_keeps_stored env (JobInput.mk source raw) w) as Keep.
    rewrite upsertJob_run in *. cbv zeta in *.
    cbn [JobInput.source JobInput.raw] in *.
    destruct (select_job_id source (RawJob.sourceId raw) (db w))
      as [existing |] eqn:Es.
    + cbn [snd db ret isNew] in *.
      destruct (IH n (mkWorld
                        (update_job env existing (JobInput.mk source raw)
                           (now_at env (S (tick w))) (db w))
                        (S (S (tick w))) (trace w ++ [EvUpdateJob existing])))
        as [w' [E [I K]]].
      { intros raw' Hin. cbn [db]. apply Keep. apply Hknown. right. exact Hin. }
      exists w'. split; [exact E |]. cbn [db] in I, K.
      rewrite update_job_keys in I by reflexivity.
      rewrite update_job_keys in K by reflexivity.
      split; assumption.
    + exfalso. apply (Hknown raw); [left; reflexivity | exact Es].
Qed.

(** What the upsert loop leaves stored when it returns. *)
Lemma upsert_loop_stores (env : Env) (source : jsstring)
    (rawJobs : list RawJob.t) :
  forall (n n' : Z) (w w' : World),
    for_of rawJobs
      (fun raw jobsNew =>
         result <- upsertJob env (JobInput.mk source raw) ;;
         ret (if isNew result then jobsNew + 1 else jobsNew)%Z)
      n w = (Ok n', w') ->
    (forall s i, select_job_id s i (db w) <> None ->
                 select_job_id s i (db w') <> None)
    /\ forall raw, In raw rawJobs ->
                   select_job_id source (RawJob.sourceId raw) (db w') <> None.
Proof.
  induction rawJobs as [| raw rawJobs IH]; intros n n' w w'.
  - simpl. intros [= _ <-]. split; [auto | intros raw []].
  - simpl for_of. unfold bind at 1. unfold bind at 1.
    destruct (upsertJob env (JobInput.mk source raw) w) as [[result | e] w1]
      eqn:E; [| discriminate].
    unfold ret at 1. intros H. apply IH in H. destruct H as [Keep Stored].
    pose proof (upsertJob_keeps_stored env (JobInput.mk source raw) w) as K1.
    pose proof (upsertJob_stores_key _ _ _ _ _ E) as S1.
    rewrite E in K1. cbn [snd JobInput.source JobInput.raw] in K1, S1.
    split.
    + intros s i Hs. apply Keep. apply K1. exact Hs.
    + intros raw' [<- | Hin]; [apply Keep; exact S1 | apply Stored; exact Hin].
Qed.

(** X15: scraping listings that are all stored already adds no job:
    runScraper returns jobsNew = 0 and the ids and (source, sourceId)
    keys of the stored jobs are as before.  After a run that returned,
    every listing that the adapter gave is stored under its source and
    source id, so that a second run over the same listings adds
    nothing. *)
Theorem runScraper_rescrape_adds_nothing :
  forall (env : Env) (source : jsstring) (w : World) (rawJobs : list RawJob.t),
    is_adapter source = true ->
    scrape_at env source (S (tick w)) = Ok rawJobs ->
    let result := runScraper env source w in
    ((forall raw, In raw rawJobs ->
                  select_job_id source (RawJob.sourceId raw) (db w) <> None) ->
     fst result = Ok (Counts.mk (Z.of_nat (List.length rawJobs)) 0)
     /\ map JobRow.id (Db.jobs (db (snd result)))
        = map JobRow.id (Db.jobs (db w))
     /\ map job_key (Db.jobs (db (snd result)))
        = map job_key (Db.jobs (db w)))
    /\ (forall counts,
           fst result = Ok counts ->
           forall raw, In raw rawJobs ->
                       select_job_id source (RawJob.sourceId raw)
                         (db (snd result)) <> None).
Proof.
  intros env source w rawJobs Hknown Hscrape result. unfold result.
  rewrite (runScraper_run env source w Hknown). cbv zeta. rewrite Hscrape.
  split.
  - intros Hstored.
    match goal with |- context [for_of rawJobs ?b ?n0 ?w0] =>
      destruct (upsert_loop_known env source rawJobs 0%Z w0) as [w2 [E [I K]]];
        [exact Hstored |]; rewrite E
    end.
    rewrite completeScrapeRun_run.
    cbn [fst snd db with_runs Db.jobs] in *.
    split; [reflexivity |]. split; assumption.
  - match goal with |- context [for_of rawJobs ?b ?n0 ?w0] =>
      destruct (for_of rawJobs b n0 w0) as [[n | e] w2] eqn:El
    end; [| intros counts X; discriminate X].
    intros counts _ raw Hin.
    apply upsert_loop_stores in El. destruct El as [_ Stored].
    rewrite completeScrapeRun_run. cbn [snd db].
    exact (Stored raw Hin).
Qed.

Lemma runScraper_rescrape_adds_nothing_witness :
  let w1 := snd (runScraper Sample.env (str "jobstash") Sample.new_world) in
  is_adapter (str "jobstash") = true
  /\ scrape_at Sample.env (str "jobstash") (S (tick w1))
     = Ok [Sample.raw "a1" "Product Manager"]
  /\ select_job_id (str "jobstash") (str "a1") (db w1) <> None
  /\ fst (runScraper Sample.env (str "jobstash") w1) = Ok (Counts.mk 1 0)
  /\ List.length (Db.jobs (db (snd (runScraper Sample.env (str "jobstash") w1))))
     = 1%nat.
Proof.
  intros w1.
  assert (A : is_adapter (str "jobstash") = true) by reflexivity.
  assert (B : scrape_at Sample.env (str "jobstash") (S (tick w1))
              = Ok [Sample.raw "a1" "Product Manager"]) by reflexivity.
  assert (C : forall raw,
             In raw [Sample.raw "a1" "Product Manager"] ->
             select_job_id (str "jobstash") (RawJob.sourceId raw) (db w1)
             <> None).
  { apply (proj2 (runScraper_rescrape_adds_nothing Sample.env (str "jobstash")
                    Sample.new_world [Sample.raw "a1" "Product Manager"]
                    A eq_refl) (Counts.mk 1 1)).
    reflexivity. }
  destruct (proj1 (runScraper_rescrape_adds_nothing Sample.env (str "jobstash")
                     w1 [Sample.raw "a1" "Product Manager"] A B) C)
    as [R [I _]].
  split; [exact A |]. split; [exact B |].
  split; [apply (C (Sample.raw "a1" "Product Manager")); left; reflexivity |].
  split; [exact R |].
  rewrite <- (length_map JobRow.id), I. reflexivity.
Defined.

(** ** scorer/scorer.ts: the credential and the requests to the judge *)

(** X16: without a credential scoreUnscored throws its own error before
    it reads the store or asks the judge.  With a credential its outcome
    depends on the limit alone (50 when none is given): when the
    statement takes the limit as an integer the call returns, whatever
    the judge and the store do, with a count that is not negative; for
    any other limit (NaN, a fraction, a number beyond the 64-bit range)
    it throws the datatype mismatch of the read, and nothing is asked
    or written. *)
Theorem scoreUnscored_needs_credential_only :
  forall (env : Env) (limit : option jsnum) (w : World),
    (falsy (OPENAI_API_KEY env) = true ->
     scoreUnscored env limit w
     = (Throw (JsError (str "OPENAI_API_KEY not set")), w))
    /\ (falsy (OPENAI_API_KEY env) = false ->
        match
          limit_integer (match limit with Some n => n | None => Fin 50 end)
        with
        | Some _ =>
            exists n : Z, fst (scoreUnscored env limit w) = Ok n /\ (0 <= n)%Z
        | None =>
            scoreUnscored env limit w
            = (Throw (JsError (str "datatype mismatch")), w)
        end)
    /\ limit_integer (Fin 50) = Some 50%Z.
Proof.
  intros env limit w.
  split; [| split; [| reflexivity]]; intros H.
  - unfold scoreUnscored. rewrite H. reflexivity.
  - assert (E : scoreUnscored env limit w
                = match
                    limit_integer
                      (match limit with Some n => n | None => Fin 50 end)
                  with
                  | Some n =>
                      for_of
                        (sql_limit n
                           (map summary
                              (filter
                                 (fun r =>
                                    negb (has_score (db w) (JobRow.id r)))
                                 (Db.jobs (db w)))))
                        (fun job scored =>
                           try_catch (scoreJob env job ;; ret (scored + 1)%Z)
                             (fun _ => ret scored))
                        0%Z w
                  | None => (Throw (JsError (str "datatype mismatch")), w)
                  end).
    { unfold scoreUnscored. rewrite H. unfold bind at 1.
      rewrite getUnscoredJobs_run.
      destruct (limit_integer _); reflexivity. }
    rewrite E.
    destruct (limit_integer _) as [n |]; [| reflexivity].
    match goal with |- context [for_of ?jobs _ _ _] =>
      destruct (score_loop env jobs 0 w) as [events [El _]]
    end.
    rewrite El. eexists. split; [reflexivity | lia].
Qed.

Lemma scoreUnscored_needs_credential_only_witness :
  let keyless :=
    mkEnv (uuidv4_text_at Sample.env) (now_text_at Sample.env)
      (scrape_at Sample.env)
      (judge_at Sample.env) (fetch_at Sample.env) (Val [])
      (JSON_stringify Sample.env) (JSON_parse Sample.env)
      (StringToNumber Sample.env) (ObjectToNumber Sample.env)
      (Date_toISOString Sample.env) (scrape_is_array Sample.env) in
  scoreUnscored keyless None Sample.new_world
  = (Throw (JsError (str "OPENAI_API_KEY not set")), Sample.new_world)
  /\ (exists n, fst (scoreUnscored Sample.env (Some (Fin (-3)))
                       Sample.new_world)
                = Ok n)
  /\ scoreUnscored Sample.env (Some NaN) Sample.new_world
     = (Throw (JsError (str "datatype mismatch")), Sample.new_world).
Proof.
  intros keyless. split; [| split].
  - apply (proj1 (scoreUnscored_needs_credential_only keyless None
                    Sample.new_world)).
    reflexivity.
  - destruct (proj1 (proj2 (scoreUnscored_needs_credential_only Sample.env
                              (Some (Fin (-3))) Sample.new_world)) eq_refl)
      as [n [E _]].
    exists n. exact E.
  - exact (proj1 (proj2 (scoreUnscored_needs_credential_only Sample.env
                           (Some NaN) Sample.new_world)) eq_refl).
Defined.

(** The retry loop on [askJudge]: it stops at the first accepted reply. *)
Lemma retry_attempts (env : Env) (job : JobSummary.t) (n : nat) :
  forall (last : Exn) (w : World),
    exists (k : nat) (o : Outcome jsval),
      withRetry_from (askJudge env job) n last w
      = (o, mkWorld (db w) (k + tick w)
              (trace w ++ repeat (EvJudge (JobSummary.id job)) k))
      /\ (k <= n)%nat
      /\ (forall a, (S a < k)%nat -> judge_accepts env job (a + tick w) = None)
      /\ match o with
         | Ok parsed =>
             exists a, k = S a
                       /\ judge_accepts env job (a + tick w) = Some parsed
         | Throw _ =>
             k = n
             /\ forall a, (a < n)%nat ->
                          judge_accepts env job (a + tick w) = None
         end.
Proof.
  induction n as [| n IH]; intros last w.
  - exists 0%nat, (Throw last). simpl. rewrite app_nil_r. destruct w.
    split; [reflexivity |]. split; [lia |].
    split; [intros a Ha; lia |]. split; [reflexivity | intros a Ha; lia].
  - simpl withRetry_from. unfold try_catch.
    destruct (askJudge_run env job w) as [o [E Ho]]. rewrite E.
    destruct (judge_accepts env job (tick w)) as [parsed |] eqn:Ea.
    + subst o. exists 1%nat, (Ok parsed).
      split; [reflexivity |]. split; [lia |].
      split; [intros a Ha; lia |]. exists 0%nat. auto.
    + destruct Ho as [e ->].
      destruct (IH e (mkWorld (db w) (S (tick w))
                        (trace w ++ [EvJudge (JobSummary.id job)])))
        as [k [o [E2 [Hk [Hrej Ho]]]]].
      cbn [db tick trace] in *.
      exists (S k), o. rewrite E2.
      split.
      { rewrite <- app_assoc, Nat.add_succ_r. reflexivity. }
      split; [lia |].
      assert (Shift : forall a bound,
                 (forall a', (a' < bound)%nat ->
                             judge_accepts env job (a' + S (tick w)) = None) ->
                 (a < S bound)%nat ->
                 judge_accepts env job (a + tick w) = None).
      { intros [| a] bound Hb Ha; [exact Ea |].
        replace (S a + tick w)%nat with (a + S (tick w))%nat by lia.
        apply Hb. lia. }
      split.
      { intros a Ha. destruct k as [| k]; [lia |].
        apply (Shift a k); [| lia].
        intros a' Ha'. apply Hrej. lia. }
      destruct o as [parsed | e'].
      * destruct Ho as [a [-> Ha]]. exists (S a). split; [reflexivity |].
        replace (S a + tick w)%nat with (a + S (tick w))%nat by lia. exact Ha.
      * destruct Ho as [-> Hall]. split; [reflexivity |].
        intros a Ha. apply (Shift a n); assumption.
Qed.

(** One call of [scoreJob] on a job whose listing can be written, by
    the number of requests it makes. *)
Lemma scoreJob_attempts (env : Env) (job : JobSummary.t) (w : World) :
  prompt_builds env job = true ->
  exists k : nat,
    let w1 :=
      mkWorld (db w) (k + tick w)
        (trace w ++ repeat (EvJudge (JobSummary.id job)) k) in
    (1 <= k <= 3)%nat
    /\ (forall a, (S a < k)%nat -> judge_accepts env job (a + tick w) = None)
    /\ ((exists fields,
            judge_accepts env job (k - 1 + tick w) = Some (JObj fields)
            /\ scoreJob env job w =
               match
                 write_score env job fields (now_at env (k + tick w)) (db w)
               with
               | Ok d' =>
                   (Ok tt,
                    mkWorld d' (S (k + tick w))
                      (trace w1 ++ [EvUpsertScore (JobSummary.id job)]))
               | Throw e =>
                   (Throw e, mkWorld (db w) (S (k + tick w)) (trace w1))
               end)
        \/ (k = 3%nat
            /\ judge_accepts env job (k - 1 + tick w) = None
            /\ exists e, scoreJob env job w = (Throw e, w1))).
Proof.
  intros Hp. unfold prompt_builds in Hp.
  destruct (retry_attempts env job 3 (JsThrown (str "undefined")) w)
    as [k [o [E [Hk [Hrej Ho]]]]].
  exists k. intros w1.
  destruct o as [parsed | e].
  - destruct Ho as [a [-> Ha]].
    destruct (judge_accepts_object _ _ _ _ Ha) as [fields [-> _]].
    split; [lia |]. split; [exact Hrej |].
    left. exists fields.
    replace (S a - 1 + tick w)%nat with (a + tick w)%nat by lia.
    split; [exact Ha |].
    unfold scoreJob. unfold bind at 1. unfold lift at 1.
    destruct (jobDescription env job); [| discriminate].
    unfold withRetry. unfold bind at 1. rewrite E.
    unfold bind, lift. simpl get_prop. cbv iota beta.
    rewrite upsertScore_run.
    cbn [ScoreInput.reasoning ScoreInput.overallScore
         ScoreInput.relevanceScore ScoreInput.experienceMatch
         ScoreInput.domainMatch ScoreInput.seniorityFit ScoreInput.jobId
         ScoreInput.modelUsed db tick trace].
    rewrite text_MODEL. reflexivity.
  - destruct Ho as [-> Hall].
    split; [lia |]. split; [exact Hrej |].
    right. split; [reflexivity |].
    split; [apply Hall; lia |].
    exists e. unfold scoreJob. unfold bind at 1. unfold lift at 1.
    destruct (jobDescription env job); [| discriminate].
    unfold withRetry. unfold bind at 1. rewrite E.
    reflexivity.
Qed.

(** What [scoreJob] adds to the trace. *)
Lemma scoreJob_trace (env : Env) (job : JobSummary.t) (w : World) :
  exists (k : nat) (written : list Event),
    (k <= 3)%nat
    /\ (k = 0%nat <-> prompt_builds env job = false)
    /\ trace (snd (scoreJob env job w))
       = trace w ++ repeat (EvJudge (JobSummary.id job)) k ++ written
    /\ (written = [] \/ written = [EvUpsertScore (JobSummary.id job)])
    /\ (forall a, (S a < k)%nat -> judge_accepts env job (a + tick w) = None)
    /\ match fst (scoreJob env job w) with
       | Ok _ =>
           written = [EvUpsertScore (JobSummary.id job)]
           /\ (1 <= k)%nat
           /\ judge_accepts env job (k - 1 + tick w) <> None
       | Throw _ =>
           written = []
           /\ ((1 <= k)%nat ->
               judge_accepts env job (k - 1 + tick w) = None -> k = 3%nat)
       end.
Proof.
  destruct (prompt_builds env job) eqn:Hp.
  2: { destruct (scoreJob_unbuilt env job w Hp) as [e E]. rewrite E.
       exists 0%nat, []. cbn [fst snd repeat app]. rewrite app_nil_r.
       split; [lia |]. split; [tauto |]. split; [reflexivity |].
       split; [left; reflexivity |]. split; [intros a Ha; lia |].
       split; [reflexivity | intros Hk; lia]. }
  assert (Hz : forall k : nat, (1 <= k)%nat -> k = 0%nat <-> true = false)
    by (intros k Hk; split; [lia | discriminate]).
  destruct (scoreJob_attempts env job w Hp) as [k [Hk [Hrej [H | H]]]].
  - destruct H as [fields [Ha E]]. rewrite E.
    destruct (write_score _ _ _ _ (db w)) as [d' |];
      cbn [fst snd db tick trace].
    + exists k, [EvUpsertScore (JobSummary.id job)].
      split; [lia |]. split; [apply Hz; lia |].
      split; [rewrite app_assoc; reflexivity |].
      split; [right; reflexivity |]. split; [exact Hrej |].
      split; [reflexivity |]. split; [lia | congruence].
    + exists k, []. rewrite app_nil_r.
      split; [lia |]. split; [apply Hz; lia |]. split; [reflexivity |].
      split; [left; reflexivity |]. split; [exact Hrej |].
      split; [reflexivity | congruence].
  - destruct H as [-> [Hno [e E]]]. rewrite E. cbn [fst snd trace].
    exists 3%nat, []. rewrite app_nil_r.
    split; [lia |]. split; [apply Hz; lia |]. split; [reflexivity |].
    split; [left; reflexivity |]. split; [exact Hrej |].
    split; reflexivity.
Qed.



(** The requests of a whole batch. *)
Lemma scoring_requests (env : Env) (jobs : list JobSummary.t) :
  forall w : World,
    exists events : list Event,
      trace (after_scoring env jobs w) = trace w ++ events
      /\ (List.length (filter (prompt_builds env) jobs)
          <= List.length (judged events)
          <= 3 * List.length jobs)%nat
      /\ (forall i, In i (judged events) -> In i (map JobSummary.id jobs))
      /\ (forall i, In i (scored events) -> In i (map JobSummary.id jobs)).
Proof.
  induction jobs as [| job jobs IH]; intros w.
  - exists []. simpl. rewrite app_nil_r. repeat split; auto.
  - change (after_scoring env (job :: jobs) w)
      with (after_scoring env jobs (snd (scoreJob env job w))).
    destruct (scoreJob_trace env job w) as [k [written [Hk [Hz [T [Hw _]]]]]].
    destruct (IH (snd (scoreJob env job w))) as [events [T2 [L2 [J2 S2]]]].
    exists ((repeat (EvJudge (JobSummary.id job)) k ++ written) ++ events).
    split; [rewrite T2, T, !app_assoc; reflexivity |].
    assert (J : judged written = []) by (destruct Hw as [-> | ->]; reflexivity).
    rewrite !judged_app, judged_repeat, J, app_nil_r.
    rewrite !scored_app, scored_repeat. cbn [app].
    split.
    { rewrite length_app, repeat_length. cbn [List.length filter].
      destruct (prompt_builds env job); cbn [List.length]; [| lia].
      assert (k <> 0%nat) by (intros X; apply Hz in X; discriminate X).
      lia. }
    split.
    { intros i Hi. apply in_app_or in Hi. destruct Hi as [Hi | Hi].
      - apply repeat_spec in Hi. left. symmetry. exact Hi.
      - right. apply J2. exact Hi. }
    intros i Hi. apply in_app_or in Hi. destruct Hi as [Hi | Hi].
    + destruct Hw as [-> | ->]; [destruct Hi |].
      destruct Hi as [<- | []]. left. reflexivity.
    + right. apply S2. exact Hi.
Qed.

(** X18: with a credential and a limit that the statement takes as the
    integer n, one run of scoreUnscored sends at most three requests
    per job of its batch, hence at most three times n when n is not
    negative, and at least one request per job of the batch whose
    listing can be written; it sends requests only for jobs of the
    batch, which had no score when the run began.  Every job that it
    counts as scored has a score row afterwards, under its id as the
    store holds it, and no job loses its score row. *)
Theorem scoreUnscored_request_budget :
  forall (env : Env) (limit : jsnum) (n : Z) (w : World),
    falsy (OPENAI_API_KEY env) = false ->
    limit_integer limit = Some n ->
    let result := scoreUnscored env (Some limit) w in
    exists (batch : list JobSummary.t) (events : list Event),
      fst (getUnscoredJobs limit w) = Ok batch
      /\ trace (snd result) = trace w ++ events
      /\ (List.length (filter (prompt_builds env) batch)
          <= List.length (judged events)
          <= 3 * List.length batch)%nat
      /\ ((0 <= n)%Z ->
          (Z.of_nat (List.length (judged events)) <= 3 * n)%Z)
      /\ (forall i, In i (judged events) ->
                    In i (map JobSummary.id batch)
                    /\ has_score (db w) i = false)
      /\ (forall i, In i (scored events) ->
                    has_score (db (snd result)) (text i) = true)
      /\ (forall i, has_score (db w) i = true ->
                    has_score (db (snd result)) i = true).
Proof.
  intros env limit n w Hkey Hlimit result.
  set (batch := sql_limit n
                  (map summary
                     (filter (fun r => negb (has_score (db w) (JobRow.id r)))
                        (Db.jobs (db w))))).
  destruct (score_loop env batch 0 w) as [ev1 [E [T1 [_ [_ [_ H]]]]]].
  destruct (scoring_requests env batch w) as [events [T [L [J S]]]].
  assert (Eev : ev1 = events).
  { rewrite T in T1. apply app_inv_head in T1. symmetry. exact T1. }
  subst ev1.
  assert (Hrun : snd result = after_scoring env batch w).
  { unfold result, scoreUnscored. rewrite Hkey.
    unfold bind at 1. rewrite getUnscoredJobs_run, Hlimit. fold batch.
    rewrite E. reflexivity. }
  exists batch, events. rewrite Hrun.
  split; [rewrite getUnscoredJobs_run, Hlimit; reflexivity |].
  split; [exact T |]. split; [exact L |].
  split.
  { intros Hl. pose proof (sql_limit_length n
      (map summary
         (filter (fun r => negb (has_score (db w) (JobRow.id r)))
            (Db.jobs (db w)))) Hl) as B.
    fold batch in B. lia. }
  split.
  { intros i Hi. split; [apply J; exact Hi |].
    apply J in Hi. apply in_map_iff in Hi. destruct Hi as [s [<- Hs]].
    unfold batch in Hs. apply sql_limit_incl in Hs. apply in_map_iff in Hs.
    destruct Hs as [r [<- Hr]]. apply filter_In in Hr.
    apply negb_true_iff. apply Hr. }
  split.
  { intros i Hi. rewrite H. apply orb_true_iff. right.
    apply existsb_eqb_In. apply in_map. exact Hi. }
  intros i Hi. rewrite H, Hi. reflexivity.
Qed.

Lemma scoreUnscored_request_budget_witness :
  let w :=
    snd (upsertJob Sample.env
           (JobInput.mk (str "jobstash") (Sample.raw "a2" "Product Manager"))
           (snd (upsertJob Sample.env
                   (JobInput.mk (str "jobstash") (Sample.raw "a1" "Unanswered"))
                   Sample.new_world))) in
  falsy (OPENAI_API_KEY Sample.env) = false
  /\ limit_integer (Fin 5) = Some 5%Z
  /\ exists events,
       trace (snd (scoreUnscored Sample.env (Some (Fin 5)) w))
       = trace w ++ events
       /\ (List.length (judged events) <= 6)%nat
       /\ judged events = [[0%N]; [0%N]; [0%N]; [2%N]]
       /\ scored events = [[2%N]].
Proof.
  intros w. split; [reflexivity |]. split; [reflexivity |].
  destruct (scoreUnscored_request_budget Sample.env (Fin 5) 5 w eq_refl
              eq_refl)
    as [batch [events [B [T [L _]]]]].
  exists events. split; [exact T |].
  injection B as <-.
  split; [exact (proj2 L) |].
  assert (Ev : trace w ++ events
               = trace w
                 ++ [EvJudge [0%N]; EvJudge [0%N]; EvJudge [0%N];
                     EvJudge [2%N]; EvUpsertScore [2%N]])
    by (rewrite <- T; reflexivity).
  apply app_inv_head in Ev. subst events. split; reflexivity.
Defined.

(** ** routes/jobs.ts: scrape and score in one request *)

Lemma runAllScrapers_run (env : Env) (w : World) :
  exists results : list (jsstring * Counts.t),
    runAllScrapers env w = (Ok results, after_scraping env adapters w)
    /\ map fst results = adapters.
Proof.
  destruct (runAll_loop env adapters [] w)
    as [entries [events [E [K _]]]].
  - intros s Hs. apply existsb_eqb_In. exact Hs.
  - unfold adapters.
    repeat (constructor;
            [simpl; intros H;
             repeat (destruct H as [H | H]; [discriminate H |]); exact H |]).
    constructor.
  - intros s _ [].
  - exists entries. split; [exact E | exact K].
Qed.

(** What an adapter returns has the length of an array. *)
Lemma scrape_length (env : Env) (source : jsstring) (n : nat)
    (rawJobs : list RawJob.t) :
  scrape_at env source n = Ok rawJobs ->
  (Z.of_nat (List.length rawJobs) < 2 ^ 32)%Z.
Proof.
  intros H. pose proof (scrape_is_array env source n) as B.
  rewrite H in B. apply Z.ltb_lt. exact B.
Qed.

Lemma runScraper_jobsNew (env : Env) (source : jsstring) (w : World)
    (counts : Counts.t) :
  fst (runScraper env source w) = Ok counts ->
  (0 <= Counts.jobsNew counts < 2 ^ 32)%Z.
Proof.
  destruct (is_adapter source) eqn:Hknown.
  - rewrite (runScraper_run env source w Hknown). cbv zeta.
    destruct (scrape_at env source (S (tick w))) as [rawJobs | e] eqn:Es.
    + apply scrape_length in Es.
      match goal with |- context [for_of rawJobs ?b ?n0 ?w0] =>
        destruct (for_of rawJobs b n0 w0) as [[n | e] w2] eqn:El
      end;
        apply upsert_loop_growth in El; destruct El as [_ G];
        rewrite completeScrapeRun_run; cbn [fst]; [| discriminate].
      intros [= <-]. cbn [Counts.jobsNew].
      specialize (G n eq_refl). lia.
    + rewrite completeScrapeRun_run. discriminate.
  - destruct (existsb (jsstring_eqb source) Object_prototype) eqn:Hi.
    + apply existsb_eqb_In in Hi.
      rewrite (runScraper_inherited env source w Hi).
      destruct (call (Inherited source)) as [made | e]; discriminate.
    + unfold runScraper, adapters_get. rewrite Hknown, Hi. discriminate.
Qed.

Lemma assign_Forall {A : Type} (P : jsstring * A -> Prop)
    (results : list (jsstring * A)) (source : jsstring) (value : A) :
  Forall P results -> (forall k, P (k, value)) ->
  Forall P (assign results source value).
Proof.
  intros H Hv. induction H as [| [k v] rest Hk Hl IH]; cbn [assign].
  - constructor; [apply Hv | constructor].
  - destruct (jsstring_eqb k source).
    + constructor; [apply Hv | assumption].
    + constructor; assumption.
Qed.

(** No entry of [runAllScrapers] counts more new jobs than an array
    holds. *)
Lemma runAll_loop_jobsNew (env : Env) (sources : list jsstring) :
  forall (results r : list (jsstring * Counts.t)) (w w' : World),
    Forall (fun entry => (0 <= Counts.jobsNew (snd entry) < 2 ^ 32)%Z)
      results ->
    for_of sources
      (fun source results =>
         try_catch
           (counts <- runScraper env source ;;
            ret (assign results source counts))
           (fun _ => ret (assign results source (Counts.mk 0 0))))
      results w
    = (Ok r, w') ->
    Forall (fun entry => (0 <= Counts.jobsNew (snd entry) < 2 ^ 32)%Z) r.
Proof.
  induction sources as [| s rest IH]; intros results r w w' H.
  - cbn [for_of]. intros [= <- _]. exact H.
  - cbn [for_of]. unfold bind at 1. unfold try_catch at 1. unfold bind at 1.
    pose proof (runScraper_jobsNew env s w) as B.
    destruct (runScraper env s w) as [[counts | e] w1]; cbn [fst] in B.
    + unfold ret at 1. apply IH. apply assign_Forall; [exact H |].
      intros k. cbn [snd]. apply B. reflexivity.
    + unfold ret at 1. apply IH. apply assign_Forall; [exact H |].
      intros k. cbn [snd Counts.jobsNew].
      change (2 ^ 32)%Z with 4294967296%Z. lia.
Qed.

Lemma totalNew_bounded (results : list (jsstring * Counts.t)) :
  Forall (fun entry => (0 <= Counts.jobsNew (snd entry) < 2 ^ 32)%Z) results ->
  (0 <= Routes.totalNew results
   <= 2 ^ 32 * Z.of_nat (List.length results))%Z.
Proof.
  unfold Routes.totalNew. change (2 ^ 32)%Z with 4294967296%Z.
  assert (G : forall acc,
             Forall (fun entry =>
                       (0 <= Counts.jobsNew (snd entry) < 4294967296)%Z)
               results ->
             (acc <= fold_left
                       (fun sum r => (sum + Counts.jobsNew (snd r))%Z)
                       results acc
              <= acc + 4294967296 * Z.of_nat (List.length results))%Z).
  { induction results as [| entry rest IH]; intros acc H.
    - cbn [fold_left List.length]. lia.
    - inversion H as [| x l Hx Hl]; subst.
      cbn [fold_left]. specialize (IH (acc + Counts.jobsNew (snd entry))%Z Hl).
      cbn [List.length]. lia. }
  intros H. specialize (G 0%Z H). lia.
Qed.

(** The count of new jobs that the route hands to the scorer is taken
    as a limit. *)
Lemma totalNew_is_limit (env : Env) (w : World)
    (results : list (jsstring * Counts.t)) :
  fst (runAllScrapers env w) = Ok results ->
  map fst results = adapters ->
  limit_integer (Fin (inject_Z (Routes.totalNew results)))
  = Some (Routes.totalNew results).
Proof.
  intros E K.
  assert (B : Forall (fun entry =>
                        (0 <= Counts.jobsNew (snd entry) < 2 ^ 32)%Z)
                results).
  { unfold runAllScrapers in E.
    match type of E with fst (for_of ?l ?b ?r0 ?w0) = _ =>
      destruct (for_of l b r0 w0) as [o w'] eqn:El
    end.
    cbn [fst] in E. subst o.
    apply (runAll_loop_jobsNew env adapters [] results w w');
      [constructor | exact El]. }
  apply totalNew_bounded in B.
  assert (L : List.length results = 4%nat)
    by (rewrite <- (length_map fst), K; reflexivity).
  rewrite L in B. apply limit_integer_of_Z.
  change (2 ^ 32)%Z with 4294967296%Z in B.
  change (2 ^ 63)%Z with 9223372036854775808%Z. lia.
Qed.

(** X19: the scrape-and-score request runs every scraper first and
    always answers.  When the scrapers found no new job it answers 200
    with scored = 0 and does not reach the scorer, so that a missing
    credential goes unnoticed.  When they found new jobs it scores at
    most that many jobs and answers 200 with the count; without a
    credential it answers 500 with the scorer's message, and the jobs
    that the scrapers stored stay stored. *)
Theorem scrape_and_score_reply :
  forall (env : Env) (w : World),
    let result := Routes.post_scrape_and_score env w in
    let w1 := snd (runAllScrapers env w) in
    exists results : list (jsstring * Counts.t),
      fst (runAllScrapers env w) = Ok results
      /\ map fst results = adapters
      /\ ((Routes.totalNew results <= 0)%Z ->
          result
          = (Ok (Routes.mkReply 200 (Routes.ScrapeAndScoreBody results 0)), w1))
      /\ ((0 < Routes.totalNew results)%Z ->
          falsy (OPENAI_API_KEY env) = true ->
          result
          = (Ok (Routes.mkReply 500
                   (Routes.ErrorBody (str "OPENAI_API_KEY not set"))), w1))
      /\ ((0 < Routes.totalNew results)%Z ->
          falsy (OPENAI_API_KEY env) = false ->
          exists scored : Z,
            result
            = (Ok (Routes.mkReply 200
                     (Routes.ScrapeAndScoreBody results scored)),
               snd (scoreUnscored env
                      (Some (Fin (inject_Z (Routes.totalNew results)))) w1))
            /\ (0 <= scored <= Routes.totalNew results)%Z).
Proof.
  intros env w result w1.
  destruct (runAllScrapers_run env w) as [results [E K]].
  assert (Hlimit : limit_integer (Fin (inject_Z (Routes.totalNew results)))
                   = Some (Routes.totalNew results)).
  { apply (totalNew_is_limit env w); [rewrite E; reflexivity | exact K]. }
  assert (Eq : result =
               match
                 (if (0 <? Routes.totalNew results)%Z
                  then scoreUnscored env
                         (Some (Fin (inject_Z (Routes.totalNew results))))
                  else ret 0%Z) (after_scraping env adapters w)
               with
               | (Ok scored, w2) =>
                   (Ok (Routes.mkReply 200
                          (Routes.ScrapeAndScoreBody results scored)), w2)
               | (Throw e, w2) =>
                   (Ok (Routes.mkReply 500 (Routes.ErrorBody (error_message e))),
                    w2)
               end).
  { unfold result, Routes.post_scrape_and_score, try_catch.
    unfold bind at 1. rewrite E. unfold bind at 1.
    destruct ((if (0 <? Routes.totalNew results)%Z
               then scoreUnscored env
                      (Some (Fin (inject_Z (Routes.totalNew results))))
               else ret 0%Z) (after_scraping env adapters w))
      as [[scored | e] w2]; reflexivity. }
  exists results. rewrite Eq. unfold w1. rewrite E. cbn [fst snd].
  clear Eq result w1.
  split; [reflexivity |]. split; [exact K |].
  split; [| split].
  - intros Hz.
    replace (0 <? Routes.totalNew results)%Z with false
      by (symmetry; apply Z.ltb_ge; exact Hz).
    reflexivity.
  - intros Hp Hkey.
    replace (0 <? Routes.totalNew results)%Z with true
      by (symmetry; apply Z.ltb_lt; exact Hp).
    unfold scoreUnscored. rewrite Hkey. reflexivity.
  - intros Hp Hkey.
    replace (0 <? Routes.totalNew results)%Z with true
      by (symmetry; apply Z.ltb_lt; exact Hp).
    set (batch := sql_limit (Routes.totalNew results)
                    (map summary
                       (filter
                          (fun r =>
                             negb (has_score
                                     (db (after_scraping env adapters w))
                                     (JobRow.id r)))
                          (Db.jobs (db (after_scraping env adapters w)))))).
    destruct (score_loop env batch 0 (after_scraping env adapters w))
      as [events [El [_ [L _]]]].
    assert (B : (Z.of_nat (List.length batch) <= Routes.totalNew results)%Z)
      by (apply sql_limit_length; lia).
    assert (Es : scoreUnscored env
                   (Some (Fin (inject_Z (Routes.totalNew results))))
                   (after_scraping env adapters w)
                 = (Ok (0 + Z.of_nat (List.length (scored events)))%Z,
                    after_scoring env batch
                      (after_scraping env adapters w))).
    { unfold scoreUnscored. rewrite Hkey. unfold bind at 1.
      rewrite getUnscoredJobs_run, Hlimit.
      fold batch. exact El. }
    rewrite Es. cbn [snd].
    eexists. split; [reflexivity | lia].
Qed.

Lemma scrape_and_score_reply_witness :
  let keyless :=
    mkEnv (uuidv4_text_at Sample.env) (now_text_at Sample.env)
      (scrape_at Sample.env)
      (judge_at Sample.env) (fetch_at Sample.env) Undefined
      (JSON_stringify Sample.env) (JSON_parse Sample.env)
      (StringToNumber Sample.env) (ObjectToNumber Sample.env)
      (Date_toISOString Sample.env) (scrape_is_array Sample.env) in
  fst (Routes.post_scrape_and_score keyless Sample.new_world)
  = Ok (Routes.mkReply 500 (Routes.ErrorBody (str "OPENAI_API_KEY not set")))
  /\ List.length
       (Db.jobs (db (snd (Routes.post_scrape_and_score keyless
                            Sample.new_world))))
     = 3%nat
  /\ exists results scored,
       fst (Routes.post_scrape_and_score Sample.env Sample.new_world)
       = Ok (Routes.mkReply 200 (Routes.ScrapeAndScoreBody results scored))
       /\ (0 <= scored <= 3)%Z.
Proof.
  intros keyless.
  destruct (scrape_and_score_reply keyless Sample.new_world)
    as [results [E [_ [_ [H _]]]]].
  cbv zeta in H.
  assert (R : results
              = [(str "jobstash", Counts.mk 1 1); (str "safary", Counts.mk 0 0);
                 (str "web3career", Counts.mk 1 1);
                 (str "cryptojobslist", Counts.mk 1 1)]).
  { assert (X : Ok results = fst (runAllScrapers keyless Sample.new_world))
      by (symmetry; exact E).
    vm_compute in X. injection X as ->. reflexivity. }
  subst results.
  specialize (H ltac:(reflexivity) eq_refl).
  split; [rewrite H; reflexivity |].
  split; [rewrite H; reflexivity |].
  destruct (scrape_and_score_reply Sample.env Sample.new_world)
    as [results [E' [_ [_ [_ H']]]]].
  cbv zeta in H'.
  assert (R : results
              = [(str "jobstash", Counts.mk 1 1); (str "safary", Counts.mk 0 0);
                 (str "web3career", Counts.mk 1 1);
                 (str "cryptojobslist", Counts.mk 1 1)]).
  { assert (X : Ok results = fst (runAllScrapers Sample.env Sample.new_world))
      by (symmetry; exact E').
    vm_compute in X. injection X as ->. reflexivity. }
  subst results.
  destruct (H' ltac:(reflexivity) eq_refl) as [scored [Hr Hs]].
  eexists. exists scored. rewrite Hr. split; [reflexivity | exact Hs].
Defined.

(** ** db: getJobById *)

Lemma getJobById_run (number_text : jsnum -> jsstring) (id : jsstring)
    (w : World) :
  Lookup.getJobById number_text id w =
    (Ok match find (has_job_id (text id)) (Db.jobs (db w)) with
        | None => None
        | Some j =>
            let s :=
              find (fun s => jsstring_eqb (ScoreRow.job_id s) (JobRow.id j))
                (Db.job_scores (db w)) in
            Some
              (JobDetail.mk (Lookup.job_as_read j)
                 (option_map ScoreRow.overall_score s)
                 (option_map ScoreRow.relevance_score s)
                 (option_map ScoreRow.experience_match s)
                 (option_map ScoreRow.domain_match s)
                 (option_map ScoreRow.seniority_fit s)
                 (match s with
                  | Some s => Lookup.column_text number_text (ScoreRow.reasoning s)
                  | None => None
                  end)
                 (map Lookup.action_entry
                    (filter (fun a => jsstring_eqb (ActionRow.job_id a)
                                        (text id))
                       (Db.job_actions (db w)))))
        end, w).
Proof.
  unfold Lookup.getJobById, bind, get_db, ret.
  destruct (find (has_job_id (text id)) (Db.jobs (db w))); reflexivity.
Qed.

Lemma get_job_run (number_text : jsnum -> jsstring) (id : jsstring)
    (w : World) :
  Routes.get_job number_text id w =
    (Ok match fst (Lookup.getJobById number_text id w) with
        | Ok (Some job) => Routes.mkReply 200 (Routes.JobBody job)
        | _ => Routes.mkReply 404 (Routes.ErrorBody (str "Job not found"))
        end, w).
Proof.
  unfold Routes.get_job, try_catch, bind. rewrite getJobById_run. cbn [fst].
  destruct (find (has_job_id (text id)) (Db.jobs (db w))); reflexivity.
Qed.

Lemma find_job_id_spec (i : jsstring) (rows : list JobRow.t) :
  match find (has_job_id i) rows with
  | Some r => In r rows /\ JobRow.id r = i
  | None => ~ In i (map JobRow.id rows)
  end.
Proof.
  destruct (find (has_job_id i) rows) as [r |] eqn:F.
  - apply find_some in F. destruct F as [Hin E].
    split; [exact Hin | apply jsstring_eqb_eq; exact E].
  - intros Hin. apply in_map_iff in Hin. destruct Hin as [r [E Hr]].
    apply (find_none _ _ F) in Hr. unfold has_job_id in Hr.
    rewrite E, jsstring_eqb_refl in Hr. discriminate.
Qed.

Lemma find_job_after_update (env : Env) (i existing : jsstring)
    (job : JobInput.t) (now : jsstring) (d : Db.t) :
  find (has_job_id i) (Db.jobs (update_job env existing job now d))
  = option_map
      (fun r =>
         if has_job_id existing r
         then job_columns env (JobRow.id r) (JobRow.source r)
                (JobRow.sourceId r) job now
         else r)
      (find (has_job_id i) (Db.jobs d)).
Proof.
  unfold update_job. cbn [with_jobs Db.jobs].
  induction (Db.jobs d) as [| r rows IH]; [reflexivity |].
  cbn [map find].
  replace (has_job_id i (if has_job_id existing r
                         then job_columns env (JobRow.id r) (JobRow.source r)
                                (JobRow.sourceId r) job now
                         else r))
    with (has_job_id i r)
    by (destruct (has_job_id existing r); reflexivity).
  destruct (has_job_id i r); [reflexivity | exact IH].
Qed.

Lemma no_score_of_absent_job (d : Db.t) (i : jsstring) :
  consistent d -> ~ In i (map JobRow.id (Db.jobs d)) ->
  find (fun s => jsstring_eqb (ScoreRow.job_id s) i) (Db.job_scores d) = None
  /\ filter (fun a => jsstring_eqb (ActionRow.job_id a) i) (Db.job_actions d)
     = [].
Proof.
  intros Hc Hfresh. split.
  - destruct (find _ (Db.job_scores d)) as [s |] eqn:F; [| reflexivity].
    exfalso. apply find_some in F. destruct F as [Hin E].
    apply jsstring_eqb_eq in E. apply Hfresh. rewrite <- E.
    apply (scores_belong_to_jobs Hc). exact Hin.
  - apply filter_none. apply not_true_is_false. intros X.
    apply existsb_exists in X. destruct X as [a [Hin E]].
    apply jsstring_eqb_eq in E. apply Hfresh. rewrite <- E.
    apply (actions_belong_to_jobs Hc). exact Hin.
Qed.

Lemma keeps_ids_as_stored_upsertJob (env : Env) (job : JobInput.t) :
  keeps ids_as_stored (upsertJob env job).
Proof.
  intros w H. unfold ids_as_stored in *. rewrite upsertJob_run. cbv zeta.
  destruct (select_job_id _ _ (db w)) as [existing |].
  - cbn [snd db]. unfold update_job. cbn [with_jobs Db.jobs].
    rewrite Forall_forall in *. intros r Hr. apply in_map_iff in Hr.
    destruct Hr as [r0 [<- Hr0]].
    destruct (has_job_id existing r0); cbn [job_columns JobRow.id];
      apply (H r0 Hr0).
  - destruct (insert_job _ (db w)) as [d' |] eqn:E; cbn [snd db];
      [| exact H].
    unfold insert_job in E.
    destruct (existsb _ _) in E; [discriminate |].
    destruct (existsb _ _) in E; [discriminate |].
    injection E as <-. cbn [with_jobs Db.jobs].
    apply Forall_app. split; [exact H |].
    constructor; [| constructor]. cbn [job_columns JobRow.id].
    apply text_uuidv4_at.
Qed.

(** Every store that the writers reach holds its job ids as texts. *)
Lemma reachable_ids_as_stored (env : Env) (w : World) :
  reachable env w -> ids_as_stored (db w).
Proof.
  destruct (other_writers_jobs env) as [Hs [Ha [Hr [Hb Hc]]]].
  induction 1 as [t tr | w job _ IH | w score _ IH | w jobId action notes _ IH
                 | w jobId action _ IH | w source _ IH
                 | w id status jobsFound jobsNew error _ IH];
    unfold ids_as_stored in *.
  - constructor.
  - apply keeps_ids_as_stored_upsertJob. exact IH.
  - rewrite Hs. exact IH.
  - rewrite Ha. exact IH.
  - rewrite Hr. exact IH.
  - rewrite Hb. exact IH.
  - rewrite Hc. exact IH.
Qed.

(** X20: getJobById only reads, and looks the job up under the id as
    the store holds it.  For an id that no stored job has it returns
    null, and the route answers 404.  In a consistent store whose ids
    are stored texts, as they are in every store that the writers
    reach, after upsertJob has returned an id, getJobById for that id
    returns the job with the columns that upsertJob bound, as the store
    holds them, under the source and source id of the call, and the
    route answers 200 with it; a job that was just inserted has no
    score and no action. *)
Theorem getJobById_returns_stored_job :
  forall (number_text : jsnum -> jsstring) (env : Env) (w : World),
    (forall id,
        existsb (has_job_id (text id)) (Db.jobs (db w)) = false ->
        Lookup.getJobById number_text id w = (Ok None, w)
        /\ Routes.get_job number_text id w
           = (Ok (Routes.mkReply 404 (Routes.ErrorBody (str "Job not found"))),
              w))
    /\ (consistent (db w) ->
        ids_as_stored (db w) ->
        forall job result w1,
          upsertJob env job w = (Ok result, w1) ->
          exists detail,
            Lookup.getJobById number_text (id result) w1 = (Ok (Some detail), w1)
            /\ Routes.get_job number_text (id result) w1
               = (Ok (Routes.mkReply 200 (Routes.JobBody detail)), w1)
            /\ JobDetail.job detail
               = Lookup.job_as_read
                   (JobRow.mk (id result) (text (JobInput.source job))
                      (text (RawJob.sourceId (JobInput.raw job)))
                      (text_or_null (RawJob.url (JobInput.raw job)))
                      (text (RawJob.title (JobInput.raw job)))
                      (text_or_null (RawJob.company (JobInput.raw job)))
                      (text_or_null (RawJob.description (JobInput.raw job)))
                      (text_or_null (RawJob.location (JobInput.raw job)))
                      (text_or_null (RawJob.locationType (JobInput.raw job)))
                      (text_or_null (RawJob.seniority (JobInput.raw job)))
                      (text_or_null (RawJob.category (JobInput.raw job)))
                      (nullish (RawJob.salaryMin (JobInput.raw job)))
                      (nullish (RawJob.salaryMax (JobInput.raw job)))
                      (text (JSON_stringify env
                               (JArr (map JStr
                                        (nullish_or
                                           (RawJob.tags (JobInput.raw job))
                                           [])))))
                      (text (JSON_stringify env
                               (JArr (map JStr
                                        (nullish_or
                                           (RawJob.chains (JobInput.raw job))
                                           [])))))
                      (text_or_null (RawJob.postedAt (JobInput.raw job)))
                      (now_at env (S (tick w)))
                      (text (JSON_stringify env
                               (nullish_or (RawJob.rawData (JobInput.raw job))
                                  (JObj [])))))
            /\ (isNew result = true ->
                JobDetail.overallScore detail = None
                /\ JobDetail.reasoning detail = None
                /\ JobDetail.actions detail = []))
    /\ (reachable env w -> consistent (db w) /\ ids_as_stored (db w))
    /\ text [55357%N] = [65533%N]
    /\ text [55357%N; 56832%N] = [55357%N; 56832%N].
Proof.
  intros number_text env w. split; [| split; [| split; [| split]]].
  - intros i H.
    assert (F : find (has_job_id (text i)) (Db.jobs (db w)) = None).
    { destruct (find (has_job_id (text i)) (Db.jobs (db w))) as [r |] eqn:F;
        [| reflexivity].
      apply find_some in F. destruct F as [Hin E].
      assert (X : existsb (has_job_id (text i)) (Db.jobs (db w)) = true)
        by (apply existsb_exists; exists r; auto).
      congruence. }
    rewrite get_job_run, getJobById_run, F. split; reflexivity.
  - intros Hc Ht job result w1 Hrun.
    change (JobRow.mk (id result) (text (JobInput.source job))
              (text (RawJob.sourceId (JobInput.raw job)))
              (text_or_null (RawJob.url (JobInput.raw job)))
              (text (RawJob.title (JobInput.raw job)))
              (text_or_null (RawJob.company (JobInput.raw job)))
              (text_or_null (RawJob.description (JobInput.raw job)))
              (text_or_null (RawJob.location (JobInput.raw job)))
              (text_or_null (RawJob.locationType (JobInput.raw job)))
              (text_or_null (RawJob.seniority (JobInput.raw job)))
              (text_or_null (RawJob.category (JobInput.raw job)))
              (nullish (RawJob.salaryMin (JobInput.raw job)))
              (nullish (RawJob.salaryMax (JobInput.raw job)))
              (text (JSON_stringify env
                       (JArr (map JStr
                                (nullish_or (RawJob.tags (JobInput.raw job))
                                   [])))))
              (text (JSON_stringify env
                       (JArr (map JStr
                                (nullish_or (RawJob.chains (JobInput.raw job))
                                   [])))))
              (text_or_null (RawJob.postedAt (JobInput.raw job)))
              (now_at env (S (tick w)))
              (text (JSON_stringify env
                       (nullish_or (RawJob.rawData (JobInput.raw job))
                          (JObj [])))))
      with (job_columns env (id result) (text (JobInput.source job))
              (text (RawJob.sourceId (JobInput.raw job))) job
              (now_at env (S (tick w)))).
    assert (G : exists detail,
               Lookup.getJobById number_text (id result) w1
               = (Ok (Some detail), w1)
               /\ JobDetail.job detail
                  = Lookup.job_as_read
                      (job_columns env (id result) (text (JobInput.source job))
                         (text (RawJob.sourceId (JobInput.raw job))) job
                         (now_at env (S (tick w))))
               /\ (isNew result = true ->
                   JobDetail.overallScore detail = None
                   /\ JobDetail.reasoning detail = None
                   /\ JobDetail.actions detail = []));
      [| destruct G as [detail [G1 [G2 G3]]]; exists detail;
         split; [exact G1 |];
         split; [rewrite get_job_run, G1; reflexivity |];
         split; [exact G2 | exact G3]].
    rewrite getJobById_run.
    rewrite upsertJob_run in Hrun. cbv zeta in Hrun.
    destruct (select_job_id _ _ (db w)) as [existing |] eqn:Es.
    + injection Hrun as <- <-. cbn [id isNew db].
      unfold select_job_id in Es.
      destruct (find (key_matches _ _) (Db.jobs (db w))) as [r0 |] eqn:Fk;
        [| discriminate].
      injection Es as Eid. apply find_some in Fk. destruct Fk as [Hin0 Hk].
      apply key_matches_spec in Hk. unfold job_key in Hk.
      injection Hk as Hsrc Hsid.
      assert (Et : text existing = existing).
      { unfold ids_as_stored in Ht. rewrite Forall_forall in Ht.
        rewrite <- Eid. apply (Ht r0 Hin0). }
      rewrite Et. rewrite find_job_after_update.
      pose proof (find_job_id_spec existing (Db.jobs (db w))) as Fi.
      destruct (find (has_job_id existing) (Db.jobs (db w))) as [r1 |].
      * destruct Fi as [Hin1 Eid1].
        assert (r1 = r0).
        { apply (NoDup_map_injective JobRow.id (Db.jobs (db w)));
            [apply (job_ids_distinct Hc) | assumption | assumption | congruence]. }
        subst r1. cbn [option_map].
        replace (has_job_id existing r0) with true
          by (symmetry; apply jsstring_eqb_eq; exact Eid).
        rewrite Eid, Hsrc, Hsid.
        eexists. split; [reflexivity |].
        split; [reflexivity | discriminate].
      * exfalso. apply Fi. rewrite <- Eid. apply in_map. exact Hin0.
    + destruct (insert_job _ (db w)) as [d' |] eqn:Ei; [| discriminate].
      injection Hrun as <- <-. cbn [id isNew db].
      rewrite text_uuidv4_at.
      unfold insert_job in Ei. cbn [JobRow.id job_columns] in Ei.
      destruct (existsb (has_job_id _) (Db.jobs (db w))) eqn:Efresh;
        [discriminate |].
      destruct (existsb (key_matches _ _) (Db.jobs (db w))); [discriminate |].
      injection Ei as <-.
      cbn [with_jobs Db.jobs Db.job_scores Db.job_actions].
      rewrite (find_app_none _ _ _ Efresh). cbn [find].
      unfold has_job_id at 1. cbn [JobRow.id job_columns].
      rewrite jsstring_eqb_refl.
      assert (Hfresh : ~ In (uuidv4_at env (tick w))
                         (map JobRow.id (Db.jobs (db w)))).
      { intros Hin. apply in_map_iff in Hin. destruct Hin as [r [E Hr]].
        assert (X : existsb (has_job_id (uuidv4_at env (tick w)))
                      (Db.jobs (db w)) = true).
        { apply existsb_exists. exists r. split; [exact Hr |].
          apply jsstring_eqb_eq. exact E. }
        congruence. }
      destruct (no_score_of_absent_job _ _ Hc Hfresh) as [Hs Ha].
      cbv zeta. cbn [JobRow.id job_columns]. rewrite Hs, Ha.
      eexists. split; [reflexivity |].
      split; [reflexivity |]. intros _. repeat split.
  - intros Hr. split; [| apply (reachable_ids_as_stored env w Hr)].
    clear - Hr.
    induction Hr as [t tr | w job _ IH | w score _ IH
                    | w jobId action notes _ IH
                    | w jobId action _ IH | w source _ IH
                    | w id status jobsFound jobsNew error _ IH].
    + exact consistent_empty.
    + apply keeps_upsertJob. exact IH.
    + apply keeps_upsertScore. exact IH.
    + apply keeps_addAction. exact IH.
    + apply keeps_removeAction. exact IH.
    + apply keeps_startScrapeRun. exact IH.
    + apply keeps_completeScrapeRun. exact IH.
  - reflexivity.
  - reflexivity.
Qed.

Lemma getJobById_returns_stored_job_witness :
  let text := fun _ : jsnum => str "0" in
  let job := JobInput.mk (str "jobstash") (Sample.raw "a1" "Product Manager") in
  let w1 := snd (upsertJob Sample.env job Sample.new_world) in
  (exists detail,
      Routes.get_job text [0%N] w1
      = (Ok (Routes.mkReply 200 (Routes.JobBody detail)), w1)
      /\ JobRow.title (JobDetail.job detail) = str "Product Manager"
      /\ JobDetail.overallScore detail = None)
  /\ Routes.get_job text [7%N] w1
     = (Ok (Routes.mkReply 404 (Routes.ErrorBody (str "Job not found"))), w1).
Proof.
  intros text job w1. split.
  - destruct (proj1 (proj2 (getJobById_returns_stored_job text Sample.env
                              Sample.new_world))
                consistent_empty (Forall_nil _) job
                (mkUpsertResult [0%N] true) w1 eq_refl)
      as [detail [_ [R [J N]]]].
    exists detail. split; [exact R |]. split.
    + rewrite J. reflexivity.
    + apply N. reflexivity.
  - apply (proj1 (getJobById_returns_stored_job text Sample.env w1) [7%N]).
    reflexivity.
Defined.

Lemma find_score_after_replace (jobId : jsstring) (rows : list ScoreRow.t)
    (row : ScoreRow.t) :
  ScoreRow.job_id row = jobId ->
  find (fun s => jsstring_eqb (ScoreRow.job_id s) jobId)
    (other_scores jobId rows ++ [row])
  = Some row.
Proof.
  intros E. rewrite find_app_none.
  - cbn [find]. rewrite E, jsstring_eqb_refl. reflexivity.
  - apply not_true_is_false. intros X. apply existsb_exists in X.
    destruct X as [s [Hs Es]]. apply filter_In in Hs. destruct Hs as [_ Hs].
    rewrite Es in Hs. discriminate.
Qed.

Lemma getJobById_found (number_text : jsnum -> jsstring) (id : jsstring)
    (w : World) (detail : JobDetail.t) :
  Lookup.getJobById number_text id w = (Ok (Some detail), w) ->
  exists j,
    find (has_job_id (text id)) (Db.jobs (db w)) = Some j
    /\ JobRow.id j = text id.
Proof.
  rewrite getJobById_run.
  pose proof (find_job_id_spec (text id) (Db.jobs (db w))) as F.
  destruct (find (has_job_id (text id)) (Db.jobs (db w))) as [j |];
    [| discriminate].
  intros _. exists j. split; [reflexivity | apply F].
Qed.

(** X21: for a stored job, getJobById shows what upsertScore and
    addAction wrote.  After upsertScore has returned for the job, the
    five score fields are the numbers of that call and the reasoning is
    the text of the value that was bound for it; after addAction has
    returned, the job's actions hold exactly one entry of that name,
    with the notes and time of the call, and the entries of other names
    are as before; names and notes are shown as the store holds them.
    Neither changes the job columns, and each leaves the other's part
    alone. *)
Theorem getJobById_shows_score_and_actions :
  forall (number_text : jsnum -> jsstring) (env : Env) (w : World)
         (id : jsstring) (detail : JobDetail.t),
    Lookup.getJobById number_text id w = (Ok (Some detail), w) ->
    (forall score w1,
        ScoreInput.jobId score = id ->
        upsertScore env score w = (Ok tt, w1) ->
        exists detail1 reasoning,
          Lookup.getJobById number_text id w1 = (Ok (Some detail1), w1)
          /\ JobDetail.job detail1 = JobDetail.job detail
          /\ JobDetail.overallScore detail1
             = Some (ScoreInput.overallScore score)
          /\ JobDetail.relevanceScore detail1
             = Some (ScoreInput.relevanceScore score)
          /\ JobDetail.experienceMatch detail1
             = Some (ScoreInput.experienceMatch score)
          /\ JobDetail.domainMatch detail1
             = Some (ScoreInput.domainMatch score)
          /\ JobDetail.seniorityFit detail1
             = Some (ScoreInput.seniorityFit score)
          /\ bind_reasoning (ScoreInput.reasoning score) = Ok reasoning
          /\ JobDetail.reasoning detail1
             = Lookup.column_text number_text reasoning
          /\ JobDetail.actions detail1 = JobDetail.actions detail)
    /\ (forall action notes w1,
           addAction env id action notes w = (Ok tt, w1) ->
           let entry :=
             ActionEntry.mk (text action) (text_or_null notes)
               (now_at env (tick w)) in
           exists detail1,
             Lookup.getJobById number_text id w1 = (Ok (Some detail1), w1)
             /\ JobDetail.job detail1 = JobDetail.job detail
             /\ JobDetail.overallScore detail1 = JobDetail.overallScore detail
             /\ JobDetail.reasoning detail1 = JobDetail.reasoning detail
             /\ In entry (JobDetail.actions detail1)
             /\ (forall e, In e (JobDetail.actions detail1) ->
                           ActionEntry.action e = text action -> e = entry)
             /\ (forall e, ActionEntry.action e <> text action ->
                           (In e (JobDetail.actions detail1)
                            <-> In e (JobDetail.actions detail)))).
Proof.
  intros number_text env w i0 detail Hget.
  destruct (getJobById_found _ _ _ _ Hget) as [j [Fj Ej]].
  rewrite getJobById_run, Fj in Hget. cbv zeta in Hget.
  injection Hget as <-. cbn [JobDetail.job JobDetail.overallScore
    JobDetail.reasoning JobDetail.actions].
  split.
  - intros score w1 Hid Hrun.
    rewrite upsertScore_run in Hrun.
    destruct (bind_reasoning (ScoreInput.reasoning score))
      as [reasoning | e] eqn:Hb; cbn [and_then] in Hrun; [| discriminate].
    match type of Hrun with context [replace_score ?row ?d] =>
      destruct (replace_score row d) as [d' |] eqn:E; [| discriminate];
      apply replace_score_checks in E; destruct E as [-> _]
    end.
    injection Hrun as <-.
    rewrite getJobById_run.
    cbn [db with_scores Db.jobs Db.job_scores Db.job_actions ScoreRow.job_id].
    rewrite Fj. cbv zeta. rewrite Ej, Hid.
    rewrite find_score_after_replace by reflexivity.
    eexists. exists reasoning. split; [reflexivity |]. cbn. repeat split.
  - intros action notes w1 Hrun.
    set (entry := ActionEntry.mk (text action) (text_or_null notes)
                    (now_at env (tick w))).
    rewrite addAction_run in Hrun.
    destruct (existsb (has_job_id (text i0)) (Db.jobs (db w)));
      [| discriminate].
    cbv zeta in Hrun. injection Hrun as <-.
    rewrite getJobById_run.
    cbn [db with_actions Db.jobs Db.job_scores Db.job_actions].
    rewrite Fj. cbv zeta.
    eexists. split; [reflexivity |].
    cbn [JobDetail.job JobDetail.overallScore JobDetail.reasoning
         JobDetail.actions].
    split; [reflexivity |]. split; [reflexivity |]. split; [reflexivity |].
    set (rowid := next_rowid (Db.job_actions_seq (db w))
                    (map ActionRow.id (Db.job_actions (db w)))).
    set (i := text i0).
    set (name := text action).
    set (row := ActionRow.mk rowid i name (text_or_null notes)
                  (now_at env (tick w))).
    assert (Hrow : Lookup.action_entry row = entry) by reflexivity.
    assert (M : forall e rows,
               In e (map Lookup.action_entry
                       (filter (fun a => jsstring_eqb (ActionRow.job_id a) i)
                          rows))
               <-> exists a, In a rows /\ ActionRow.job_id a = i
                             /\ Lookup.action_entry a = e).
    { intros e rows. rewrite in_map_iff. split.
      - intros [a [Ea Ha]]. apply filter_In in Ha. destruct Ha as [Ha Hi].
        apply jsstring_eqb_eq in Hi. exists a. auto.
      - intros [a [Ha [Hi Ea]]]. exists a. split; [exact Ea |].
        apply filter_In. split; [exact Ha |]. apply jsstring_eqb_eq. exact Hi. }
    assert (K : forall a,
               In a (filter
                       (fun a => negb (jsstring_eqb (ActionRow.job_id a) i
                                       && jsstring_eqb (ActionRow.action a)
                                            name))
                       (Db.job_actions (db w)) ++ [row])
               <-> (In a (Db.job_actions (db w))
                    /\ ~ (ActionRow.job_id a = i /\ ActionRow.action a = name))
                   \/ a = row).
    { intros a. rewrite in_app_iff, filter_In, negb_true_iff,
        andb_false_iff, !jsstring_eqb_neq. cbn [In]. split.
      - intros [[Ha Hn] | [<- | []]]; [left | right; reflexivity].
        split; [exact Ha | tauto].
      - intros [[Ha Hn] | ->]; [left | right; left; reflexivity].
        split; [exact Ha |].
        destruct (list_eq_dec N.eq_dec (ActionRow.job_id a) i) as [E1 | E1];
          [right; intros E2; apply Hn; auto | left; exact E1]. }
    split; [| split].
    + apply M. exists row. split; [apply K; right; reflexivity |].
      split; reflexivity.
    + intros e He Hname. apply M in He. destruct He as [a [Ha [Hi Ea]]].
      apply K in Ha. destruct Ha as [[Ha Hn] | ->]; [| exact (eq_sym Ea)].
      exfalso. apply Hn. split; [exact Hi |]. rewrite <- Ea in Hname.
      exact Hname.
    + intros e Hname. rewrite !M. split.
      * intros [a [Ha [Hi Ea]]]. apply K in Ha.
        destruct Ha as [[Ha Hn] | ->]; [exists a; auto |].
        exfalso. apply Hname. rewrite <- Ea. reflexivity.
      * intros [a [Ha [Hi Ea]]]. exists a. split; [| auto].
        apply K. left. split; [exact Ha |]. intros [_ X].
        apply Hname. rewrite <- Ea. exact X.
Qed.

Lemma getJobById_shows_score_and_actions_witness :
  let text := fun _ : jsnum => str "0" in
  let job := JobInput.mk (str "jobstash") (Sample.raw "a1" "Product Manager") in
  let w := snd (upsertJob Sample.env job Sample.new_world) in
  let score :=
    ScoreInput.mk [0%N] (Fin 70) (Fin 71) (Fin 72) (Fin 73) (Fin 74)
      (JStr (str "fits")) (str "m") in
  let w1 := snd (upsertScore Sample.env score w) in
  let w2 := snd (addAction Sample.env [0%N] (str "applied") Undefined w1) in
  exists detail1 detail2,
    fst (Lookup.getJobById text [0%N] w1) = Ok (Some detail1)
    /\ JobDetail.overallScore detail1 = Some (Fin 70)
    /\ JobDetail.reasoning detail1 = Some (str "fits")
    /\ fst (Lookup.getJobById text [0%N] w2) = Ok (Some detail2)
    /\ JobDetail.overallScore detail2 = Some (Fin 70)
    /\ In (ActionEntry.mk (str "applied") None [3%N])
         (JobDetail.actions detail2).
Proof.
  intros text job w score w1 w2.
  destruct (Lookup.getJobById text [0%N] w) as [o w0] eqn:G0.
  assert (Ew : w0 = w) by (rewrite getJobById_run in G0; congruence).
  subst w0.
  assert (Eo : o = fst (Lookup.getJobById text [0%N] w))
    by (rewrite G0; reflexivity).
  vm_compute in Eo.
  match type of Eo with o = Ok (Some ?d) => set (detail := d) in * end.
  subst o.
  destruct (proj1 (getJobById_shows_score_and_actions text Sample.env w [0%N]
                     detail G0) score w1 eq_refl eq_refl)
    as [detail1 [reasoning [G1 [_ [S1 [_ [_ [_ [_ [B1 [R1 _]]]]]]]]]]].
  injection B1 as <-.
  destruct (proj2 (getJobById_shows_score_and_actions text Sample.env w1 [0%N]
                     detail1 G1) (str "applied") Undefined w2 eq_refl)
    as [detail2 [G2 [_ [S2 [_ [A2 _]]]]]].
  exists detail1, detail2.
  rewrite G1, G2. cbn [fst].
  split; [reflexivity |]. split; [exact S1 |]. split; [exact R1 |].
  split; [reflexivity |]. split; [rewrite S2; exact S1 |].
  exact A2.
Defined.

(** ** scrapers/web3career.ts: parseSalary *)

Import Pattern.

Lemma run_Lit (l s : jsstring) (cap : option jsstring)
    (k : jsstring -> option jsstring -> option ending) :
  run (Lit l) s cap k
  = if starts_with l s then k (skipn (List.length l) s) cap else None.
Proof.
  revert s. induction l as [| a l IH]; intros s; [reflexivity |].
  destruct s as [| c s]; [reflexivity |].
  cbn [Lit run cset_match starts_with List.length skipn].
  rewrite N.eqb_sym. destruct (a =? c)%N; [apply IH | reflexivity].
Qed.

Lemma starts_with_app (l s : jsstring) : starts_with l (l ++ s) = true.
Proof.
  induction l as [| a l IH]; [reflexivity |].
  cbn [app starts_with]. rewrite N.eqb_refl. exact IH.
Qed.

Lemma skipn_app_exact (l s : jsstring) : skipn (List.length l) (l ++ s) = s.
Proof. induction l as [| a l IH]; [reflexivity | exact IH]. Qed.

Lemma firstn_app_exact (l s : jsstring) :
  firstn (List.length (l ++ s) - List.length s) (l ++ s) = l.
Proof.
  rewrite length_app.
  replace (List.length l + List.length s - List.length s)%nat
    with (List.length l) by lia.
  induction l as [| a l IH]; [reflexivity |]. cbn. rewrite IH. reflexivity.
Qed.

(** A greedy star takes the whole run when what follows the run goes
    on to a match. *)
Lemma greedy_whole_run (x : cset) (p s : jsstring)
    (k : jsstring -> option ending) (e : ending) :
  forallb (cset_match x) p = true ->
  match s with
  | c :: _ => cset_match x c = false
  | [] => True
  end ->
  k s = Some e ->
  greedy x (p ++ s) k = Some e.
Proof.
  intros Hp Hs Hk. induction p as [| c p IH].
  - destruct s as [| c s]; cbn [app greedy]; [exact Hk |].
    rewrite Hs. exact Hk.
  - cbn [forallb] in Hp. apply andb_true_iff in Hp as [Hc Hp].
    cbn [app greedy]. rewrite Hc, (IH Hp). reflexivity.
Qed.

Lemma exec_at_AMOUNT (a rest : jsstring) :
  is_digit_text a ->
  exec_at Web3Career.AMOUNT (str "$" ++ a ++ str "k" ++ rest)
  = Some (rest, Some a).
Proof.
  intros [Hne Hd]. destruct a as [| d a]; [contradiction Hne; reflexivity |].
  cbn [forallb] in Hd. apply andb_true_iff in Hd as [Hd Ha].
  unfold exec_at, Web3Career.AMOUNT. cbn [cat run].
  rewrite run_Lit. change (str "$") with [36%N]. cbn [app starts_with skipn
    List.length]. rewrite N.eqb_refl. cbn [andb].
  unfold Plus. cbn [run cset_match]. rewrite Hd.
  erewrite (greedy_whole_run Digit a (str "k" ++ rest)); [reflexivity | | |].
  - exact Ha.
  - reflexivity.
  - rewrite run_Lit. change (str "k") with [107%N].
    cbn [app starts_with skipn List.length]. rewrite N.eqb_refl. cbn [andb].
    exact (f_equal (fun t => Some (rest, Some t))
             (firstn_app_exact (d :: a) (107%N :: rest))).
Qed.

Lemma scan_skip (r : rx) (p s : jsstring) :
  scan r (List.length p) (p ++ s) = scan r 0 s.
Proof.
  induction p as [| c p IH]; [reflexivity | exact IH].
Qed.

Lemma scan_AMOUNT_found (a rest : jsstring) :
  is_digit_text a ->
  scan Web3Career.AMOUNT 0 (str "$" ++ a ++ str "k" ++ rest)
  = mkFound (str "$" ++ a ++ str "k") (Some a)
    :: scan Web3Career.AMOUNT 0 rest.
Proof.
  intros Ha. pose proof (exec_at_AMOUNT a rest Ha) as E.
  change (str "$" ++ a ++ str "k" ++ rest)
    with (36%N :: (a ++ str "k" ++ rest)) in *.
  cbn [scan]. rewrite E. cbn [fst snd]. f_equal.
  - unfold found. cbn [fst snd]. f_equal.
    replace (36%N :: a ++ str "k" ++ rest)
      with ((36%N :: a ++ str "k") ++ rest)
      by (cbn [app]; rewrite <- app_assoc; reflexivity).
    apply (firstn_app_exact (36%N :: a ++ str "k") rest).
  - replace (List.length (36%N :: a ++ str "k" ++ rest) - List.length rest - 1)%nat
      with (List.length (a ++ str "k")).
    + rewrite app_assoc. apply scan_skip.
    + cbn [List.length]. rewrite !length_app. cbn [List.length]. lia.
Qed.

Lemma exec_at_AMOUNT_miss (c : N) (s : jsstring) :
  c <> 36%N -> exec_at Web3Career.AMOUNT (c :: s) = None.
Proof.
  intros H. unfold exec_at, Web3Career.AMOUNT. cbn [cat run].
  rewrite run_Lit. change (str "$") with [36%N]. cbn [starts_with].
  replace (36 =? c)%N with false; [reflexivity |].
  symmetry. apply N.eqb_neq. congruence.
Qed.

Lemma scan_AMOUNT_none (s : jsstring) :
  ~ In 36%N s -> scan Web3Career.AMOUNT 0 s = [].
Proof.
  induction s as [| c s IH]; intros H; [reflexivity |].
  cbn [scan]. rewrite exec_at_AMOUNT_miss.
  - apply IH. intros X. apply H. right. exact X.
  - intros ->. apply H. left. reflexivity.
Qed.

Lemma delete_all_keeps (r : rx) (s : jsstring) :
  forall (skip : nat) (c : N), In c (delete_all r skip s) -> In c s.
Proof.
  induction s as [| a s IH]; intros skip c; [intros [] |].
  cbn [delete_all]. destruct skip as [| n].
  - destruct (exec_at r (a :: s)) as [e |].
    + destruct (List.length (a :: s) - List.length (fst e))%nat.
      * intros [<- | H]; [left; reflexivity | right; exact (IH _ _ H)].
      * intros H. right. exact (IH _ _ H).
    + intros [<- | H]; [left; reflexivity | right; exact (IH _ _ H)].
  - intros H. right. exact (IH _ _ H).
Qed.

Lemma dropWhile_keeps (p : N -> bool) (s : jsstring) (c : N) :
  In c (dropWhile p s) -> In c s.
Proof.
  induction s as [| a s IH]; [intros [] |].
  cbn [dropWhile]. destruct (p a); [intros H; right; exact (IH H) | auto].
Qed.

Lemma trim_keeps (s : jsstring) (c : N) : In c (trim s) -> In c s.
Proof.
  unfold trim, trimEnd, trimStart. intros H.
  apply in_rev in H. apply dropWhile_keeps in H. apply in_rev in H.
  apply dropWhile_keeps in H. exact H.
Qed.

Lemma delete_all_TAG_plain (s : jsstring) :
  ~ In 60%N s -> delete_all Web3Career.TAG 0 s = s.
Proof.
  induction s as [| c s IH]; intros H; [reflexivity |].
  cbn [delete_all].
  assert (E : exec_at Web3Career.TAG (c :: s) = None).
  { unfold exec_at, Web3Career.TAG. cbn [cat run].
    rewrite run_Lit. change (str "<") with [60%N]. cbn [starts_with].
    replace (60 =? c)%N with false; [reflexivity |].
    symmetry. apply N.eqb_neq. intros X. apply H. left. symmetry. exact X. }
  rewrite E, IH; [reflexivity |].
  intros X. apply H. right. exact X.
Qed.

Lemma digit_is_plain (d : N) :
  in_range 48 57 d = true ->
  isWhiteSpace d = false /\ d <> 36%N /\ d <> 107%N /\ d <> 60%N
  /\ d <> 45%N /\ d <> 43%N.
Proof.
  intros H. apply in_range_spec in H. split.
  - unfold isWhiteSpace, isLineTerminator, in_range. decide_cmp. reflexivity.
  - repeat split; lia.
Qed.

Lemma delete_DOLLAR_OR_K_digits (a : jsstring) :
  forallb (in_range 48 57) a = true ->
  delete_all Web3Career.DOLLAR_OR_K 0 (a ++ str "k") = a.
Proof.
  induction a as [| d a IH]; intros H; [reflexivity |].
  cbn [forallb] in H. apply andb_true_iff in H as [Hd Ha].
  destruct (digit_is_plain d Hd) as [_ [H36 [H107 _]]].
  cbn [app delete_all].
  assert (E : exec_at Web3Career.DOLLAR_OR_K (d :: a ++ str "k") = None).
  { unfold exec_at, Web3Career.DOLLAR_OR_K.
    change (str "$") with [36%N]. change (str "k") with [107%N].
    cbn [Lit run cset_match].
    replace (d =? 36)%N with false by (symmetry; apply N.eqb_neq; exact H36).
    replace (d =? 107)%N with false by (symmetry; apply N.eqb_neq; exact H107).
    reflexivity. }
  rewrite E, (IH Ha). reflexivity.
Qed.

Lemma parse_digits_value (a : jsstring) :
  forallb (in_range 48 57) a = true ->
  forall acc : Z,
    (0 <= acc)%Z ->
    exists x : Z,
      JobStash.parse_digits a (Some acc) = Some x
      /\ (0 <= x < (acc + 1) * 10 ^ Z.of_nat (List.length a))%Z.
Proof.
  induction a as [| d a IH]; intros H acc Hacc.
  - exists acc. split; [reflexivity |]. cbn [List.length Z.of_nat]. lia.
  - cbn [forallb] in H. apply andb_true_iff in H as [Hd Ha].
    cbn [JobStash.parse_digits]. unfold JobStash.digit_value. rewrite Hd.
    apply in_range_spec in Hd.
    destruct (IH Ha (10 * acc + Z.of_N (d - 48))%Z ltac:(lia)) as [x [E B]].
    exists x. split; [exact E |].
    rewrite length_cons, Nat2Z.inj_succ, Z.pow_succ_r by lia.
    assert (0 < 10 ^ Z.of_nat (List.length a))%Z
      by (apply Z.pow_pos_nonneg; lia).
    nia.
Qed.

Lemma parseInt10_digits (a : jsstring) :
  is_digit_text a ->
  exists x : Z,
    JobStash.parseInt10 a = Some x
    /\ (0 <= x < 10 ^ Z.of_nat (List.length a))%Z.
Proof.
  intros [Hne H]. destruct a as [| d a]; [contradiction Hne; reflexivity |].
  cbn [forallb] in H. apply andb_true_iff in H as [Hd Ha].
  destruct (digit_is_plain d Hd) as [Hw [_ [_ [_ [H45 H43]]]]].
  unfold JobStash.parseInt10, trimStart. cbn [dropWhile]. rewrite Hw.
  assert (E : JobStash.parse_digits (d :: a) None
              = JobStash.parse_digits a
                  (Some (10 * 0 + Z.of_N (d - 48))%Z)).
  { cbn [JobStash.parse_digits]. unfold JobStash.digit_value. rewrite Hd.
    reflexivity. }
  assert (V : exists x, JobStash.parse_digits (d :: a) None = Some x
                        /\ (0 <= x < 10 ^ Z.of_nat (List.length (d :: a)))%Z).
  { rewrite E. apply in_range_spec in Hd.
    destruct (parse_digits_value a Ha (10 * 0 + Z.of_N (d - 48))%Z
                ltac:(lia)) as [x [Ex B]].
    exists x. split; [exact Ex |].
    rewrite length_cons, Nat2Z.inj_succ, Z.pow_succ_r by lia.
    assert (0 < 10 ^ Z.of_nat (List.length a))%Z
      by (apply Z.pow_pos_nonneg; lia).
    nia. }
  destruct d as [| p]; [exact V |].
  destruct p as [p | p |]; try exact V;
    destruct p as [p | p |]; try exact V;
    destruct p as [p | p |]; try exact V;
    destruct p as [p | p |]; try exact V;
    destruct p as [p | p |]; try exact V;
    destruct p as [p | p |]; try exact V;
    try (contradiction H45; reflexivity);
    try (contradiction H43; reflexivity).
Qed.

Lemma trim_solid_ends (c d : N) (mid : jsstring) :
  isWhiteSpace c = false -> isWhiteSpace d = false ->
  trim (c :: mid ++ [d]) = c :: mid ++ [d].
Proof.
  intros Hc Hd. unfold trim, trimStart. cbn [dropWhile]. rewrite Hc.
  unfold trimEnd.
  change (c :: mid ++ [d]) with ((c :: mid) ++ [d]).
  rewrite rev_app_distr. cbn [rev app dropWhile]. rewrite Hd.
  change (d :: rev mid ++ [c]) with ([d] ++ rev (c :: mid)).
  rewrite rev_app_distr, rev_involutive. reflexivity.
Qed.

Lemma digits_plain (a : jsstring) :
  forallb (in_range 48 57) a = true -> ~ In 36%N a /\ ~ In 60%N a.
Proof.
  intros H. rewrite forallb_forall in H.
  split; intros X; apply H in X; discriminate X.
Qed.

Lemma delete_DOLLAR_OR_K_amount (a : jsstring) :
  forallb (in_range 48 57) a = true ->
  delete_all Web3Career.DOLLAR_OR_K 0 (str "$" ++ a ++ str "k") = a.
Proof.
  intros H. change (str "$" ++ a ++ str "k") with (36%N :: (a ++ str "k")).
  cbn [delete_all].
  assert (E : exec_at Web3Career.DOLLAR_OR_K (36%N :: (a ++ str "k"))
              = Some (a ++ str "k", None)) by reflexivity.
  rewrite E. cbn [fst List.length].
  replace (S (List.length (a ++ str "k")) - List.length (a ++ str "k"))%nat
    with 1%nat by lia.
  apply delete_DOLLAR_OR_K_digits. exact H.
Qed.

Lemma nearest_number_exact (z : Z) :
  (Z.abs z < 2 ^ 53)%Z -> nearest_number z = Fin (inject_Z z).
Proof.
  intros H. unfold nearest_number. apply Z.ltb_lt in H. rewrite H.
  reflexivity.
Qed.

(** The text of a salary cell without markup: what [parseSalary] makes
    of it once the cell is cleaned. *)
Lemma parseSalary_plain (raw : jsstring) :
  ~ In 60%N raw -> trim raw = raw ->
  Web3Career.parseSalary raw =
    match scan Web3Career.AMOUNT 0 raw with
    | [] => Web3Career.mkSalary Undefined Undefined
    | m :: more =>
        Web3Career.mkSalary
          (Val (Web3Career.thousands
                  (delete_all Web3Career.DOLLAR_OR_K 0 (whole m))))
          (match more with
           | m2 :: _ =>
               Val (Web3Career.thousands
                      (delete_all Web3Career.DOLLAR_OR_K 0 (whole m2)))
           | [] => Undefined
           end)
    end.
Proof.
  intros Hlt Htrim. unfold Web3Career.parseSalary.
  rewrite (delete_all_TAG_plain raw Hlt), Htrim.
  destruct (scan Web3Career.AMOUNT 0 raw) as [| m [| m2 more]]; reflexivity.
Qed.

(** X22: parseSalary reads the amounts of a salary text.  For the
    formats that the source names, a range such as $155k - $205k and an
    open amount such as $120k+, with numbers of at most twelve digits,
    min and max are a thousand times the numbers written, which a
    number of the language holds exactly, and max is absent for the
    open amount; a text without a dollar sign gives neither min nor
    max. *)
Theorem parseSalary_reads_amounts :
  (forall a b : jsstring,
      is_digit_text a -> is_digit_text b ->
      (List.length a <= 12)%nat -> (List.length b <= 12)%nat ->
      exists x y : Z,
        JobStash.parseInt10 a = Some x
        /\ JobStash.parseInt10 b = Some y
        /\ (0 <= x * 1000 < 2 ^ 53)%Z /\ (0 <= y * 1000 < 2 ^ 53)%Z
        /\ Web3Career.parseSalary
             (str "$" ++ a ++ str "k - $" ++ b ++ str "k")
           = Web3Career.mkSalary (Val (Fin (inject_Z (x * 1000))))
               (Val (Fin (inject_Z (y * 1000))))
        /\ Web3Career.parseSalary (str "$" ++ a ++ str "k+")
           = Web3Career.mkSalary (Val (Fin (inject_Z (x * 1000)))) Undefined)
  /\ (forall raw : jsstring,
         ~ In 36%N raw ->
         Web3Career.parseSalary raw = Web3Career.mkSalary Undefined Undefined).
Proof.
  split.
  - intros a b Ha Hb La Lb.
    destruct (parseInt10_digits a Ha) as [x [Ex Hx]].
    destruct (parseInt10_digits b Hb) as [y [Ey Hy]].
    exists x, y.
    split; [exact Ex |]. split; [exact Ey |].
    assert (Pa : (10 ^ Z.of_nat (List.length a) <= 10 ^ 12)%Z)
      by (apply Z.pow_le_mono_r; lia).
    assert (Pb : (10 ^ Z.of_nat (List.length b) <= 10 ^ 12)%Z)
      by (apply Z.pow_le_mono_r; lia).
    assert (P12 : (10 ^ 12 * 1000 < 2 ^ 53)%Z) by reflexivity.
    split; [lia |]. split; [lia |].
    destruct (digits_plain a (proj2 Ha)) as [Ha36 Ha60].
    destruct (digits_plain b (proj2 Hb)) as [Hb36 Hb60].
    assert (Ta : Web3Career.thousands a = Fin (inject_Z (x * 1000)))
      by (unfold Web3Career.thousands; rewrite Ex;
          rewrite nearest_number_exact by lia;
          rewrite Qfloor_Z; apply nearest_number_exact; lia).
    assert (Tb : Web3Career.thousands b = Fin (inject_Z (y * 1000)))
      by (unfold Web3Career.thousands; rewrite Ey;
          rewrite nearest_number_exact by lia;
          rewrite Qfloor_Z; apply nearest_number_exact; lia).
    split.
    + assert (Shape : str "$" ++ a ++ str "k - $" ++ b ++ str "k"
                      = str "$" ++ a ++ str "k"
                        ++ 32%N :: 45%N :: 32%N
                           :: (str "$" ++ b ++ str "k" ++ [])).
      { rewrite app_nil_r. reflexivity. }
      assert (Ends : str "$" ++ a ++ str "k - $" ++ b ++ str "k"
                     = 36%N :: (a ++ str "k - $" ++ b) ++ [107%N]).
      { cbn [app]. rewrite <- !app_assoc. reflexivity. }
      rewrite parseSalary_plain.
      * rewrite Shape, (scan_AMOUNT_found a _ Ha).
        cbn [scan]. rewrite !exec_at_AMOUNT_miss by discriminate.
        rewrite (scan_AMOUNT_found b [] Hb). cbn [whole].
        rewrite !delete_DOLLAR_OR_K_amount by (apply Ha || apply Hb).
        rewrite Ta, Tb. reflexivity.
      * rewrite Shape. intros X.
        repeat (rewrite in_app_iff in X || cbn [In] in X).
        cbn in X. intuition discriminate.
      * rewrite Ends. apply trim_solid_ends; reflexivity.
    + assert (Shape : str "$" ++ a ++ str "k+"
                      = str "$" ++ a ++ str "k" ++ [43%N]) by reflexivity.
      assert (Ends : str "$" ++ a ++ str "k+"
                     = 36%N :: (a ++ str "k") ++ [43%N]).
      { cbn [app]. rewrite <- !app_assoc. reflexivity. }
      rewrite parseSalary_plain.
      * rewrite Shape, (scan_AMOUNT_found a _ Ha).
        cbn [scan]. rewrite !exec_at_AMOUNT_miss by discriminate.
        cbn [whole].
        rewrite !delete_DOLLAR_OR_K_amount by apply Ha.
        rewrite Ta. reflexivity.
      * rewrite Shape. intros X.
        repeat (rewrite in_app_iff in X || cbn [In] in X).
        cbn in X. intuition discriminate.
      * rewrite Ends. apply trim_solid_ends; reflexivity.
  - intros raw H. unfold Web3Career.parseSalary.
    rewrite scan_AMOUNT_none; [reflexivity |].
    intros X. apply trim_keeps in X. apply delete_all_keeps in X. exact (H X).
Qed.

Lemma parseSalary_reads_amounts_witness :
  is_digit_text (str "155") /\ is_digit_text (str "205")
  /\ Web3Career.parseSalary (str "$155k - $205k")
     = Web3Career.mkSalary (Val (Fin (inject_Z 155000)))
         (Val (Fin (inject_Z 205000)))
  /\ Web3Career.parseSalary (str "Competitive")
     = Web3Career.mkSalary Undefined Undefined.
Proof.
  assert (A : is_digit_text (str "155")) by (split; [discriminate | reflexivity]).
  assert (B : is_digit_text (str "205")) by (split; [discriminate | reflexivity]).
  split; [exact A |]. split; [exact B |].
  split.
  - destruct (proj1 parseSalary_reads_amounts (str "155") (str "205") A B
                ltac:(cbn; lia) ltac:(cbn; lia))
      as [x [y [Ex [Ey [_ [_ [R _]]]]]]].
    vm_compute in Ex. vm_compute in Ey.
    injection Ex as <-. injection Ey as <-. exact R.
  - apply (proj2 parseSalary_reads_amounts).
    vm_compute. intros X. decompose [or] X; try discriminate; assumption.
Defined.

(** ** scrapers/web3career.ts: parseRows *)

Lemma greedy_result (x : cset) (s : jsstring) (k : jsstring -> option ending)
    (e : ending) :
  greedy x s k = Some e ->
  exists p q, s = p ++ q /\ forallb (cset_match x) p = true /\ k q = Some e.
Proof.
  revert e. induction s as [| c s IH]; intros e; cbn [greedy].
  - intros H. exists [], []. auto.
  - destruct (cset_match x c) eqn:Ec.
    + destruct (greedy x s k) as [e1 |] eqn:G.
      * intros [= <-]. destruct (IH e1 eq_refl) as [p [q [-> [Hp Hk]]]].
        exists (c :: p), q. cbn [forallb app]. rewrite Ec, Hp. auto.
      * intros H. exists [], (c :: s). auto.
    + intros H. exists [], (c :: s). auto.
Qed.

Lemma exec_at_JOB_ID (s : jsstring) (e : ending) :
  exec_at Web3Career.JOB_ID s = Some e ->
  exists digits, snd e = Some digits /\ is_digit_text digits.
Proof.
  unfold exec_at, Web3Career.JOB_ID. cbn [cat run]. rewrite run_Lit.
  destruct (starts_with _ s); [| discriminate].
  generalize (skipn (List.length (str "data-jobid=")) s). intros t.
  unfold Plus. cbn [run].
  destruct t as [| c t]; [discriminate |].
  cbn [cset_match]. destruct (in_range 48 57 c) eqn:Ec; [| discriminate].
  intros G. apply greedy_result in G.
  destruct G as [p [q [-> [Hp [= <-]]]]].
  cbn [snd]. exists (c :: p). split.
  - exact (f_equal Some (firstn_app_exact (c :: p) q)).
  - split; [discriminate |]. cbn [forallb]. rewrite Ec. exact Hp.
Qed.

Lemma first_match_JOB_ID (s : jsstring) (f : Found) :
  first_match Web3Career.JOB_ID s = Some f -> is_digit_text (captured f).
Proof.
  assert (Here : forall t e,
             exec_at Web3Career.JOB_ID t = Some e ->
             is_digit_text (captured (found t e))).
  { intros t e E. destruct (exec_at_JOB_ID t e E) as [d [Hd Hdig]].
    unfold captured, found. cbn [group]. rewrite Hd. exact Hdig. }
  induction s as [| c s IH]; cbn [first_match].
  - destruct (exec_at Web3Career.JOB_ID []) as [e |] eqn:E; [| discriminate].
    intros [= <-]. exact (Here _ _ E).
  - destruct (exec_at Web3Career.JOB_ID (c :: s)) as [e |] eqn:E;
      [| exact IH].
    intros [= <-]. exact (Here _ _ E).
Qed.

Lemma dropWhile_twice (p : N -> bool) (s : jsstring) :
  dropWhile p (dropWhile p s) = dropWhile p s.
Proof.
  induction s as [| c s IH]; [reflexivity |].
  cbn [dropWhile]. destruct (p c) eqn:E; [exact IH |].
  cbn [dropWhile]. rewrite E. reflexivity.
Qed.

Lemma dropWhile_head (p : N -> bool) (s : jsstring) (c : N) (t : jsstring) :
  dropWhile p s = c :: t -> p c = false.
Proof.
  induction s as [| a s IH]; [discriminate |].
  cbn [dropWhile]. destruct (p a) eqn:Ea; [exact IH |].
  intros [= -> _]. exact Ea.
Qed.

Lemma trimStart_of_trim (s : jsstring) : trimStart (trim s) = trim s.
Proof.
  unfold trim. generalize (dropWhile_head isWhiteSpace s).
  fold (trimStart s). destruct (trimStart s) as [| c t]; [reflexivity |].
  intros Hc. specialize (Hc c t eq_refl).
  unfold trimEnd. cbn [rev]. rewrite dropWhile_app.
  destruct (forallb isWhiteSpace (rev t)).
  - cbn [dropWhile]. rewrite Hc. cbn [rev app]. unfold trimStart.
    cbn [dropWhile]. rewrite Hc. reflexivity.
  - rewrite rev_app_distr. cbn [rev app]. unfold trimStart.
    cbn [dropWhile]. rewrite Hc. reflexivity.
Qed.

Lemma trim_twice (s : jsstring) : trim (trim s) = trim s.
Proof.
  unfold trim at 1. rewrite trimStart_of_trim.
  unfold trim, trimEnd. rewrite rev_involutive, dropWhile_twice. reflexivity.
Qed.

Lemma keep_some_In {A : Type} (l : list (option A)) (a : A) :
  In a (Web3Career.keep_some l) -> In (Some a) l.
Proof.
  induction l as [| [b |] l IH]; cbn [Web3Career.keep_some In]; [tauto | |].
  - intros [-> | H]; [left; reflexivity | right; exact (IH H)].
  - intros H. right. exact (IH H).
Qed.

(** X23: every row that parseRows returns carries an id that is a
    number, one or more decimal digits, and a title and a company name
    without white space at their ends. *)
Theorem parseRows_rows_are_clean :
  forall (html : jsstring) (row : Web3Career.Row),
    In row (Web3Career.parseRows html) ->
    is_digit_text (Web3Career.id row)
    /\ trim (Web3Career.title row) = Web3Career.title row
    /\ trim (Web3Career.company row) = Web3Career.company row.
Proof.
  intros html row H. unfold Web3Career.parseRows in H.
  apply keep_some_In in H. apply in_map_iff in H as [f [E _]].
  revert E. generalize (captured f). clear f. intros text.
  unfold Web3Career.parseRow.
  destruct (first_match Web3Career.H2 text) as [t |];
    [| destruct (first_match Web3Career.JOB_ID text); discriminate].
  destruct (first_match Web3Career.JOB_ID text) as [i |] eqn:Ei;
    [| discriminate].
  intros [= <-].
  cbn [Web3Career.id Web3Career.title Web3Career.company].
  split; [exact (first_match_JOB_ID _ _ Ei) |].
  split; [apply trim_twice |].
  destruct (first_match Web3Career.H3 text); [apply trim_twice | reflexivity].
Qed.

Lemma parseRows_rows_are_clean_witness :
  In (Web3Career.mkRow (str "101") (str "Head of Product") (str "Acme") []
        (str "Remote") (str "$120k - $150k") [])
     (Web3Career.parseRows Web3Sample.html)
  /\ is_digit_text (str "101").
Proof.
  assert (H : In (Web3Career.mkRow (str "101") (str "Head of Product")
                    (str "Acme") [] (str "Remote") (str "$120k - $150k") [])
                 (Web3Career.parseRows Web3Sample.html))
    by (vm_compute; left; reflexivity).
  split; [exact H |].
  exact (proj1 (parseRows_rows_are_clean _ _ H)).
Defined.

(** ** scrapers/web3career.ts: scrape *)

Lemma web3_pages_step
    (fetch_page : jsstring -> Z -> nat -> Outcome Web3Career.Page)
    (date : jsstring -> Outcome jsstring)
    (remaining : nat) (category : jsstring) (page : Z)
    (acc : Web3Career.Acc) (w : World) :
  Web3Career.pages fetch_page date (S remaining) category page acc w
  = let w1 := mkWorld (db w) (S (tick w)) (trace w) in
    match fetch_page category page (tick w) with
    | Throw e => (Throw e, w1)
    | Ok response =>
        if Web3Career.page_ok response
        then match Web3Career.page_text response with
             | Throw e => (Throw e, w1)
             | Ok html =>
                 match Web3Career.parseRows html with
                 | [] => (Ok acc, w1)
                 | row :: rows =>
                     match for_of (row :: rows)
                             (Web3Career.processRow date category) acc w1 with
                     | (Throw e, w2) => (Throw e, w2)
                     | (Ok acc', w2) =>
                         if includes
                              (str "page=" ++ decimal (page + 1)) html
                         then Web3Career.pages fetch_page date remaining
                                category (page + 1) acc' w2
                         else (Ok acc', w2)
                     end
                 end
             end
        else (Ok acc, w1)
    end.
Proof.
  cbn [Web3Career.pages]. unfold bind at 1. unfold ask. cbv zeta.
  unfold bind at 1. unfold lift at 1.
  destruct (fetch_page category page (tick w)) as [response | e];
    [| reflexivity].
  destruct (Web3Career.page_ok response); cbn [negb]; [| reflexivity].
  unfold bind at 1. unfold lift at 1.
  destruct (Web3Career.page_text response) as [html | e]; [| reflexivity].
  destruct (Web3Career.parseRows html) as [| row rows]; [reflexivity |].
  unfold bind at 1.
  destruct (for_of (row :: rows) (Web3Career.processRow date category) acc _)
    as [[acc' | e] w2]; [| reflexivity].
  destruct (includes _ html); reflexivity.
Qed.

Lemma processRow_world (date : jsstring -> Outcome jsstring)
    (category : jsstring) (row : Web3Career.Row) (acc : Web3Career.Acc)
    (w : World) :
  snd (Web3Career.processRow date category row acc w) = w.
Proof.
  unfold Web3Career.processRow.
  destruct (existsb _ (Web3Career.seenIds acc)); [reflexivity |].
  destruct (test EXCLUDED_TITLE_PATTERNS (Web3Career.title row));
    [reflexivity |].
  destruct (negb (isLocationUSOrRemote _ _)); [reflexivity |].
  destruct (Web3Career.postedAt row) as [| c text]; [reflexivity |].
  unfold bind, lift, ret. destruct (date (c :: text)); reflexivity.
Qed.

Lemma row_loop_world (date : jsstring -> Outcome jsstring)
    (category : jsstring) (rows : list Web3Career.Row) :
  forall (acc : Web3Career.Acc) (w : World),
    snd (for_of rows (Web3Career.processRow date category) acc w) = w.
Proof.
  induction rows as [| row rows IH]; intros acc w; [reflexivity |].
  cbn [for_of]. unfold bind.
  pose proof (processRow_world date category row acc w) as E.
  destruct (Web3Career.processRow date category row acc w) as [[acc1 | e] w1];
    cbn [snd] in E; subst w1; [apply IH | reflexivity].
Qed.

Lemma processRow_kept (date : jsstring -> Outcome jsstring)
    (category : jsstring) (row : Web3Career.Row)
    (acc acc' : Web3Career.Acc) (w w' : World) :
  Web3Career.processRow date category row acc w = (Ok acc', w') ->
  is_digit_text (Web3Career.id row) ->
  In category Web3Career.CATEGORY_PAGES ->
  kept_so_far acc -> kept_so_far acc'.
Proof.
  unfold Web3Career.processRow. intros H Hid Hcat [Hnd [Hseen Hall]].
  destruct (existsb (jsstring_eqb (Web3Career.id row)) (Web3Career.seenIds acc))
    eqn:Es.
  { injection H as <- _. repeat split; assumption. }
  assert (Hnew : ~ In (Web3Career.id row) (Web3Career.seenIds acc)).
  { intros X. apply Bool.not_true_iff_false in Es. apply Es.
    apply existsb_exists. exists (Web3Career.id row).
    split; [exact X | apply jsstring_eqb_refl]. }
  assert (Hseen' : forall raw,
             In raw (Web3Career.allJobs acc) ->
             In (RawJob.sourceId raw)
                (Web3Career.seenIds acc ++ [Web3Career.id row])).
  { intros raw X. apply in_or_app. left. exact (Hseen raw X). }
  destruct (test EXCLUDED_TITLE_PATTERNS (Web3Career.title row)) eqn:Et.
  { injection H as <- _. repeat split; assumption. }
  destruct (isLocationUSOrRemote (Val (Web3Career.location row)) Undefined)
    eqn:El; cbn [negb] in H.
  2:{ injection H as <- _. repeat split; assumption. }
  assert (Hposted : exists posted,
             acc' = Web3Career.mkAcc
                      (Web3Career.allJobs acc
                       ++ [RawJob.mk (Web3Career.id row)
                             (Web3Career.or_undefined (Web3Career.url row))
                             (Web3Career.title row)
                             (Web3Career.or_undefined (Web3Career.company row))
                             Undefined
                             (Web3Career.or_undefined
                                (Web3Career.location row))
                             Undefined Undefined (Val category)
                             (Web3Career.min
                                (Web3Career.parseSalary
                                   (Web3Career.salary row)))
                             (Web3Career.max
                                (Web3Career.parseSalary
                                   (Web3Career.salary row)))
                             Undefined Undefined posted
                             (Val (Web3Career.row_object row))])
                      (Web3Career.seenIds acc ++ [Web3Career.id row])
                      (Web3Career.skippedTitle acc)
                      (Web3Career.skippedLocation acc)).
  { destruct (Web3Career.postedAt row) as [| c text].
    - injection H as <- _. eexists. reflexivity.
    - unfold bind, lift, ret in H.
      destruct (date (c :: text)) as [iso | e]; [| discriminate].
      injection H as <- _. eexists. reflexivity. }
  destruct Hposted as [posted ->]. unfold kept_so_far.
  cbn [Web3Career.allJobs Web3Career.seenIds].
  split; [| split].
  - rewrite map_app. cbn [map RawJob.sourceId]. apply NoDup_snoc; [exact Hnd |].
    intros X. apply in_map_iff in X as [raw [E X]].
    apply Hnew. rewrite <- E. exact (Hseen raw X).
  - intros raw X. apply in_app_or in X as [X | [<- | []]].
    + exact (Hseen' raw X).
    + cbn [RawJob.sourceId]. apply in_or_app. right. left. reflexivity.
  - apply Forall_app. split; [exact Hall |].
    constructor; [| constructor].
    unfold kept_listing.
    cbn [RawJob.sourceId RawJob.title RawJob.location RawJob.locationType
         RawJob.category].
    split; [exact Hid |]. split; [exact Et |].
    split; [| exists category; split; [reflexivity | exact Hcat]].
    destruct (Web3Career.location row) as [| c text]; [reflexivity |].
    exact El.
Qed.

Lemma row_loop_kept (date : jsstring -> Outcome jsstring)
    (category : jsstring) (rows : list Web3Career.Row) :
  In category Web3Career.CATEGORY_PAGES ->
  Forall (fun row => is_digit_text (Web3Career.id row)) rows ->
  forall (acc acc' : Web3Career.Acc) (w w' : World),
    for_of rows (Web3Career.processRow date category) acc w = (Ok acc', w') ->
    kept_so_far acc -> kept_so_far acc'.
Proof.
  intros Hcat Hrows. induction Hrows as [| row rows Hrow _ IH];
    intros acc acc' w w'; cbn [for_of].
  - intros [= <- _]. auto.
  - unfold bind at 1.
    destruct (Web3Career.processRow date category row acc w)
      as [[acc1 | e] w1] eqn:E; [| discriminate].
    intros H Hacc. apply (IH _ _ _ _ H).
    exact (processRow_kept _ _ _ _ _ _ _ E Hrow Hcat Hacc).
Qed.

Lemma parsed_ids (html : jsstring) :
  Forall (fun row => is_digit_text (Web3Career.id row))
    (Web3Career.parseRows html).
Proof.
  apply Forall_forall. intros row H.
  unfold Web3Career.parseRows in H.
  apply keep_some_In in H. apply in_map_iff in H as [f [E _]].
  revert E. unfold Web3Career.parseRow.
  destruct (first_match Web3Career.H2 (captured f)) as [t |];
    [| destruct (first_match Web3Career.JOB_ID (captured f)); discriminate].
  destruct (first_match Web3Career.JOB_ID (captured f)) as [i |] eqn:Ei;
    [| discriminate].
  intros [= <-]. exact (first_match_JOB_ID _ _ Ei).
Qed.

Lemma web3_pages_kept
    (fetch_page : jsstring -> Z -> nat -> Outcome Web3Career.Page)
    (date : jsstring -> Outcome jsstring) (category : jsstring) :
  In category Web3Career.CATEGORY_PAGES ->
  forall (remaining : nat) (page : Z) (acc acc' : Web3Career.Acc)
         (w w' : World),
    Web3Career.pages fetch_page date remaining category page acc w
    = (Ok acc', w') ->
    kept_so_far acc -> kept_so_far acc'.
Proof.
  intros Hcat. induction remaining as [| remaining IH];
    intros page acc acc' w w'.
  - intros [= <- _]. auto.
  - rewrite web3_pages_step. cbv zeta.
    destruct (fetch_page category page (tick w)) as [response | e];
      [| discriminate].
    destruct (Web3Career.page_ok response); [| intros [= <- _]; auto].
    destruct (Web3Career.page_text response) as [html | e]; [| discriminate].
    pose proof (parsed_ids html) as Hids.
    destruct (Web3Career.parseRows html) as [| row rows];
      [intros [= <- _]; auto |].
    destruct (for_of (row :: rows) (Web3Career.processRow date category) acc _)
      as [[acc1 | e] w2] eqn:E; [| discriminate].
    intros H Hacc.
    pose proof (row_loop_kept date category _ Hcat Hids _ _ _ _ E Hacc) as H1.
    destruct (includes _ html).
    + exact (IH _ _ _ _ _ H H1).
    + injection H as <- _. exact H1.
Qed.

Lemma category_loop_kept
    (fetch_page : jsstring -> Z -> nat -> Outcome Web3Career.Page)
    (date : jsstring -> Outcome jsstring) (categories : list jsstring) :
  incl categories Web3Career.CATEGORY_PAGES ->
  forall (acc acc' : Web3Career.Acc) (w w' : World),
    for_of categories
      (fun category acc =>
         Web3Career.pages fetch_page date Web3Career.MAX_PAGES category 1 acc)
      acc w = (Ok acc', w') ->
    kept_so_far acc -> kept_so_far acc'.
Proof.
  induction categories as [| category categories IH]; intros Hin acc acc' w w';
    cbn [for_of].
  - intros [= <- _]. auto.
  - unfold bind at 1.
    destruct (Web3Career.pages fetch_page date Web3Career.MAX_PAGES category 1
                acc w) as [[acc1 | e] w1] eqn:E; [| discriminate].
    intros H Hacc.
    apply (IH (fun c X => Hin c (or_intror X)) _ _ _ _ H).
    exact (web3_pages_kept fetch_page date category (Hin _ (or_introl eq_refl))
             _ _ _ _ _ _ E Hacc).
Qed.

(** X24: the records that one run of the web3.career adapter returns
    have pairwise distinct source ids, although the category pages may
    list a job more than once; and each of them has a number as its
    source id, a title and a location that pass the shared filters, and
    one of the five category slugs as its category. *)
Theorem web3career_scrape_keeps_distinct_accepted :
  forall (fetch_page : jsstring -> Z -> nat -> Outcome Web3Career.Page)
         (date : jsstring -> Outcome jsstring)
         (w : World) (jobs : list RawJob.t),
    fst (Web3Career.scrape fetch_page date w) = Ok jobs ->
    NoDup (map RawJob.sourceId jobs) /\ Forall kept_listing jobs.
Proof.
  intros fetch_page date w jobs. unfold Web3Career.scrape, bind, ret.
  destruct (Web3Career.scrape_counted fetch_page date w) as [[acc | e] w1]
    eqn:E; [| discriminate].
  cbn [fst]. intros [= <-].
  assert (K : kept_so_far acc).
  { apply (category_loop_kept fetch_page date Web3Career.CATEGORY_PAGES
             (fun c X => X) _ _ _ _ E).
    split; [constructor | split; [intros raw [] | constructor]]. }
  destruct K as [Hnd [_ Hall]]. split; assumption.
Qed.

Lemma web3career_scrape_keeps_distinct_accepted_witness :
  exists jobs : list RawJob.t,
    fst (Web3Career.scrape Web3Sample.fetch_page
           Web3Sample.Date_text_toISOString Sample.new_world) = Ok jobs
    /\ map RawJob.sourceId jobs = [str "101"]
    /\ NoDup (map RawJob.sourceId jobs)
    /\ Forall kept_listing jobs.
Proof.
  destruct (fst (Web3Career.scrape Web3Sample.fetch_page
                   Web3Sample.Date_text_toISOString Sample.new_world))
    as [jobs | e] eqn:E.
  - exists jobs. split; [reflexivity |].
    split.
    + revert E. vm_compute. intros [= <-]. reflexivity.
    + exact (web3career_scrape_keeps_distinct_accepted _ _ _ _ E).
  - exfalso. revert E. vm_compute. discriminate.
Defined.

Lemma web3_pages_requests
    (fetch_page : jsstring -> Z -> nat -> Outcome Web3Career.Page)
    (date : jsstring -> Outcome jsstring) (category : jsstring) :
  forall (remaining : nat) (page : Z) (acc : Web3Career.Acc) (w : World),
    exists requests : nat,
      (requests <= remaining)%nat
      /\ (remaining <> 0%nat -> requests <> 0%nat)
      /\ snd (Web3Career.pages fetch_page date remaining category page acc w)
         = mkWorld (db w) (requests + tick w) (trace w).
Proof.
  induction remaining as [| remaining IH]; intros page acc w.
  - exists 0%nat. split; [lia |]. split; [tauto |]. destruct w; reflexivity.
  - assert (One : forall o : Outcome Web3Career.Acc,
               exists requests : nat,
                 (requests <= S remaining)%nat
                 /\ (S remaining <> 0%nat -> requests <> 0%nat)
                 /\ snd (o, mkWorld (db w) (S (tick w)) (trace w))
                    = mkWorld (db w) (requests + tick w) (trace w)).
    { intros o. exists 1%nat. split; [lia |]. split; [lia | reflexivity]. }
    rewrite web3_pages_step. cbv zeta.
    destruct (fetch_page category page (tick w)) as [response | e];
      [| apply One].
    destruct (Web3Career.page_ok response); [| apply One].
    destruct (Web3Career.page_text response) as [html | e]; [| apply One].
    destruct (Web3Career.parseRows html) as [| row rows]; [apply One |].
    pose proof (row_loop_world date category (row :: rows) acc
                  (mkWorld (db w) (S (tick w)) (trace w))) as E.
    destruct (for_of (row :: rows) (Web3Career.processRow date category) acc _)
      as [[acc1 | e] w2]; cbn [snd] in E; subst w2; [| apply One].
    destruct (includes _ html); [| apply One].
    destruct (IH (page + 1)%Z acc1 (mkWorld (db w) (S (tick w)) (trace w)))
      as [k [Hk [_ Hw]]].
    exists (S k). split; [lia |]. split; [lia |].
    rewrite Hw. cbn [db tick trace]. f_equal. lia.
Qed.

Lemma category_loop_requests
    (fetch_page : jsstring -> Z -> nat -> Outcome Web3Career.Page)
    (date : jsstring -> Outcome jsstring) (categories : list jsstring) :
  forall (acc : Web3Career.Acc) (w : World),
    exists requests : nat,
      (requests <= List.length categories * Web3Career.MAX_PAGES)%nat
      /\ (categories <> [] -> requests <> 0%nat)
      /\ snd (for_of categories
                (fun category acc =>
                   Web3Career.pages fetch_page date Web3Career.MAX_PAGES
                     category 1 acc) acc w)
         = mkWorld (db w) (requests + tick w) (trace w)
      /\ (forall acc',
             fst (for_of categories
                    (fun category acc =>
                       Web3Career.pages fetch_page date Web3Career.MAX_PAGES
                         category 1 acc) acc w) = Ok acc' ->
             (List.length categories <= requests)%nat).
Proof.
  induction categories as [| category categories IH]; intros acc w.
  - exists 0%nat. cbn [for_of List.length]. split; [lia |].
    split; [tauto |]. split; [destruct w; reflexivity | intros; lia].
  - cbn [for_of List.length]. unfold bind.
    destruct (web3_pages_requests fetch_page date category
                Web3Career.MAX_PAGES 1 acc w) as [k [Hk [Hpos Hw]]].
    assert (Hk0 : k <> 0%nat) by (apply Hpos; discriminate).
    destruct (Web3Career.pages fetch_page date Web3Career.MAX_PAGES category 1
                acc w) as [[acc1 | e] w1]; cbn [snd] in Hw; subst w1.
    + destruct (IH acc1 (mkWorld (db w) (k + tick w) (trace w)))
        as [n [Hn [_ [Hw Hret]]]].
      exists (n + k)%nat. split; [lia |]. split; [lia |].
      split.
      * rewrite Hw. cbn [db tick trace]. f_equal. lia.
      * intros acc' H. specialize (Hret acc' H). lia.
    + exists k. split; [lia |]. split; [intros _; exact Hk0 |].
      split; [reflexivity | discriminate].
Qed.

(** X25: one run of the web3.career adapter makes between 1 and 50 page
    requests, 50 being MAX_PAGES (10) for each of the five categories,
    and nothing else: it neither reads nor writes the store.  A run that
    returns has made at least five requests, one or more for every
    category: a page that answers with an error status ends its
    category only. *)
Theorem web3career_scrape_page_requests :
  forall (fetch_page : jsstring -> Z -> nat -> Outcome Web3Career.Page)
         (date : jsstring -> Outcome jsstring) (w : World),
    exists requests : nat,
      (1 <= requests
       <= List.length Web3Career.CATEGORY_PAGES * Web3Career.MAX_PAGES)%nat
      /\ snd (Web3Career.scrape fetch_page date w)
         = mkWorld (db w) (requests + tick w) (trace w)
      /\ (forall jobs,
             fst (Web3Career.scrape fetch_page date w) = Ok jobs ->
             (List.length Web3Career.CATEGORY_PAGES <= requests)%nat).
Proof.
  intros fetch_page date w.
  destruct (category_loop_requests fetch_page date Web3Career.CATEGORY_PAGES
              (Web3Career.mkAcc [] [] 0 0) w) as [k [Hk [Hpos [Hw Hret]]]].
  exists k.
  assert (k <> 0%nat) by (apply Hpos; discriminate).
  split; [lia |].
  unfold Web3Career.scrape, Web3Career.scrape_counted, bind, ret.
  destruct (for_of Web3Career.CATEGORY_PAGES _ _ w) as [[acc | e] w1].
  - split; [exact Hw |]. intros jobs _. exact (Hret acc eq_refl).
  - split; [exact Hw | discriminate].
Qed.
